(** * env-builder: change tracking, reversible audit, text codec and snapshot import

    A shallow embedding of the TypeScript sources

      - [src/services/PropertiesFileService.ts]  (the properties-file parser,
                                                  components and file names),
      - [src/services/FolderInitializationService.ts]
                                                 (scan, validation and load of
                                                  a folder),
      - [src/services/DeploymentService.ts]      (the properties-file writer,
                                                  grouping),
      - [src/services/AuditService.ts]           (audit entries),
      - [src/services/PropertiesParser.ts] and [PropertyScanner]
                                                 (the one-environment format,
                                                  the directory scan),
      - [src/components/AuditPage.tsx]           (the restore resolver),
      - [src/App.tsx]                            (the handlers: save, delete,
                                                  batch save, upload, adding
                                                  an environment, restore),
      - [src/services/DuckDBService.ts]          (the store and snapshot import),

    followed by the properties proved about them.

    Conventions of the embedding.

    - A JavaScript string is the list of its UTF-16 code units, each an [N].
      [js "text"] turns an ASCII literal into such a list.
    - An optional field ([description?: string]) is an [option]; the values
      [undefined] and [null] are both [None].
    - A [Date] is carried as its ISO-8601 text, the form in which
      [JSON.stringify] and the store write it; the clock ([new Date()]) is an
      explicit argument [now].
    - An [async] method is the function from the state before to the state
      after; a thrown exception is an explicit error result. *)

From Stdlib Require Import String Ascii.
From Stdlib Require Import List Bool Arith Lia ZArith NArith Permutation Sorted.
From Stdlib Require DecimalN DecimalFacts.
Import ListNotations.


(** ** JavaScript strings *)

Definition jsstring := list N.

Definition js (s : string) : jsstring :=
  map N_of_ascii (list_ascii_of_string s).

Module JS.

Fixpoint eqb (a b : jsstring) : bool :=
  match a, b with
  | [], [] => true
  | x :: a', y :: b' => N.eqb x y && eqb a' b'
  | _, _ => false
  end.

Definition isEmpty (s : jsstring) : bool :=
  match s with [] => true | _ :: _ => false end.

(** [WhiteSpace] and [LineTerminator] code units of ECMAScript, the ones
    [String.prototype.trim] strips. *)
Definition isWhiteSpace (c : N) : bool :=
  ((9 <=? c) && (c <=? 13) || (c =? 32) || (c =? 160) || (c =? 5760)
   || (8192 <=? c) && (c <=? 8202) || (c =? 8232) || (c =? 8233)
   || (c =? 8239) || (c =? 8287) || (c =? 12288) || (c =? 65279))%N.

Fixpoint trimStart (s : jsstring) : jsstring :=
  match s with
  | [] => []
  | c :: r => if isWhiteSpace c then trimStart r else s
  end.

Definition trimEnd (s : jsstring) : jsstring := rev (trimStart (rev s)).

Definition trim (s : jsstring) : jsstring := trimEnd (trimStart s).

(** [s.startsWith(c)] for a one-character [c]. *)
Definition startsWith (c : N) (s : jsstring) : bool :=
  match s with
  | x :: _ => N.eqb x c
  | [] => false
  end.

(** [s.substring(a)] and [s.substring(0, b)] (indices within the string). *)
Definition substringFrom (a : nat) (s : jsstring) : jsstring := skipn a s.
Definition substringTo (b : nat) (s : jsstring) : jsstring := firstn b s.

(** [s.search(re)] for a character-class pattern: the index of the first code
    unit in the class, [None] for JavaScript's [-1]. *)
Fixpoint search (cls : N -> bool) (s : jsstring) : option nat :=
  match s with
  | [] => None
  | c :: r => if cls c then Some 0 else option_map S (search cls r)
  end.

(** [s.split(sep)] for a one-character separator; never the empty list. *)
Fixpoint split (sep : N) (s : jsstring) : list jsstring :=
  match s with
  | [] => [[]]
  | c :: r =>
      if N.eqb c sep then [] :: split sep r
      else match split sep r with
           | [] => [[c]]
           | l :: ls => (c :: l) :: ls
           end
  end.

(** [parts.join(sep)]. *)
Fixpoint join (sep : jsstring) (parts : list jsstring) : jsstring :=
  match parts with
  | [] => []
  | [p] => p
  | p :: ps => p ++ sep ++ join sep ps
  end.

(** [a || b] on strings: the empty string is falsy. *)
Definition orElse (a b : jsstring) : jsstring :=
  if isEmpty a then b else a.

(** [a || b] where [a] may be [undefined]. *)
Definition orDefault (a : option jsstring) (b : jsstring) : jsstring :=
  match a with
  | Some s => orElse s b
  | None => b
  end.

(** Truthiness of an optional string. *)
Definition truthy (a : option jsstring) : bool :=
  match a with
  | Some s => negb (isEmpty s)
  | None => false
  end.

Definition LF : N := 10.
Definition HASH : N := 35.
Definition BANG : N := 33.
Definition EQUALS : N := 61.
Definition COLON : N := 58.

(** Decimal text of an integer, as a template literal or [JSON.stringify]
    prints it. *)
Fixpoint unitsOfUint (u : Decimal.uint) : jsstring :=
  match u with
  | Decimal.Nil => []
  | Decimal.D0 u' => 48%N :: unitsOfUint u'
  | Decimal.D1 u' => 49%N :: unitsOfUint u'
  | Decimal.D2 u' => 50%N :: unitsOfUint u'
  | Decimal.D3 u' => 51%N :: unitsOfUint u'
  | Decimal.D4 u' => 52%N :: unitsOfUint u'
  | Decimal.D5 u' => 53%N :: unitsOfUint u'
  | Decimal.D6 u' => 54%N :: unitsOfUint u'
  | Decimal.D7 u' => 55%N :: unitsOfUint u'
  | Decimal.D8 u' => 56%N :: unitsOfUint u'
  | Decimal.D9 u' => 57%N :: unitsOfUint u'
  end.

Definition decimalN (n : N) : jsstring := unitsOfUint (N.to_uint n).

Definition decimalZ (z : Z) : jsstring :=
  match z with
  | Zneg p => 45%N :: decimalN (Npos p)
  | _ => decimalN (Z.to_N z)
  end.

Definition decimalNat (n : nat) : jsstring := decimalN (N.of_nat n).

End JS.

(** ** The data model ([src/models/Property.ts], declared, not in the sources) *)

Definition Date := jsstring.

Record Property := mkProperty {
  id : jsstring;
  environment : jsstring;
  key : jsstring;
  value : jsstring;
  description : option jsstring;
  component : jsstring;
  lastModified : Date;
  environmentOrder : option Z;
  fileOrder : option Z;
  lineOrder : option Z
}.

(** ** PropertiesFileService: the parser *)

Module PropertiesFileService.

Record ParsedProperty := mkParsed {
  p_key : jsstring;
  p_value : jsstring;
  p_description : jsstring;
  p_lineNumber : nat
}.

(** The pattern [/[=:]/]. *)
Definition isSeparator (c : N) : bool :=
  N.eqb c JS.EQUALS || N.eqb c JS.COLON.

Definition isComment (line : jsstring) : bool :=
  JS.startsWith JS.HASH line || JS.startsWith JS.BANG line.

(** [lines[i]]; every index the parser uses is within the array. *)
Definition lineAt (lines : list jsstring) (i : nat) : jsstring :=
  nth i lines [].

(** The loop
    [while (commentLineIndex >= 0 && lines[commentLineIndex].trim() === '')
       commentLineIndex--;]
    started at [n - 1]; [None] is the final index [-1]. *)
Fixpoint skipEmptyLines (lines : list jsstring) (n : nat) : option nat :=
  match n with
  | O => None
  | S c =>
      if JS.isEmpty (JS.trim (lineAt lines c))
      then skipEmptyLines lines c
      else Some c
  end.

(** The test inside the [for (let j = commentLineIndex + 1; j < i; j++)] loop. *)
Definition isPropertyLine (raw : jsstring) : bool :=
  let betweenLine := JS.trim raw in
  negb (JS.isEmpty betweenLine)
  && negb (JS.startsWith JS.HASH betweenLine)
  && negb (JS.startsWith JS.BANG betweenLine)
  && match JS.search isSeparator betweenLine with
     | Some _ => true
     | None => false
     end.

Definition hasPropertyBetween (lines : list jsstring) (c i : nat) : bool :=
  existsb (fun j => isPropertyLine (lineAt lines j)) (seq (S c) (i - S c)).

(** The description looked up for the property on line [i]. *)
Definition descriptionFor (lines : list jsstring) (i : nat) : jsstring :=
  match skipEmptyLines lines i with
  | None => []
  | Some commentLineIndex =>
      let commentLine := JS.trim (lineAt lines commentLineIndex) in
      if isComment commentLine then
        if hasPropertyBetween lines commentLineIndex i then []
        else JS.trim (JS.substringFrom 1 commentLine)
      else []
  end.

(** One turn of the [for (let i = 0; i < lines.length; i++)] loop: the entry
    pushed for line [i], if any. *)
Definition parseLine (lines : list jsstring) (i : nat) : option ParsedProperty :=
  let line := JS.trim (lineAt lines i) in
  if JS.isEmpty line then None
  else if isComment line then None
  else
    match JS.search isSeparator line with
    | None => None
    | Some separatorIndex =>
        let key := JS.trim (JS.substringTo separatorIndex line) in
        let value := JS.trim (JS.substringFrom (S separatorIndex) line) in
        if JS.isEmpty key then None
        else Some (mkParsed key value (descriptionFor lines i) (i + 1))
    end.

Fixpoint collect (lines : list jsstring) (indices : list nat) : list ParsedProperty :=
  match indices with
  | [] => []
  | i :: rest =>
      match parseLine lines i with
      | Some p => p :: collect lines rest
      | None => collect lines rest
      end
  end.

Definition parseLines (lines : list jsstring) : list ParsedProperty :=
  collect lines (seq 0 (length lines)).

Definition parsePropertiesFileWithDescriptions (content : jsstring)
  : list ParsedProperty :=
  parseLines (JS.split JS.LF content).

(** [parsePropertiesFile]: the same line scan without descriptions, writing
    into a [Record<string, string>]; the record is the association list of
    its assignments in order, a later assignment to a key shadowing an
    earlier one on lookup. *)
Definition parseKeyValue (raw : jsstring) : option (jsstring * jsstring) :=
  let trimmedLine := JS.trim raw in
  if JS.isEmpty trimmedLine then None
  else if isComment trimmedLine then None
  else
    match JS.search isSeparator trimmedLine with
    | None => None
    | Some separatorIndex =>
        let key := JS.trim (JS.substringTo separatorIndex trimmedLine) in
        let value := JS.trim (JS.substringFrom (S separatorIndex) trimmedLine) in
        if JS.isEmpty key then None else Some (key, value)
    end.

Fixpoint assignments (lines : list jsstring) : list (jsstring * jsstring) :=
  match lines with
  | [] => []
  | l :: rest =>
      match parseKeyValue l with
      | Some kv => kv :: assignments rest
      | None => assignments rest
      end
  end.

Definition parsePropertiesFile (content : jsstring) : list (jsstring * jsstring) :=
  assignments (JS.split JS.LF content).

(** The same scan read left to right: [prev] is the last line seen so far
    whose trimmed text is not empty, [n] the number of the next line. It is
    shown below to compute what the index-based parser computes. *)
Definition descriptionFrom (prev : option jsstring) : jsstring :=
  match prev with
  | None => []
  | Some raw =>
      let commentLine := JS.trim raw in
      if isComment commentLine then JS.trim (JS.substringFrom 1 commentLine)
      else []
  end.

Fixpoint scan (prev : option jsstring) (n : nat) (lines : list jsstring)
  : list ParsedProperty :=
  match lines with
  | [] => []
  | raw :: rest =>
      let prev' := if JS.isEmpty (JS.trim raw) then prev else Some raw in
      match parseKeyValue raw with
      | Some (k, v) => mkParsed k v (descriptionFrom prev) n :: scan prev' (S n) rest
      | None => scan prev' (S n) rest
      end
  end.

End PropertiesFileService.

(** ** Vocabulary of the parser's specification

    The words of the specification about comment attachment, as predicates
    on the array of lines; they do not mention the parser's loops. *)

Module ParserSpec.

Import PropertiesFileService.

Definition blank (raw : jsstring) : Prop := JS.trim raw = [].

(** A comment line starts, once trimmed, with [#] or [!]. *)
Definition commentLine (raw : jsstring) : Prop :=
  exists c rest, JS.trim raw = c :: rest /\ (c = JS.HASH \/ c = JS.BANG).

(** A property line is a non-comment line containing [=] or [:]. *)
Definition propertyLine (raw : jsstring) : Prop :=
  ~ commentLine raw /\ exists c, In c raw /\ (c = JS.EQUALS \/ c = JS.COLON).

(** Line [c] is the nearest non-blank line before line [i]. *)
Definition nearestNonBlank (lines : list jsstring) (c i : nat) : Prop :=
  c < i /\ ~ blank (lineAt lines c)
  /\ forall j, c < j < i -> blank (lineAt lines j).

(** Line [c] is the comment the specification attaches to the property on
    line [i]. *)
Definition attachedComment (lines : list jsstring) (c i : nat) : Prop :=
  nearestNonBlank lines c i
  /\ commentLine (lineAt lines c)
  /\ forall j, c < j < i -> ~ propertyLine (lineAt lines j).

(** The text of a comment line: what follows the marker, trimmed. *)
Definition commentText (raw : jsstring) : jsstring :=
  JS.trim (tl (JS.trim raw)).

(** The last line of [lines] that is not blank, if any. *)
Fixpoint lastNonBlankFrom (prev : option jsstring) (lines : list jsstring)
  : option jsstring :=
  match lines with
  | [] => prev
  | raw :: rest =>
      lastNonBlankFrom (if JS.isEmpty (JS.trim raw) then prev else Some raw) rest
  end.

End ParserSpec.

(** ** DeploymentService: the properties-file writer *)

Module DeploymentService.

(** [x || 0] on an optional number. *)
Definition orZero (x : option Z) : Z :=
  match x with Some z => z | None => 0%Z end.

(** [a !== b] on optional numbers. *)
Definition differ (a b : option Z) : bool :=
  match a, b with
  | Some x, Some y => negb (Z.eqb x y)
  | None, None => false
  | _, _ => true
  end.

Section Collation.

(** [a.localeCompare(b)] depends on the host's locale; it is an argument. *)
Variable localeCompare : jsstring -> jsstring -> Z.

(** The comparator handed to [properties.sort] in
    [generatePropertiesFileContent]. *)
Definition compareProperties (a b : Property) : Z :=
  match lineOrder a, lineOrder b with
  | Some la, Some lb =>
      if differ (fileOrder a) (fileOrder b)
      then (orZero (fileOrder a) - orZero (fileOrder b))%Z
      else (la - lb)%Z
  | Some _, None => (-1)%Z
  | None, Some _ => 1%Z
  | None, None => localeCompare (key a) (key b)
  end.

(** [Array.prototype.sort] is stable; it is modelled by stable insertion.
    (With a comparator that is not a consistent order the language leaves
    the resulting order to the implementation; the properties below only use
    that the result is a rearrangement of the input.) *)
Fixpoint insertSorted (x : Property) (l : list Property) : list Property :=
  match l with
  | [] => [x]
  | y :: r =>
      if (compareProperties x y <=? 0)%Z then x :: y :: r
      else y :: insertSorted x r
  end.

Definition sortProperties (l : list Property) : list Property :=
  fold_right insertSorted [] l.

(** The body of the [for (const property of sortedProperties)] loop, with
    the loop variable [lastFileOrder] threaded through. *)
Fixpoint emitProperties (lastFileOrder : Z) (props : list Property)
  : list jsstring :=
  match props with
  | [] => []
  | property :: rest =>
      (* if (property.fileOrder !== undefined
             && property.fileOrder !== lastFileOrder) *)
      let switches :=
        match fileOrder property with
        | Some f => negb (Z.eqb f lastFileOrder)
        | None => false
        end in
      (* if (lastFileOrder !== -1) lines.push('') *)
      let spacing :=
        if switches && negb (Z.eqb lastFileOrder (-1)) then [[]] else [] in
      (* lastFileOrder = property.fileOrder *)
      let lastFileOrder' :=
        if switches then orZero (fileOrder property) else lastFileOrder in
      (* if (property.description) lines.push(`# ${property.description}`) *)
      let comment :=
        if JS.truthy (description property)
        then [js "# " ++ JS.orDefault (description property) []]
        else [] in
      spacing ++ comment
      ++ [key property ++ js "=" ++ value property; []]
      ++ emitProperties lastFileOrder' rest
  end.

Definition headerLines (now : Date) : list jsstring :=
  [js "# Generated on " ++ now; js "# Environment Properties"; []].

Definition generatedLines (now : Date) (properties : list Property)
  : list jsstring :=
  headerLines now ++ emitProperties (-1) (sortProperties properties).

Definition generatePropertiesFileContent (now : Date) (properties : list Property)
  : jsstring :=
  JS.join [JS.LF] (generatedLines now properties).

End Collation.

End DeploymentService.

(** ** FolderInitializationService: from parsed entries to properties *)

Module FolderInitializationService.

Import PropertiesFileService.

(** The loop of [convertToProperties] over the entries parsed from one
    file, from index [i] on. [component] is what
    [getComponentFromFilename(file.name)] returned for the file, [path] the
    file's [path]. *)
Fixpoint convertFrom (i : nat) (now : Date) (environment : jsstring)
  (environmentOrder : Z) (component path : jsstring) (fileOrder : Z)
  (parsedProps : list ParsedProperty) : list Property :=
  match parsedProps with
  | [] => []
  | parsed :: rest =>
      mkProperty (environment ++ js "_" ++ p_key parsed) environment
        (p_key parsed) (p_value parsed)
        (Some (JS.orElse (p_description parsed) (js "Loaded from " ++ path)))
        component now (Some environmentOrder) (Some fileOrder)
        (Some (Z.of_nat i))
      :: convertFrom (S i) now environment environmentOrder component path
           fileOrder rest
  end.

Definition convertFile := convertFrom 0.

End FolderInitializationService.

(** ** Vocabulary of the round trip through the text format *)

Module CodecSpec.

Import PropertiesFileService.

Definition Triple := (jsstring * jsstring * jsstring)%type.

(** The triple of a property; an absent description counts as empty. *)
Definition tripleOfProperty (p : Property) : Triple :=
  (key p, value p, JS.orDefault (description p) []).

Definition tripleOfParsed (e : ParsedProperty) : Triple :=
  (p_key e, p_value e, p_description e).

Definition noLineFeed (s : jsstring) : bool :=
  forallb (fun c => negb (N.eqb c JS.LF)) s.

Definition trimmed (s : jsstring) : bool := JS.eqb (JS.trim s) s.

(** A key the text format can carry: trimmed, not empty, on one line,
    without separator, and not starting like a comment. *)
Definition writableKey (k : jsstring) : bool :=
  trimmed k && negb (JS.isEmpty k) && noLineFeed k
  && forallb (fun c => negb (isSeparator c)) k
  && negb (isComment k).

(** A value or description the text format can carry: trimmed, on one line. *)
Definition writableText (s : jsstring) : bool := trimmed s && noLineFeed s.

Definition writable (p : Property) : bool :=
  writableKey (key p) && writableText (value p)
  && writableText (JS.orDefault (description p) []).

(** The same of an entry the parser returned. *)
Definition writableEntry (e : ParsedProperty) : Prop :=
  writableKey (p_key e) = true /\ writableText (p_value e) = true
  /\ writableText (p_description e) = true.

Definition described (p : Property) : bool := JS.truthy (description p).

(** What comes back from the text: every triple as written, except that a
    first property without description picks up [inherited]. *)
Definition readBack (inherited : jsstring) (props : list Property) : list Triple :=
  match props with
  | [] => []
  | p :: rest =>
      (key p, value p,
       if described p then JS.orDefault (description p) [] else inherited)
      :: map tripleOfProperty rest
  end.

(** The triple of a parsed entry once [convertToProperties] has given it
    the default description for the file at [path]. *)
Definition tripleLoadedFrom (path : jsstring) (e : ParsedProperty) : Triple :=
  (p_key e, p_value e, JS.orElse (p_description e) (js "Loaded from " ++ path)).

End CodecSpec.


(** ** The audit entry ([src/models/AuditLog.ts], declared, not in the sources) *)

Module AuditLog.

Inductive Action := CREATE | UPDATE | DELETE | RESTORE | BATCH.

Record t := mk {
  id : jsstring;
  timestamp : Date;
  action : Action;
  tableName : jsstring;
  recordId : jsstring;
  propertyKey : jsstring;
  environment : jsstring;
  component : jsstring;
  oldValue : option jsstring;
  newValue : option jsstring;
  oldDescription : option jsstring;
  newDescription : option jsstring;
  changeDetails : jsstring;
  userId : option jsstring;
  sessionId : jsstring
}.

Definition actionText (a : Action) : jsstring :=
  match a with
  | CREATE => js "CREATE"
  | UPDATE => js "UPDATE"
  | DELETE => js "DELETE"
  | RESTORE => js "RESTORE"
  | BATCH => js "BATCH"
  end.

Definition isAction (a b : Action) : bool :=
  match a, b with
  | CREATE, CREATE | UPDATE, UPDATE | DELETE, DELETE
  | RESTORE, RESTORE | BATCH, BATCH => true
  | _, _ => false
  end.

End AuditLog.

(** What the code reads from its surroundings when it builds an entry: the
    clock ([new Date()], [Date.now()]), the identifier [generateId()]
    returns, and the session identifier. *)
Record Ambient := mkAmbient {
  newDate : Date;
  dateNow : Z;
  generatedId : jsstring;
  currentSession : jsstring
}.

(** ** JSON: [JSON.stringify] and [JSON.parse]

    These are the language's built-ins, modelled after ECMA-262 (24.5) on
    the values this program hands them. A number is kept exactly, as
    [mantissa * 10 ^ exponent]; an integer [z] is [JNumber z 0]. *)

Module JSON.

Unset Elimination Schemes.

Inductive json :=
| JNull
| JBool (b : bool)
| JNumber (mantissa exponent : Z)
| JString (s : jsstring)
| JArray (items : list json)
| JObject (members : list (jsstring * json)).

Set Elimination Schemes.

(** *** Writing *)

Definition hexDigit (d : N) : N :=
  if (d <? 10)%N then (48 + d)%N else (87 + d)%N.

(** The escape [\uXXXX] of a code unit. *)
Definition unicodeEscape (c : N) : jsstring :=
  [92; 117; hexDigit ((c / 4096) mod 16); hexDigit ((c / 256) mod 16);
   hexDigit ((c / 16) mod 16); hexDigit (c mod 16)]%N.

Definition isLeadSurrogate (c : N) : bool := ((55296 <=? c) && (c <=? 56319))%N.
Definition isTrailSurrogate (c : N) : bool := ((56320 <=? c) && (c <=? 57343))%N.

(** A code unit that is not a surrogate, as [QuoteJSONString] writes it. *)
Definition escapeUnit (c : N) : jsstring :=
  if (c =? 34)%N then [92; 34]%N
  else if (c =? 92)%N then [92; 92]%N
  else if (c =? 8)%N then [92; 98]%N
  else if (c =? 12)%N then [92; 102]%N
  else if (c =? 10)%N then [92; 110]%N
  else if (c =? 13)%N then [92; 114]%N
  else if (c =? 9)%N then [92; 116]%N
  else if (c <? 32)%N then unicodeEscape c
  else [c].

(** The characters between the quotes: a surrogate pair is written as it
    is, a lone surrogate escaped. *)
Fixpoint quoteUnits (s : jsstring) : jsstring :=
  match s with
  | [] => []
  | c :: r =>
      if isLeadSurrogate c then
        match r with
        | d :: r' =>
            if isTrailSurrogate d then c :: d :: quoteUnits r'
            else unicodeEscape c ++ quoteUnits r
        | [] => unicodeEscape c
        end
      else if isTrailSurrogate c then unicodeEscape c ++ quoteUnits r
      else escapeUnit c ++ quoteUnits r
  end.

Definition quote (s : jsstring) : jsstring := 34%N :: quoteUnits s ++ [34%N].

Definition numberText (mantissa exponent : Z) : jsstring :=
  JS.decimalZ mantissa
  ++ (if Z.eqb exponent 0 then [] else 101%N :: JS.decimalZ exponent).

Fixpoint stringifyValue (v : json) : jsstring :=
  match v with
  | JNull => js "null"
  | JBool true => js "true"
  | JBool false => js "false"
  | JNumber m e => numberText m e
  | JString s => quote s
  | JArray items =>
      match items with
      | [] => js "[]"
      | x :: rest =>
          91%N :: stringifyValue x
          ++ (fix more (l : list json) : jsstring :=
                match l with
                | [] => [93%N]
                | y :: l' => 44%N :: stringifyValue y ++ more l'
                end) rest
      end
  | JObject members =>
      match members with
      | [] => js "{}"
      | (k, x) :: rest =>
          123%N :: quote k ++ 58%N :: stringifyValue x
          ++ (fix more (l : list (jsstring * json)) : jsstring :=
                match l with
                | [] => [125%N]
                | (k', y) :: l' =>
                    44%N :: quote k' ++ 58%N :: stringifyValue y ++ more l'
                end) rest
      end
  end.

(** The two local loops of [stringifyValue] under names of their own, and
    the size of a value: the depth of calls [readValue] below needs for it. *)
Fixpoint moreItems (l : list json) : jsstring :=
  match l with
  | [] => [93%N]
  | y :: l' => 44%N :: stringifyValue y ++ moreItems l'
  end.

Fixpoint moreMembers (l : list (jsstring * json)) : jsstring :=
  match l with
  | [] => [125%N]
  | (k, y) :: l' => 44%N :: quote k ++ 58%N :: stringifyValue y ++ moreMembers l'
  end.

Fixpoint size (v : json) : nat :=
  match v with
  | JArray items =>
      S ((fix sum (l : list json) : nat :=
            match l with
            | [] => 0
            | x :: l' => S (size x + sum l')
            end) items)
  | JObject members =>
      S ((fix sum (l : list (jsstring * json)) : nat :=
            match l with
            | [] => 0
            | (_, x) :: l' => S (size x + sum l')
            end) members)
  | _ => 1
  end.

Fixpoint sizeItems (l : list json) : nat :=
  match l with
  | [] => 0
  | x :: l' => S (size x + sizeItems l')
  end.

Fixpoint sizeMembers (l : list (jsstring * json)) : nat :=
  match l with
  | [] => 0
  | (_, x) :: l' => S (size x + sizeMembers l')
  end.

(** [JSON.stringify(v)] for a value [v] without [undefined], functions or
    cycles. *)
Definition stringify (v : json) : jsstring := stringifyValue v.

(** *** Reading *)

Definition isJsonSpace (c : N) : bool :=
  ((c =? 32) || (c =? 9) || (c =? 10) || (c =? 13))%N.

Fixpoint skipSpace (s : jsstring) : jsstring :=
  match s with
  | c :: r => if isJsonSpace c then skipSpace r else s
  | [] => []
  end.

Fixpoint stripPrefix (p s : jsstring) : option jsstring :=
  match p, s with
  | [], _ => Some s
  | x :: p', y :: s' => if N.eqb x y then stripPrefix p' s' else None
  | _ :: _, [] => None
  end.

Definition hexValue (c : N) : option N :=
  if ((48 <=? c) && (c <=? 57))%N then Some (c - 48)%N
  else if ((97 <=? c) && (c <=? 102))%N then Some (c - 87)%N
  else if ((65 <=? c) && (c <=? 70))%N then Some (c - 55)%N
  else None.

Definition hex4Value (a b c d : N) : option N :=
  match hexValue a, hexValue b, hexValue c, hexValue d with
  | Some x, Some y, Some z, Some w => Some (((x * 16 + y) * 16 + z) * 16 + w)%N
  | _, _, _, _ => None
  end.

Definition consUnit (c : N) (r : option (jsstring * jsstring))
  : option (jsstring * jsstring) :=
  match r with
  | Some (str, rest) => Some (c :: str, rest)
  | None => None
  end.

(** The characters of a string literal after its opening quote, up to and
    including the closing quote. *)
Fixpoint readUnits (s : jsstring) : option (jsstring * jsstring) :=
  match s with
  | [] => None
  | c :: r =>
      if (c =? 34)%N then Some ([], r)
      else if (c =? 92)%N then
        match r with
        | e :: r' =>
            if (e =? 34)%N then consUnit 34%N (readUnits r')
            else if (e =? 92)%N then consUnit 92%N (readUnits r')
            else if (e =? 47)%N then consUnit 47%N (readUnits r')
            else if (e =? 98)%N then consUnit 8%N (readUnits r')
            else if (e =? 102)%N then consUnit 12%N (readUnits r')
            else if (e =? 110)%N then consUnit 10%N (readUnits r')
            else if (e =? 114)%N then consUnit 13%N (readUnits r')
            else if (e =? 116)%N then consUnit 9%N (readUnits r')
            else if (e =? 117)%N then
              match r' with
              | h1 :: h2 :: h3 :: h4 :: r'' =>
                  match hex4Value h1 h2 h3 h4 with
                  | Some u => consUnit u (readUnits r'')
                  | None => None
                  end
              | _ => None
              end
            else None
        | [] => None
        end
      else if (c <? 32)%N then None
      else consUnit c (readUnits r)
  end.

(** A maximal run of decimal digits. *)
Fixpoint readDigits (s : jsstring) : Decimal.uint * jsstring :=
  match s with
  | c :: r =>
      if ((48 <=? c) && (c <=? 57))%N then
        let (u, rest) := readDigits r in
        ((match (c - 48)%N with
          | 0 => Decimal.D0 | 1 => Decimal.D1 | 2 => Decimal.D2
          | 3 => Decimal.D3 | 4 => Decimal.D4 | 5 => Decimal.D5
          | 6 => Decimal.D6 | 7 => Decimal.D7 | 8 => Decimal.D8
          | _ => Decimal.D9
          end)%N u, rest)
      else (Decimal.Nil, s)
  | [] => (Decimal.Nil, [])
  end.

Fixpoint digitCount (u : Decimal.uint) : nat :=
  match u with
  | Decimal.Nil => 0
  | Decimal.D0 u' | Decimal.D1 u' | Decimal.D2 u' | Decimal.D3 u'
  | Decimal.D4 u' | Decimal.D5 u' | Decimal.D6 u' | Decimal.D7 u'
  | Decimal.D8 u' | Decimal.D9 u' => S (digitCount u')
  end.

(** The integer part of a number: [0], or digits not starting with [0]. *)
Definition readInteger (s : jsstring) : option (Decimal.uint * jsstring) :=
  match readDigits s with
  | (Decimal.Nil, _) => None
  | (Decimal.D0 Decimal.Nil, rest) => Some (Decimal.D0 Decimal.Nil, rest)
  | (Decimal.D0 _, _) => None
  | (u, rest) => Some (u, rest)
  end.

(** An optional fraction [.digits]. *)
Definition readFraction (s : jsstring) : option (Decimal.uint * jsstring) :=
  match s with
  | c :: r =>
      if (c =? 46)%N then
        match readDigits r with
        | (Decimal.Nil, _) => None
        | (u, rest) => Some (u, rest)
        end
      else Some (Decimal.Nil, s)
  | [] => Some (Decimal.Nil, [])
  end.

(** An optional sign; [+] is accepted only where [acceptPlus] says so (in
    an exponent). *)
Definition readSign (acceptPlus : bool) (s : jsstring) : bool * jsstring :=
  match s with
  | c :: t =>
      if (c =? 45)%N then (true, t)
      else if acceptPlus && (c =? 43)%N then (false, t)
      else (false, s)
  | [] => (false, [])
  end.

Definition signed (negative : bool) (n : Z) : Z :=
  if negative then Z.opp n else n.

(** An optional exponent [e], [e+] or [e-] followed by digits. *)
Definition readExponent (s : jsstring) : option (Z * jsstring) :=
  match s with
  | c :: r =>
      if ((c =? 101) || (c =? 69))%N then
        let (negative, r') := readSign true r in
        match readDigits r' with
        | (Decimal.Nil, _) => None
        | (u, rest) => Some (signed negative (Z.of_N (N.of_uint u)), rest)
        end
      else Some (0%Z, s)
  | [] => Some (0%Z, [])
  end.

Definition readNumber (s : jsstring) : option (json * jsstring) :=
  let (negative, s1) := readSign false s in
  match readInteger s1 with
  | None => None
  | Some (whole, s2) =>
      match readFraction s2 with
      | None => None
      | Some (fraction, s3) =>
          match readExponent s3 with
          | None => None
          | Some (e, s4) =>
              let n := Z.of_N (N.of_uint (Decimal.app whole fraction)) in
              Some (JNumber (signed negative n)
                            (e - Z.of_nat (digitCount fraction)), s4)
          end
      end
  end.

(** The recursive descent, bounded by [fuel]; [parse] below supplies
    enough of it for any text. *)
Fixpoint readValue (fuel : nat) (s : jsstring) : option (json * jsstring) :=
  match fuel with
  | O => None
  | S fuel' =>
      match skipSpace s with
      | [] => None
      | c :: r =>
          if (c =? 34)%N then
            match readUnits r with
            | Some (str, rest) => Some (JString str, rest)
            | None => None
            end
          else if (c =? 91)%N then
            match skipSpace r with
            | d :: r' =>
                if (d =? 93)%N then Some (JArray [], r')
                else match readElements fuel' r with
                     | Some (items, rest) => Some (JArray items, rest)
                     | None => None
                     end
            | [] => None
            end
          else if (c =? 123)%N then
            match skipSpace r with
            | d :: r' =>
                if (d =? 125)%N then Some (JObject [], r')
                else match readMembers fuel' r with
                     | Some (members, rest) => Some (JObject members, rest)
                     | None => None
                     end
            | [] => None
            end
          else
            match stripPrefix (js "null") (c :: r) with
            | Some rest => Some (JNull, rest)
            | None =>
                match stripPrefix (js "true") (c :: r) with
                | Some rest => Some (JBool true, rest)
                | None =>
                    match stripPrefix (js "false") (c :: r) with
                    | Some rest => Some (JBool false, rest)
                    | None => readNumber (c :: r)
                    end
                end
            end
      end
  end

with readElements (fuel : nat) (s : jsstring) : option (list json * jsstring) :=
  match fuel with
  | O => None
  | S fuel' =>
      match readValue fuel' s with
      | None => None
      | Some (x, s1) =>
          match skipSpace s1 with
          | c :: r =>
              if (c =? 93)%N then Some ([x], r)
              else if (c =? 44)%N then
                match readElements fuel' r with
                | Some (items, rest) => Some (x :: items, rest)
                | None => None
                end
              else None
          | [] => None
          end
      end
  end

with readMembers (fuel : nat) (s : jsstring)
  : option (list (jsstring * json) * jsstring) :=
  match fuel with
  | O => None
  | S fuel' =>
      match skipSpace s with
      | q :: s0 =>
          if (q =? 34)%N then
            match readUnits s0 with
            | None => None
            | Some (k, s1) =>
                match skipSpace s1 with
                | colon :: s2 =>
                    if (colon =? 58)%N then
                      match readValue fuel' s2 with
                      | None => None
                      | Some (x, s3) =>
                          match skipSpace s3 with
                          | c :: r =>
                              if (c =? 125)%N then Some ([(k, x)], r)
                              else if (c =? 44)%N then
                                match readMembers fuel' r with
                                | Some (members, rest) => Some ((k, x) :: members, rest)
                                | None => None
                                end
                              else None
                          | [] => None
                          end
                      end
                    else None
                | [] => None
                end
            end
          else None
      | [] => None
      end
  end.

(** [JSON.parse(text)]; [None] is the [SyntaxError] it throws. *)
Definition parse (text : jsstring) : option json :=
  match readValue (S (length text)) text with
  | Some (v, rest) =>
      match skipSpace rest with
      | [] => Some v
      | _ :: _ => None
      end
  | None => None
  end.

(** *** Reading a parsed value as JavaScript does *)

(** [v.name] on an object: the last member of that name. *)
Fixpoint member (name : jsstring) (members : list (jsstring * json)) : option json :=
  match members with
  | [] => None
  | (k, x) :: rest =>
      match member name rest with
      | Some y => Some y
      | None => if JS.eqb k name then Some x else None
      end
  end.

(** Truthiness. A number is falsy when it is zero as a double: when its
    mantissa is zero, or when the value is at most [2 ^ -1075] and rounds
    to zero. *)
Definition truthy (v : json) : bool :=
  match v with
  | JNull => false
  | JBool b => b
  | JNumber m e =>
      negb (Z.eqb m 0)
      && ((0 <=? e)%Z || (10 ^ (- e) <? Z.abs m * 2 ^ 1075)%Z)
  | JString s => negb (JS.isEmpty s)
  | JArray _ | JObject _ => true
  end.

(** *** Vocabulary of the round trip *)

Definition isDigit (c : N) : bool := ((48 <=? c) && (c <=? 57))%N.

(** The text after a run of digits does not go on with a digit. *)
Definition digitsEnd (s : jsstring) : Prop :=
  match s with
  | [] => True
  | c :: _ => isDigit c = false
  end.

(** What may follow a value inside a text that [stringify] wrote. *)
Definition terminated (rest : jsstring) : Prop :=
  match rest with
  | [] => True
  | c :: _ => c = 44%N \/ c = 93%N \/ c = 125%N
  end.

(** The first character of a written value: never white space, never a
    closing bracket. *)
Definition valueStart (c : N) : Prop :=
  isJsonSpace c = false /\ c <> 93%N /\ c <> 125%N.

(** What the main lemma says of one value. *)
Definition readsBack (v : json) : Prop :=
  forall fuel rest,
    size v <= fuel -> terminated rest ->
    readValue fuel (stringifyValue v ++ rest) = Some (v, rest).

(** What the fuel lemma says of a run of [readValue], of [readElements] and
    of [readMembers]: the text read is at least as long as the size of what
    was read, and any fuel that covers that size gives the same result. *)
Definition valueRun (fuel : nat) : Prop :=
  forall s v rest,
    readValue fuel s = Some (v, rest) ->
    length rest + size v <= length s
    /\ forall fuel', size v <= fuel' -> readValue fuel' s = Some (v, rest).

Definition elementsRun (fuel : nat) : Prop :=
  forall s items rest,
    readElements fuel s = Some (items, rest) ->
    length rest + sizeItems items <= length s
    /\ forall fuel', sizeItems items <= fuel' ->
                     readElements fuel' s = Some (items, rest).

Definition membersRun (fuel : nat) : Prop :=
  forall s members rest,
    readMembers fuel s = Some (members, rest) ->
    length rest + sizeMembers members <= length s
    /\ forall fuel', sizeMembers members <= fuel' ->
                     readMembers fuel' s = Some (members, rest).

End JSON.

(** ** AuditService: building audit entries *)

Module AuditService.

Import JSON.

(** [a !== b] on optional strings. *)
Definition differ (a b : option jsstring) : bool :=
  match a, b with
  | Some x, Some y => negb (JS.eqb x y)
  | None, None => false
  | _, _ => true
  end.

Definition quoted (s : jsstring) : jsstring := js "'" ++ s ++ js "'".

(** The arrow of the change texts, U+2192, between two spaces. *)
Definition arrow : jsstring := [32; 8594; 32]%N.

Definition generateChangeDetails (action : AuditLog.Action) (property : Property)
  (oldProperty : option Property) : jsstring :=
  let envKey := environment property ++ js "." ++ key property in
  match action with
  | AuditLog.CREATE =>
      js "Created property " ++ quoted envKey ++ js " in " ++ component property
      ++ js " with value: " ++ quoted (value property)
  | AuditLog.UPDATE =>
      match oldProperty with
      | None => js "Updated property " ++ quoted envKey
      | Some old =>
          let changes :=
            (if negb (JS.eqb (value old) (value property))
             then [js "value: " ++ quoted (value old) ++ arrow ++ quoted (value property)]
             else [])
            ++ (if differ (description old) (description property)
                then [js "description: "
                      ++ quoted (JS.orDefault (description old) (js "(empty)"))
                      ++ arrow
                      ++ quoted (JS.orDefault (description property) (js "(empty)"))]
                else [])
            ++ (if negb (JS.eqb (component old) (component property))
                then [js "component: " ++ quoted (component old) ++ arrow
                      ++ quoted (component property)]
                else []) in
          js "Updated property " ++ quoted envKey ++ js ": "
          ++ JS.join (js ", ") changes
      end
  | AuditLog.DELETE =>
      js "Deleted property " ++ quoted envKey ++ js " from " ++ component property
      ++ js " (was: " ++ quoted (value property) ++ js ")"
  | AuditLog.RESTORE =>
      js "Restored property " ++ quoted envKey ++ js " to previous state"
  | AuditLog.BATCH =>
      AuditLog.actionText action ++ js " operation on property " ++ quoted envKey
  end.

Definition createAuditLog (w : Ambient) (action : AuditLog.Action)
  (property : Property) (oldProperty : option Property)
  (changeDetails : option jsstring) : AuditLog.t :=
  let auditLog :=
    AuditLog.mk (generatedId w) (newDate w) action (js "properties")
      (id property) (key property) (environment property) (component property)
      None None None None
      (JS.orDefault changeDetails (generateChangeDetails action property oldProperty))
      None (currentSession w) in
  let withValues oldV newV oldD newD :=
    AuditLog.mk (AuditLog.id auditLog) (AuditLog.timestamp auditLog)
      (AuditLog.action auditLog) (AuditLog.tableName auditLog)
      (AuditLog.recordId auditLog) (AuditLog.propertyKey auditLog)
      (AuditLog.environment auditLog) (AuditLog.component auditLog)
      oldV newV oldD newD
      (AuditLog.changeDetails auditLog) (AuditLog.userId auditLog)
      (AuditLog.sessionId auditLog) in
  match action, oldProperty with
  | AuditLog.UPDATE, Some old =>
      withValues (Some (value old)) (Some (value property))
                 (description old) (description property)
  | AuditLog.CREATE, _ =>
      withValues None (Some (value property)) None (description property)
  | AuditLog.DELETE, _ =>
      withValues (Some (value property)) None (description property) None
  | _, _ => auditLog
  end.

(** [JSON.stringify] of a [Property]: its fields in the order of the
    object literal, a field holding [undefined] left out, the date as its
    text. *)
Definition optionalMember {A} (name : jsstring) (f : A -> json) (x : option A)
  : list (jsstring * json) :=
  match x with
  | Some a => [(name, f a)]
  | None => []
  end.

Definition integer (z : Z) : json := JNumber z 0.

Definition propertyJSON (p : Property) : json :=
  JObject
    ([(js "id", JString (id p));
      (js "environment", JString (environment p));
      (js "key", JString (key p));
      (js "value", JString (value p))]
     ++ optionalMember (js "description") JString (description p)
     ++ [(js "component", JString (component p));
         (js "lastModified", JString (lastModified p))]
     ++ optionalMember (js "environmentOrder") integer (environmentOrder p)
     ++ optionalMember (js "fileOrder") integer (fileOrder p)
     ++ optionalMember (js "lineOrder") integer (lineOrder p)).

(** [originalProperties?.find(p => p.id === change.id)]. *)
Definition findOriginal (originalProperties : option (list Property))
  (change : Property) : option Property :=
  match originalProperties with
  | Some originals => find (fun p => JS.eqb (id p) (id change)) originals
  | None => None
  end.

Definition changeJSON (originalProperties : option (list Property))
  (change : Property) : json :=
  JObject
    ((js "property", propertyJSON change)
     :: optionalMember (js "originalProperty") propertyJSON
          (findOriginal originalProperties change)).

Definition batchData (changes deletions : list Property)
  (originalProperties : option (list Property)) : json :=
  JObject
    [(js "changes", JArray (map (changeJSON originalProperties) changes));
     (js "deletions", JArray (map propertyJSON deletions))].

Definition createBatchOperationAuditLog (w : Ambient)
  (changes deletions : list Property) (customComment : option jsstring)
  (originalProperties : option (list Property)) : AuditLog.t :=
  let totalOperations := length changes + length deletions in
  let operationCounts :=
    (if 0 <? length changes
     then [JS.decimalNat (length changes) ++ js " properties updated/added"]
     else [])
    ++ (if 0 <? length deletions
        then [JS.decimalNat (length deletions) ++ js " properties deleted"]
        else []) in
  let defaultComment :=
    js "Batch operation: " ++ JS.join (js ", ") operationCounts in
  AuditLog.mk (generatedId w) (newDate w) AuditLog.BATCH (js "properties")
    (js "batch_" ++ JS.decimalZ (dateNow w))
    (js "batch_operation_" ++ JS.decimalNat totalOperations ++ js "_properties")
    (js "multiple") (js "multiple")
    (Some (JS.decimalNat totalOperations ++ js " operations"))
    (Some (stringify (batchData changes deletions originalProperties)))
    None None
    (JS.orDefault customComment defaultComment)
    None (currentSession w).

End AuditService.

(** ** DuckDBService: the persistent store

    The two tables of [createTables], with the constraints declared there
    ([PRIMARY KEY], [NOT NULL]), the staging table [imported_data], and the
    methods that write them. A method takes the service before the call and
    returns either its result or the exception it throws, in both cases with
    the service as the call left it: no method opens a transaction, so what
    was written before an exception stays written. *)

Module DuckDBService.

Record PropertyRow := mkPropertyRow {
  row_id : jsstring;
  row_environment : jsstring;
  row_key : jsstring;
  row_value : option jsstring;
  row_description : option jsstring;
  row_component : option jsstring;
  row_last_modified : option Date;
  row_environment_order : option Z;
  row_file_order : option Z;
  row_line_order : option Z
}.

Record AuditRow := mkAuditRow {
  log_id : jsstring;
  log_timestamp : Date;
  log_action : jsstring;
  log_table_name : jsstring;
  log_record_id : jsstring;
  log_property_key : jsstring;
  log_environment : jsstring;
  log_component : jsstring;
  log_old_value : option jsstring;
  log_new_value : option jsstring;
  log_old_description : option jsstring;
  log_new_description : option jsstring;
  log_change_details : jsstring;
  log_user_id : option jsstring;
  log_session_id : jsstring
}.

(** A value of a column of the imported file. *)
Inductive Cell :=
| CNull
| CText (s : jsstring)
| CInteger (z : Z)
| CTimestamp (d : Date).

(** The staging table: its column names and its rows, a row holding one
    cell per column. *)
Record Table := mkTable {
  columns : list jsstring;
  rows : list (list Cell)
}.

Record Database := mkDatabase {
  properties : list PropertyRow;
  audit_logs : list AuditRow;
  imported_data : option Table
}.

(** The service: [None] while [this.conn] is [null]. *)
Definition Service := option Database.

Inductive Exception :=
| NotInitialized      (* Error('Database not initialized') *)
| ReadFailure         (* the file is not a readable columnar file *)
| BinderError         (* a statement names a column the table lacks *)
| ConversionError     (* a value cannot be converted to the column's type *)
| ConstraintViolation (* PRIMARY KEY or NOT NULL *)
| ParserError         (* the text of a statement is not a statement *)
| SyntaxError         (* JSON.parse *)
| TypeError.          (* a property of null, a call of a non-function *)

Inductive Result (A : Type) :=
| Returned (a : A) (s : Service)
| Threw (e : Exception) (s : Service).

Arguments Returned {A} a s.
Arguments Threw {A} e s.

Definition bind {A B} (m : Service -> Result A) (k : A -> Service -> Result B)
  : Service -> Result B :=
  fun s =>
    match m s with
    | Returned a s' => k a s'
    | Threw e s' => Threw e s'
    end.

Notation "x <- m ;; k" := (bind m (fun x => k))
  (at level 61, m at next level, right associativity).
Notation "m ;;; k" := (bind m (fun _ => k))
  (at level 61, right associativity).

(** [if (!this.conn) throw new Error('Database not initialized')]: the
    database behind the connection. *)
Definition connected : Service -> Result Database :=
  fun s =>
    match s with
    | Some d => Returned d s
    | None => Threw NotInitialized s
    end.

Definition stateAfter {A} (r : Result A) : Service :=
  match r with
  | Returned _ s => s
  | Threw _ s => s
  end.

Definition threw {A} (r : Result A) : bool :=
  match r with
  | Returned _ _ => false
  | Threw _ _ => true
  end.

Definition propertiesOf (s : Service) : list PropertyRow :=
  match s with Some d => properties d | None => [] end.

Definition auditLogsOf (s : Service) : list AuditRow :=
  match s with Some d => audit_logs d | None => [] end.

(** One statement each. *)
Definition deleteFromProperties : Service -> Result unit :=
  d <- connected ;;
  fun _ => Returned tt (Some (mkDatabase [] (audit_logs d) (imported_data d))).

Definition deleteFromAuditLogs : Service -> Result unit :=
  d <- connected ;;
  fun _ => Returned tt (Some (mkDatabase (properties d) [] (imported_data d))).

Definition hasPropertyId (i : jsstring) (table : list PropertyRow) : bool :=
  existsb (fun r => JS.eqb (row_id r) i) table.

Definition hasAuditId (i : jsstring) (table : list AuditRow) : bool :=
  existsb (fun r => JS.eqb (log_id r) i) table.

(** [INSERT INTO properties VALUES (...)] of one row. *)
Definition insertPropertyRow (r : PropertyRow) : Service -> Result unit :=
  d <- connected ;;
  fun s =>
    if hasPropertyId (row_id r) (properties d) then Threw ConstraintViolation s
    else Returned tt
           (Some (mkDatabase (properties d ++ [r]) (audit_logs d) (imported_data d))).

(** [x || null] on an optional number: zero is falsy. *)
Definition orNull (x : option Z) : option Z :=
  match x with
  | Some z => if Z.eqb z 0 then None else Some z
  | None => None
  end.

(** The values bound to the prepared statement of [insertProperties]. *)
Definition rowOfProperty (prop : Property) : PropertyRow :=
  mkPropertyRow (id prop) (environment prop) (key prop)
    (Some (value prop))
    (if JS.truthy (description prop) then description prop else None)
    (Some (JS.orElse (component prop) (js "env")))
    (Some (lastModified prop))
    (orNull (environmentOrder prop))
    (orNull (fileOrder prop))
    (orNull (lineOrder prop)).

Fixpoint insertEach (props : list Property) : Service -> Result unit :=
  match props with
  | [] => fun s => Returned tt s
  | prop :: rest => insertPropertyRow (rowOfProperty prop) ;;; insertEach rest
  end.

Definition insertProperties (props : list Property) : Service -> Result unit :=
  connected ;;; deleteFromProperties ;;; insertEach props.

(** *** The statement of [insertAuditLog]

    The statement is a text into which the fields of the entry are
    written between apostrophes. In a string literal two apostrophes in a
    row stand for one; an apostrophe that stands alone ends the literal.
    [oldValue], [newValue], the two descriptions and [changeDetails] are
    written with [replace(/'/g, "''")]; [id], the timestamp, [tableName],
    [recordId], [propertyKey], [environment], [component], [userId] and
    [sessionId] are written as they are. *)

Definition APOSTROPHE : N := 39.

(** [s.replace(/'/g, "''")]. *)
Definition escapeQuotes (s : jsstring) : jsstring :=
  flat_map (fun c => if N.eqb c APOSTROPHE then [APOSTROPHE; APOSTROPHE] else [c]) s.

(** The text [s], written between apostrophes, is one literal to its end:
    every apostrophe in it has a partner next to it. *)
Fixpoint literalBody (s : jsstring) : bool :=
  match s with
  | [] => true
  | c :: r =>
      if N.eqb c APOSTROPHE then
        match r with
        | c' :: r' => N.eqb c' APOSTROPHE && literalBody r'
        | [] => false
        end
      else literalBody r
  end.

(** The text such a literal stands for. *)
Fixpoint unquote (s : jsstring) : jsstring :=
  match s with
  | [] => []
  | c :: r =>
      if N.eqb c APOSTROPHE then
        match r with
        | c' :: r' =>
            if N.eqb c' APOSTROPHE then APOSTROPHE :: unquote r'
            else c :: unquote r
        | [] => [c]
        end
      else c :: unquote r
  end.

(** [x ? `'${...}'` : 'NULL']: a falsy text is stored as NULL. *)
Definition textOrNull (x : option jsstring) : option jsstring :=
  if JS.truthy x then x else None.

Definition noQuote (s : jsstring) : bool :=
  forallb (fun c => negb (N.eqb c APOSTROPHE)) s.

(** The text is the statement it is meant to be: every field written as
    it is reads as one literal. (A field written with [escapeQuotes]
    always does.) Otherwise a literal ends inside a field, and what the
    engine makes of the text (an error, or another statement) is not
    followed. *)
Definition interpolates (a : AuditLog.t) : bool :=
  literalBody (AuditLog.id a) && literalBody (AuditLog.timestamp a)
  && literalBody (AuditLog.tableName a) && literalBody (AuditLog.recordId a)
  && literalBody (AuditLog.propertyKey a) && literalBody (AuditLog.environment a)
  && literalBody (AuditLog.component a)
  && literalBody (JS.orDefault (AuditLog.userId a) [])
  && literalBody (AuditLog.sessionId a).

(** The row of the statement: every field as its literal stands for it.
    For a field written with [escapeQuotes] that is the field itself. *)
Definition rowOfAuditLog (a : AuditLog.t) : AuditRow :=
  mkAuditRow (unquote (AuditLog.id a)) (unquote (AuditLog.timestamp a))
    (AuditLog.actionText (AuditLog.action a)) (unquote (AuditLog.tableName a))
    (unquote (AuditLog.recordId a)) (unquote (AuditLog.propertyKey a))
    (unquote (AuditLog.environment a)) (unquote (AuditLog.component a))
    (textOrNull (AuditLog.oldValue a)) (textOrNull (AuditLog.newValue a))
    (textOrNull (AuditLog.oldDescription a))
    (textOrNull (AuditLog.newDescription a))
    (AuditLog.changeDetails a)
    (option_map unquote (textOrNull (AuditLog.userId a)))
    (unquote (AuditLog.sessionId a)).

(** A method whose statement may be one the model does not follow:
    [None] then. *)
Definition Followed (A : Type) := option (Result A).

Definition andThenFollowed {A B} (m : Service -> Result A)
  (k : A -> Service -> Followed B) : Service -> Followed B :=
  fun s =>
    match m s with
    | Returned a s' => k a s'
    | Threw e s' => Some (Threw e s')
    end.

(** [INSERT INTO audit_logs VALUES (...)] of one row. *)
Definition insertAuditRow (r : AuditRow) : Service -> Result unit :=
  d <- connected ;;
  fun s =>
    if hasAuditId (log_id r) (audit_logs d) then Threw ConstraintViolation s
    else Returned tt
           (Some (mkDatabase (properties d) (audit_logs d ++ [r])
                             (imported_data d))).

Definition insertAuditLog (a : AuditLog.t) : Service -> Followed unit :=
  andThenFollowed connected
    (fun _ s =>
       if interpolates a then Some (insertAuditRow (rowOfAuditLog a) s)
       else None).

Fixpoint insertEachAuditLog (logs : list AuditLog.t) : Service -> Followed unit :=
  match logs with
  | [] => fun s => Some (Returned tt s)
  | a :: rest =>
      fun s =>
        match insertAuditLog a s with
        | Some (Returned _ s') => insertEachAuditLog rest s'
        | Some (Threw e s') => Some (Threw e s')
        | None => None
        end
  end.

Definition insertAuditLogs (logs : list AuditLog.t) : Service -> Followed unit :=
  andThenFollowed connected (fun _ => insertEachAuditLog logs).

(** An entry as [queryAuditLogs] reads it back from the row
    [insertAuditLog] wrote for it. *)
Definition asStored (a : AuditLog.t) : AuditLog.t :=
  AuditLog.mk (unquote (AuditLog.id a)) (unquote (AuditLog.timestamp a))
    (AuditLog.action a)
    (unquote (AuditLog.tableName a)) (unquote (AuditLog.recordId a))
    (unquote (AuditLog.propertyKey a))
    (unquote (AuditLog.environment a)) (unquote (AuditLog.component a))
    (textOrNull (AuditLog.oldValue a)) (textOrNull (AuditLog.newValue a))
    (textOrNull (AuditLog.oldDescription a))
    (textOrNull (AuditLog.newDescription a))
    (AuditLog.changeDetails a)
    (option_map unquote (textOrNull (AuditLog.userId a)))
    (unquote (AuditLog.sessionId a)).

(** *** Snapshot import *)

(** What the engine does on its own: reading a columnar file, the clock of
    [CURRENT_TIMESTAMP], and its two readings of a text as a timestamp,
    [strptime(text, '%Y-%m-%d %H:%M:%S')] and the cast to [TIMESTAMP]. *)
Record Engine := mkEngine {
  read_parquet : list N -> option Table;
  current_timestamp : Date;
  strptime : jsstring -> option Date;
  castTimestamp : jsstring -> option Date
}.

(** A converted value: [None] is a conversion error, [Some None] is NULL. *)
Definition Converted (A : Type) := option (option A).

Definition asVarchar (c : Cell) : Converted jsstring :=
  match c with
  | CNull => Some None
  | CText s => Some (Some s)
  | CInteger z => Some (Some (JS.decimalZ z))
  | CTimestamp d => Some (Some d)
  end.

(** The text of an integer: an optional [-] and decimal digits. *)
Definition integerOfText (s : jsstring) : option Z :=
  let (negative, digits) := JSON.readSign false s in
  match JSON.readDigits digits with
  | (Decimal.Nil, _) => None
  | (u, []) => Some (JSON.signed negative (Z.of_N (N.of_uint u)))
  | (_, _ :: _) => None
  end.

Definition asInteger (c : Cell) : Converted Z :=
  match c with
  | CNull => Some None
  | CInteger z => Some (Some z)
  | CText s => option_map Some (integerOfText s)
  | CTimestamp _ => None
  end.

Section SnapshotImport.

Variable engine : Engine.

Definition asTimestamp (c : Cell) : Converted Date :=
  match c with
  | CNull => Some None
  | CTimestamp d => Some (Some d)
  | CText s => option_map Some (castTimestamp engine s)
  | CInteger _ => None
  end.

(** [strptime(x, '%Y-%m-%d %H:%M:%S')], defined on text. *)
Definition asParsedTimestamp (c : Cell) : Converted Date :=
  match c with
  | CNull => Some None
  | CText s => option_map Some (strptime engine s)
  | CInteger _ | CTimestamp _ => None
  end.

(** The position of a column, and the cell of a row in that column. *)
Fixpoint columnIndex (name : jsstring) (cols : list jsstring) : option nat :=
  match cols with
  | [] => None
  | c :: rest =>
      if JS.eqb c name then Some 0 else option_map S (columnIndex name rest)
  end.

Definition hasColumn (name : jsstring) (t : Table) : bool :=
  match columnIndex name (columns t) with
  | Some _ => true
  | None => false
  end.

Definition cell (t : Table) (row : list Cell) (name : jsstring) : Cell :=
  match columnIndex name (columns t) with
  | Some i => nth i row CNull
  | None => CNull
  end.

(** What evaluating a row of a [SELECT] list gives: the row, or the error
    that fails the statement. *)
Definition Evaluated (A : Type) := (A + Exception)%type.

Definition convert {A} (c : Converted A) : Evaluated (option A) :=
  match c with
  | Some v => inl v
  | None => inr ConversionError
  end.

(** A value for a [NOT NULL] column. *)
Definition notNull {A} (c : Converted A) : Evaluated A :=
  match c with
  | Some (Some v) => inl v
  | Some None => inr ConstraintViolation
  | None => inr ConversionError
  end.

Definition andThen {A B} (x : Evaluated A) (k : A -> Evaluated B) : Evaluated B :=
  match x with
  | inl a => k a
  | inr e => inr e
  end.

Notation "x <~ m ;; k" := (andThen m (fun x => k))
  (at level 61, m at next level, right associativity).

(** [CASE WHEN x IS NOT NULL THEN f(x) ELSE CURRENT_TIMESTAMP END]. *)
Definition timestampOrNow (c : Converted Date) : Evaluated Date :=
  match c with
  | Some (Some d) => inl d
  | Some None => inl (current_timestamp engine)
  | None => inr ConversionError
  end.

(** The [SELECT] list of the two [INSERT INTO properties] statements;
    [lastModified] is the conversion each applies to [last_modified]. *)
Definition selectProperty (lastModified : Cell -> Converted Date)
  (t : Table) (row : list Cell) : Evaluated PropertyRow :=
  i <~ notNull (asVarchar (cell t row (js "id"))) ;;
  e <~ notNull (asVarchar (cell t row (js "environment"))) ;;
  k <~ notNull (asVarchar (cell t row (js "key"))) ;;
  v <~ convert (asVarchar (cell t row (js "value"))) ;;
  d <~ convert (asVarchar (cell t row (js "description"))) ;;
  c <~ convert (asVarchar (cell t row (js "component"))) ;;
  m <~ timestampOrNow (lastModified (cell t row (js "last_modified"))) ;;
  eo <~ convert (asInteger (cell t row (js "environment_order"))) ;;
  fo <~ convert (asInteger (cell t row (js "file_order"))) ;;
  lo <~ convert (asInteger (cell t row (js "line_order"))) ;;
  inl (mkPropertyRow i e k v d c (Some m) eo fo lo).

(** The [SELECT] list of [INSERT INTO audit_logs]. *)
Definition selectAuditLog (t : Table) (row : list Cell) : Evaluated AuditRow :=
  i <~ notNull (asVarchar (cell t row (js "id"))) ;;
  ts <~ timestampOrNow (asParsedTimestamp (cell t row (js "timestamp"))) ;;
  a <~ notNull (asVarchar (cell t row (js "action"))) ;;
  r <~ notNull (asVarchar (cell t row (js "record_id"))) ;;
  k <~ notNull (asVarchar (cell t row (js "property_key"))) ;;
  e <~ notNull (asVarchar (cell t row (js "environment"))) ;;
  c <~ notNull (asVarchar (cell t row (js "component"))) ;;
  ov <~ convert (asVarchar (cell t row (js "old_value"))) ;;
  nv <~ convert (asVarchar (cell t row (js "new_value"))) ;;
  od <~ convert (asVarchar (cell t row (js "old_description"))) ;;
  nd <~ convert (asVarchar (cell t row (js "new_description"))) ;;
  cd <~ notNull (asVarchar (cell t row (js "change_details"))) ;;
  u <~ convert (asVarchar (cell t row (js "user_id"))) ;;
  s <~ notNull (asVarchar (cell t row (js "session_id"))) ;;
  inl (mkAuditRow i ts a (js "properties") r k e c ov nv od nd cd u s).

Fixpoint evaluateAll {A B} (f : A -> Evaluated B) (l : list A) : Evaluated (list B) :=
  match l with
  | [] => inl []
  | x :: rest =>
      y <~ f x ;;
      ys <~ evaluateAll f rest ;;
      inl (y :: ys)
  end.

(** [WHERE table_type = 'name']. *)
Definition ofTableType (name : jsstring) (t : Table) (row : list Cell) : bool :=
  match asVarchar (cell t row (js "table_type")) with
  | Some (Some s) => JS.eqb s name
  | _ => false
  end.

Fixpoint distinct (ids : list jsstring) : bool :=
  match ids with
  | [] => true
  | i :: rest => negb (existsb (JS.eqb i) rest) && distinct rest
  end.

Definition propertyColumns : list jsstring :=
  [js "id"; js "environment"; js "key"; js "value"; js "description";
   js "component"; js "last_modified"; js "environment_order";
   js "file_order"; js "line_order"].

Definition auditColumns : list jsstring :=
  [js "id"; js "timestamp"; js "action"; js "record_id"; js "property_key";
   js "environment"; js "component"; js "old_value"; js "new_value";
   js "old_description"; js "new_description"; js "change_details";
   js "user_id"; js "session_id"].

(** The rows an [INSERT INTO properties ... SELECT ... FROM imported_data]
    would add: the statement is bound (every column it names exists), every
    selected row is evaluated, and the primary key is checked against the
    rows of the table and among the new rows. One failure fails the whole
    statement. *)
Definition selectedProperties (lastModified : Cell -> Converted Date)
  (filtered : bool) (existing : list PropertyRow) (t : Table)
  : Evaluated (list PropertyRow) :=
  if negb (forallb (fun c => hasColumn c t)
                   (propertyColumns ++ if filtered then [js "table_type"] else []))
  then inr BinderError
  else
    new <~ evaluateAll (selectProperty lastModified t)
             (if filtered then filter (ofTableType (js "properties") t) (rows t)
              else rows t) ;;
    if distinct (map row_id (existing ++ new)) then inl new
    else inr ConstraintViolation.

Definition selectedAuditLogs (existing : list AuditRow) (t : Table)
  : Evaluated (list AuditRow) :=
  if negb (forallb (fun c => hasColumn c t) (auditColumns ++ [js "table_type"]))
  then inr BinderError
  else
    new <~ evaluateAll (selectAuditLog t)
             (filter (ofTableType (js "audit_logs") t) (rows t)) ;;
    if distinct (map log_id (existing ++ new)) then inl new
    else inr ConstraintViolation.

Definition insertSelectedProperties (lastModified : Cell -> Converted Date)
  (filtered : bool) : Service -> Result unit :=
  d <- connected ;;
  fun s =>
    match imported_data d with
    | None => Threw BinderError s
    | Some t =>
        match selectedProperties lastModified filtered (properties d) t with
        | inl new =>
            Returned tt
              (Some (mkDatabase (properties d ++ new) (audit_logs d)
                                (imported_data d)))
        | inr e => Threw e s
        end
    end.

Definition insertSelectedAuditLogs : Service -> Result unit :=
  d <- connected ;;
  fun s =>
    match imported_data d with
    | None => Threw BinderError s
    | Some t =>
        match selectedAuditLogs (audit_logs d) t with
        | inl new =>
            Returned tt
              (Some (mkDatabase (properties d) (audit_logs d ++ new)
                                (imported_data d)))
        | inr e => Threw e s
        end
    end.

Definition importCombinedData : Service -> Result unit :=
  connected ;;;
  deleteFromProperties ;;;
  deleteFromAuditLogs ;;;
  insertSelectedProperties asParsedTimestamp true ;;;
  insertSelectedAuditLogs.

Definition importLegacyProperties : Service -> Result unit :=
  connected ;;;
  deleteFromProperties ;;;
  insertSelectedProperties asTimestamp false.

(** [DROP TABLE IF EXISTS imported_data] followed by
    [CREATE TABLE imported_data AS SELECT * FROM read_parquet(...)]. *)
Definition dropImportedData : Service -> Result unit :=
  d <- connected ;;
  fun _ => Returned tt (Some (mkDatabase (properties d) (audit_logs d) None)).

Definition createImportedData (buffer : list N) : Service -> Result Table :=
  d <- connected ;;
  fun s =>
    match read_parquet engine buffer with
    | None => Threw ReadFailure s
    | Some t =>
        Returned t (Some (mkDatabase (properties d) (audit_logs d) (Some t)))
    end.

(** [importFromParquet]. The rows it returns are those of
    [SELECT * FROM properties ORDER BY environment, key]; the order the
    engine's collation gives them is not modelled, they are listed in table
    order. *)
Definition importFromParquet (buffer : list N)
  : Service -> Result (list PropertyRow) :=
  connected ;;;
  dropImportedData ;;;
  t <- createImportedData buffer ;;
  (if hasColumn (js "table_type") t
   then importCombinedData
   else importLegacyProperties) ;;;
  d <- connected ;;
  fun s => Returned (properties d) s.

End SnapshotImport.

End DuckDBService.

(** ** The application state *)

(** What the two components show in their error banners: which handler
    caught, and what it caught. *)
Inductive ErrorBanner :=
| FailedToSaveChanges (e : DuckDBService.Exception)
| FailedToRestoreProperties (e : DuckDBService.Exception)
| FailedToParseBatchData (e : DuckDBService.Exception)
| FailedToRestoreProperty (e : DuckDBService.Exception).

(** The [dbService] state of [App] (which [AuditPage] is handed), the
    [properties] state of [App], and the [error] states of [App] and of
    [AuditPage]. [service] is [None] while [dbService] is [null]: the state
    is set once [initialize] has returned, and nothing in the application
    closes the service, so that a service the application holds is
    connected. *)
Record World := mkWorld {
  service : DuckDBService.Service;
  appProperties : list Property;
  appError : option ErrorBanner;
  pageError : option ErrorBanner
}.

(** ** App: batch save and applying a restore *)

Module App.

(** A [Map] keyed by strings, in insertion order. *)
Definition PropertyMap := list (jsstring * Property).

Fixpoint mapSet (k : jsstring) (v : Property) (m : PropertyMap) : PropertyMap :=
  match m with
  | [] => [(k, v)]
  | (k', v') :: rest =>
      if JS.eqb k' k then (k', v) :: rest else (k', v') :: mapSet k v rest
  end.

Definition mapDelete (k : jsstring) (m : PropertyMap) : PropertyMap :=
  filter (fun kv => negb (JS.eqb (fst kv) k)) m.

Definition mapValues (m : PropertyMap) : list Property := map snd m.

Definition mapKey (p : Property) : jsstring :=
  environment p ++ js "_" ++ key p.

(** [updatedProperties] of [handleBatchSave]. *)
Definition updatedProperties (properties changes deletions : list Property)
  : list Property :=
  let propertyMap :=
    fold_left (fun m p => mapSet (mapKey p) p m) properties [] in
  let afterDeletions :=
    fold_left (fun m deletion => mapDelete (mapKey deletion) m) deletions propertyMap in
  let afterChanges :=
    fold_left (fun m change => mapSet (mapKey change) change m) changes afterDeletions in
  mapValues afterChanges.

(** The keys of [changesByEnvironment], in insertion order. *)
Fixpoint changedEnvironments (changes : list Property) (seen : list jsstring)
  : list jsstring :=
  match changes with
  | [] => seen
  | change :: rest =>
      changedEnvironments rest
        (if existsb (JS.eqb (environment change)) seen then seen
         else seen ++ [environment change])
  end.

Definition newEnvironments (properties changes : list Property) : list jsstring :=
  filter (fun env => negb (existsb (fun p => JS.eqb (environment p) env) properties))
         (changedEnvironments changes []).

Definition withChangeDetails (a : AuditLog.t) (details : jsstring) : AuditLog.t :=
  AuditLog.mk (AuditLog.id a) (AuditLog.timestamp a) (AuditLog.action a)
    (AuditLog.tableName a) (AuditLog.recordId a) (AuditLog.propertyKey a)
    (AuditLog.environment a) (AuditLog.component a)
    (AuditLog.oldValue a) (AuditLog.newValue a)
    (AuditLog.oldDescription a) (AuditLog.newDescription a)
    details (AuditLog.userId a) (AuditLog.sessionId a).

(** [if (customComment) auditLog.changeDetails = customComment]. *)
Definition commented (customComment : option jsstring) (a : AuditLog.t) : AuditLog.t :=
  if JS.truthy customComment
  then withChangeDetails a (JS.orDefault customComment [])
  else a.

(** The entries built in the branch [totalOperations === 1]. *)
Definition singleAuditLogs (w : Ambient) (properties changes deletions : list Property)
  (customComment : option jsstring) : list AuditLog.t :=
  match deletions, changes with
  | [deletion], _ =>
      [commented customComment
         (AuditService.createAuditLog w AuditLog.DELETE deletion None None)]
  | _, [change] =>
      match find (fun p => JS.eqb (id p) (id change)) properties with
      | Some originalProperty =>
          [commented customComment
             (AuditService.createAuditLog w AuditLog.UPDATE change
                (Some originalProperty) None)]
      | None =>
          let auditLog :=
            AuditService.createAuditLog w AuditLog.CREATE change None None in
          [if JS.truthy customComment then commented customComment auditLog
           else if existsb (JS.eqb (environment change))
                           (newEnvironments properties changes)
                then withChangeDetails auditLog
                       (js "Created property in new environment: "
                        ++ environment change)
                else auditLog]
      end
  | _, _ => []
  end.

(** The audit entries a batch save hands to the store: those of the single
    branch, or the one batch entry. *)
Definition savedAuditLogs (w : Ambient) (properties changes deletions : list Property)
  (customComment : option jsstring) : list AuditLog.t :=
  if length changes + length deletions =? 1
  then singleAuditLogs w properties changes deletions customComment
  else [AuditService.createBatchOperationAuditLog w changes deletions customComment
          (Some properties)].

Definition caught (banner : DuckDBService.Exception -> ErrorBanner)
  (e : DuckDBService.Exception) (s : DuckDBService.Service) (world : World) : World :=
  mkWorld s (appProperties world) (Some (banner e)) (pageError world).

(** [handleBatchSave]. Without a service it returns at once. Otherwise
    the property table is rewritten, then the audit entries are appended,
    then the [properties] state is set; an exception on the way is caught
    and shown, whatever was written stays. [None] when the statement of an
    audit entry is not followed (see [DuckDBService.interpolates]). *)
Definition handleBatchSave (w : Ambient) (changes deletions : list Property)
  (customComment : option jsstring) (world : World) : option World :=
  match service world with
  | None => Some world
  | Some _ =>
      let properties := appProperties world in
      let updated := updatedProperties properties changes deletions in
      let written :=
        if length changes + length deletions =? 1 then
          DuckDBService.andThenFollowed (DuckDBService.insertProperties updated)
            (fun _ =>
               DuckDBService.insertAuditLogs
                 (singleAuditLogs w properties changes deletions customComment))
        else
          DuckDBService.andThenFollowed (DuckDBService.insertProperties updated)
            (fun _ =>
               DuckDBService.insertAuditLog
                 (AuditService.createBatchOperationAuditLog w changes deletions
                    customComment (Some properties))) in
      match written (service world) with
      | None => None
      | Some (DuckDBService.Threw e s) => Some (caught FailedToSaveChanges e s world)
      | Some (DuckDBService.Returned _ s) =>
          Some (mkWorld s updated (appError world) (pageError world))
      end
  end.

(** [updatedProperties[index] = restoredProp] at the first index whose [id]
    matches, [push] when there is none. *)
Fixpoint upsert (restoredProp : Property) (l : list Property) : list Property :=
  match l with
  | [] => [restoredProp]
  | p :: rest =>
      if JS.eqb (id p) (id restoredProp) then restoredProp :: rest
      else p :: upsert restoredProp rest
  end.

(** [updatedProperties] of [handleRestore]: deletions first, then
    restorations. *)
Definition restoredList (properties restoredProperties deletions : list Property)
  : list Property :=
  let afterDeletions :=
    fold_left
      (fun updated deletionProp =>
         filter (fun p => negb (JS.eqb (id p) (id deletionProp))) updated)
      deletions properties in
  fold_left (fun updated restoredProp => upsert restoredProp updated)
            restoredProperties afterDeletions.

(** [handleRestore]; without a service it returns at once. *)
Definition handleRestore (restoredProperties deletions : list Property)
  (world : World) : World :=
  match service world with
  | None => world
  | Some _ =>
      let updated :=
        restoredList (appProperties world) restoredProperties deletions in
      match DuckDBService.insertProperties updated (service world) with
      | DuckDBService.Threw e s => caught FailedToRestoreProperties e s world
      | DuckDBService.Returned _ s =>
          mkWorld s updated (appError world) (pageError world)
      end
  end.

End App.

(** ** AuditPage: the restore resolver *)

Module AuditPage.

Import JSON.

(** [v.name]: [undefined] ([None]) on anything but an object that has the
    member, a [TypeError] on [null]. *)
Definition getProperty (v : json) (name : jsstring)
  : option json + DuckDBService.Exception :=
  match v with
  | JNull => inr DuckDBService.TypeError
  | JObject members => inl (member name members)
  | _ => inl None
  end.

Definition truthyProperty (v : option json) : bool :=
  match v with
  | Some x => truthy x
  | None => false
  end.

(** TypeScript takes the entries of the parsed payload for [Property]
    values without looking at them. The model reads an entry as a
    [Property] when it is an object whose members have the types of the
    fields; [None] marks an entry that is something else, which the typed
    model does not follow further. *)
Definition textMember (name : jsstring) (members : list (jsstring * json))
  : option jsstring :=
  match member name members with
  | Some (JString s) => Some s
  | _ => None
  end.

Definition optionalTextMember (name : jsstring) (members : list (jsstring * json))
  : option (option jsstring) :=
  match member name members with
  | None | Some JNull => Some None
  | Some (JString s) => Some (Some s)
  | Some _ => None
  end.

Definition optionalIntegerMember (name : jsstring) (members : list (jsstring * json))
  : option (option Z) :=
  match member name members with
  | None | Some JNull => Some None
  | Some (JNumber z 0) => Some (Some z)
  | Some _ => None
  end.

(** The entry [v] as a property; [stamp], when given, is the
    [lastModified] a spread [{...v, lastModified: new Date()}] puts in. *)
Definition asProperty (stamp : option Date) (v : option json) : option Property :=
  match v with
  | Some (JObject members) =>
      match textMember (js "id") members,
            textMember (js "environment") members,
            textMember (js "key") members,
            textMember (js "value") members,
            optionalTextMember (js "description") members,
            textMember (js "component") members,
            (match stamp with
             | Some d => Some d
             | None => textMember (js "lastModified") members
             end),
            optionalIntegerMember (js "environmentOrder") members,
            optionalIntegerMember (js "fileOrder") members,
            optionalIntegerMember (js "lineOrder") members with
      | Some i, Some e, Some k, Some v', Some d, Some c, Some m,
        Some eo, Some fo, Some lo =>
          Some (mkProperty i e k v' d c m eo fo lo)
      | _, _, _, _, _, _, _, _, _, _ => None
      end
  | _ => None
  end.

(** The two lists the resolver fills; [None] once an entry pushed to a
    list was not a property. *)
Record Collected := mkCollected {
  restoredProperties : option (list Property);
  deletedProperties : option (list Property)
}.

Definition push (l : option (list Property)) (p : option Property)
  : option (list Property) :=
  match l, p with
  | Some items, Some x => Some (items ++ [x])
  | _, _ => None
  end.

(** The callback of [batchData.changes.forEach]. *)
Definition reverseChange (now : Date) (acc : Collected) (change : json)
  : Collected + DuckDBService.Exception :=
  match getProperty change (js "originalProperty") with
  | inr e => inr e
  | inl original =>
      if truthyProperty original then
        inl (mkCollected (push (restoredProperties acc) (asProperty (Some now) original))
                         (deletedProperties acc))
      else
        match getProperty change (js "property") with
        | inr e => inr e
        | inl created =>
            inl (mkCollected (restoredProperties acc)
                             (push (deletedProperties acc) (asProperty None created)))
        end
  end.

(** The callback of [batchData.deletions.forEach]. *)
Definition reverseDeletion (now : Date) (acc : Collected) (deletion : json)
  : Collected + DuckDBService.Exception :=
  inl (mkCollected (push (restoredProperties acc) (asProperty (Some now) (Some deletion)))
                   (deletedProperties acc)).

Fixpoint forEach (f : Collected -> json -> Collected + DuckDBService.Exception)
  (items : list json) (acc : Collected) : Collected + DuckDBService.Exception :=
  match items with
  | [] => inl acc
  | x :: rest =>
      match f acc x with
      | inl acc' => forEach f rest acc'
      | inr e => inr e
      end
  end.

(** [if (batchData.name) batchData.name.forEach(f)]: only an array has
    [forEach]. *)
Definition forEachOf (batchData : json) (name : jsstring)
  (f : Collected -> json -> Collected + DuckDBService.Exception)
  (acc : Collected) : Collected + DuckDBService.Exception :=
  match getProperty batchData name with
  | inr e => inr e
  | inl list =>
      if truthyProperty list then
        match list with
        | Some (JArray items) => forEach f items acc
        | _ => inr DuckDBService.TypeError
        end
      else inl acc
  end.

(** What the resolver makes of a [BATCH] entry. *)
Inductive Resolution :=
| Resolved (restored deleted : list Property)
| Failed (parseErr : DuckDBService.Exception)
| NotProperties.

Definition resolveBatch (now : Date) (newValue : option jsstring) : Resolution :=
  match parse (JS.orDefault newValue (js "{}")) with
  | None => Failed DuckDBService.SyntaxError
  | Some batchData =>
      match forEachOf batchData (js "changes") (reverseChange now)
                      (mkCollected (Some []) (Some [])) with
      | inr e => Failed e
      | inl afterChanges =>
          match forEachOf batchData (js "deletions") (reverseDeletion now)
                          afterChanges with
          | inr e => Failed e
          | inl (mkCollected (Some restored) (Some deleted)) =>
              Resolved restored deleted
          | inl _ => NotProperties
          end
      end
  end.

(** The property rebuilt from a single-item entry. *)
Definition rebuilt (now : Date) (selectedLog : AuditLog.t)
  (v d : option jsstring) : Property :=
  mkProperty (AuditLog.recordId selectedLog) (AuditLog.environment selectedLog)
    (AuditLog.propertyKey selectedLog)
    (JS.orDefault v []) (Some (JS.orDefault d []))
    (AuditLog.component selectedLog) now None None None.

(** The resolver's output for a single-item entry:
    [(propertiesToUpsert, propertiesToDelete)]. *)
Definition resolveSingle (now : Date) (selectedLog : AuditLog.t)
  : list Property * list Property :=
  match AuditLog.action selectedLog with
  | AuditLog.CREATE =>
      ([], [rebuilt now selectedLog (AuditLog.newValue selectedLog)
                    (AuditLog.newDescription selectedLog)])
  | _ =>
      ([rebuilt now selectedLog (AuditLog.oldValue selectedLog)
                (AuditLog.oldDescription selectedLog)], [])
  end.

Definition batchRestorePlaceholder (now : Date) : Property :=
  mkProperty (js "batch_restore") (js "multiple") (js "batch_restore") []
             (Some []) (js "multiple") now None None None.

Definition pageCaught (banner : DuckDBService.Exception -> ErrorBanner)
  (e : DuckDBService.Exception) (s : DuckDBService.Service) (world : World) : World :=
  mkWorld s (appProperties world) (appError world) (Some (banner e)).

(** The common end of the three branches: the restore entry is written,
    then the parent's handler is called. [None] when the statement of the
    restore entry is not followed. *)
Definition record (banner : DuckDBService.Exception -> ErrorBanner)
  (restoreAuditLog : AuditLog.t) (restored deleted : list Property)
  (world : World) : option World :=
  match DuckDBService.insertAuditLog restoreAuditLog (service world) with
  | None => None
  | Some (DuckDBService.Threw e s) => Some (pageCaught banner e s world)
  | Some (DuckDBService.Returned _ s) =>
      Some (App.handleRestore restored deleted
              (mkWorld s (appProperties world) (appError world) (pageError world)))
  end.

(** [handleRestore] for the selected entry; without a service it returns
    at once. [None] when a [BATCH] payload holds an entry that is not a
    property (see [asProperty]), or the statement of the restore entry is
    not followed. *)
Definition handleRestore (w : Ambient) (selectedLog : AuditLog.t) (world : World)
  : option World :=
  let now := newDate w in
  match service world with
  | None => Some world
  | Some _ =>
      match AuditLog.action selectedLog with
      | AuditLog.BATCH =>
          match resolveBatch now (AuditLog.newValue selectedLog) with
          | Failed parseErr =>
              Some (pageCaught FailedToParseBatchData parseErr (service world) world)
          | NotProperties => None
          | Resolved restored deleted =>
              let subject :=
                match restored, deleted with
                | p :: _, _ => p
                | [], p :: _ => p
                | [], [] => batchRestorePlaceholder now
                end in
              let restoreAuditLog :=
                AuditService.createAuditLog w AuditLog.RESTORE subject None
                  (Some (js "Restored batch operation from audit log: "
                         ++ AuditLog.id selectedLog ++ js " ("
                         ++ JS.decimalNat (length restored) ++ js " restored, "
                         ++ JS.decimalNat (length deleted) ++ js " deleted)")) in
              record FailedToParseBatchData restoreAuditLog restored deleted world
          end
      | AuditLog.CREATE =>
          let (restored, deleted) := resolveSingle now selectedLog in
          let propertyToDelete :=
            rebuilt now selectedLog (AuditLog.newValue selectedLog)
                    (AuditLog.newDescription selectedLog) in
          let restoreAuditLog :=
            AuditService.createAuditLog w AuditLog.DELETE propertyToDelete None
              (Some (js "Restored (deleted) property created in audit log: "
                     ++ AuditLog.id selectedLog)) in
          record FailedToRestoreProperty restoreAuditLog restored deleted world
      | _ =>
          let (restored, deleted) := resolveSingle now selectedLog in
          let restoredProperty :=
            rebuilt now selectedLog (AuditLog.oldValue selectedLog)
                    (AuditLog.oldDescription selectedLog) in
          let restoreAuditLog :=
            AuditService.createAuditLog w AuditLog.RESTORE restoredProperty None
              (Some (js "Restored from audit log: " ++ AuditLog.id selectedLog)) in
          record FailedToRestoreProperty restoreAuditLog restored deleted world
      end
  end.

End AuditPage.

(** ** Vocabulary of the restore properties *)

Module RestoreSpec.

(** The first property of a list with the given [id]: what fetching the
    property by its [id] returns. *)
Definition fetch (i : jsstring) (properties : list Property) : option Property :=
  find (fun p => JS.eqb (id p) i) properties.

Definition withLastModified (now : Date) (p : Property) : Property :=
  mkProperty (id p) (environment p) (key p) (value p) (description p)
             (component p) now (environmentOrder p) (fileOrder p) (lineOrder p).

(** The inverse operations of a batch, read off the arguments of
    [createBatchOperationAuditLog]: the originals of the changes that have
    one and the deleted properties are upserted, the changes without
    original are deleted. *)
Fixpoint originalsOf (originalProperties : option (list Property))
  (changes : list Property) : list Property :=
  match changes with
  | [] => []
  | change :: rest =>
      match AuditService.findOriginal originalProperties change with
      | Some original => original :: originalsOf originalProperties rest
      | None => originalsOf originalProperties rest
      end
  end.

Fixpoint creationsOf (originalProperties : option (list Property))
  (changes : list Property) : list Property :=
  match changes with
  | [] => []
  | change :: rest =>
      match AuditService.findOriginal originalProperties change with
      | Some _ => creationsOf originalProperties rest
      | None => change :: creationsOf originalProperties rest
      end
  end.

Definition upsertsOf (now : Date) (originalProperties : option (list Property))
  (changes deletions : list Property) : list Property :=
  map (withLastModified now) (originalsOf originalProperties changes)
  ++ map (withLastModified now) deletions.

(** The value and description columns of the row the store keeps for a
    property. *)
Definition persisted (p : Property) : option jsstring * option jsstring :=
  (DuckDBService.row_value (DuckDBService.rowOfProperty p),
   DuckDBService.row_description (DuckDBService.rowOfProperty p)).

End RestoreSpec.

(** ** Vocabulary of the store's properties *)

Module StoreSpec.

(** Surroundings whose identifiers and clock text hold no apostrophe, as
    those the code generates never do
    ([audit_<milliseconds>_<base 36>], ISO-8601). *)
Definition plainAmbient (w : Ambient) : bool :=
  DuckDBService.noQuote (generatedId w) && DuckDBService.noQuote (newDate w)
  && DuckDBService.noQuote (currentSession w).

(** A property whose [id], [key], [environment] and [component] hold no
    apostrophe: these are the texts an audit entry for it writes into its
    statement without escaping. *)
Definition plainProperty (p : Property) : bool :=
  DuckDBService.noQuote (id p) && DuckDBService.noQuote (key p)
  && DuckDBService.noQuote (environment p) && DuckDBService.noQuote (component p).

(** No row of the audit table has the identifier [i]. *)
Definition unused (i : jsstring) (s : DuckDBService.Service) : bool :=
  negb (DuckDBService.hasAuditId i (DuckDBService.auditLogsOf s)).

End StoreSpec.

(** ** Sample data used by the examples below *)

Module Samples.

(** A collation for examples: code-unit order. *)
Fixpoint ordinalCompare (a b : jsstring) : Z :=
  match a, b with
  | [], [] => 0%Z
  | [], _ :: _ => (-1)%Z
  | _ :: _, [] => 1%Z
  | x :: a', y :: b' =>
      if N.ltb x y then (-1)%Z
      else if N.ltb y x then 1%Z
      else ordinalCompare a' b'
  end.

Definition noon : Date := js "2025-01-01T12:00:00.000Z".

(** [a=b] in [prod], component [env], without description. *)
Definition plainProperty : Property :=
  mkProperty (js "prod_a") (js "prod") (js "a") (js "b") None (js "env")
             noon None None None.

Definition dbUrl : Property :=
  mkProperty (js "prod_db.url") (js "prod") (js "db.url") (js "jdbc:prod")
             (Some (js "Database URL")) (js "env") noon (Some 0%Z) (Some 0%Z) (Some 0%Z).

Definition dbUser : Property :=
  mkProperty (js "prod_db.user") (js "prod") (js "db.user") (js "admin")
             (Some (js "Account")) (js "env") noon (Some 0%Z) (Some 0%Z) (Some 1%Z).

(** The text of a properties file: a described entry, an empty line, an
    entry without description. *)
Definition loadedText : jsstring :=
  JS.join [JS.LF]
    [js "# user of the database"; js "db.user = admin"; []; js "db.url: jdbc:duckdb"].

Definition ambient : Ambient :=
  mkAmbient noon 1735732800000%Z (js "audit_1735732800000_k3x9") (js "session_1735732800000_q7").

(** A store holding [db.url], with one audit entry for its creation. *)
Definition database : DuckDBService.Database :=
  DuckDBService.mkDatabase
    [DuckDBService.rowOfProperty dbUrl]
    [DuckDBService.rowOfAuditLog
       (AuditService.createAuditLog
          (mkAmbient noon 1735700000000%Z (js "audit_1735700000000_a1")
                     (js "session_1735732800000_q7"))
          AuditLog.CREATE dbUrl None None)]
    None.

Definition world : World :=
  mkWorld (Some database) [dbUrl] None None.




(** A property whose key, and with it the [id], holds an apostrophe
    written twice. *)
Definition doubledApostrophe : Property :=
  mkProperty (js "prod_it''s") (js "prod") (js "it''s") (js "b") None (js "env")
             noon None None None.

(** Snapshot files. The columns of a combined export, in the order
    [exportToParquet] selects them. *)
Definition combinedColumns : list jsstring :=
  [js "table_type"; js "id"; js "environment"; js "key"; js "value";
   js "description"; js "component"; js "last_modified";
   js "environment_order"; js "file_order"; js "line_order"; js "timestamp";
   js "action"; js "record_id"; js "property_key"; js "old_value";
   js "new_value"; js "old_description"; js "new_description";
   js "change_details"; js "user_id"; js "session_id"].

Import DuckDBService.

Definition exportedProperty (environmentCell : Cell) : list Cell :=
  [CText (js "properties"); CText (js "prod_a"); environmentCell; CText (js "a");
   CText (js "b"); CNull; CText (js "env"); CText (js "2025-01-01 12:00:00");
   CNull; CNull; CNull; CNull; CNull; CNull; CNull; CNull; CNull; CNull; CNull;
   CNull; CNull; CNull].

Definition exportedAuditLog : list Cell :=
  [CText (js "audit_logs"); CText (js "audit_1735700000000_a1");
   CText (js "prod"); CText (js "a"); CText (js "b"); CNull; CText (js "env");
   CNull; CNull; CNull; CNull; CText (js "2025-01-01 12:00:00");
   CText (js "CREATE"); CText (js "prod_a"); CText (js "a"); CNull;
   CText (js "b"); CNull; CNull; CText (js "Created property");
   CNull; CText (js "session_1735732800000_q7")].

(** A combined snapshot: one property, one audit entry. *)
Definition combinedSnapshot : Table :=
  mkTable combinedColumns [exportedAuditLog; exportedProperty (CText (js "prod"))].

(** A combined snapshot whose property row has no environment. *)
Definition invalidSnapshot : Table :=
  mkTable combinedColumns [exportedAuditLog; exportedProperty CNull].

(** A legacy snapshot: the columns of the property table only. *)
Definition legacySnapshot : Table :=
  mkTable
    [js "id"; js "environment"; js "key"; js "value"; js "description";
     js "component"; js "last_modified"; js "environment_order";
     js "file_order"; js "line_order"]
    [[CText (js "prod_a"); CText (js "prod"); CText (js "a"); CText (js "b");
      CNull; CText (js "env"); CTimestamp noon; CNull; CNull; CNull]].

(** An engine for the examples: the file whose single byte is 1 holds the
    legacy snapshot, 2 the combined one, 3 the invalid one; any other file
    is unreadable. Every text is taken for a timestamp. *)
Definition engine : Engine :=
  mkEngine
    (fun buffer =>
       match buffer with
       | [1%N] => Some legacySnapshot
       | [2%N] => Some combinedSnapshot
       | [3%N] => Some invalidSnapshot
       | _ => None
       end)
    noon
    (fun text => Some text)
    (fun text => Some text).

End Samples.

(** ** Arrays, sets and plain objects of the language *)

Module JSArray.

(** [Array.prototype.sort(compare)]: the sort is stable, an element [x]
    stays before [y] when [compare(x, y) <= 0]. *)
Fixpoint insertBy {A} (compare : A -> A -> Z) (x : A) (l : list A) : list A :=
  match l with
  | [] => [x]
  | y :: r =>
      if (compare x y <=? 0)%Z then x :: y :: r
      else y :: insertBy compare x r
  end.

Definition sortBy {A} (compare : A -> A -> Z) (l : list A) : list A :=
  fold_right (insertBy compare) [] l.

(** A list whose neighbours are in the order of [compare]. *)
Fixpoint inOrder {A} (compare : A -> A -> Z) (l : list A) : Prop :=
  match l with
  | x :: ((y :: _) as r) => (compare x y <= 0)%Z /\ inOrder compare r
  | _ => True
  end.

(** [a < b] on strings: the order of the code units, a proper prefix
    first. *)
Fixpoint ltb (a b : jsstring) : bool :=
  match a, b with
  | _, [] => false
  | [], _ :: _ => true
  | x :: a', y :: b' =>
      if N.ltb x y then true
      else if N.ltb y x then false
      else ltb a' b'
  end.

(** The comparison [sort()] uses when it is given none. *)
Definition defaultCompare (a b : jsstring) : Z :=
  if ltb a b then (-1)%Z else if ltb b a then 1%Z else 0%Z.

Definition sort (l : list jsstring) : list jsstring := sortBy defaultCompare l.

(** [Array.from(new Set(l))]: the first occurrence of every element, in
    order. *)
Fixpoint addEach (l seen : list jsstring) : list jsstring :=
  match l with
  | [] => seen
  | x :: rest =>
      addEach rest (if existsb (JS.eqb x) seen then seen else seen ++ [x])
  end.

Definition unique (l : list jsstring) : list jsstring := addEach l [].

(** [s.replace(pattern, '')] for a string pattern: the first occurrence is
    taken out. *)
Fixpoint startsWithText (pattern s : jsstring) : bool :=
  match pattern, s with
  | [], _ => true
  | _ :: _, [] => false
  | x :: pattern', y :: s' => N.eqb x y && startsWithText pattern' s'
  end.

Fixpoint removeFirst (pattern s : jsstring) : jsstring :=
  if startsWithText pattern s then skipn (length pattern) s
  else match s with
       | [] => []
       | c :: r => c :: removeFirst pattern r
       end.

(** [s.endsWith(pattern)]. *)
Definition endsWithText (pattern s : jsstring) : bool :=
  JS.eqb (skipn (length s - length pattern) s) pattern.

End JSArray.

Module JSObject.

(** An object created by [{}] or by an object literal and filled by
    assignments [o[k] = v]: its own properties in the order of their
    creation. *)
Definition t (V : Type) := list (jsstring * V).

(** What every such object inherits from [Object.prototype]. *)
Definition inheritedNames : list jsstring :=
  [js "constructor"; js "__defineGetter__"; js "__defineSetter__";
   js "hasOwnProperty"; js "__lookupGetter__"; js "__lookupSetter__";
   js "isPrototypeOf"; js "propertyIsEnumerable"; js "toString";
   js "valueOf"; js "__proto__"; js "toLocaleString"].

Definition inherited (k : jsstring) : bool :=
  existsb (JS.eqb k) inheritedNames.

Definition own {V} (k : jsstring) (o : t V) : option V :=
  option_map snd (find (fun kv => JS.eqb (fst kv) k) o).

(** [o[k]]: an own property, a member of [Object.prototype] (a function,
    or the prototype itself: truthy, and not what the object was filled
    with), or [undefined]. *)
Inductive Lookup (V : Type) :=
| Own (v : V)
| Inherited
| Undefined.

Arguments Own {V} v.
Arguments Inherited {V}.
Arguments Undefined {V}.

Definition get {V} (k : jsstring) (o : t V) : Lookup V :=
  match own k o with
  | Some v => Own v
  | None => if inherited k then Inherited else Undefined
  end.

Fixpoint assign {V} (k : jsstring) (v : V) (o : t V) : t V :=
  match o with
  | [] => [(k, v)]
  | (k', v') :: rest =>
      if JS.eqb k' k then (k', v) :: rest else (k', v') :: assign k v rest
  end.

(** [o[k] = v]. An assignment to [__proto__] goes to the setter of
    [Object.prototype] and creates no property. *)
Definition set {V} (k : jsstring) (v : V) (o : t V) : t V :=
  if JS.eqb k (js "__proto__") then o else assign k v o.

(** A key that is an array index: the canonical decimal text of an integer
    below [2^32 - 1]. *)
Fixpoint digitsValue (acc : N) (s : jsstring) : option N :=
  match s with
  | [] => Some acc
  | c :: r =>
      if ((48 <=? c) && (c <=? 57))%N then digitsValue (acc * 10 + (c - 48))%N r
      else None
  end.

Definition arrayIndex (k : jsstring) : option N :=
  match k with
  | [] => None
  | c :: r =>
      if (c =? 48)%N && negb (JS.isEmpty r) then None
      else match digitsValue 0 k with
           | Some n => if (n <? 4294967295)%N then Some n else None
           | None => None
           end
  end.

Definition isArrayIndex (k : jsstring) : bool :=
  match arrayIndex k with Some _ => true | None => false end.

Definition indexOf (k : jsstring) : Z :=
  match arrayIndex k with Some n => Z.of_N n | None => 0%Z end.

(** [Object.entries(o)]: the array-index keys in ascending order, then the
    other keys in the order of their creation. *)
Definition entries {V} (o : t V) : list (jsstring * V) :=
  JSArray.sortBy (fun a b => (indexOf (fst a) - indexOf (fst b))%Z)
    (filter (fun kv => isArrayIndex (fst kv)) o)
  ++ filter (fun kv => negb (isArrayIndex (fst kv))) o.

Definition keys {V} (o : t V) : list jsstring := map fst (entries o).

End JSObject.

(** ** PropertiesFileService: the record-valued parsers *)

Module PropertiesRecords.

Import PropertiesFileService.

(** The [Record<string, string>] [parsePropertiesFile] returns: the
    assignments [properties[key] = value] made line by line. *)
Definition parsePropertiesFileRecord (content : jsstring) : JSObject.t jsstring :=
  fold_left (fun properties kv => JSObject.set (fst kv) (snd kv) properties)
            (parsePropertiesFile content) [].

(** [parsePropertiesFileWithDescriptionsLegacy]: the entries of the
    ordered parser assigned into a record, [{ value, description }] as a
    pair. Here too an entry with the key [__proto__] adds no property (it
    becomes the prototype of the record instead); the record is followed
    through its own properties, which is what [Object.entries] lists. *)
Definition parsePropertiesFileWithDescriptionsLegacy (content : jsstring)
  : JSObject.t (jsstring * jsstring) :=
  fold_left
    (fun result prop => JSObject.set (p_key prop) (p_value prop, p_description prop) result)
    (parsePropertiesFileWithDescriptions content) [].

End PropertiesRecords.

(** ** Components and their file names *)

Module Components.

(** What [map[name] || fallback] evaluates to: a text, or the member of
    [Object.prototype] that [name] names. *)
Inductive Member :=
| Text (s : jsstring)
| Builtin (name : jsstring).

Definition lookupOr (map : JSObject.t jsstring) (name fallback : jsstring) : Member :=
  match JSObject.get name map with
  | JSObject.Own v => Text (JS.orElse v fallback)
  | JSObject.Inherited => Builtin name
  | JSObject.Undefined => Text fallback
  end.

(** [componentMap] of [PropertiesFileService.getComponentFromFilename]. *)
Definition componentMap : JSObject.t jsstring :=
  [(js "env", js "env");
   (js "app-properties", js "app");
   (js "mail", js "mail");
   (js "mylist-app", js "mylist-app");
   (js "mylist-env", js "mylist-env");
   (js "url", js "url");
   (js "f4batch", js "f4batch");
   (js "fax-properties", js "fax");
   (js "gsearch", js "gsearch");
   (js "monitoring-env", js "monitoring-env")].

Definition getComponentFromFilename (filename : jsstring) : Member :=
  let name := JSArray.removeFirst (js ".properties") filename in
  lookupOr componentMap name (js "env").

(** [fileMap] of [DeploymentService.getComponentFileName]. *)
Definition fileMap : JSObject.t jsstring :=
  [(js "env", js "env.properties");
   (js "app", js "app-properties.properties");
   (js "mail", js "mail.properties");
   (js "mylist-app", js "mylist-app.properties");
   (js "mylist-env", js "mylist-env.properties");
   (js "url", js "url.properties");
   (js "f4batch", js "f4batch.properties");
   (js "fax", js "fax-properties.properties");
   (js "gsearch", js "gsearch.properties");
   (js "monitoring-env", js "monitoring-env.properties")].

Definition getComponentFileName (component : jsstring) : Member :=
  lookupOr fileMap component (component ++ js ".properties").

(** The components that have an entry in [fileMap]. *)
Definition knownComponents : list jsstring := map fst fileMap.

(** [PropertiesFileService.createMissingComponentProperties]: the three
    nested [forEach] loops over the keys, the components and the target
    environments. [environments] is [None] when the argument is left out;
    an array, even an empty one, is used as it is. *)
Definition sameCombination (k env c : jsstring) (p : Property) : bool :=
  JS.eqb (key p) k && JS.eqb (environment p) env && JS.eqb (component p) c.

Definition similarDescription (existingProperties : list Property)
  (k c : jsstring) : jsstring :=
  match find (fun p => JS.eqb (key p) k && JS.eqb (component p) c)
             existingProperties with
  | Some similarProp => JS.orDefault (description similarProp) []
  | None => []
  end.

Definition createMissingComponentProperties (now : Date)
  (existingProperties : list Property) (environments : option (list jsstring))
  : list Property :=
  let uniqueKeys := JSArray.unique (map key existingProperties) in
  let uniqueComponents := JSArray.unique (map component existingProperties) in
  let targetEnvironments :=
    match environments with
    | Some given => given
    | None => JSArray.unique (map environment existingProperties)
    end in
  flat_map (fun k =>
    flat_map (fun c =>
      flat_map (fun env =>
        if existsb (sameCombination k env c) existingProperties then []
        else [mkProperty (env ++ js "_" ++ k) env k []
                (Some (similarDescription existingProperties k c))
                c now None None None])
        targetEnvironments)
      uniqueComponents)
    uniqueKeys.

End Components.

(** ** FolderInitializationService: a scanned folder *)

Module Folders.

Import PropertiesFileService.

Record PropertiesFile := mkFile {
  file_name : jsstring;
  file_path : jsstring;
  file_content : jsstring;
  file_fileOrder : Z
}.

Record FolderStructure := mkFolder {
  folder_environment : jsstring;
  folder_environmentOrder : Z;
  folder_files : list PropertiesFile
}.

(** The properties of one file. [None] when the file's name yields no text
    for the component (see [Components.lookupOr]); the typed model does not
    follow such a property. *)
Definition convertOne (now : Date) (structure : FolderStructure)
  (file : PropertiesFile) : option (list Property) :=
  match Components.getComponentFromFilename (file_name file) with
  | Components.Text component =>
      Some (FolderInitializationService.convertFile now
              (folder_environment structure) (folder_environmentOrder structure)
              component (file_path file) (file_fileOrder file)
              (parsePropertiesFileWithDescriptions (file_content file)))
  | Components.Builtin _ => None
  end.

Fixpoint gather {A} (parts : list (option (list A))) : option (list A) :=
  match parts with
  | [] => Some []
  | Some l :: rest => option_map (app l) (gather rest)
  | None :: _ => None
  end.

Definition sortedFiles (structure : FolderStructure) : list PropertiesFile :=
  JSArray.sortBy (fun a b => (file_fileOrder a - file_fileOrder b)%Z)
                 (folder_files structure).

Definition sortedStructures (structures : list FolderStructure)
  : list FolderStructure :=
  JSArray.sortBy (fun a b => (folder_environmentOrder a - folder_environmentOrder b)%Z)
                 structures.

Definition convertToProperties (now : Date) (structures : list FolderStructure)
  : option (list Property) :=
  gather
    (map (fun structure =>
            gather (map (convertOne now structure) (sortedFiles structure)))
         (sortedStructures structures)).

(** The place of a property in the folder it was loaded from, and the
    order of the places: by environment, then file, then line. *)
Definition placeOf (p : Property) : Z * Z * Z :=
  (DeploymentService.orZero (environmentOrder p),
   DeploymentService.orZero (fileOrder p),
   DeploymentService.orZero (lineOrder p)).

Definition placedBefore (a b : Property) : Prop :=
  let '(ea, fa, la) := placeOf a in
  let '(eb, fb, lb) := placeOf b in
  (ea < eb \/ (ea = eb /\ (fa < fb \/ (fa = fb /\ la < lb))))%Z.

(** A file name from which [getComponentFromFilename] reads a text. *)
Definition plainName (file : PropertiesFile) : bool :=
  match Components.getComponentFromFilename (file_name file) with
  | Components.Text _ => true
  | Components.Builtin _ => false
  end.

Definition getEnvironmentsFromProperties (properties : list Property)
  : list jsstring :=
  JSArray.sort (JSArray.unique (map environment properties)).

Definition getComponentsFromProperties (properties : list Property)
  : list jsstring :=
  JSArray.sort (JSArray.unique (map component properties)).

(** [validateFolderStructure]. The line filter of its property count:
    [trimmed && !trimmed.startsWith('#') && trimmed.includes('=')]. *)
Definition countedLine (line : jsstring) : bool :=
  let trimmed := JS.trim line in
  negb (JS.isEmpty trimmed)
  && negb (JS.startsWith JS.HASH trimmed)
  && existsb (N.eqb JS.EQUALS) trimmed.

Definition countedLines (content : jsstring) : nat :=
  length (filter countedLine (JS.split JS.LF content)).

(** A line that the count above and the parser read alike by its looks:
    trimmed, it starts with none of [!], [=] and [:], and if it has a [:]
    it has a [=] too. *)
Definition equalsSeparated (line : jsstring) : bool :=
  let trimmed := JS.trim line in
  negb (JS.startsWith JS.BANG trimmed)
  && negb (JS.startsWith JS.EQUALS trimmed)
  && negb (JS.startsWith JS.COLON trimmed)
  && (existsb (N.eqb JS.EQUALS) trimmed
      || negb (existsb (N.eqb JS.COLON) trimmed)).

(** The message for an environment without files. *)
Definition noFilesError (structure : FolderStructure) : jsstring :=
  js "Environment '" ++ folder_environment structure
  ++ js "' has no properties files".

Record Validation := mkValidation {
  isValid : bool;
  errors : list jsstring;
  summary_environments : list jsstring;
  summary_totalFiles : nat;
  summary_totalProperties : nat
}.

(** The [for (const structure of structures)] loop, its three variables
    threaded through. *)
Fixpoint validateEach (structures : list FolderStructure)
  (errs : list jsstring) (totalFiles totalProperties : nat)
  : list jsstring * nat * nat :=
  match structures with
  | [] => (errs, totalFiles, totalProperties)
  | structure :: rest =>
      validateEach rest
        (if length (folder_files structure) =? 0
         then errs ++ [js "Environment '" ++ folder_environment structure
                       ++ js "' has no properties files"]
         else errs)
        (totalFiles + length (folder_files structure))
        (fold_left (fun total file => total + countedLines (file_content file))
                   (folder_files structure) totalProperties)
  end.

Definition validateFolderStructure (structures : list FolderStructure)
  : Validation :=
  let initial :=
    if length structures =? 0 then [js "No environment folders found"] else [] in
  let '(errs, totalFiles, totalProperties) :=
    validateEach structures initial 0 0 in
  mkValidation (length errs =? 0) errs (map folder_environment structures)
               totalFiles totalProperties.

(** *** The scan of the selected folder

    What the File System Access API shows of the folder: its entries by
    name, a directory with its own entries or failing to list them, a
    file with its text or failing to be read. (A folder whose own entries
    cannot be listed makes the scan throw; the scan is followed for a
    folder that lists them.) *)
Inductive FileEntry :=
| Readable (content : jsstring)
| Unreadable
| Subdirectory.

Inductive FolderEntry :=
| PlainFile
| Directory (listing : option (list (jsstring * FileEntry))).

Section Scan.

Variable localeCompare : jsstring -> jsstring -> Z.

(** The loop over the sorted entries of an environment's directory, with
    its counter [fileOrder]; a file that cannot be read is passed over. *)
Fixpoint scanFileEntries (environment : jsstring)
  (fileEntries : list (jsstring * FileEntry)) (fileOrder : Z)
  : list PropertiesFile :=
  match fileEntries with
  | [] => []
  | (fileName, Readable content) :: rest =>
      if JSArray.endsWithText (js ".properties") fileName
      then mkFile fileName (environment ++ js "/" ++ fileName) content fileOrder
           :: scanFileEntries environment rest (fileOrder + 1)
      else scanFileEntries environment rest fileOrder
  | _ :: rest => scanFileEntries environment rest fileOrder
  end.

(** The loop over the sorted entries of the folder, with its counter
    [environmentOrder]; a directory that cannot be listed, or has no
    properties file, is skipped. *)
Fixpoint scanEntries (entries : list (jsstring * FolderEntry))
  (environmentOrder : Z) : list FolderStructure :=
  match entries with
  | [] => []
  | (name, Directory (Some listing)) :: rest =>
      let files :=
        scanFileEntries name
          (JSArray.sortBy (fun a b => localeCompare (fst a) (fst b)) listing) 0 in
      if 0 <? length files
      then mkFolder name environmentOrder files
           :: scanEntries rest (environmentOrder + 1)
      else scanEntries rest environmentOrder
  | _ :: rest => scanEntries rest environmentOrder
  end.

Definition scanFolderStructure (entries : list (jsstring * FolderEntry))
  : list FolderStructure :=
  scanEntries (JSArray.sortBy (fun a b => localeCompare (fst a) (fst b)) entries) 0.

(** [initializeFromFolder] for a folder that was selected; the
    validation in between only writes to the console. *)
Definition initializeFromFolder (now : Date)
  (entries : list (jsstring * FolderEntry)) : option (list Property) :=
  convertToProperties now (scanFolderStructure entries).

End Scan.

End Folders.

(** ** DeploymentService: grouping and the files of the archive *)

Module Deployment.

(** The [reduce] of [groupPropertiesByEnvironment] and
    [groupPropertiesByComponent], [name] being the field grouped by. When
    the name of a group is a member of [Object.prototype], [!acc[name]] is
    false, nothing is assigned, and [acc[name].push] is not a function. *)
Definition groupStep (name : Property -> jsstring)
  (acc : JSObject.t (list Property) + DuckDBService.Exception) (property : Property)
  : JSObject.t (list Property) + DuckDBService.Exception :=
  match acc with
  | inr e => inr e
  | inl groups =>
      match JSObject.get (name property) groups with
      | JSObject.Own members =>
          inl (JSObject.set (name property) (members ++ [property]) groups)
      | JSObject.Undefined =>
          inl (JSObject.set (name property) [property] groups)
      | JSObject.Inherited => inr DuckDBService.TypeError
      end
  end.

Definition groupBy (name : Property -> jsstring) (properties : list Property)
  : JSObject.t (list Property) + DuckDBService.Exception :=
  fold_left (groupStep name) properties (inl []).

Definition groupPropertiesByEnvironment := groupBy environment.

Definition groupPropertiesByComponent := groupBy component.

(** *** The archive of [createDeploymentZip]

    The archive is followed through the calls
    [envFolder.file(fileName, content)] that fill it, in their order, each
    with the name of the folder [zip.folder(environment)] it is made on.
    [zip.folder] returns an object for every name, so that no environment
    is passed over. *)
Record FileCall := mkFileCall {
  call_folder : jsstring;
  call_fileName : Components.Member;
  call_content : jsstring
}.

Section Archive.

Variable localeCompare : jsstring -> jsstring -> Z.

(** The time [new Date()] gives when the [n]-th file is generated. *)
Variable clock : nat -> Date.

(** The inner loop, over the entries of the groups of one environment;
    [n] files were generated before. *)
Fixpoint componentFiles (n : nat) (environment : jsstring)
  (componentGroups : list (jsstring * list Property)) : list FileCall :=
  match componentGroups with
  | [] => []
  | (component, compProperties) :: rest =>
      mkFileCall environment (Components.getComponentFileName component)
        (DeploymentService.generatePropertiesFileContent localeCompare (clock n)
           compProperties)
      :: componentFiles (S n) environment rest
  end.

(** The outer loop, over the entries of the groups by environment. An
    exception leaves the method, and the archive with it. *)
Fixpoint environmentFiles (n : nat)
  (environmentGroups : list (jsstring * list Property))
  : list FileCall + DuckDBService.Exception :=
  match environmentGroups with
  | [] => inl []
  | (environment, envProperties) :: rest =>
      match groupPropertiesByComponent envProperties with
      | inr e => inr e
      | inl componentGroups =>
          let calls :=
            componentFiles n environment (JSObject.entries componentGroups) in
          match environmentFiles (n + length calls) rest with
          | inr e => inr e
          | inl more => inl (calls ++ more)
          end
      end
  end.

Definition createDeploymentZip (properties : list Property)
  : list FileCall + DuckDBService.Exception :=
  match groupPropertiesByEnvironment properties with
  | inr e => inr e
  | inl environmentGroups =>
      environmentFiles 0 (JSObject.entries environmentGroups)
  end.

End Archive.

End Deployment.

(** ** PropertiesParser: the one-environment text format *)

Module PropertiesParser.

Import PropertiesFileService.

(** One turn of the loop of [parse]: the property pushed for line [i], if
    any. [line.indexOf('=')] is the search for the first [=]. *)
Definition parseAt (now : Date) (environment : jsstring)
  (lines : list jsstring) (i : nat) : option Property :=
  let line := JS.trim (lineAt lines i) in
  if JS.isEmpty line || JS.startsWith JS.HASH line then None
  else
    match JS.search (N.eqb JS.EQUALS) line with
    | None => None
    | Some equalIndex =>
        let key := JS.trim (JS.substringTo equalIndex line) in
        let value := JS.trim (JS.substringFrom (S equalIndex) line) in
        let description :=
          if (0 <? i) && JS.startsWith JS.HASH (JS.trim (lineAt lines (i - 1)))
          then JS.trim (JS.substringFrom 1 (JS.trim (lineAt lines (i - 1))))
          else [] in
        Some (mkProperty (environment ++ js "_" ++ key) environment key value
                (if JS.isEmpty description then None else Some description)
                (js "env") now None None None)
    end.

Fixpoint parseEach (now : Date) (environment : jsstring)
  (lines : list jsstring) (indices : list nat) : list Property :=
  match indices with
  | [] => []
  | i :: rest =>
      match parseAt now environment lines i with
      | Some p => p :: parseEach now environment lines rest
      | None => parseEach now environment lines rest
      end
  end.

Definition parse (now : Date) (content environment : jsstring) : list Property :=
  let lines := JS.split JS.LF content in
  parseEach now environment lines (seq 0 (length lines)).

Section Collation.

Variable localeCompare : jsstring -> jsstring -> Z.

(** The lines pushed for one property. *)
Definition propertyLines (prop : Property) : list jsstring :=
  (if JS.truthy (description prop)
   then [js "# " ++ JS.orDefault (description prop) []]
   else [])
  ++ [key prop ++ js "=" ++ value prop; []].

(** The lines pushed for one environment. *)
Definition environmentLines (entry : jsstring * list Property) : list jsstring :=
  [js "# Environment: " ++ fst entry; []]
  ++ flat_map propertyLines
       (JSArray.sortBy (fun a b => localeCompare (key a) (key b)) (snd entry)).

(** [serialize]; the [reduce] that groups by environment is the one of
    [DeploymentService.groupPropertiesByEnvironment]. *)
Definition serialize (properties : list Property)
  : jsstring + DuckDBService.Exception :=
  match Deployment.groupBy environment properties with
  | inr e => inr e
  | inl groupedByEnv =>
      inl (JS.join [JS.LF] (flat_map environmentLines (JSObject.entries groupedByEnv)))
  end.

End Collation.

(** The same scan read left to right, [prev] being the line before. *)
Definition readLine (now : Date) (environment : jsstring)
  (prev : option jsstring) (raw : jsstring) : option Property :=
  parseAt now environment
    (match prev with Some before => [before; raw] | None => [raw] end)
    (match prev with Some _ => 1 | None => 0 end).

Fixpoint scanLines (now : Date) (environment : jsstring)
  (prev : option jsstring) (lines : list jsstring) : list Property :=
  match lines with
  | [] => []
  | raw :: rest =>
      match readLine now environment prev raw with
      | Some p => p :: scanLines now environment (Some raw) rest
      | None => scanLines now environment (Some raw) rest
      end
  end.

(** What this format can carry: a key that is trimmed, on one line,
    without [=] and not starting with [#]; a value and a description that
    are trimmed and on one line; an environment on one line. *)
Definition plainKey (k : jsstring) : bool :=
  CodecSpec.trimmed k && CodecSpec.noLineFeed k
  && forallb (fun c => negb (N.eqb JS.EQUALS c)) k
  && negb (JS.startsWith JS.HASH k).

Definition plain (p : Property) : bool :=
  plainKey (key p) && CodecSpec.writableText (value p)
  && CodecSpec.writableText (JS.orDefault (description p) [])
  && CodecSpec.noLineFeed (environment p).

(** A property as it comes back from the text. *)
Definition parsedBack (now : Date) (environment : jsstring) (p : Property)
  : Property :=
  mkProperty (environment ++ js "_" ++ key p) environment (key p) (value p)
    (if JS.truthy (description p) then description p else None)
    (js "env") now None None None.

End PropertiesParser.

(** ** PropertyScanner *)

Module PropertyScanner.

(** [path.split('/')] and the four [parts.includes] tests in their order. *)
Definition extractEnvironmentFromPath (path : jsstring) : jsstring :=
  let parts := JS.split 47 path in
  if existsb (JS.eqb (js "batch")) parts then js "batch"
  else if existsb (JS.eqb (js "f4batch")) parts then js "f4batch"
  else if existsb (JS.eqb (js "index")) parts then js "index"
  else if existsb (JS.eqb (js "webapp")) parts then js "webapp"
  else js "unknown".

(** The loop of [deduplicateProperties], the set [seen] threaded through. *)
Fixpoint deduplicateFrom (seen : list jsstring) (properties : list Property)
  : list Property :=
  match properties with
  | [] => []
  | prop :: rest =>
      let k := environment prop ++ js "_" ++ key prop in
      if existsb (JS.eqb k) seen then deduplicateFrom seen rest
      else prop :: deduplicateFrom (seen ++ [k]) rest
  end.

Definition deduplicateProperties (properties : list Property) : list Property :=
  deduplicateFrom [] properties.

Definition getAllUniqueKeys (properties : list Property) : list jsstring :=
  JSArray.sort (JSArray.unique (map key properties)).

Definition getPropertiesByKey (properties : list Property) (k : jsstring)
  : list Property :=
  filter (fun p => JS.eqb (key p) k) properties.

Definition getMissingProperties (properties : list Property)
  (environments : list jsstring) : list (jsstring * jsstring) :=
  let allKeys := getAllUniqueKeys properties in
  flat_map (fun env =>
    flat_map (fun k =>
      if existsb (fun p => JS.eqb (environment p) env && JS.eqb (key p) k) properties
      then []
      else [(env, k)])
      allKeys)
    environments.

(** [scanDirectory] over the files already read: name, relative path and
    text of each. *)
Definition scanFiles (now : Date) (files : list (jsstring * jsstring * jsstring))
  : list Property :=
  deduplicateProperties
    (flat_map
       (fun file =>
          let '(name, path, content) := file in
          if JSArray.endsWithText (js ".properties") name
          then PropertiesParser.parse now content
                 (extractEnvironmentFromPath (JS.orElse path name))
          else [])
       files).

End PropertyScanner.

(** ** App: the other handlers

    As for [handleBatchSave], [service] is the [dbService] state, and a
    handler that starts with [if (!dbService) return;] returns at once
    without one. The grid has registered the callbacks
    [addPendingPropertiesRef] and [markForDeletionRef]. *)

Module Handlers.

(** How a handler ends: at its end; in its [catch] block, which shows
    [message + err] and leaves the [properties] state as it was; by handing
    properties to the grid, which keeps them pending until they are saved;
    or by showing a message and returning. What a handler shows is in this
    result; the [error] state of the world is not followed here. *)
Inductive Handled :=
| Settled (world : World)
| Caught (message : jsstring) (e : DuckDBService.Exception) (world : World)
| Pending (added : list Property) (world : World)
| Refused (message : jsstring) (world : World).

Definition withService (s : DuckDBService.Service) (world : World) : World :=
  mkWorld s (appProperties world) (appError world) (pageError world).

Definition withProperties (s : DuckDBService.Service) (properties : list Property)
  (world : World) : World :=
  mkWorld s properties (appError world) (pageError world).

(** What the two writes of a handler come to: [message] is shown when one
    of them throws. *)
Definition written (message : jsstring) (updatedProperties : list Property)
  (outcome : DuckDBService.Followed unit) (world : World) : option Handled :=
  match outcome with
  | None => None
  | Some (DuckDBService.Threw e s) => Some (Caught message e (withService s world))
  | Some (DuckDBService.Returned _ s) =>
      Some (Settled (withProperties s updatedProperties world))
  end.

(** [handleDeleteProperty]. [None] when the statement of the audit entry
    is not followed (see [DuckDBService.interpolates]). *)
Definition handleDeleteProperty (w : Ambient) (i : jsstring) (world : World)
  : option Handled :=
  let properties := appProperties world in
  match service world with
  | None => Some (Settled world)
  | Some _ =>
      match find (fun p => JS.eqb (id p) i) properties with
      | None => Some (Settled world)
      | Some propertyToDelete =>
          let updatedProperties :=
            filter (fun p => negb (JS.eqb (id p) i)) properties in
          let auditLog :=
            AuditService.createAuditLog w AuditLog.DELETE propertyToDelete
              None None in
          written (js "Failed to delete property: ") updatedProperties
            (DuckDBService.andThenFollowed
               (DuckDBService.insertProperties updatedProperties)
               (fun _ => DuckDBService.insertAuditLog auditLog) (service world))
            world
      end
  end.

(** [handleSaveProperty]; [editingProperty] is the state of that name.
    With nothing to save, [propertyToUpdate] is [undefined], and reading
    its [id] in the callbacks of [find] and [map] is a [TypeError] as soon
    as there is a property to call them on. *)
Definition handleSaveProperty (w : Ambient) (editingProperty : option Property)
  (propertiesToSave : list Property) (world : World) : option Handled :=
  let properties := appProperties world in
  match editingProperty with
  | None => Some (Pending propertiesToSave world)
  | Some _ =>
      match service world with
      | None => Some (Settled world)
      | Some _ =>
          let saved (updatedProperties : list Property)
                    (auditLogs : list AuditLog.t) :=
            written (js "Failed to save property: ") updatedProperties
              (DuckDBService.andThenFollowed
                 (DuckDBService.insertProperties updatedProperties)
                 (fun _ => DuckDBService.insertAuditLogs auditLogs)
                 (service world))
              world in
          match propertiesToSave, properties with
          | [], _ :: _ =>
              Some (Caught (js "Failed to save property: ")
                           DuckDBService.TypeError world)
          | [], [] => saved [] []
          | propertyToUpdate :: _, _ =>
              let oldProperty :=
                find (fun p => JS.eqb (id p) (id propertyToUpdate)) properties in
              let updatedProperties :=
                map (fun p => if JS.eqb (id p) (id propertyToUpdate)
                              then propertyToUpdate else p) properties in
              saved updatedProperties
                match oldProperty with
                | Some old =>
                    [AuditService.createAuditLog w AuditLog.UPDATE propertyToUpdate
                       (Some old) None]
                | None => []
                end
          end
      end
  end.

(** [handleAddEnvironment]; [selectedComponent] is the state of that name,
    [sourceEnvironment] is [None] for [null]. *)
Definition handleAddEnvironment (now : Date) (selectedComponent : jsstring)
  (environmentName : jsstring) (sourceEnvironment : option jsstring)
  (world : World) : Handled :=
  let properties := appProperties world in
  if JS.eqb selectedComponent (js "all")
  then Refused (js "Please select a specific component to add environment") world
  else
    let componentProperties :=
      filter (fun p => JS.eqb (component p) selectedComponent) properties in
    let uniqueKeys := JSArray.unique (map key componentProperties) in
    let sourceProperty (k : jsstring) :=
      if JS.truthy sourceEnvironment then
        find (fun p => JS.eqb (key p) k
                       && JS.eqb (environment p) (JS.orDefault sourceEnvironment [])
                       && JS.eqb (component p) selectedComponent) properties
      else None in
    Pending
      (map (fun k =>
              mkProperty (environmentName ++ js "_" ++ k) environmentName k
                (match sourceProperty k with Some p => value p | None => [] end)
                (Some (match sourceProperty k with
                       | Some p => JS.orDefault (description p) []
                       | None => []
                       end))
                selectedComponent now None None None)
           uniqueKeys)
      world.

(** [availableEnvironments] of the component. *)
Definition availableEnvironments (properties : list Property) : list jsstring :=
  JSArray.sort (JSArray.unique (map environment properties)).

(** [handlePropertiesFileUpload]: the new properties of an uploaded file.
    [None] when the file's name yields no text for the component (see
    [Components.lookupOr]). *)
Definition handlePropertiesFileUpload (now : Date) (filename content : jsstring)
  (properties : list Property) : option (list Property) :=
  match Components.getComponentFromFilename filename with
  | Components.Builtin _ => None
  | Components.Text component =>
      let parsedProps :=
        PropertiesRecords.parsePropertiesFileWithDescriptionsLegacy content in
      let currentEnvironments :=
        if 0 <? length (availableEnvironments properties)
        then availableEnvironments properties
        else [js "default"] in
      Some
        (flat_map (fun entry =>
           flat_map (fun env =>
             let propertyId := env ++ js "_" ++ fst entry in
             match find (fun p => JS.eqb (id p) propertyId) properties with
             | Some _ => []
             | None =>
                 [mkProperty propertyId env (fst entry) (fst (snd entry))
                    (Some (JS.orElse (snd (snd entry))
                                     (js "Imported from " ++ filename)))
                    component now None None None]
             end)
             currentEnvironments)
           (JSObject.entries parsedProps))
  end.

(** The branch of [handleImport] for a [.properties] file, its text
    already decoded. *)
Definition importPropertiesFile (now : Date) (filename content : jsstring)
  (world : World) : option Handled :=
  let properties := appProperties world in
  match service world with
  | None => Some (Settled world)
  | Some _ =>
      match handlePropertiesFileUpload now filename content properties with
      | None => None
      | Some importedProps =>
          Some
            (if 0 <? length importedProps then
               let updatedProperties := properties ++ importedProps in
               match DuckDBService.insertProperties updatedProperties
                       (service world) with
               | DuckDBService.Threw e s =>
                   Caught (js "Import failed: ") e (withService s world)
               | DuckDBService.Returned _ s =>
                   Settled (withProperties s updatedProperties world)
               end
             else Settled world)
      end
  end.

(** [handleFolderInitialization] for a folder that was selected, with
    the entries the folder shows. *)
Definition handleFolderInitialization
  (localeCompare : jsstring -> jsstring -> Z) (now : Date)
  (entries : list (jsstring * Folders.FolderEntry)) (world : World)
  : option Handled :=
  match service world with
  | None => Some (Settled world)
  | Some _ =>
      match Folders.initializeFromFolder localeCompare now entries with
      | None => None
      | Some folderProperties =>
          Some
            (if length folderProperties =? 0
             then Refused (js "No properties found in the selected folder") world
             else
               match DuckDBService.insertProperties folderProperties
                       (service world) with
               | DuckDBService.Threw e s =>
                   Caught (js "Folder initialization failed: ") e
                          (withService s world)
               | DuckDBService.Returned _ s =>
                   Settled (withProperties s folderProperties world)
               end)
      end
  end.

End Handlers.

(** ** Vocabulary of the handlers' properties *)

Module HandlerSpec.

(** A map whose keys are the keys of its values, each once. *)
Definition keyed (m : App.PropertyMap) : Prop :=
  NoDup (map fst m) /\ Forall (fun kv => fst kv = App.mapKey (snd kv)) m.

(** Two properties that differ at most in [lastModified]. *)
Definition sameButStamp (a b : Property) : Prop :=
  id a = id b /\ environment a = environment b /\ key a = key b
  /\ value a = value b /\ description a = description b
  /\ component a = component b /\ environmentOrder a = environmentOrder b
  /\ fileOrder a = fileOrder b /\ lineOrder a = lineOrder b.

End HandlerSpec.

(** ** More sample data *)

Module Examples.

(** A scanned folder: two environments, listed out of order. *)
Definition folders : list Folders.FolderStructure :=
  [Folders.mkFolder (js "prod") 1
     [Folders.mkFile (js "mail.properties") (js "prod/mail.properties")
        (js "smtp.host=mail.prod") 1;
      Folders.mkFile (js "env.properties") (js "prod/env.properties")
        Samples.loadedText 0];
   Folders.mkFolder (js "dev") 0
     [Folders.mkFile (js "env.properties") (js "dev/env.properties")
        Samples.loadedText 0]].

(** A folder whose files separate keys and values by [=] only. *)
Definition staging : list Folders.FolderStructure :=
  [Folders.mkFolder (js "staging") 2
     [Folders.mkFile (js "url.properties") (js "staging/url.properties")
        (JS.join [JS.LF]
           [js "# entry page"; js "home = https://staging.example"; [];
            js "api=https://staging.example/api"]) 0;
      Folders.mkFile (js "mail.properties") (js "staging/mail.properties")
        (js "smtp.host=mail.staging") 1]].

(** A selected folder: a file beside two environments, one of them with
    a file that cannot be read and a directory of its own. *)
Definition selected : list (jsstring * Folders.FolderEntry) :=
  [(js "README.md", Folders.PlainFile);
   (js "prod",
    Folders.Directory
      (Some [(js "mail.properties", Folders.Readable (js "smtp.host=mail.prod"));
             (js "env.properties", Folders.Readable Samples.loadedText);
             (js "notes.txt", Folders.Readable (js "not a properties file"));
             (js "url.properties", Folders.Unreadable);
             (js "backup", Folders.Subdirectory)]));
   (js "dev",
    Folders.Directory
      (Some [(js "env.properties", Folders.Readable Samples.loadedText)]));
   (js "empty", Folders.Directory (Some []));
   (js "locked", Folders.Directory None)].

(** A selected folder in which two files of one environment hold the
    same key. *)
Definition clashing : list (jsstring * Folders.FolderEntry) :=
  [(js "prod",
    Folders.Directory
      (Some [(js "env.properties", Folders.Readable (js "timeout=30"));
             (js "mail.properties",
              Folders.Readable
                (JS.join [JS.LF] [js "smtp.host=mail.prod"; js "timeout=60"]))]))].

(** The surroundings of a later call. *)
Definition later : Ambient :=
  mkAmbient (js "2025-01-02T09:30:00.000Z") 1735810200000%Z
    (js "audit_1735810200000_m4p2") (js "session_1735732800000_q7").

(** [db.url] with another value, as edited. *)
Definition editedUrl : Property :=
  mkProperty (js "prod_db.url") (js "prod") (js "db.url") (js "jdbc:standby")
             (Some (js "Standby database")) (js "env") (newDate later)
             (Some 0%Z) (Some 0%Z) (Some 0%Z).

End Examples.

(** * Properties *)

(** ** JavaScript strings *)

Lemma isEmpty_true (s : jsstring) : JS.isEmpty s = true <-> s = [].
Proof. destruct s; simpl; split; congruence. Qed.

Lemma isEmpty_false (s : jsstring) : JS.isEmpty s = false <-> s <> [].
Proof. destruct s; simpl; split; congruence. Qed.

Lemma eqb_eq (a b : jsstring) : JS.eqb a b = true <-> a = b.
Proof.
  revert b; induction a as [|x a IH]; intros [|y b]; simpl; split;
    try congruence; try reflexivity.
  - intros H. apply andb_true_iff in H as [Hx Hab].
    apply N.eqb_eq in Hx. apply IH in Hab. congruence.
  - intros H. injection H as -> ->. rewrite N.eqb_refl. simpl. now apply IH.
Qed.

Lemma eqb_refl (a : jsstring) : JS.eqb a a = true.
Proof. now apply eqb_eq. Qed.

Lemma eqb_neq (a b : jsstring) : JS.eqb a b = false <-> a <> b.
Proof.
  destruct (JS.eqb a b) eqn:E; split; try congruence.
  - apply eqb_eq in E. congruence.
  - intros _ H. apply eqb_eq in H. congruence.
Qed.

Lemma trimStart_all_white (s : jsstring) :
  JS.trimStart s = [] <-> forallb JS.isWhiteSpace s = true.
Proof.
  induction s as [|c r IH]; simpl; [tauto|].
  destruct (JS.isWhiteSpace c); simpl; [exact IH|split; discriminate].
Qed.

Lemma trimStart_idem (s : jsstring) : JS.trimStart (JS.trimStart s) = JS.trimStart s.
Proof.
  induction s as [|c r IH]; simpl; [reflexivity|].
  destruct (JS.isWhiteSpace c) eqn:E; [exact IH|]. simpl. now rewrite E.
Qed.

Lemma trimStart_head (s : jsstring) c r :
  JS.trimStart s = c :: r -> JS.isWhiteSpace c = false.
Proof.
  induction s as [|x s IH]; simpl; [discriminate|].
  destruct (JS.isWhiteSpace x) eqn:E; [exact IH|]. congruence.
Qed.

Lemma forallb_rev {A} (f : A -> bool) (l : list A) :
  forallb f (rev l) = forallb f l.
Proof.
  induction l as [|x l IH]; simpl; [reflexivity|].
  rewrite forallb_app, IH. simpl. rewrite andb_true_r. apply andb_comm.
Qed.

Lemma trim_all_white (s : jsstring) :
  JS.trim s = [] <-> forallb JS.isWhiteSpace s = true.
Proof.
  unfold JS.trim, JS.trimEnd. split.
  - intros H.
    assert (H1 : JS.trimStart (rev (JS.trimStart s)) = []).
    { destruct (JS.trimStart (rev (JS.trimStart s))) as [|y l]; [reflexivity|].
      simpl in H. now destruct (rev l). }
    apply trimStart_all_white in H1. rewrite forallb_rev in H1.
    destruct (JS.trimStart s) as [|c r] eqn:E.
    + now apply trimStart_all_white.
    + apply trimStart_head in E. simpl in H1. rewrite E in H1. discriminate.
  - intros H. apply trimStart_all_white in H. now rewrite H.
Qed.

Lemma trim_nil : JS.trim [] = [].
Proof. reflexivity. Qed.

(** The first character of a trimmed string is not white space, nor is the
    last. *)
Lemma trim_head (s : jsstring) c r : JS.trim s = c :: r -> JS.isWhiteSpace c = false.
Proof.
  unfold JS.trim, JS.trimEnd. intros H.
  destruct (JS.trimStart s) as [|x t] eqn:E; [discriminate|].
  pose proof (trimStart_head _ _ _ E) as Hx.
  (* the reversed remainder keeps [x] as its last element *)
  assert (K : forall u, JS.trimStart (u ++ [x]) = JS.trimStart u ++ [x]
                        \/ (JS.trimStart u = [] /\ JS.trimStart (u ++ [x]) = [x])).
  { induction u as [|y u IH]; simpl.
    - rewrite Hx. now right.
    - destruct (JS.isWhiteSpace y); [exact IH|now left]. }
  simpl in H. destruct (K (rev t)) as [K1|[_ K1]]; rewrite K1 in H.
  - rewrite rev_app_distr in H. simpl in H. congruence.
  - simpl in H. congruence.
Qed.

Lemma search_some (cls : N -> bool) (s : jsstring) i :
  JS.search cls s = Some i ->
  exists c r, skipn i s = c :: r /\ cls c = true /\ forallb (fun x => negb (cls x)) (firstn i s) = true.
Proof.
  revert i; induction s as [|x s IH]; simpl; intros i H; [discriminate|].
  destruct (cls x) eqn:E.
  - injection H as <-. exists x, s. simpl. auto.
  - destruct (JS.search cls s) as [k|]; [|discriminate]. injection H as <-.
    destruct (IH k eq_refl) as (c & r & H1 & H2 & H3).
    exists c, r. simpl. rewrite E. auto.
Qed.

Lemma search_none (cls : N -> bool) (s : jsstring) :
  JS.search cls s = None <-> forallb (fun x => negb (cls x)) s = true.
Proof.
  induction s as [|x s IH]; simpl; [tauto|].
  destruct (cls x); simpl; [split; discriminate|].
  destruct (JS.search cls s); simpl; split; try discriminate; try tauto.
  intros H. apply IH in H. discriminate.
Qed.

Lemma search_first (cls : N -> bool) (s t : jsstring) c :
  forallb (fun x => negb (cls x)) s = true -> cls c = true ->
  JS.search cls (s ++ c :: t) = Some (length s).
Proof.
  induction s as [|x s IH]; simpl; intros H Hc.
  - now rewrite Hc.
  - apply andb_true_iff in H as [Hx H]. apply negb_true_iff in Hx.
    rewrite Hx, IH; auto.
Qed.

(** ** The properties-file parser *)

Import PropertiesFileService ParserSpec.

Lemma isComment_spec (raw : jsstring) :
  isComment (JS.trim raw) = true <-> commentLine raw.
Proof.
  unfold isComment, commentLine, JS.startsWith.
  destruct (JS.trim raw) as [|x t]; simpl.
  - split; [discriminate|]. intros (c & r & H & _). discriminate.
  - rewrite orb_true_iff, !N.eqb_eq. split.
    + intros H. exists x, t. tauto.
    + intros (c & r & H & Hc). injection H as <- <-. exact Hc.
Qed.

Lemma separator_not_white (c : N) :
  isSeparator c = true -> JS.isWhiteSpace c = false.
Proof.
  unfold isSeparator. rewrite orb_true_iff, !N.eqb_eq.
  intros [->| ->]; reflexivity.
Qed.

Lemma blank_not_propertyLine (raw : jsstring) : blank raw -> ~ propertyLine raw.
Proof.
  intros B [_ (c & Hin & Hc)]. apply trim_all_white in B.
  rewrite forallb_forall in B. specialize (B c Hin).
  rewrite separator_not_white in B; [discriminate|].
  unfold isSeparator. rewrite orb_true_iff, !N.eqb_eq. exact Hc.
Qed.

Lemma blank_not_isPropertyLine (raw : jsstring) :
  blank raw -> isPropertyLine raw = false.
Proof. unfold blank, isPropertyLine. now intros ->. Qed.

Lemma parseLine_parseKeyValue (lines : list jsstring) (i : nat) :
  parseLine lines i =
  match parseKeyValue (lineAt lines i) with
  | Some (k, v) => Some (mkParsed k v (descriptionFor lines i) (i + 1))
  | None => None
  end.
Proof.
  unfold parseLine, parseKeyValue.
  destruct (JS.isEmpty (JS.trim (lineAt lines i))); [reflexivity|].
  destruct (isComment (JS.trim (lineAt lines i))); [reflexivity|].
  destruct (JS.search isSeparator (JS.trim (lineAt lines i))); [|reflexivity].
  now destruct (JS.isEmpty _).
Qed.

Lemma lastNonBlankFrom_snoc prev (lines : list jsstring) raw :
  lastNonBlankFrom prev (lines ++ [raw]) =
  if JS.isEmpty (JS.trim raw) then lastNonBlankFrom prev lines else Some raw.
Proof.
  revert prev; induction lines as [|l lines IH]; intros prev; simpl.
  - reflexivity.
  - apply IH.
Qed.

Lemma lineAt_middle (pre post : list jsstring) raw :
  lineAt (pre ++ raw :: post) (length pre) = raw.
Proof. unfold lineAt. apply nth_middle. Qed.

Lemma lineAt_app_l (pre post : list jsstring) j :
  j < length pre -> lineAt (pre ++ post) j = lineAt pre j.
Proof. intros H. unfold lineAt. now apply app_nth1. Qed.

(** What the backwards loop over empty lines finds. *)
Lemma skipEmptyLines_spec (lines : list jsstring) (n : nat) :
  match skipEmptyLines lines n with
  | Some c => nearestNonBlank lines c n
  | None => forall j, j < n -> blank (lineAt lines j)
  end.
Proof.
  induction n as [|n IH]; simpl.
  - intros j H. lia.
  - destruct (JS.isEmpty (JS.trim (lineAt lines n))) eqn:E.
    + apply isEmpty_true in E.
      destruct (skipEmptyLines lines n) as [c|].
      * destruct IH as (H1 & H2 & H3). repeat split; [lia|exact H2|].
        intros j Hj. destruct (Nat.eq_dec j n) as [->|]; [exact E|].
        apply H3. lia.
      * intros j Hj. destruct (Nat.eq_dec j n) as [->|]; [exact E|].
        apply IH. lia.
    + apply isEmpty_false in E. repeat split; [lia|exact E|].
      intros j Hj. lia.
Qed.

Lemma nearestNonBlank_unique (lines : list jsstring) c c' i :
  nearestNonBlank lines c i -> nearestNonBlank lines c' i -> c = c'.
Proof.
  intros (H1 & H2 & H3) (H1' & H2' & H3').
  destruct (Nat.lt_trichotomy c c') as [L|[E|L]]; [|exact E|].
  - exfalso. apply H2'. apply H3. lia.
  - exfalso. apply H2. apply H3'. lia.
Qed.

Lemma hasPropertyBetween_nearest (lines : list jsstring) c i :
  nearestNonBlank lines c i -> hasPropertyBetween lines c i = false.
Proof.
  intros (H1 & _ & H3). unfold hasPropertyBetween.
  apply not_true_is_false. intros H. apply existsb_exists in H as (j & Hj & Hp).
  apply in_seq in Hj. rewrite blank_not_isPropertyLine in Hp; [discriminate|].
  apply H3. lia.
Qed.

Lemma commentText_substring (raw : jsstring) :
  JS.trim (JS.substringFrom 1 (JS.trim raw)) = commentText raw.
Proof. unfold commentText, JS.substringFrom. now destruct (JS.trim raw). Qed.

(** The description the parser looks up is the text of the attached comment,
    and empty when the specification attaches none. *)
Lemma descriptionFor_spec (lines : list jsstring) (i : nat) :
  (forall c, attachedComment lines c i ->
             descriptionFor lines i = commentText (lineAt lines c))
  /\ ((forall c, ~ attachedComment lines c i) -> descriptionFor lines i = []).
Proof.
  unfold descriptionFor. pose proof (skipEmptyLines_spec lines i) as S.
  destruct (skipEmptyLines lines i) as [c0|].
  - rewrite (hasPropertyBetween_nearest _ _ _ S).
    destruct (isComment (JS.trim (lineAt lines c0))) eqn:C.
    + split.
      * intros c (Hn & _). rewrite (nearestNonBlank_unique _ _ _ _ Hn S).
        apply commentText_substring.
      * intros H. exfalso. apply (H c0). split; [exact S|].
        split; [now apply isComment_spec|].
        intros j Hj. apply blank_not_propertyLine. now apply S.
    + split; [|reflexivity].
      intros c (Hn & Hc & _). rewrite (nearestNonBlank_unique _ _ _ _ Hn S) in Hc.
      apply isComment_spec in Hc. congruence.
  - split; [|reflexivity].
    intros c ((Hlt & Hnb & _) & _). exfalso. apply Hnb. now apply S.
Qed.

Lemma skipEmptyLines_last (pre post : list jsstring) :
  match skipEmptyLines (pre ++ post) (length pre) with
  | Some c => lastNonBlankFrom None pre = Some (lineAt (pre ++ post) c)
  | None => lastNonBlankFrom None pre = None
  end.
Proof.
  revert post. induction pre as [|raw pre IH] using rev_ind; intros post; [reflexivity|].
  rewrite length_app, Nat.add_comm. simpl.
  rewrite <- app_assoc. simpl. rewrite !lineAt_middle, lastNonBlankFrom_snoc.
  destruct (JS.isEmpty (JS.trim raw)); [|now rewrite lineAt_middle].
  exact (IH (raw :: post)).
Qed.

Lemma descriptionFor_scan (pre post : list jsstring) :
  descriptionFor (pre ++ post) (length pre) = descriptionFrom (lastNonBlankFrom None pre).
Proof.
  unfold descriptionFor, descriptionFrom.
  pose proof (skipEmptyLines_last pre post) as L.
  pose proof (skipEmptyLines_spec (pre ++ post) (length pre)) as S.
  destruct (skipEmptyLines (pre ++ post) (length pre)) as [c|]; rewrite L; [|reflexivity].
  now rewrite (hasPropertyBetween_nearest _ _ _ S).
Qed.

Lemma collect_scan (pre post : list jsstring) :
  collect (pre ++ post) (seq (length pre) (length post))
  = scan (lastNonBlankFrom None pre) (S (length pre)) post.
Proof.
  revert pre; induction post as [|raw post IH]; intros pre; [reflexivity|].
  simpl. rewrite parseLine_parseKeyValue, lineAt_middle, descriptionFor_scan.
  specialize (IH (pre ++ [raw])).
  rewrite <- app_assoc, length_app, lastNonBlankFrom_snoc in IH. simpl in IH.
  rewrite (Nat.add_comm (length pre) 1) in IH. simpl in IH.
  rewrite Nat.add_1_r.
  destruct (parseKeyValue raw) as [[k v]|]; now rewrite IH.
Qed.

(** The index-based parser is the left-to-right scan. *)
Lemma parseLines_scan (lines : list jsstring) :
  parseLines lines = scan None 1 lines.
Proof. exact (collect_scan [] lines). Qed.

Lemma in_collect (lines : list jsstring) (indices : list nat) e :
  In e (collect lines indices) <->
  exists i, In i indices /\ parseLine lines i = Some e.
Proof.
  induction indices as [|i rest IH]; simpl.
  - split; [tauto|]. intros (i & [] & _).
  - destruct (parseLine lines i) as [p|] eqn:E; simpl; rewrite IH; split.
    + intros [<-|(j & Hj & Hp)]; [exists i; auto|exists j; auto].
    + intros (j & [<-|Hj] & Hp); [left; congruence|right; exists j; auto].
    + intros (j & Hj & Hp). exists j; auto.
    + intros (j & [<-|Hj] & Hp); [congruence|exists j; auto].
Qed.

Lemma in_parseLines (lines : list jsstring) e :
  In e (parseLines lines) <->
  exists i, i < length lines /\ parseLine lines i = Some e.
Proof.
  unfold parseLines. rewrite in_collect. split; intros (i & Hi & Hp); exists i.
  - apply in_seq in Hi. split; [lia|exact Hp].
  - split; [apply in_seq; lia|exact Hp].
Qed.

Lemma parseKeyValue_key (raw k v : jsstring) :
  parseKeyValue raw = Some (k, v) -> k <> [].
Proof.
  unfold parseKeyValue.
  destruct (JS.isEmpty (JS.trim raw)); [discriminate|].
  destruct (isComment (JS.trim raw)); [discriminate|].
  destruct (JS.search isSeparator (JS.trim raw)) as [n|]; [|discriminate].
  destruct (JS.isEmpty (JS.trim (JS.substringTo n (JS.trim raw)))) eqn:E; [discriminate|].
  intros H. injection H as <- _. now apply isEmpty_false.
Qed.

Lemma parseKeyValue_empty_key (raw : jsstring) :
  JS.search isSeparator (JS.trim raw) = Some 0 -> parseKeyValue raw = None.
Proof.
  unfold parseKeyValue. intros ->.
  destruct (JS.isEmpty (JS.trim raw)); [reflexivity|].
  destruct (isComment (JS.trim raw)); reflexivity.
Qed.

Lemma parseKeyValue_no_separator (raw : jsstring) :
  JS.search isSeparator (JS.trim raw) = None -> parseKeyValue raw = None.
Proof.
  unfold parseKeyValue. intros ->.
  destruct (JS.isEmpty (JS.trim raw)); [reflexivity|].
  destruct (isComment (JS.trim raw)); reflexivity.
Qed.

Lemma in_assignments (lines : list jsstring) kv :
  In kv (assignments lines) -> exists raw, In raw lines /\ parseKeyValue raw = Some kv.
Proof.
  induction lines as [|l lines IH]; simpl; [tauto|].
  destruct (parseKeyValue l) as [p|] eqn:E; simpl.
  - intros [<-|H]; [exists l; auto|].
    destruct (IH H) as (raw & H1 & H2). exists raw; auto.
  - intros H. destruct (IH H) as (raw & H1 & H2). exists raw; auto.
Qed.

(** C9. For every input text, every entry the parser returns comes from the
    property line whose number it carries, and its description is attached
    exactly as the specification says: when the nearest non-blank line above
    the property line is a comment line and no property line lies between the
    two, the description is the text of that comment; in every other case the
    description is empty. In particular the text of the scenario, a comment
    line followed by [db.url=jdbc:prod], parses to the single entry with key
    [db.url], value [jdbc:prod] and description [Database URL]. *)
Theorem parse_attaches_nearest_comment (content : jsstring) :
  let lines := JS.split JS.LF content in
  Forall (fun e =>
    let i := p_lineNumber e - 1 in
    parseKeyValue (lineAt lines i) = Some (p_key e, p_value e)
    /\ (forall c, attachedComment lines c i ->
                  p_description e = commentText (lineAt lines c))
    /\ ((forall c, ~ attachedComment lines c i) -> p_description e = []))
    (parsePropertiesFileWithDescriptions content)
  /\ parsePropertiesFileWithDescriptions (js "# Database URL
db.url=jdbc:prod
") = [mkParsed (js "db.url") (js "jdbc:prod") (js "Database URL") 2].
Proof.
  split; [|reflexivity].
  apply Forall_forall. intros e He.
  apply in_parseLines in He as (i & Hi & Hp).
  rewrite parseLine_parseKeyValue in Hp.
  destruct (parseKeyValue (lineAt (JS.split JS.LF content) i)) as [[k v]|] eqn:E;
    [|discriminate].
  injection Hp as <-. simpl. rewrite Nat.add_sub.
  split; [exact E|]. apply descriptionFor_spec.
Qed.

(** C10. A line whose trimmed text has its first separator at position 0 (an
    empty key, as in [=value]) yields no entry, exactly like a line without
    any separator: the turn of the loop for that line pushes nothing, and no
    returned entry carries its line number. Hence every entry the parser
    returns has a non-empty key; the same holds for the keys assigned by
    [parsePropertiesFile]. *)
Theorem parse_drops_empty_key (content : jsstring) :
  let lines := JS.split JS.LF content in
  Forall (fun e => p_key e <> []) (parsePropertiesFileWithDescriptions content)
  /\ Forall (fun kv => fst kv <> []) (parsePropertiesFile content)
  /\ (forall i,
        JS.search isSeparator (JS.trim (lineAt lines i)) = Some 0
        \/ JS.search isSeparator (JS.trim (lineAt lines i)) = None ->
        parseLine lines i = None
        /\ Forall (fun e => p_lineNumber e <> i + 1)
                  (parsePropertiesFileWithDescriptions content))
  /\ parsePropertiesFileWithDescriptions (js "=value") = []
  /\ parsePropertiesFile (js "=value") = [].
Proof.
  simpl. repeat split; try reflexivity.
  - apply Forall_forall. intros e He.
    apply in_parseLines in He as (i & Hi & Hp).
    rewrite parseLine_parseKeyValue in Hp.
    destruct (parseKeyValue (lineAt (JS.split JS.LF content) i)) as [[k v]|] eqn:E;
      [|discriminate].
    injection Hp as <-. simpl. exact (parseKeyValue_key _ _ _ E).
  - apply Forall_forall. intros [k v] Hkv.
    apply in_assignments in Hkv as (raw & _ & Hraw). simpl.
    exact (parseKeyValue_key _ _ _ Hraw).
  - rewrite parseLine_parseKeyValue.
    destruct H as [H|H];
      [rewrite (parseKeyValue_empty_key _ H)|rewrite (parseKeyValue_no_separator _ H)];
      reflexivity.
  - assert (N : parseLine (JS.split JS.LF content) i = None).
    { rewrite parseLine_parseKeyValue.
      destruct H as [H|H];
        [rewrite (parseKeyValue_empty_key _ H)|rewrite (parseKeyValue_no_separator _ H)];
        reflexivity. }
    apply Forall_forall. intros e He Hn.
    apply in_parseLines in He as (j & Hj & Hp).
    pose proof Hp as Hp'. rewrite parseLine_parseKeyValue in Hp'.
    destruct (parseKeyValue (lineAt (JS.split JS.LF content) j)) as [[k v]|];
      [|discriminate].
    injection Hp' as <-. simpl in Hn.
    assert (j = i) by lia. subst j. congruence.
Qed.

(** ** The round trip through the text format *)

Import DeploymentService CodecSpec.

Lemma split_no_sep (sep : N) (a : jsstring) :
  forallb (fun c => negb (N.eqb c sep)) a = true -> JS.split sep a = [a].
Proof.
  induction a as [|c a IH]; simpl; [reflexivity|].
  intros H. apply andb_true_iff in H as [Hc H]. apply negb_true_iff in Hc.
  now rewrite Hc, IH.
Qed.

Lemma split_app_sep (sep : N) (a r : jsstring) :
  forallb (fun c => negb (N.eqb c sep)) a = true ->
  JS.split sep (a ++ sep :: r) = a :: JS.split sep r.
Proof.
  induction a as [|c a IH]; simpl; intros H.
  - now rewrite N.eqb_refl.
  - apply andb_true_iff in H as [Hc H]. apply negb_true_iff in Hc.
    now rewrite Hc, IH.
Qed.

Lemma split_join (sep : N) (parts : list jsstring) :
  parts <> [] ->
  Forall (fun p => forallb (fun c => negb (N.eqb c sep)) p = true) parts ->
  JS.split sep (JS.join [sep] parts) = parts.
Proof.
  induction parts as [|p ps IH]; [congruence|]. intros _ H.
  inversion H as [|? ? Hp Hps]; subst.
  destruct ps as [|q ps]; simpl.
  - now apply split_no_sep.
  - rewrite split_app_sep by exact Hp. f_equal. apply IH; [discriminate|exact Hps].
Qed.

Lemma trimStart_nonwhite (c : N) (r : jsstring) :
  JS.isWhiteSpace c = false -> JS.trimStart (c :: r) = c :: r.
Proof. simpl. now intros ->. Qed.

Lemma trimStart_app (a b : jsstring) :
  a <> [] -> JS.trimStart a = a -> JS.trimStart (a ++ b) = a ++ b.
Proof.
  destruct a as [|c a]; [congruence|]. intros _ H.
  assert (W : JS.isWhiteSpace c = false).
  { destruct (JS.isWhiteSpace c) eqn:E; [|reflexivity]. exfalso.
    simpl in H. rewrite E in H.
    assert (L : forall s, length (JS.trimStart s) <= length s).
    { induction s as [|x s IHs]; simpl; [lia|].
      destruct (JS.isWhiteSpace x); simpl; lia. }
    specialize (L a). rewrite H in L. simpl in L. lia. }
  simpl. now rewrite W.
Qed.

Lemma trimEnd_app (x d : jsstring) :
  d <> [] -> JS.trimEnd d = d -> JS.trimEnd (x ++ d) = x ++ d.
Proof.
  unfold JS.trimEnd. intros Hd H.
  rewrite rev_app_distr, trimStart_app.
  - now rewrite <- rev_app_distr, rev_involutive.
  - intros E. apply Hd. rewrite <- (rev_involutive d), E. reflexivity.
  - rewrite <- (rev_involutive (JS.trimStart (rev d))), H. reflexivity.
Qed.

Lemma trim_fixed (d : jsstring) :
  JS.trim d = d -> JS.trimStart d = d /\ JS.trimEnd d = d.
Proof.
  intros H. assert (S : JS.trimStart d = d).
  { destruct d as [|c r]; [reflexivity|].
    apply trimStart_nonwhite. exact (trim_head _ _ _ H). }
  split; [exact S|]. unfold JS.trim in H. now rewrite S in H.
Qed.

Lemma trim_white_cons (c : N) (d : jsstring) :
  JS.isWhiteSpace c = true -> JS.trim (c :: d) = JS.trim d.
Proof. unfold JS.trim. simpl. now intros ->. Qed.

Lemma trim_app_fixed (x d : jsstring) :
  x <> [] -> JS.trimStart x = x -> d <> [] -> JS.trimEnd d = d ->
  JS.trim (x ++ d) = x ++ d.
Proof.
  intros Hx Sx Hd Ed. unfold JS.trim.
  rewrite (trimStart_app _ _ Hx Sx). now apply trimEnd_app.
Qed.

Lemma trimmed_true (s : jsstring) : trimmed s = true <-> JS.trim s = s.
Proof. apply eqb_eq. Qed.

Lemma js_equals : js "=" = [JS.EQUALS].
Proof. reflexivity. Qed.

Lemma js_hash_space : js "# " = [JS.HASH; 32%N].
Proof. reflexivity. Qed.

Lemma writableKey_inv (k : jsstring) :
  writableKey k = true ->
  JS.trim k = k /\ k <> [] /\ noLineFeed k = true
  /\ forallb (fun c => negb (isSeparator c)) k = true /\ isComment k = false.
Proof.
  unfold writableKey. rewrite !andb_true_iff, trimmed_true, !negb_true_iff.
  rewrite isEmpty_false. tauto.
Qed.

Lemma writableText_inv (s : jsstring) :
  writableText s = true -> JS.trim s = s /\ noLineFeed s = true.
Proof. unfold writableText. rewrite andb_true_iff, trimmed_true. tauto. Qed.

(** A written [key=value] line parses back to the key and the value. *)
Lemma parseKeyValue_written (k v : jsstring) :
  writableKey k = true -> writableText v = true ->
  JS.trim (k ++ js "=" ++ v) = k ++ js "=" ++ v
  /\ isComment (k ++ js "=" ++ v) = false
  /\ parseKeyValue (k ++ js "=" ++ v) = Some (k, v).
Proof.
  intros Hk Hv. apply writableKey_inv in Hk as (Tk & Nk & _ & Sk & Ck).
  apply writableText_inv in Hv as (Tv & _).
  destruct (trim_fixed _ Tk) as [Sk' Ek]. destruct (trim_fixed _ Tv) as [Sv' Ev].
  rewrite js_equals.
  assert (T : JS.trim (k ++ [JS.EQUALS] ++ v) = k ++ [JS.EQUALS] ++ v).
  { destruct v as [|c v].
    - apply trim_app_fixed; auto; discriminate.
    - rewrite app_assoc. apply trim_app_fixed; auto; try discriminate.
      + destruct k; [congruence|discriminate].
      + now apply trimStart_app. }
  assert (C : isComment (k ++ [JS.EQUALS] ++ v) = false).
  { destruct k; [congruence|exact Ck]. }
  split; [exact T|]. split; [exact C|].
  unfold parseKeyValue. rewrite T, C.
  destruct (JS.isEmpty (k ++ [JS.EQUALS] ++ v)) eqn:E.
  { apply isEmpty_true in E. destruct k; [congruence|discriminate]. }
  simpl app. rewrite (@search_first isSeparator k v JS.EQUALS Sk eq_refl).
  unfold JS.substringTo, JS.substringFrom.
  rewrite firstn_app, Nat.sub_diag, firstn_all, firstn_O, app_nil_r, Tk.
  replace (skipn (S (length k)) (k ++ JS.EQUALS :: v)) with v.
  - rewrite Tv. destruct (JS.isEmpty k) eqn:Ek'; [|reflexivity].
    apply isEmpty_true in Ek'. congruence.
  - clear. induction k; simpl; auto.
Qed.

(** A written [# description] line is a comment whose text is the
    description. *)
Lemma comment_written (d : jsstring) :
  d <> [] -> JS.trim d = d ->
  JS.trim (js "# " ++ d) = js "# " ++ d
  /\ parseKeyValue (js "# " ++ d) = None
  /\ descriptionFrom (Some (js "# " ++ d)) = d.
Proof.
  intros Nd Td. destruct (trim_fixed _ Td) as [Sd Ed]. rewrite js_hash_space.
  assert (T : JS.trim ([JS.HASH; 32%N] ++ d) = [JS.HASH; 32%N] ++ d).
  { apply trim_app_fixed; auto; discriminate. }
  split; [exact T|]. split.
  - unfold parseKeyValue. rewrite T. reflexivity.
  - unfold descriptionFrom. rewrite T. simpl.
    unfold JS.substringFrom. simpl. rewrite trim_white_cons by reflexivity.
    exact Td.
Qed.

Lemma scan_blank prev n (rest : list jsstring) :
  scan prev n ([] :: rest) = scan prev (S n) rest.
Proof. reflexivity. Qed.

Lemma scan_comment prev n (d : jsstring) (rest : list jsstring) :
  d <> [] -> JS.trim d = d ->
  scan prev n ((js "# " ++ d) :: rest) = scan (Some (js "# " ++ d)) (S n) rest.
Proof.
  intros Nd Td. destruct (comment_written _ Nd Td) as (T & P & _).
  cbn [scan]. rewrite P, T. reflexivity.
Qed.

Lemma scan_keyValue prev n (k v : jsstring) (rest : list jsstring) :
  writableKey k = true -> writableText v = true ->
  scan prev n ((k ++ js "=" ++ v) :: rest)
  = mkParsed k v (descriptionFrom prev) n
    :: scan (Some (k ++ js "=" ++ v)) (S n) rest.
Proof.
  intros Hk Hv. destruct (parseKeyValue_written _ _ Hk Hv) as (T & C & P).
  cbn [scan]. rewrite P, T.
  destruct (JS.isEmpty (k ++ js "=" ++ v)) eqn:E; [|reflexivity].
  apply isEmpty_true in E. apply writableKey_inv in Hk as (_ & Nk & _).
  destruct k; [congruence|discriminate].
Qed.

Lemma descriptionFrom_keyValue (k v : jsstring) :
  writableKey k = true -> writableText v = true ->
  descriptionFrom (Some (k ++ js "=" ++ v)) = [].
Proof.
  intros Hk Hv. destruct (parseKeyValue_written _ _ Hk Hv) as (T & C & _).
  unfold descriptionFrom. now rewrite T, C.
Qed.

Lemma readBack_nil (props : list Property) :
  readBack [] props = map tripleOfProperty props.
Proof.
  destruct props as [|p rest]; [reflexivity|]. simpl. unfold tripleOfProperty.
  unfold described, JS.truthy, JS.orDefault, JS.orElse.
  destruct (description p) as [[|c d]|]; reflexivity.
Qed.

Lemma writable_inv (p : Property) :
  writable p = true ->
  writableKey (key p) = true /\ writableText (value p) = true
  /\ writableText (JS.orDefault (description p) []) = true.
Proof. unfold writable. rewrite !andb_true_iff. tauto. Qed.

Lemma emitProperties_cons last (p : Property) (rest : list Property) :
  exists spacing last',
    (spacing = [] \/ spacing = [[]])
    /\ emitProperties last (p :: rest)
       = spacing
         ++ (if JS.truthy (description p)
             then [js "# " ++ JS.orDefault (description p) []] else [])
         ++ [key p ++ js "=" ++ value p; []]
         ++ emitProperties last' rest.
Proof.
  cbn [emitProperties].
  destruct (_ && _); eexists; eexists; (split; [|reflexivity]); auto.
Qed.

(** Scanning the lines written for a list of properties. *)
Lemma scan_emitProperties (props : list Property) :
  Forall (fun p => writable p = true) props ->
  forall prev n last,
    map tripleOfParsed (scan prev n (emitProperties last props))
    = readBack (descriptionFrom prev) props.
Proof.
  induction 1 as [|p rest Hp Hrest IH]; intros prev n last; [reflexivity|].
  apply writable_inv in Hp as (Hk & Hv & Hd).
  destruct (emitProperties_cons last p rest) as (spacing & last' & Hsp & ->).
  assert (K : forall m prev0,
            map tripleOfParsed
              (scan prev0 m ([key p ++ js "=" ++ value p; []]
                             ++ emitProperties last' rest))
            = (key p, value p, descriptionFrom prev0) :: map tripleOfProperty rest).
  { intros m prev0. cbn [app]. rewrite (scan_keyValue _ _ _ _ _ Hk Hv), scan_blank.
    cbn [map]. rewrite IH, (descriptionFrom_keyValue _ _ Hk Hv), readBack_nil.
    reflexivity. }
  assert (D : forall m,
            map tripleOfParsed
              (scan prev m
                 ((if JS.truthy (description p)
                   then [js "# " ++ JS.orDefault (description p) []] else [])
                  ++ [key p ++ js "=" ++ value p; []]
                  ++ emitProperties last' rest))
            = readBack (descriptionFrom prev) (p :: rest)).
  { intros m. cbn [readBack]. unfold described.
    destruct (JS.truthy (description p)) eqn:T.
    - apply writableText_inv in Hd as (Td & _).
      assert (Nd : JS.orDefault (description p) [] <> []).
      { unfold JS.truthy in T. destruct (description p) as [d|]; [|discriminate].
        simpl. unfold JS.orElse. destruct (JS.isEmpty d) eqn:E; [discriminate|].
        now apply isEmpty_false. }
      change ([js "# " ++ JS.orDefault (description p) []] ++ ?X)
        with ((js "# " ++ JS.orDefault (description p) []) :: X).
      rewrite (scan_comment _ _ _ _ Nd Td), K.
      destruct (comment_written _ Nd Td) as (_ & _ & ->). reflexivity.
    - apply K. }
  destruct Hsp as [-> | ->]; [apply D|].
  change ([[]] ++ ?X) with (@nil N :: X). rewrite scan_blank. apply D.
Qed.

Lemma hash_line (r : jsstring) :
  parseKeyValue (JS.HASH :: r) = None
  /\ JS.isEmpty (JS.trim (JS.HASH :: r)) = false
  /\ isComment (JS.trim (JS.HASH :: r)) = true.
Proof.
  assert (T : exists r', JS.trim (JS.HASH :: r) = JS.HASH :: r').
  { unfold JS.trim, JS.trimEnd. simpl JS.trimStart at 2. simpl rev.
    assert (K : forall u, exists u', JS.trimStart (u ++ [JS.HASH]) = u' ++ [JS.HASH]).
    { induction u as [|y u IH]; simpl.
      - now exists [].
      - destruct (JS.isWhiteSpace y); [exact IH|]. now exists (y :: u). }
    destruct (K (rev r)) as [u' ->]. rewrite rev_app_distr. simpl. eauto. }
  destruct T as [r' T]. unfold parseKeyValue. rewrite T. simpl. auto.
Qed.

Lemma scan_hash prev n (r : jsstring) (rest : list jsstring) :
  scan prev n ((JS.HASH :: r) :: rest) = scan (Some (JS.HASH :: r)) (S n) rest.
Proof.
  destruct (hash_line r) as (P & E & _). cbn [scan]. now rewrite P, E.
Qed.

Lemma scan_header (now : Date) (body : list jsstring) :
  scan None 1 (headerLines now ++ body)
  = scan (Some (js "# Environment Properties")) 4 body.
Proof.
  unfold headerLines.
  change (js "# Generated on " ++ now) with (JS.HASH :: (js " Generated on " ++ now)).
  change (js "# Environment Properties") with (JS.HASH :: js " Environment Properties").
  cbn [app]. now rewrite !scan_hash, scan_blank.
Qed.

Lemma insertSorted_perm lc (x : Property) (l : list Property) :
  Permutation (insertSorted lc x l) (x :: l).
Proof.
  induction l as [|y r IH]; simpl; [reflexivity|].
  destruct (compareProperties lc x y <=? 0)%Z; [reflexivity|].
  rewrite IH. apply perm_swap.
Qed.

Lemma sortProperties_perm lc (l : list Property) :
  Permutation (sortProperties lc l) l.
Proof.
  induction l as [|x l IH]; simpl; [reflexivity|].
  rewrite insertSorted_perm. now constructor.
Qed.

Lemma noLineFeed_app (a b : jsstring) :
  noLineFeed (a ++ b) = noLineFeed a && noLineFeed b.
Proof. apply forallb_app. Qed.

Lemma emitProperties_noLineFeed (props : list Property) :
  Forall (fun p => writable p = true) props ->
  forall last, Forall (fun l => noLineFeed l = true) (emitProperties last props).
Proof.
  induction 1 as [|p rest Hp Hrest IH]; intros last; [constructor|].
  apply writable_inv in Hp as (Hk & Hv & Hd).
  apply writableKey_inv in Hk as (_ & _ & Lk & _).
  apply writableText_inv in Hv as (_ & Lv).
  apply writableText_inv in Hd as (_ & Ld).
  destruct (emitProperties_cons last p rest) as (spacing & last' & Hsp & ->).
  apply Forall_app; split; [|apply Forall_app; split; [|apply Forall_app; split]].
  - destruct Hsp as [-> | ->]; repeat constructor.
  - destruct (JS.truthy (description p)); repeat constructor.
    now rewrite noLineFeed_app, Ld.
  - repeat constructor. now rewrite !noLineFeed_app, Lk, Lv.
  - apply IH.
Qed.

Lemma generatedLines_noLineFeed lc (now : Date) (props : list Property) :
  noLineFeed now = true ->
  Forall (fun p => writable p = true) props ->
  Forall (fun l => forallb (fun c => negb (N.eqb c JS.LF)) l = true)
         (generatedLines lc now props).
Proof.
  intros Hnow Hprops. unfold generatedLines, headerLines.
  apply Forall_app. split.
  - repeat constructor. change (noLineFeed (js "# Generated on " ++ now) = true).
    now rewrite noLineFeed_app, Hnow.
  - apply emitProperties_noLineFeed.
    eapply Permutation_Forall; [|exact Hprops].
    symmetry. apply sortProperties_perm.
Qed.

Lemma forallb_Forall {A} (f : A -> bool) (l : list A) :
  forallb f l = true -> Forall (fun x => f x = true) l.
Proof. intros H. apply Forall_forall. now apply forallb_forall. Qed.

Lemma readBack_described (inherited : jsstring) (props : list Property) :
  forallb described props = true ->
  readBack inherited props = map tripleOfProperty props.
Proof.
  destruct props as [|p rest]; [reflexivity|]. simpl.
  intros H. apply andb_true_iff in H as [-> _]. reflexivity.
Qed.

Lemma orElse_nil_r (s : jsstring) : JS.orElse s [] = s.
Proof. now destruct s. Qed.

(** *** What the parser returns can be written *)

Lemma trimStart_suffix (s : jsstring) : exists pre, s = pre ++ JS.trimStart s.
Proof.
  induction s as [|c r [pre IH]]; [now exists []|]. simpl.
  destruct (JS.isWhiteSpace c); [|now exists []].
  exists (c :: pre). simpl. now rewrite <- IH.
Qed.

Lemma forallb_trimStart (P : N -> bool) (s : jsstring) :
  forallb P s = true -> forallb P (JS.trimStart s) = true.
Proof.
  intros H. destruct (trimStart_suffix s) as [pre E]. rewrite E in H.
  rewrite forallb_app in H. now apply andb_true_iff in H.
Qed.

Lemma forallb_trim (P : N -> bool) (s : jsstring) :
  forallb P s = true -> forallb P (JS.trim s) = true.
Proof.
  intros H. unfold JS.trim, JS.trimEnd.
  rewrite forallb_rev. apply forallb_trimStart. rewrite forallb_rev.
  now apply forallb_trimStart.
Qed.

Lemma forallb_firstn (P : N -> bool) (n : nat) (s : jsstring) :
  forallb P s = true -> forallb P (firstn n s) = true.
Proof.
  intros H. rewrite <- (firstn_skipn n s), forallb_app in H.
  now apply andb_true_iff in H.
Qed.

Lemma forallb_skipn (P : N -> bool) (n : nat) (s : jsstring) :
  forallb P s = true -> forallb P (skipn n s) = true.
Proof.
  intros H. rewrite <- (firstn_skipn n s), forallb_app in H.
  now apply andb_true_iff in H.
Qed.

Lemma trimStart_trim (s : jsstring) : JS.trimStart (JS.trim s) = JS.trim s.
Proof.
  destruct (JS.trim s) as [|c r] eqn:E; [reflexivity|].
  apply trimStart_nonwhite. exact (trim_head _ _ _ E).
Qed.

Lemma trim_idem (s : jsstring) : JS.trim (JS.trim s) = JS.trim s.
Proof.
  unfold JS.trim at 1. rewrite trimStart_trim. unfold JS.trim, JS.trimEnd.
  now rewrite rev_involutive, trimStart_idem.
Qed.

Lemma trim_cons_nonwhite (c : N) (r : jsstring) :
  JS.isWhiteSpace c = false -> exists r', JS.trim (c :: r) = c :: r'.
Proof.
  intros W. unfold JS.trim, JS.trimEnd. rewrite (trimStart_nonwhite c r W).
  simpl rev.
  assert (K : forall u, exists u', JS.trimStart (u ++ [c]) = u' ++ [c]).
  { induction u as [|y u IH]; simpl.
    - rewrite W. now exists [].
    - destruct (JS.isWhiteSpace y); [exact IH|]. now exists (y :: u). }
  destruct (K (rev r)) as [u' ->]. rewrite rev_app_distr. simpl. eauto.
Qed.

Lemma split_noLineFeed (content : jsstring) :
  Forall (fun l => noLineFeed l = true) (JS.split JS.LF content).
Proof.
  induction content as [|c r IH]; [repeat constructor|]. cbn [JS.split].
  destruct (N.eqb c JS.LF) eqn:E.
  - constructor; [reflexivity|exact IH].
  - destruct (JS.split JS.LF r) as [|l ls]; [repeat constructor; simpl; now rewrite E|].
    inversion IH as [|? ? Hl Hls]; subst. constructor; [|exact Hls].
    unfold noLineFeed in *. simpl. now rewrite E.
Qed.

Lemma parseKeyValue_writable (raw k v : jsstring) :
  noLineFeed raw = true ->
  parseKeyValue raw = Some (k, v) ->
  writableKey k = true /\ writableText v = true.
Proof.
  intros L. unfold parseKeyValue.
  destruct (JS.isEmpty (JS.trim raw)) eqn:E; [discriminate|].
  destruct (isComment (JS.trim raw)) eqn:C; [discriminate|].
  destruct (JS.search isSeparator (JS.trim raw)) as [n|] eqn:Sn; [|discriminate].
  destruct (JS.isEmpty (JS.trim (JS.substringTo n (JS.trim raw)))) eqn:K; [discriminate|].
  intros H. injection H as <- <-.
  pose proof (forallb_trim _ _ L) as Lt. fold (noLineFeed (JS.trim raw)) in Lt.
  unfold JS.substringTo, JS.substringFrom in *.
  split.
  - unfold writableKey. rewrite !andb_true_iff. repeat split.
    + apply trimmed_true, trim_idem.
    + now rewrite K.
    + apply forallb_trim, forallb_firstn. exact Lt.
    + apply forallb_trim. destruct (search_some _ _ _ Sn) as (c & r & _ & _ & F).
      exact F.
    + apply negb_true_iff.
      destruct (JS.trim raw) as [|c r] eqn:T; [discriminate|].
      pose proof (trim_head _ _ _ T) as W.
      destruct n as [|n]; [discriminate K|]. cbn [firstn].
      destruct (trim_cons_nonwhite c (firstn n r) W) as [r' ->]. exact C.
  - unfold writableText. rewrite andb_true_iff. split.
    + apply trimmed_true, trim_idem.
    + apply forallb_trim. exact (forallb_skipn _ (S n) _ Lt).
Qed.

Lemma descriptionFrom_writable (prev : option jsstring) :
  match prev with Some raw => noLineFeed raw = true | None => True end ->
  writableText (descriptionFrom prev) = true.
Proof.
  unfold descriptionFrom. destruct prev as [raw|]; [|reflexivity]. intros L.
  destruct (isComment (JS.trim raw)); [|reflexivity].
  unfold writableText. rewrite andb_true_iff. split.
  - apply trimmed_true, trim_idem.
  - apply forallb_trim, forallb_skipn, forallb_trim. exact L.
Qed.

Lemma scan_writable (lines : list jsstring) :
  Forall (fun l => noLineFeed l = true) lines ->
  forall prev n,
    match prev with Some raw => noLineFeed raw = true | None => True end ->
    Forall writableEntry (scan prev n lines).
Proof.
  induction 1 as [|raw rest Hraw Hrest IH]; intros prev n Hprev; [constructor|].
  cbn [scan].
  assert (Hnext : match (if JS.isEmpty (JS.trim raw) then prev else Some raw) with
                  | Some r => noLineFeed r = true
                  | None => True
                  end).
  { destruct (JS.isEmpty (JS.trim raw)); [exact Hprev|exact Hraw]. }
  destruct (parseKeyValue raw) as [[k v]|] eqn:E; [|now apply IH].
  constructor; [|now apply IH].
  destruct (parseKeyValue_writable raw k v Hraw E) as [Hk Hv].
  repeat split; [exact Hk|exact Hv|now apply descriptionFrom_writable].
Qed.

Lemma parsed_writable (content : jsstring) :
  Forall writableEntry (parsePropertiesFileWithDescriptions content).
Proof.
  unfold parsePropertiesFileWithDescriptions. rewrite parseLines_scan.
  apply scan_writable; [apply split_noLineFeed|exact I].
Qed.

Lemma convertFrom_triples (i : nat) (now : Date) (environment : jsstring)
  (environmentOrder : Z) (component path : jsstring) (fileOrder : Z)
  (parsed : list ParsedProperty) :
  map tripleOfProperty
    (FolderInitializationService.convertFrom i now environment environmentOrder
       component path fileOrder parsed)
  = map (tripleLoadedFrom path) parsed.
Proof.
  revert i. induction parsed as [|e rest IH]; intros i; [reflexivity|].
  cbn [FolderInitializationService.convertFrom map]. rewrite IH. f_equal.
  unfold tripleOfProperty, tripleLoadedFrom. cbn [key value description JS.orDefault].
  now rewrite orElse_nil_r.
Qed.

Lemma convertFrom_writable (i : nat) (now : Date) (environment : jsstring)
  (environmentOrder : Z) (component path : jsstring) (fileOrder : Z)
  (parsed : list ParsedProperty) :
  writableText (js "Loaded from " ++ path) = true ->
  Forall writableEntry parsed ->
  forallb (fun p => writable p && described p)
    (FolderInitializationService.convertFrom i now environment environmentOrder
       component path fileOrder parsed) = true.
Proof.
  intros Hpath H. revert i.
  induction H as [|e rest (Hk & Hv & Hd) _ IH]; intros i; [reflexivity|].
  cbn [FolderInitializationService.convertFrom forallb]. rewrite IH, andb_true_r.
  unfold writable, described.
  cbn [key value description JS.orDefault JS.truthy]. rewrite orElse_nil_r, Hk, Hv.
  unfold JS.orElse. destruct (JS.isEmpty (p_description e)) eqn:E.
  - now rewrite Hpath.
  - now rewrite Hd, E.
Qed.

Lemma written_text_parses_back lc (now : Date) (props : list Property) :
  noLineFeed now = true ->
  Forall (fun p => writable p = true) props ->
  map tripleOfParsed
      (parsePropertiesFileWithDescriptions
         (generatePropertiesFileContent lc now props))
  = readBack (js "Environment Properties") (sortProperties lc props).
Proof.
  intros Hnow Hprops.
  unfold parsePropertiesFileWithDescriptions, generatePropertiesFileContent.
  rewrite split_join.
  - rewrite parseLines_scan. unfold generatedLines.
    rewrite scan_header, scan_emitProperties.
    + reflexivity.
    + eapply Permutation_Forall; [|exact Hprops].
      symmetry. apply sortProperties_perm.
  - discriminate.
  - now apply generatedLines_noLineFeed.
Qed.

Lemma described_text_parses_back lc (now : Date) (props : list Property) :
  noLineFeed now = true ->
  forallb (fun p => writable p && described p) props = true ->
  Permutation
    (map tripleOfParsed
       (parsePropertiesFileWithDescriptions
          (generatePropertiesFileContent lc now props)))
    (map tripleOfProperty props).
Proof.
  intros Hnow H. rewrite forallb_forall in H.
  rewrite written_text_parses_back, readBack_described.
  - apply Permutation_map, sortProperties_perm.
  - apply forallb_forall. intros p Hp.
    apply (Permutation_in _ (sortProperties_perm lc props)) in Hp.
    apply H in Hp. now apply andb_true_iff in Hp.
  - exact Hnow.
  - apply Forall_forall. intros p Hp. apply H in Hp.
    now apply andb_true_iff in Hp.
Qed.

(** C3, amended. For every list of properties whose keys, values and
    descriptions the text format can carry (trimmed, on one line; keys not
    empty, without [=] or [:], not starting with [#] or [!]), writing the
    file and parsing it back yields the triples of the input in the order
    written, except that a property written first without description
    comes back described by the header comment, [Environment Properties].
    When every property has a description, the triples parsed back are a
    rearrangement of the triples of the input. And for every input text:
    parsing it, turning the entries into properties as the folder loader
    does (an entry without description is described as loaded from its
    file), writing these and parsing again yields a rearrangement of the
    triples parsed first, with that default description filled in. *)
Theorem written_file_parses_back lc (now : Date) (props : list Property) :
  noLineFeed now = true ->
  forallb writable props = true ->
  map tripleOfParsed
      (parsePropertiesFileWithDescriptions
         (generatePropertiesFileContent lc now props))
  = readBack (js "Environment Properties") (sortProperties lc props)
  /\ (forallb described props = true ->
      Permutation
        (map tripleOfParsed
           (parsePropertiesFileWithDescriptions
              (generatePropertiesFileContent lc now props)))
        (map tripleOfProperty props))
  /\ (forall (content : jsstring) (loaded : Date) (environment : jsstring)
        (environmentOrder : Z) (component path : jsstring) (fileOrder : Z),
      writableText (js "Loaded from " ++ path) = true ->
      Permutation
        (map tripleOfParsed
           (parsePropertiesFileWithDescriptions
              (generatePropertiesFileContent lc now
                 (FolderInitializationService.convertFile loaded environment
                    environmentOrder component path fileOrder
                    (parsePropertiesFileWithDescriptions content)))))
        (map (tripleLoadedFrom path)
           (parsePropertiesFileWithDescriptions content))).
Proof.
  intros Hnow Hprops. split; [|split].
  - apply written_text_parses_back; [exact Hnow|].
    now apply forallb_Forall in Hprops.
  - intros Hd. apply described_text_parses_back; [exact Hnow|].
    rewrite forallb_forall in *. intros p Hp.
    now rewrite (Hprops p Hp), (Hd p Hp).
  - intros content loaded environment environmentOrder component path fileOrder
      Hpath.
    rewrite <- (convertFrom_triples 0 loaded environment environmentOrder
                  component path fileOrder).
    apply described_text_parses_back; [exact Hnow|].
    apply convertFrom_writable; [exact Hpath|apply parsed_writable].
Qed.

Lemma written_file_parses_back_witness :
  map tripleOfParsed
      (parsePropertiesFileWithDescriptions
         (generatePropertiesFileContent Samples.ordinalCompare Samples.noon
            [Samples.dbUser; Samples.dbUrl]))
  = [tripleOfProperty Samples.dbUrl; tripleOfProperty Samples.dbUser]
  /\ Permutation
       (map tripleOfParsed
          (parsePropertiesFileWithDescriptions
             (generatePropertiesFileContent Samples.ordinalCompare Samples.noon
                (FolderInitializationService.convertFile Samples.noon (js "dev") 0
                   (js "app") (js "dev/app.properties") 0
                   (parsePropertiesFileWithDescriptions Samples.loadedText)))))
       [(js "db.user", js "admin", js "user of the database");
        (js "db.url", js "jdbc:duckdb", js "Loaded from dev/app.properties")].
Proof.
  destruct (written_file_parses_back Samples.ordinalCompare Samples.noon
              [Samples.dbUser; Samples.dbUrl] eq_refl eq_refl) as (E & _ & L).
  split; [exact E|].
  exact (L Samples.loadedText Samples.noon (js "dev") 0%Z (js "app")
           (js "dev/app.properties") 0%Z eq_refl).
Defined.

(** C3 as stated fails: the property [a=b] without description, written
    to a file and parsed back, comes back with the description
    [Environment Properties]; its own triple, with the empty description,
    is not among the parsed ones. *)
Lemma written_file_adopts_header :
  map tripleOfProperty [Samples.plainProperty] = [(js "a", js "b", [])]
  /\ map tripleOfParsed
       (parsePropertiesFileWithDescriptions
          (generatePropertiesFileContent Samples.ordinalCompare Samples.noon
             [Samples.plainProperty]))
     = [(js "a", js "b", js "Environment Properties")]
  /\ ~ In (js "a", js "b", [])
         (map tripleOfParsed
            (parsePropertiesFileWithDescriptions
               (generatePropertiesFileContent Samples.ordinalCompare Samples.noon
                  [Samples.plainProperty]))).
Proof.
  split; [reflexivity|]. split; [reflexivity|].
  intros [H|[]]. discriminate H.
Qed.

(** ** JSON: what is written is read back *)

Import JSON.

Lemma json_ind (P : json -> Prop) :
  P JNull ->
  (forall b, P (JBool b)) ->
  (forall m e, P (JNumber m e)) ->
  (forall s, P (JString s)) ->
  (forall items, Forall P items -> P (JArray items)) ->
  (forall members, Forall (fun kv => P (snd kv)) members -> P (JObject members)) ->
  forall v, P v.
Proof.
  intros Hnull Hbool Hnum Hstr Harr Hobj.
  fix IH 1. intros [ | b | m e | s | items | members ].
  - exact Hnull.
  - apply Hbool.
  - apply Hnum.
  - apply Hstr.
  - apply Harr. induction items as [|x items IHitems]; constructor.
    + apply IH.
    + exact IHitems.
  - apply Hobj. induction members as [|[k x] members IHmembers]; constructor.
    + apply IH.
    + exact IHmembers.
Qed.

Lemma stringify_array (x : json) (rest : list json) :
  stringifyValue (JArray (x :: rest)) = 91%N :: stringifyValue x ++ moreItems rest.
Proof.
  reflexivity.
Qed.

Lemma stringify_object k (x : json) (rest : list (jsstring * json)) :
  stringifyValue (JObject ((k, x) :: rest))
  = 123%N :: quote k ++ 58%N :: stringifyValue x ++ moreMembers rest.
Proof.
  reflexivity.
Qed.

Lemma size_array (items : list json) : size (JArray items) = S (sizeItems items).
Proof.
  reflexivity.
Qed.

Lemma size_object (members : list (jsstring * json)) :
  size (JObject members) = S (sizeMembers members).
Proof.
  reflexivity.
Qed.

Lemma size_positive (v : json) : 1 <= size v.
Proof. destruct v; cbn [size]; lia. Qed.

(** *** Decimal digits *)

Lemma readDigits_units (u : Decimal.uint) (rest : jsstring) :
  digitsEnd rest -> readDigits (JS.unitsOfUint u ++ rest) = (u, rest).
Proof.
  intros E. induction u; cbn [JS.unitsOfUint app readDigits];
    try (rewrite IHu; reflexivity).
  destruct rest as [|c r]; [reflexivity|]. cbn [readDigits].
  unfold digitsEnd, isDigit in E. now rewrite E.
Qed.

Lemma units_head (u : Decimal.uint) :
  u <> Decimal.Nil ->
  exists c t, JS.unitsOfUint u = c :: t /\ isDigit c = true.
Proof. destruct u; [congruence| | | | | | | | | | ]; intros _; eexists; eexists; split; reflexivity. Qed.

Lemma nzhead_shape (d : Decimal.uint) :
  match Decimal.nzhead d with Decimal.D0 _ => False | _ => True end.
Proof. induction d; simpl; auto. Qed.

Lemma unorm_shape (d : Decimal.uint) :
  match Decimal.unorm d with
  | Decimal.Nil => False
  | Decimal.D0 Decimal.Nil => True
  | Decimal.D0 _ => False
  | _ => True
  end.
Proof.
  unfold Decimal.unorm. pose proof (nzhead_shape d) as H.
  destruct (Decimal.nzhead d); simpl; auto; contradiction.
Qed.

Lemma to_uint_shape (n : N) :
  match N.to_uint n with
  | Decimal.Nil => False
  | Decimal.D0 Decimal.Nil => True
  | Decimal.D0 _ => False
  | _ => True
  end.
Proof.
  assert (E : N.to_uint n = Decimal.unorm (N.to_uint n)).
  { rewrite <- DecimalN.Unsigned.to_of. now rewrite DecimalN.Unsigned.of_to. }
  rewrite E. apply unorm_shape.
Qed.

Lemma readInteger_decimal (n : N) (rest : jsstring) :
  digitsEnd rest ->
  readInteger (JS.decimalN n ++ rest) = Some (N.to_uint n, rest).
Proof.
  intros E. unfold readInteger, JS.decimalN. rewrite readDigits_units by exact E.
  pose proof (to_uint_shape n) as S.
  destruct (N.to_uint n) as [|u|u|u|u|u|u|u|u|u|u]; try reflexivity; try contradiction.
  destruct u; try reflexivity; contradiction.
Qed.

Lemma decimalN_head (n : N) :
  exists c t, JS.decimalN n = c :: t /\ isDigit c = true.
Proof.
  apply units_head. pose proof (to_uint_shape n) as S.
  destruct (N.to_uint n); [contradiction|discriminate..].
Qed.


(** *** Numbers *)

Lemma terminated_digitsEnd (rest : jsstring) : terminated rest -> digitsEnd rest.
Proof. destruct rest as [|c r]; simpl; [auto|]. intros [->|[->| ->]]; reflexivity. Qed.

Lemma readDigits_decimal (n : N) (rest : jsstring) :
  digitsEnd rest ->
  exists u, readDigits (JS.decimalN n ++ rest) = (u, rest)
            /\ u <> Decimal.Nil /\ N.of_uint u = n.
Proof.
  intros E. exists (N.to_uint n). unfold JS.decimalN.
  rewrite readDigits_units by exact E. split; [reflexivity|]. split.
  - pose proof (to_uint_shape n) as S. destruct (N.to_uint n); [contradiction|discriminate..].
  - apply DecimalN.Unsigned.of_to.
Qed.

Lemma readSign_digit (plus : bool) (c : N) (t : jsstring) :
  isDigit c = true -> readSign plus (c :: t) = (false, c :: t).
Proof.
  unfold isDigit, readSign. intros H. apply andb_true_iff in H as [H1 H2].
  apply N.leb_le in H1, H2.
  rewrite (proj2 (N.eqb_neq c 45)) by lia.
  rewrite (proj2 (N.eqb_neq c 43)) by lia.
  now rewrite andb_false_r.
Qed.

Lemma readExponent_text (e : Z) (rest : jsstring) :
  terminated rest ->
  readExponent ((if Z.eqb e 0 then [] else 101%N :: JS.decimalZ e) ++ rest)
  = Some (e, rest).
Proof.
  intros T. pose proof (terminated_digitsEnd rest T) as D.
  destruct e as [|p|p]; cbn [Z.eqb app].
  - destruct rest as [|c r]; [reflexivity|]. cbn [readExponent].
    simpl in T. destruct T as [->|[->| ->]]; reflexivity.
  - cbn [readExponent N.eqb Pos.eqb orb JS.decimalZ Z.to_N].
    destruct (decimalN_head (Npos p)) as (c & t & Hc & Dc).
    destruct (readDigits_decimal (Npos p) rest D) as (u & Hu & Nu & Vu).
    rewrite Hc in *. cbn [app] in *. rewrite (readSign_digit true c _ Dc), Hu.
    destruct u; [congruence|rewrite Vu; reflexivity..].
  - cbn [readExponent N.eqb Pos.eqb orb JS.decimalZ app readSign].
    destruct (readDigits_decimal (Npos p) rest D) as (u & Hu & Nu & Vu).
    rewrite Hu. destruct u; [congruence|rewrite Vu; reflexivity..].
Qed.

Lemma readFraction_none (s : jsstring) :
  match s with [] => True | c :: _ => c <> 46%N end ->
  readFraction s = Some (Decimal.Nil, s).
Proof.
  destruct s as [|c r]; [reflexivity|]. intros H. cbn [readFraction].
  now rewrite (proj2 (N.eqb_neq c 46)).
Qed.

Lemma readNumber_text (m e : Z) (rest : jsstring) :
  terminated rest ->
  readNumber (numberText m e ++ rest) = Some (JNumber m e, rest).
Proof.
  intros T. unfold numberText. rewrite <- app_assoc.
  set (tail := (if Z.eqb e 0 then [] else 101%N :: JS.decimalZ e) ++ rest).
  assert (De : digitsEnd tail).
  { subst tail. destruct (Z.eqb e 0); [now apply terminated_digitsEnd|reflexivity]. }
  assert (Fe : readFraction tail = Some (Decimal.Nil, tail)).
  { apply readFraction_none. subst tail. destruct (Z.eqb e 0); cbn [app].
    - destruct rest as [|c r]; [exact I|]. simpl in T.
      destruct T as [->|[->| ->]]; discriminate.
    - discriminate. }
  assert (Ee : readExponent tail = Some (e, rest)) by (apply readExponent_text; exact T).
  unfold readNumber.
  assert (K : forall n : N,
             match readInteger (JS.decimalN n ++ tail) with
             | Some (whole, s2) =>
                 match readFraction s2 with
                 | Some (fraction, s3) =>
                     match readExponent s3 with
                     | Some (e0, s4) =>
                         Some (Z.of_N (N.of_uint (Decimal.app whole fraction)),
                               (e0 - Z.of_nat (digitCount fraction))%Z, s4)
                     | None => None
                     end
                 | None => None
                 end
             | None => None
             end = Some (Z.of_N n, e, rest)).
  { intros n. rewrite (readInteger_decimal n tail De), Fe, Ee.
    rewrite DecimalFacts.app_nil_r, DecimalN.Unsigned.of_to.
    cbn [digitCount Z.of_nat]. now rewrite Z.sub_0_r. }
  destruct m as [|p|p]; cbn [JS.decimalZ Z.to_N].
  - destruct (decimalN_head 0) as (c & t & Hc & Dc).
    specialize (K 0%N). rewrite Hc in *. cbn [app] in *.
    rewrite (readSign_digit false c _ Dc).
    destruct (readInteger (c :: t ++ tail)) as [[whole s2]|]; [|discriminate].
    destruct (readFraction s2) as [[fraction s3]|]; [|discriminate].
    destruct (readExponent s3) as [[e0 s4]|]; [|discriminate].
    injection K as K1 K2 K3. unfold signed. now rewrite K1, K2, K3.
  - destruct (decimalN_head (Npos p)) as (c & t & Hc & Dc).
    specialize (K (Npos p)). rewrite Hc in *. cbn [app] in *.
    rewrite (readSign_digit false c _ Dc).
    destruct (readInteger (c :: t ++ tail)) as [[whole s2]|]; [|discriminate].
    destruct (readFraction s2) as [[fraction s3]|]; [|discriminate].
    destruct (readExponent s3) as [[e0 s4]|]; [|discriminate].
    injection K as K1 K2 K3. unfold signed. now rewrite K1, K2, K3.
  - specialize (K (Npos p)). cbn [app readSign N.eqb Pos.eqb].
    destruct (readInteger (JS.decimalN (Npos p) ++ tail)) as [[whole s2]|]; [|discriminate].
    destruct (readFraction s2) as [[fraction s3]|]; [|discriminate].
    destruct (readExponent s3) as [[e0 s4]|]; [|discriminate].
    injection K as K1 K2 K3. unfold signed. now rewrite K1, K2, K3.
Qed.

(** *** Strings *)

Lemma hexValue_hexDigit (d : N) : (d < 16)%N -> hexValue (hexDigit d) = Some d.
Proof.
  intros H.
  assert (E : (d = 0 \/ d = 1 \/ d = 2 \/ d = 3 \/ d = 4 \/ d = 5 \/ d = 6
               \/ d = 7 \/ d = 8 \/ d = 9 \/ d = 10 \/ d = 11 \/ d = 12 \/ d = 13
               \/ d = 14 \/ d = 15)%N) by lia.
  repeat (destruct E as [->|E]; [reflexivity|]). now subst.
Qed.

Lemma hex4Value_escape (c : N) :
  (c < 65536)%N ->
  hex4Value (hexDigit ((c / 4096) mod 16)) (hexDigit ((c / 256) mod 16))
            (hexDigit ((c / 16) mod 16)) (hexDigit (c mod 16)) = Some c.
Proof.
  intros H. unfold hex4Value.
  rewrite !hexValue_hexDigit by (apply N.mod_lt; discriminate).
  f_equal. zify. Z.to_euclidean_division_equations. lia.
Qed.

Lemma readUnits_unicodeEscape (c : N) (t : jsstring) :
  (c < 65536)%N -> readUnits (unicodeEscape c ++ t) = consUnit c (readUnits t).
Proof.
  intros H. unfold unicodeEscape. cbn [app].
  change (readUnits (92 :: 117 :: ?a :: ?b :: ?x :: ?y :: t)%N)
    with (match hex4Value a b x y with
          | Some u => consUnit u (readUnits t)
          | None => None
          end).
  now rewrite hex4Value_escape.
Qed.

Lemma readUnits_plain (c : N) (t : jsstring) :
  (32 <= c)%N -> c <> 34%N -> c <> 92%N ->
  readUnits (c :: t) = consUnit c (readUnits t).
Proof.
  intros H1 H2 H3. cbn [readUnits].
  rewrite (proj2 (N.eqb_neq c 34)) by exact H2.
  rewrite (proj2 (N.eqb_neq c 92)) by exact H3.
  now rewrite (proj2 (N.ltb_ge c 32)) by exact H1.
Qed.

Lemma readUnits_escapeUnit (c : N) (t : jsstring) :
  readUnits (escapeUnit c ++ t) = consUnit c (readUnits t).
Proof.
  unfold escapeUnit.
  destruct (N.eqb_spec c 34) as [->|N34]; [reflexivity|].
  destruct (N.eqb_spec c 92) as [->|N92]; [reflexivity|].
  destruct (N.eqb_spec c 8) as [->|N8]; [reflexivity|].
  destruct (N.eqb_spec c 12) as [->|N12]; [reflexivity|].
  destruct (N.eqb_spec c 10) as [->|N10]; [reflexivity|].
  destruct (N.eqb_spec c 13) as [->|N13]; [reflexivity|].
  destruct (N.eqb_spec c 9) as [->|N9]; [reflexivity|].
  destruct (N.ltb_spec c 32) as [L|L].
  - apply readUnits_unicodeEscape. lia.
  - cbn [app]. now apply readUnits_plain.
Qed.

Lemma surrogate_range (c : N) :
  isLeadSurrogate c = true \/ isTrailSurrogate c = true ->
  (55296 <= c <= 57343)%N.
Proof.
  unfold isLeadSurrogate, isTrailSurrogate.
  rewrite !andb_true_iff, !N.leb_le. lia.
Qed.

(** A string literal is read back as the string it was written from. *)
Lemma readUnits_quoteUnits (s : jsstring) (rest : jsstring) :
  readUnits (quoteUnits s ++ 34%N :: rest) = Some (s, rest).
Proof.
  remember (length s) as n eqn:Hn. revert s Hn.
  induction n as [n IH] using lt_wf_ind. intros s Hn.
  destruct s as [|c r]; [reflexivity|]. subst n. cbn [quoteUnits].
  destruct (isLeadSurrogate c) eqn:Lead.
  - pose proof (surrogate_range c (or_introl Lead)) as Rc.
    destruct r as [|d r'].
    + rewrite readUnits_unicodeEscape by lia. reflexivity.
    + destruct (isTrailSurrogate d) eqn:Trail.
      * pose proof (surrogate_range d (or_intror Trail)) as Rd.
        cbn [app]. rewrite readUnits_plain by lia. rewrite readUnits_plain by lia.
        rewrite (IH (length r')); [reflexivity|simpl; lia|reflexivity].
      * rewrite <- app_assoc, readUnits_unicodeEscape by lia.
        rewrite (IH (length (d :: r'))); [reflexivity|simpl; lia|reflexivity].
  - destruct (isTrailSurrogate c) eqn:Trail.
    + pose proof (surrogate_range c (or_intror Trail)) as Rc.
      rewrite <- app_assoc, readUnits_unicodeEscape by lia.
      rewrite (IH (length r)); [reflexivity|simpl; lia|reflexivity].
    + rewrite <- app_assoc, readUnits_escapeUnit.
      rewrite (IH (length r)); [reflexivity|simpl; lia|reflexivity].
Qed.

(** *** Values *)

Lemma readValue_unfold (fuel : nat) (s : jsstring) :
  readValue (S fuel) s =
  match skipSpace s with
  | [] => None
  | c :: r =>
      if (c =? 34)%N then
        match readUnits r with
        | Some (str, rest) => Some (JString str, rest)
        | None => None
        end
      else if (c =? 91)%N then
        match skipSpace r with
        | d :: r' =>
            if (d =? 93)%N then Some (JArray [], r')
            else match readElements fuel r with
                 | Some (items, rest) => Some (JArray items, rest)
                 | None => None
                 end
        | [] => None
        end
      else if (c =? 123)%N then
        match skipSpace r with
        | d :: r' =>
            if (d =? 125)%N then Some (JObject [], r')
            else match readMembers fuel r with
                 | Some (members, rest) => Some (JObject members, rest)
                 | None => None
                 end
        | [] => None
        end
      else
        match stripPrefix (js "null") (c :: r) with
        | Some rest => Some (JNull, rest)
        | None =>
            match stripPrefix (js "true") (c :: r) with
            | Some rest => Some (JBool true, rest)
            | None =>
                match stripPrefix (js "false") (c :: r) with
                | Some rest => Some (JBool false, rest)
                | None => readNumber (c :: r)
                end
            end
        end
  end.
Proof. reflexivity. Qed.

Lemma readElements_unfold (fuel : nat) (s : jsstring) :
  readElements (S fuel) s =
  match readValue fuel s with
  | None => None
  | Some (x, s1) =>
      match skipSpace s1 with
      | c :: r =>
          if (c =? 93)%N then Some ([x], r)
          else if (c =? 44)%N then
            match readElements fuel r with
            | Some (items, rest) => Some (x :: items, rest)
            | None => None
            end
          else None
      | [] => None
      end
  end.
Proof. reflexivity. Qed.

Lemma readMembers_unfold (fuel : nat) (s : jsstring) :
  readMembers (S fuel) s =
  match skipSpace s with
  | q :: s0 =>
      if (q =? 34)%N then
        match readUnits s0 with
        | None => None
        | Some (k, s1) =>
            match skipSpace s1 with
            | colon :: s2 =>
                if (colon =? 58)%N then
                  match readValue fuel s2 with
                  | None => None
                  | Some (x, s3) =>
                      match skipSpace s3 with
                      | c :: r =>
                          if (c =? 125)%N then Some ([(k, x)], r)
                          else if (c =? 44)%N then
                            match readMembers fuel r with
                            | Some (members, rest) => Some ((k, x) :: members, rest)
                            | None => None
                            end
                          else None
                      | [] => None
                      end
                  end
                else None
            | [] => None
            end
        end
      else None
  | [] => None
  end.
Proof. reflexivity. Qed.

Lemma skipSpace_head (c : N) (r : jsstring) :
  isJsonSpace c = false -> skipSpace (c :: r) = c :: r.
Proof. simpl. now intros ->. Qed.

Lemma decimalZ_head (z : Z) :
  exists c t, JS.decimalZ z = c :: t /\ (c = 45%N \/ isDigit c = true).
Proof.
  destruct z as [|p|p]; cbn [JS.decimalZ].
  - destruct (decimalN_head (Z.to_N 0)) as (c & t & H & D). exists c, t. auto.
  - destruct (decimalN_head (Z.to_N (Zpos p))) as (c & t & H & D). exists c, t. auto.
  - exists 45%N, (JS.decimalN (Npos p)). auto.
Qed.

Lemma numberStart (c : N) :
  c = 45%N \/ isDigit c = true ->
  valueStart c /\ c <> 34%N /\ c <> 91%N /\ c <> 123%N
  /\ c <> 110%N /\ c <> 116%N /\ c <> 102%N.
Proof.
  unfold valueStart, isDigit, isJsonSpace. intros [->|H].
  - repeat split; discriminate.
  - apply andb_true_iff in H as [H1 H2]. apply N.leb_le in H1, H2.
    repeat split; try lia.
    rewrite !orb_false_iff, !N.eqb_neq. lia.
Qed.

Lemma stringify_head (v : json) :
  exists c t, stringifyValue v = c :: t /\ valueStart c.
Proof.
  destruct v as [ | [|] | m e | s | [|x items] | [|[k x] members] ];
    try (eexists; eexists; split; [reflexivity|repeat split; discriminate]).
  cbn [stringifyValue]. unfold numberText.
  destruct (decimalZ_head m) as (c & t & H & D). rewrite H. cbn [app].
  exists c. eexists. split; [reflexivity|]. now apply numberStart.
Qed.

Lemma stripPrefix_mismatch (x c : N) (p r : jsstring) :
  c <> x -> stripPrefix (x :: p) (c :: r) = None.
Proof.
  intros H. cbn [stripPrefix].
  rewrite (proj2 (N.eqb_neq x c)); [reflexivity|congruence].
Qed.

Lemma readValue_number (fuel : nat) (c : N) (r : jsstring) :
  c = 45%N \/ isDigit c = true ->
  readValue (S fuel) (c :: r) = readNumber (c :: r).
Proof.
  intros H. destruct (numberStart c H) as ((W & _) & N1 & N2 & N3 & N4 & N5 & N6).
  rewrite readValue_unfold, (skipSpace_head c r W).
  rewrite (proj2 (N.eqb_neq c 34)) by exact N1.
  rewrite (proj2 (N.eqb_neq c 91)) by exact N2.
  rewrite (proj2 (N.eqb_neq c 123)) by exact N3.
  change (js "null") with (110%N :: js "ull").
  change (js "true") with (116%N :: js "rue").
  change (js "false") with (102%N :: js "alse").
  now rewrite !stripPrefix_mismatch.
Qed.

Lemma moreItems_terminated (items : list json) (rest : jsstring) :
  terminated (moreItems items ++ rest).
Proof. destruct items; simpl; auto. Qed.

Lemma moreMembers_terminated (members : list (jsstring * json)) (rest : jsstring) :
  terminated (moreMembers members ++ rest).
Proof. destruct members as [|[k x] members]; simpl; auto. Qed.

Lemma readElements_items (items : list json) :
  Forall readsBack items ->
  forall x fuel rest,
    readsBack x -> sizeItems (x :: items) <= fuel ->
    readElements fuel (stringifyValue x ++ moreItems items ++ rest)
    = Some (x :: items, rest).
Proof.
  induction 1 as [|y items Hy Hitems IH]; intros x fuel rest Hx Hfuel;
    cbn [sizeItems] in Hfuel; (destruct fuel as [|fuel]; [lia|]);
    rewrite readElements_unfold, Hx;
    try lia; try apply moreItems_terminated.
  - reflexivity.
  - cbn [moreItems app skipSpace isJsonSpace N.eqb Pos.eqb orb].
    rewrite <- app_assoc, IH; [reflexivity|exact Hy|cbn [sizeItems]; lia].
Qed.

Lemma readMembers_members (members : list (jsstring * json)) :
  Forall (fun kv => readsBack (snd kv)) members ->
  forall k x fuel rest,
    readsBack x -> sizeMembers ((k, x) :: members) <= fuel ->
    readMembers fuel
      (quote k ++ 58%N :: stringifyValue x ++ moreMembers members ++ rest)
    = Some ((k, x) :: members, rest).
Proof.
  induction 1 as [|[k' y] members Hy Hmembers IH]; intros k x fuel rest Hx Hfuel;
    cbn [sizeMembers] in Hfuel; (destruct fuel as [|fuel]; [lia|]);
    rewrite readMembers_unfold; unfold quote;
    cbn [app skipSpace isJsonSpace N.eqb Pos.eqb orb];
    rewrite <- app_assoc; cbn [app]; rewrite readUnits_quoteUnits;
    cbn [skipSpace isJsonSpace N.eqb Pos.eqb orb];
    rewrite Hx; try lia; try apply moreMembers_terminated.
  - reflexivity.
  - cbn [moreMembers app skipSpace isJsonSpace N.eqb Pos.eqb orb].
    change (34%N :: quoteUnits k' ++ [34%N]) with (quote k').
    replace ((quote k' ++ 58%N :: stringifyValue y ++ moreMembers members) ++ rest)
      with (quote k' ++ 58%N :: stringifyValue y ++ moreMembers members ++ rest).
    + rewrite IH; [reflexivity|exact Hy|cbn [sizeMembers]; lia].
    + rewrite <- !app_assoc. cbn [app]. now rewrite <- !app_assoc.
Qed.

(** Reading what [stringify] wrote gives the value back, whatever follows
    it in the text. *)
Lemma readValue_stringify (v : json) : readsBack v.
Proof.
  induction v as [ | b | m e | s | items IH | members IH ] using json_ind;
    intros fuel rest Hfuel T;
    (destruct fuel as [|fuel]; [cbn [size] in Hfuel; lia|]).
  - reflexivity.
  - destruct b; reflexivity.
  - cbn [stringifyValue].
    destruct (decimalZ_head m) as (c & t & H & D).
    assert (E : exists r, numberText m e ++ rest = c :: r).
    { unfold numberText. rewrite H. cbn [app]. eauto. }
    destruct E as [r E]. rewrite E, (readValue_number fuel c r D), <- E.
    now apply readNumber_text.
  - cbn [stringifyValue]. unfold quote. rewrite readValue_unfold.
    cbn [app skipSpace isJsonSpace N.eqb Pos.eqb orb].
    rewrite <- app_assoc. cbn [app]. now rewrite readUnits_quoteUnits.
  - destruct items as [|x items]; [reflexivity|].
    rewrite stringify_array, size_array in *. cbn [app].
    rewrite readValue_unfold. cbn [skipSpace isJsonSpace N.eqb Pos.eqb orb].
    destruct (stringify_head x) as (c & t & Hc & (W & N93 & _)).
    inversion IH as [|? ? Hx Hitems]; subst.
    rewrite <- app_assoc.
    replace (skipSpace (stringifyValue x ++ moreItems items ++ rest))
      with (c :: t ++ moreItems items ++ rest)
      by (rewrite Hc; cbn [app]; now rewrite skipSpace_head).
    rewrite (proj2 (N.eqb_neq c 93)) by exact N93.
    rewrite (readElements_items items Hitems x fuel rest Hx); [reflexivity|lia].
  - destruct members as [|[k x] members]; [reflexivity|].
    rewrite stringify_object, size_object in *. cbn [app].
    rewrite readValue_unfold. cbn [skipSpace isJsonSpace N.eqb Pos.eqb orb].
    inversion IH as [|? ? Hx Hmembers]; subst. cbn [snd] in Hx.
    replace ((quote k ++ 58%N :: stringifyValue x ++ moreMembers members) ++ rest)
      with (quote k ++ 58%N :: stringifyValue x ++ moreMembers members ++ rest)
      by (rewrite <- !app_assoc; cbn [app]; now rewrite <- !app_assoc).
    unfold quote at 1. cbn [app skipSpace isJsonSpace N.eqb Pos.eqb orb].
    change (34%N :: quoteUnits k ++ [34%N]) with (quote k).
    rewrite (readMembers_members members Hmembers k x fuel rest Hx); [reflexivity|lia].
Qed.

Lemma size_le_length (v : json) : size v <= length (stringifyValue v).
Proof.
  induction v as [ | b | m e | s | items IH | members IH ] using json_ind.
  - simpl. lia.
  - destruct b; simpl; lia.
  - cbn [size stringifyValue]. destruct (stringify_head (JNumber m e)) as (c & t & H & _).
    cbn [stringifyValue] in H. rewrite H. simpl. lia.
  - simpl. lia.
  - destruct items as [|x items]; [simpl; lia|].
    rewrite stringify_array, size_array. cbn [length sizeItems].
    inversion IH as [|? ? Hx Hitems]; subst. rewrite length_app.
    assert (K : sizeItems items < length (moreItems items)).
    { clear -Hitems. induction Hitems as [|y items Hy _ IHi]; simpl; [lia|].
      rewrite length_app. lia. }
    lia.
  - destruct members as [|[k x] members]; [simpl; lia|].
    rewrite stringify_object, size_object. cbn [length sizeMembers].
    inversion IH as [|? ? Hx Hmembers]; subst. cbn [snd] in Hx.
    rewrite length_app. cbn [length]. rewrite length_app.
    assert (K : sizeMembers members < length (moreMembers members)).
    { clear -Hmembers. induction Hmembers as [|[k' y] members Hy _ IHi]; simpl; [lia|].
      rewrite !length_app. cbn [snd length] in *. rewrite length_app. lia. }
    lia.
Qed.

(** [JSON.parse(JSON.stringify(v))] is [v]. *)
Lemma parse_stringify (v : json) : parse (stringify v) = Some v.
Proof.
  unfold parse, stringify.
  rewrite <- (app_nil_r (stringifyValue v)) at 2.
  rewrite readValue_stringify; [reflexivity| |exact I].
  pose proof (size_le_length v). lia.
Qed.

(** *** The fuel of [parse] is never what makes it fail *)

Lemma skipSpace_length (s : jsstring) : length (skipSpace s) <= length s.
Proof.
  induction s as [|c r IH]; simpl; [lia|].
  destruct (isJsonSpace c); simpl; lia.
Qed.

Lemma skipSpace_cons_length (s : jsstring) c r :
  skipSpace s = c :: r -> S (length r) <= length s.
Proof. intros H. pose proof (skipSpace_length s) as L. rewrite H in L. exact L. Qed.

Lemma consUnit_some c (r : option (jsstring * jsstring)) str rest :
  consUnit c r = Some (str, rest) ->
  exists str', r = Some (str', rest) /\ str = c :: str'.
Proof.
  destruct r as [[str' rest']|]; simpl; [|discriminate].
  intros H. injection H as <- <-. eauto.
Qed.

Lemma readUnits_length (s : jsstring) str rest :
  readUnits s = Some (str, rest) -> length rest < length s.
Proof.
  remember (length s) as n eqn:Hn. revert s str rest Hn.
  induction n as [n IH] using lt_wf_ind. intros s str rest Hn H. subst n.
  assert (K : forall c t str rest,
             length t < length s ->
             consUnit c (readUnits t) = Some (str, rest) ->
             length rest < length s).
  { intros c t str0 rest0 L E. apply consUnit_some in E as (str' & E & _).
    apply (IH (length t) L t str' rest0 eq_refl) in E. lia. }
  destruct s as [|c r]; [discriminate|]. cbn [readUnits] in H.
  destruct (c =? 34)%N; [injection H as <- <-; simpl; lia|].
  destruct (c =? 92)%N.
  - destruct r as [|e r']; [discriminate|].
    repeat match type of H with
           | (if (e =? 117)%N then _ else _) = _ => fail 1
           | (if ?b then _ else _) = _ =>
               destruct b; [apply K in H; [exact H|simpl; lia]|]
           end.
    destruct (e =? 117)%N; [|discriminate].
    destruct r' as [|h1 [|h2 [|h3 [|h4 r'']]]]; try discriminate.
    destruct (hex4Value h1 h2 h3 h4); [|discriminate].
    apply K in H; [exact H|simpl; lia].
  - destruct (c <? 32)%N; [discriminate|].
    apply K in H; [exact H|simpl; lia].
Qed.

Lemma stripPrefix_length (p s rest : jsstring) :
  stripPrefix p s = Some rest -> length rest + length p = length s.
Proof.
  revert s; induction p as [|x p IH]; intros s H.
  - destruct s; simpl in H; injection H as <-; simpl; lia.
  - destruct s as [|y s]; [discriminate|]. cbn [stripPrefix] in H.
    destruct (N.eqb x y); [|discriminate]. apply IH in H. simpl. lia.
Qed.

Lemma readDigits_length (s : jsstring) u rest :
  readDigits s = (u, rest) -> length rest + digitCount u = length s.
Proof.
  revert u rest; induction s as [|c r IH]; intros u rest H; cbn [readDigits] in H.
  - injection H as <- <-. reflexivity.
  - destruct ((48 <=? c) && (c <=? 57))%N.
    + destruct (readDigits r) as [u' rest'] eqn:E. specialize (IH u' rest' eq_refl).
      injection H as <- <-.
      destruct (c - 48)%N as [|[[[|[]|]|[|[]|]|]|[[|[]|]|[|[]|]|]|]]; cbn [digitCount length]; lia.
    + injection H as <- <-. cbn [digitCount]. lia.
Qed.

Lemma readSign_length (plus : bool) (s : jsstring) negative t :
  readSign plus s = (negative, t) -> length t <= length s.
Proof.
  destruct s as [|c r]; cbn [readSign]; intros H.
  - injection H as <- <-. lia.
  - destruct (c =? 45)%N; [injection H as <- <-; simpl; lia|].
    destruct (plus && (c =? 43)%N); injection H as <- <-; simpl; lia.
Qed.

Lemma readNumber_length (s : jsstring) v rest :
  readNumber s = Some (v, rest) -> length rest < length s /\ size v = 1.
Proof.
  unfold readNumber. destruct (readSign false s) as [negative s1] eqn:S1.
  apply readSign_length in S1.
  destruct (readInteger s1) as [[whole s2]|] eqn:I; [|discriminate].
  assert (L2 : length s2 < length s1).
  { unfold readInteger in I. destruct (readDigits s1) as [u r] eqn:D.
    apply readDigits_length in D.
    destruct u as [|u|u|u|u|u|u|u|u|u|u]; try discriminate;
      try (injection I as <- <-; cbn [digitCount] in D; lia).
    destruct u; try discriminate. injection I as <- <-. cbn [digitCount] in D. lia. }
  destruct (readFraction s2) as [[fraction s3]|] eqn:F; [|discriminate].
  assert (L3 : length s3 <= length s2).
  { unfold readFraction in F. destruct s2 as [|c r]; [injection F as <- <-; lia|].
    destruct (c =? 46)%N; [|injection F as <- <-; lia].
    destruct (readDigits r) as [u r'] eqn:D. apply readDigits_length in D.
    destruct u; try discriminate; injection F as <- <-; simpl; lia. }
  destruct (readExponent s3) as [[e s4]|] eqn:E; [|discriminate].
  assert (L4 : length s4 <= length s3).
  { unfold readExponent in E. destruct s3 as [|c r]; [injection E as <- <-; lia|].
    destruct ((c =? 101) || (c =? 69))%N; [|injection E as <- <-; lia].
    destruct (readSign true r) as [neg r'] eqn:S2. apply readSign_length in S2.
    destruct (readDigits r') as [u r''] eqn:D. apply readDigits_length in D.
    destruct u; try discriminate; injection E as <- <-; simpl; lia. }
  intros H. injection H as <- <-. split; [lia|reflexivity].
Qed.

Lemma runs (fuel : nat) : valueRun fuel /\ elementsRun fuel /\ membersRun fuel.
Proof.
  induction fuel as [|fuel (IHv & IHe & IHm)].
  { split; [|split]; intros s v rest Hr; discriminate Hr. }
  split; [|split].
  - intros s v rest H. rewrite readValue_unfold in H.
    destruct (skipSpace s) as [|c r] eqn:Sk; [discriminate|].
    pose proof (skipSpace_cons_length s c r Sk) as Ls.
    assert (G : forall fuel', 1 <= fuel' ->
                 readValue fuel' s
                 = (if (c =? 34)%N then
                      match readUnits r with
                      | Some (str, rest) => Some (JString str, rest)
                      | None => None
                      end
                    else if (c =? 91)%N then
                      match skipSpace r with
                      | d :: r' =>
                          if (d =? 93)%N then Some (JArray [], r')
                          else match readElements (pred fuel') r with
                               | Some (items, rest) => Some (JArray items, rest)
                               | None => None
                               end
                      | [] => None
                      end
                    else if (c =? 123)%N then
                      match skipSpace r with
                      | d :: r' =>
                          if (d =? 125)%N then Some (JObject [], r')
                          else match readMembers (pred fuel') r with
                               | Some (members, rest) => Some (JObject members, rest)
                               | None => None
                               end
                      | [] => None
                      end
                    else
                      match stripPrefix (js "null") (c :: r) with
                      | Some rest => Some (JNull, rest)
                      | None =>
                          match stripPrefix (js "true") (c :: r) with
                          | Some rest => Some (JBool true, rest)
                          | None =>
                              match stripPrefix (js "false") (c :: r) with
                              | Some rest => Some (JBool false, rest)
                              | None => readNumber (c :: r)
                              end
                          end
                      end)).
    { intros [|f] Hf; [lia|]. rewrite readValue_unfold, Sk. reflexivity. }
    destruct (c =? 34)%N.
    { destruct (readUnits r) as [[str rest']|] eqn:U; [|discriminate].
      injection H as <- <-. pose proof (readUnits_length r str rest' U) as Lu.
      split; [cbn [size]; lia|]. intros fuel' Hf. now rewrite G by exact Hf. }
    destruct (c =? 91)%N.
    { destruct (skipSpace r) as [|d r'] eqn:Sk2; [discriminate|].
      pose proof (skipSpace_cons_length r d r' Sk2) as Lr.
      destruct (d =? 93)%N.
      - injection H as <- <-. split; [cbn [size]; lia|].
        intros fuel' Hf. rewrite G by exact Hf. reflexivity.
      - destruct (readElements fuel r) as [[items rest']|] eqn:E; [|discriminate].
        injection H as <- <-. destruct (IHe r items rest' E) as [L F].
        rewrite size_array. split; [lia|].
        intros fuel' Hf. rewrite G by lia. rewrite (F (pred fuel')) by lia. reflexivity. }
    destruct (c =? 123)%N.
    { destruct (skipSpace r) as [|d r'] eqn:Sk2; [discriminate|].
      pose proof (skipSpace_cons_length r d r' Sk2) as Lr.
      destruct (d =? 125)%N.
      - injection H as <- <-. split; [cbn [size]; lia|].
        intros fuel' Hf. rewrite G by exact Hf. reflexivity.
      - destruct (readMembers fuel r) as [[members rest']|] eqn:E; [|discriminate].
        injection H as <- <-. destruct (IHm r members rest' E) as [L F].
        rewrite size_object. split; [lia|].
        intros fuel' Hf. rewrite G by lia. rewrite (F (pred fuel')) by lia. reflexivity. }
    assert (A : length rest < length (c :: r) /\ size v = 1).
    { destruct (stripPrefix (js "null") (c :: r)) as [r1|] eqn:P1.
      { injection H as <- <-. apply stripPrefix_length in P1.
        change (length (js "null")) with 4 in P1. split; [lia|reflexivity]. }
      destruct (stripPrefix (js "true") (c :: r)) as [r2|] eqn:P2.
      { injection H as <- <-. apply stripPrefix_length in P2.
        change (length (js "true")) with 4 in P2. split; [lia|reflexivity]. }
      destruct (stripPrefix (js "false") (c :: r)) as [r3|] eqn:P3.
      { injection H as <- <-. apply stripPrefix_length in P3.
        change (length (js "false")) with 5 in P3. split; [lia|reflexivity]. }
      now apply readNumber_length. }
    destruct A as [A1 A2]. cbn [length] in A1. split; [lia|].
    intros fuel' Hf. rewrite G by lia. exact H.
  - intros s items rest H. rewrite readElements_unfold in H.
    destruct (readValue fuel s) as [[x s1]|] eqn:V; [|discriminate].
    destruct (IHv s x s1 V) as [Lx Fx].
    destruct (skipSpace s1) as [|c r] eqn:Sk; [discriminate|].
    pose proof (skipSpace_cons_length s1 c r Sk) as Ls.
    destruct (c =? 93)%N eqn:C93.
    + injection H as <- <-. cbn [sizeItems]. split; [lia|].
      intros [|f] Hf; [lia|]. rewrite readElements_unfold, (Fx f) by lia.
      now rewrite Sk, C93.
    + destruct (c =? 44)%N eqn:C44; [|discriminate].
      destruct (readElements fuel r) as [[items' rest']|] eqn:E; [|discriminate].
      injection H as <- <-. destruct (IHe r items' rest' E) as [Li Fi].
      cbn [sizeItems]. split; [lia|].
      intros [|f] Hf; [lia|]. rewrite readElements_unfold, (Fx f) by lia.
      rewrite Sk, C93, C44, (Fi f) by lia. reflexivity.
  - intros s members rest H. rewrite readMembers_unfold in H.
    destruct (skipSpace s) as [|q s0] eqn:Sk0; [discriminate|].
    pose proof (skipSpace_cons_length s q s0 Sk0) as L0.
    destruct (q =? 34)%N eqn:Q; [|discriminate].
    destruct (readUnits s0) as [[k s1]|] eqn:U; [|discriminate].
    pose proof (readUnits_length s0 k s1 U) as L1.
    destruct (skipSpace s1) as [|colon s2] eqn:Sk1; [discriminate|].
    pose proof (skipSpace_cons_length s1 colon s2 Sk1) as L2.
    destruct (colon =? 58)%N eqn:Colon; [|discriminate].
    destruct (readValue fuel s2) as [[x s3]|] eqn:V; [|discriminate].
    destruct (IHv s2 x s3 V) as [Lx Fx].
    destruct (skipSpace s3) as [|c r] eqn:Sk3; [discriminate|].
    pose proof (skipSpace_cons_length s3 c r Sk3) as L3.
    destruct (c =? 125)%N eqn:C125.
    + injection H as <- <-. cbn [sizeMembers]. split; [lia|].
      intros [|f] Hf; [lia|].
      rewrite readMembers_unfold, Sk0, Q, U, Sk1, Colon, (Fx f) by lia.
      now rewrite Sk3, C125.
    + destruct (c =? 44)%N eqn:C44; [|discriminate].
      destruct (readMembers fuel r) as [[members' rest']|] eqn:E; [|discriminate].
      injection H as <- <-. destruct (IHm r members' rest' E) as [Lm Fm].
      cbn [sizeMembers]. split; [lia|].
      intros [|f] Hf; [lia|].
      rewrite readMembers_unfold, Sk0, Q, U, Sk1, Colon, (Fx f) by lia.
      rewrite Sk3, C125, C44, (Fm f) by lia. reflexivity.
Qed.

(** Whatever fuel reads a value from the whole text, [parse] reads the same
    value: [parse] fails only on a text that is not JSON. *)
Lemma parse_complete (fuel : nat) (text : jsstring) (v : json) (rest : jsstring) :
  readValue fuel text = Some (v, rest) -> skipSpace rest = [] ->
  parse text = Some v.
Proof.
  intros H E. destruct (runs fuel) as (Hv & _). destruct (Hv text v rest H) as [L F].
  unfold parse. rewrite (F (S (length text))) by lia. now rewrite E.
Qed.

(** ** The store *)

Lemma insertEach_returned (props : list Property) (s s' : DuckDBService.Service) u :
  DuckDBService.insertEach props s = DuckDBService.Returned u s' ->
  DuckDBService.propertiesOf s'
  = DuckDBService.propertiesOf s ++ map DuckDBService.rowOfProperty props
  /\ DuckDBService.auditLogsOf s' = DuckDBService.auditLogsOf s.
Proof.
  revert s. induction props as [|prop rest IH]; intros s H.
  - cbn in H. injection H as _ <-. now rewrite app_nil_r.
  - cbn [DuckDBService.insertEach] in H.
    unfold DuckDBService.bind at 1 in H.
    destruct (DuckDBService.insertPropertyRow (DuckDBService.rowOfProperty prop) s)
      as [x s1|e s1] eqn:E; [|discriminate].
    apply IH in H as [Hp Ha]. rewrite Hp, Ha.
    unfold DuckDBService.insertPropertyRow, DuckDBService.bind,
      DuckDBService.connected in E.
    destruct s as [d|]; [|discriminate].
    destruct (DuckDBService.hasPropertyId _ _); [discriminate|].
    injection E as _ <-. cbn. now rewrite <- app_assoc.
Qed.

Lemma insertEach_auditLogs (props : list Property) (s : DuckDBService.Service) :
  DuckDBService.auditLogsOf
    (DuckDBService.stateAfter (DuckDBService.insertEach props s))
  = DuckDBService.auditLogsOf s.
Proof.
  revert s. induction props as [|prop rest IH]; intros s; [reflexivity|].
  cbn [DuckDBService.insertEach]. unfold DuckDBService.bind at 1.
  destruct (DuckDBService.insertPropertyRow (DuckDBService.rowOfProperty prop) s)
    as [x s1|e s1] eqn:E.
  - rewrite IH.
    unfold DuckDBService.insertPropertyRow, DuckDBService.bind,
      DuckDBService.connected in E.
    destruct s as [d|]; [|discriminate].
    destruct (DuckDBService.hasPropertyId _ _); [discriminate|].
    now injection E as _ <-.
  - unfold DuckDBService.insertPropertyRow, DuckDBService.bind,
      DuckDBService.connected in E.
    destruct s as [d|]; [|now injection E as _ <-].
    destruct (DuckDBService.hasPropertyId _ _); [|discriminate].
    now injection E as _ <-.
Qed.

(** [insertProperties] never touches the audit table; when it returns, the
    property table holds the rows of the list it was given. *)
Lemma insertProperties_auditLogs (props : list Property) (s : DuckDBService.Service) :
  DuckDBService.auditLogsOf
    (DuckDBService.stateAfter (DuckDBService.insertProperties props s))
  = DuckDBService.auditLogsOf s.
Proof.
  unfold DuckDBService.insertProperties, DuckDBService.bind at 1 2,
    DuckDBService.connected at 1.
  destruct s as [d|]; [|reflexivity].
  unfold DuckDBService.deleteFromProperties, DuckDBService.bind,
    DuckDBService.connected.
  now rewrite insertEach_auditLogs.
Qed.

Lemma insertProperties_returned (props : list Property)
  (s s' : DuckDBService.Service) u :
  DuckDBService.insertProperties props s = DuckDBService.Returned u s' ->
  DuckDBService.propertiesOf s' = map DuckDBService.rowOfProperty props
  /\ DuckDBService.auditLogsOf s' = DuckDBService.auditLogsOf s.
Proof.
  unfold DuckDBService.insertProperties, DuckDBService.bind at 1 2,
    DuckDBService.connected at 1.
  destruct s as [d|]; [|discriminate].
  unfold DuckDBService.deleteFromProperties, DuckDBService.bind,
    DuckDBService.connected.
  intros H. apply insertEach_returned in H as [Hp Ha]. now rewrite Hp, Ha.
Qed.

Import DuckDBService.

Lemma hasPropertyId_rows (i : jsstring) (props : list Property) :
  hasPropertyId i (map rowOfProperty props) = true <-> In i (map id props).
Proof.
  unfold hasPropertyId. rewrite existsb_exists. split.
  - intros [r [Hin E]]. apply in_map_iff in Hin as [p [<- Hp]].
    cbn in E. apply eqb_eq in E. subst i. now apply in_map.
  - intros Hin. apply in_map_iff in Hin as [p [<- Hp]].
    exists (rowOfProperty p). split; [now apply in_map|].
    cbn. apply eqb_refl.
Qed.

Lemma insertEach_outcome (props done : list Property) (d : Database) :
  properties d = map rowOfProperty done ->
  NoDup (map id done) ->
  match insertEach props (Some d) with
  | Returned _ s' =>
      NoDup (map id (done ++ props))
      /\ s' = Some (mkDatabase (map rowOfProperty (done ++ props))
                               (audit_logs d) (imported_data d))
  | Threw e s' =>
      e = ConstraintViolation
      /\ exists before p after,
           props = before ++ p :: after
           /\ NoDup (map id (done ++ before))
           /\ In (id p) (map id (done ++ before))
           /\ s' = Some (mkDatabase (map rowOfProperty (done ++ before))
                                    (audit_logs d) (imported_data d))
  end.
Proof.
  revert done d. induction props as [|prop rest IH]; intros done d Hd Hn.
  - cbn. rewrite app_nil_r. split; [assumption|].
    destruct d as [ps al im]. cbn in *. now subst ps.
  - cbn [insertEach]. unfold bind at 1.
    unfold insertPropertyRow, bind, connected.
    destruct (hasPropertyId (row_id (rowOfProperty prop)) (properties d)) eqn:E.
    + split; [reflexivity|]. exists [], prop, rest.
      rewrite app_nil_r. repeat split; try assumption.
      * rewrite Hd in E. now apply hasPropertyId_rows in E.
      * destruct d as [ps al im]. cbn in *. now subst ps.
    + assert (Hfresh : ~ In (id prop) (map id done)).
      { intros Hin. apply hasPropertyId_rows in Hin. rewrite Hd in E.
        cbn in E, Hin. congruence. }
      assert (Hn' : NoDup (map id (done ++ [prop]))).
      { rewrite map_app. cbn. apply NoDup_app_remove_l with (l := []).
        cbn. apply Permutation_NoDup with (l := id prop :: map id done).
        - apply Permutation_cons_append.
        - now constructor. }
      specialize (IH (done ++ [prop])
                     (mkDatabase (properties d ++ [rowOfProperty prop])
                                 (audit_logs d) (imported_data d))).
      cbn [properties audit_logs imported_data] in IH.
      assert (Hd' : properties d ++ [rowOfProperty prop]
                    = map rowOfProperty (done ++ [prop])).
      { now rewrite map_app, Hd. }
      specialize (IH Hd' Hn').
      destruct (insertEach rest _) as [u s'|e s'].
      * now rewrite <- app_assoc in IH.
      * destruct IH as [He [before [p [after [Hs [Hb [Hi Hs']]]]]]].
        split; [assumption|]. exists (prop :: before), p, after.
        rewrite <- app_assoc in Hb, Hi, Hs'. cbn in Hb, Hi, Hs'.
        repeat split; try assumption. now rewrite Hs.
Qed.

(** A list without repeated [id] is written as it is. *)
Lemma insertProperties_returns (props : list Property) (d : Database) :
  NoDup (map id props) ->
  insertProperties props (Some d)
  = Returned tt (Some (mkDatabase (map rowOfProperty props) (audit_logs d)
                                  (imported_data d))).
Proof.
  intros N. unfold insertProperties, bind at 1 2, connected at 1.
  unfold deleteFromProperties, bind, connected.
  pose proof (insertEach_outcome props []
                (mkDatabase [] (audit_logs d) (imported_data d))
                eq_refl (NoDup_nil _)) as H.
  cbn [app audit_logs imported_data] in H.
  destruct (insertEach props _) as [[] s'|e s'].
  - now destruct H as [_ ->].
  - destruct H as [_ (before & p & after & -> & Nb & Hin & _)].
    exfalso. rewrite map_app in N. cbn [map] in N.
    apply NoDup_remove_2 in N. apply N. apply in_or_app. now left.
Qed.

(** A list with a repeated [id] is not: the table is left with the rows
    before the repeat. *)
Lemma insertProperties_throws (props : list Property) (d : Database) :
  ~ NoDup (map id props) ->
  exists before p after,
    props = before ++ p :: after
    /\ In (id p) (map id before)
    /\ insertProperties props (Some d)
       = Threw ConstraintViolation
           (Some (mkDatabase (map rowOfProperty before) (audit_logs d)
                             (imported_data d))).
Proof.
  intros N. unfold insertProperties, bind at 1 2, connected at 1.
  unfold deleteFromProperties, bind, connected.
  pose proof (insertEach_outcome props []
                (mkDatabase [] (audit_logs d) (imported_data d))
                eq_refl (NoDup_nil _)) as H.
  cbn [app audit_logs imported_data] in H.
  destruct (insertEach props _) as [[] s'|e s'].
  - destruct H as [N' _]. contradiction.
  - destruct H as [-> (before & p & after & E & Nb & Hin & ->)].
    exists before, p, after. now repeat split.
Qed.

(** *** String literals *)

Lemma noQuote_literal (s : jsstring) :
  noQuote s = true -> literalBody s = true /\ unquote s = s.
Proof.
  induction s as [|c r IH]; [now split|].
  cbn [noQuote forallb]. intros H. apply andb_prop in H as [Hc Hr].
  apply negb_true_iff in Hc. cbn [literalBody unquote]. rewrite Hc.
  destruct (IH Hr) as [-> ->]. now split.
Qed.

(** A text written with [escapeQuotes] is one literal, and stands for the
    text itself. *)
Lemma escaped_literal (s : jsstring) :
  literalBody (escapeQuotes s) = true /\ unquote (escapeQuotes s) = s.
Proof.
  induction s as [|c r [IH1 IH2]]; [now split|].
  unfold escapeQuotes in *. cbn [flat_map].
  destruct (N.eqb c APOSTROPHE) eqn:E.
  - apply N.eqb_eq in E. subst c. cbn. rewrite IH1, IH2. now split.
  - cbn [app literalBody unquote]. rewrite E, IH1, IH2. now split.
Qed.

Lemma noQuote_app (a b : jsstring) :
  noQuote (a ++ b) = noQuote a && noQuote b.
Proof. apply forallb_app. Qed.

Lemma noQuote_uint (u : Decimal.uint) : noQuote (JS.unitsOfUint u) = true.
Proof. induction u; cbn; auto. Qed.

Lemma noQuote_decimalNat (n : nat) : noQuote (JS.decimalNat n) = true.
Proof. apply noQuote_uint. Qed.

Lemma noQuote_decimalZ (z : Z) : noQuote (JS.decimalZ z) = true.
Proof.
  unfold JS.decimalZ, JS.decimalN. destruct z; apply noQuote_uint.
Qed.

(** *** The audit table *)

(** An entry whose statement is followed and whose identifier is not in
    the table is appended, as the row its literals stand for. *)
Lemma insertAuditLog_returns (a : AuditLog.t) (d : Database) :
  interpolates a = true ->
  hasAuditId (log_id (rowOfAuditLog a)) (audit_logs d) = false ->
  insertAuditLog a (Some d)
  = Some (Returned tt
            (Some (mkDatabase (properties d) (audit_logs d ++ [rowOfAuditLog a])
                              (imported_data d)))).
Proof.
  intros I F. unfold insertAuditLog, andThenFollowed, connected.
  rewrite I. unfold insertAuditRow, bind, connected. now rewrite F.
Qed.

(** An identifier that is in the table is refused, and nothing changes. *)
Lemma insertAuditLog_throws (a : AuditLog.t) (d : Database) :
  interpolates a = true ->
  hasAuditId (log_id (rowOfAuditLog a)) (audit_logs d) = true ->
  insertAuditLog a (Some d) = Some (Threw ConstraintViolation (Some d)).
Proof.
  intros I F. unfold insertAuditLog, andThenFollowed, connected.
  rewrite I. unfold insertAuditRow, bind, connected. now rewrite F.
Qed.

Lemma insertAuditLogs_one (a : AuditLog.t) (d : Database) :
  insertAuditLogs [a] (Some d)
  = match insertAuditLog a (Some d) with
    | Some (Returned u s) => Some (Returned u s)
    | other => other
    end.
Proof.
  unfold insertAuditLogs, andThenFollowed at 1, connected at 1.
  cbn [insertEachAuditLog].
  destruct (insertAuditLog a (Some d)) as [[[] s|e s]|]; reflexivity.
Qed.

Lemma insertAuditLogs_nil (d : Database) :
  insertAuditLogs [] (Some d) = Some (Returned tt (Some d)).
Proof. reflexivity. Qed.

(** What an entry for a property writes without escaping holds no
    apostrophe when the surroundings and the property hold none; its row
    then carries the texts as they are. *)
Lemma createAuditLog_interpolates (w : Ambient) (action : AuditLog.Action)
  (property : Property) (oldProperty : option Property)
  (changeDetails : option jsstring) :
  StoreSpec.plainAmbient w = true ->
  StoreSpec.plainProperty property = true ->
  let a := AuditService.createAuditLog w action property oldProperty changeDetails in
  interpolates a = true
  /\ log_id (rowOfAuditLog a) = generatedId w
  /\ log_record_id (rowOfAuditLog a) = id property
  /\ AuditLog.id (asStored a) = generatedId w
  /\ AuditLog.recordId (asStored a) = id property
  /\ AuditLog.propertyKey (asStored a) = key property
  /\ AuditLog.environment (asStored a) = environment property
  /\ AuditLog.component (asStored a) = component property.
Proof.
  unfold StoreSpec.plainAmbient, StoreSpec.plainProperty.
  intros Hw Hp.
  apply andb_prop in Hw as [Hw Hs]. apply andb_prop in Hw as [Hi Hd].
  apply andb_prop in Hp as [Hp Hc]. apply andb_prop in Hp as [Hp He].
  apply andb_prop in Hp as [Hid Hk].
  destruct (noQuote_literal _ Hi) as [Li Ui], (noQuote_literal _ Hd) as [Ld Ud],
    (noQuote_literal _ Hs) as [Ls Us], (noQuote_literal _ Hid) as [Lid Uid],
    (noQuote_literal _ Hk) as [Lk Uk], (noQuote_literal _ He) as [Le Ue],
    (noQuote_literal _ Hc) as [Lc Uc].
  cbv zeta.
  assert (K : forall a,
            AuditLog.id a = generatedId w -> AuditLog.timestamp a = newDate w ->
            AuditLog.tableName a = js "properties" ->
            AuditLog.recordId a = id property ->
            AuditLog.propertyKey a = key property ->
            AuditLog.environment a = environment property ->
            AuditLog.component a = component property ->
            AuditLog.userId a = None ->
            AuditLog.sessionId a = currentSession w ->
            interpolates a = true
            /\ log_id (rowOfAuditLog a) = generatedId w
            /\ log_record_id (rowOfAuditLog a) = id property
            /\ AuditLog.id (asStored a) = generatedId w
            /\ AuditLog.recordId (asStored a) = id property
            /\ AuditLog.propertyKey (asStored a) = key property
            /\ AuditLog.environment (asStored a) = environment property
            /\ AuditLog.component (asStored a) = component property).
  { intros a E1 E2 E3 E4 E5 E6 E7 E8 E9.
    unfold interpolates, rowOfAuditLog, asStored.
    cbn [log_id log_record_id AuditLog.id AuditLog.recordId AuditLog.propertyKey
         AuditLog.environment AuditLog.component].
    rewrite E1, E2, E3, E4, E5, E6, E7, E8, E9.
    rewrite Li, Ld, Lid, Lk, Le, Lc, Ls, Ui, Uid, Uk, Ue, Uc.
    repeat split; reflexivity. }
  apply K; unfold AuditService.createAuditLog;
    destruct action, oldProperty; reflexivity.
Qed.


Lemma withChangeDetails_fields (a : AuditLog.t) (details : jsstring) :
  interpolates (App.withChangeDetails a details) = interpolates a
  /\ log_id (rowOfAuditLog (App.withChangeDetails a details))
     = log_id (rowOfAuditLog a).
Proof. split; reflexivity. Qed.

(** The batch entry writes generated texts only. *)
Lemma createBatchOperationAuditLog_interpolates (w : Ambient)
  (changes deletions : list Property) (customComment : option jsstring)
  (originalProperties : option (list Property)) :
  StoreSpec.plainAmbient w = true ->
  let a := AuditService.createBatchOperationAuditLog w changes deletions
             customComment originalProperties in
  interpolates a = true
  /\ log_id (rowOfAuditLog a) = generatedId w
  /\ AuditLog.id (asStored a) = generatedId w.
Proof.
  unfold StoreSpec.plainAmbient. intros Hw.
  apply andb_prop in Hw as [Hw Hs]. apply andb_prop in Hw as [Hi Hd].
  destruct (noQuote_literal _ Hi) as [Li Ui], (noQuote_literal _ Hd) as [Ld Ud],
    (noQuote_literal _ Hs) as [Ls Us].
  cbv zeta. unfold AuditService.createBatchOperationAuditLog, interpolates,
    rowOfAuditLog, asStored.
  cbn [AuditLog.id AuditLog.timestamp AuditLog.tableName AuditLog.recordId
       AuditLog.propertyKey AuditLog.environment AuditLog.component
       AuditLog.userId AuditLog.sessionId log_id JS.orDefault].
  rewrite Li, Ld, Ls, Ui.
  assert (R : literalBody (js "batch_" ++ JS.decimalZ (dateNow w)) = true).
  { apply noQuote_literal. rewrite noQuote_app, noQuote_decimalZ. reflexivity. }
  assert (K : literalBody (js "batch_operation_"
                           ++ JS.decimalNat (length changes + length deletions)
                           ++ js "_properties") = true).
  { apply noQuote_literal. rewrite !noQuote_app, noQuote_decimalNat. reflexivity. }
  rewrite R, K. repeat split; reflexivity.
Qed.

(** ** Audit entries *)

(** C8, amended. [createAuditLog] fills the four value fields according to
    the action and to whether an old property is given: a CREATE entry has
    [newValue] and [newDescription] from the property and the old fields
    unset; a DELETE entry has [oldValue] and [oldDescription] from the
    property and the new fields unset; an UPDATE entry given an old property
    has all four, from the old and the new property, and an UPDATE entry
    given none has none of the four; a RESTORE entry (like a BATCH one) has
    none of the four, with or without an old property. *)
Theorem createAuditLog_value_fields (w : Ambient) (property : Property)
  (oldProperty : option Property) (changeDetails : option jsstring) :
  let entry action :=
    AuditService.createAuditLog w action property oldProperty changeDetails in
  let fields a :=
    (AuditLog.oldValue a, AuditLog.newValue a,
     AuditLog.oldDescription a, AuditLog.newDescription a) in
  fields (entry AuditLog.CREATE)
  = (None, Some (value property), None, description property)
  /\ fields (entry AuditLog.DELETE)
     = (Some (value property), None, description property, None)
  /\ fields (entry AuditLog.UPDATE)
     = match oldProperty with
       | Some old => (Some (value old), Some (value property),
                      description old, description property)
       | None => (None, None, None, None)
       end
  /\ fields (entry AuditLog.RESTORE) = (None, None, None, None)
  /\ fields (entry AuditLog.BATCH) = (None, None, None, None).
Proof.
  destruct oldProperty; repeat split; reflexivity.
Qed.

(** C8 as stated fails: a RESTORE entry is not filled like an UPDATE
    entry. Built from the same property and old property, the UPDATE entry
    carries the old and the new value, the RESTORE entry carries neither;
    and an UPDATE entry built without an old property carries no values
    either. *)
Lemma restore_entry_has_no_values :
  AuditLog.newValue
    (AuditService.createAuditLog Samples.ambient AuditLog.UPDATE
       Samples.dbUrl (Some Samples.dbUser) None)
  = Some (js "jdbc:prod")
  /\ AuditLog.oldValue
       (AuditService.createAuditLog Samples.ambient AuditLog.UPDATE
          Samples.dbUrl (Some Samples.dbUser) None)
     = Some (js "admin")
  /\ AuditLog.newValue
       (AuditService.createAuditLog Samples.ambient AuditLog.RESTORE
          Samples.dbUrl (Some Samples.dbUser) None)
     = None
  /\ AuditLog.oldValue
       (AuditService.createAuditLog Samples.ambient AuditLog.RESTORE
          Samples.dbUrl (Some Samples.dbUser) None)
     = None
  /\ AuditLog.newValue
       (AuditService.createAuditLog Samples.ambient AuditLog.UPDATE
          Samples.dbUrl None None)
     = None.
Proof. repeat split; reflexivity. Qed.


Lemma length_one {A} (l : list A) : length l = 1 -> exists x, l = [x].
Proof. destruct l as [|x [|y l]]; simpl; try discriminate. eauto. Qed.

(** Without a service a batch save returns at once: nothing is written,
    nothing is set and nothing is shown. *)
Lemma handleBatchSave_without_service (w : Ambient) (world : World)
  (changes deletions : list Property) (customComment : option jsstring) :
  service world = None ->
  App.handleBatchSave w changes deletions customComment world = Some world.
Proof. intros H. unfold App.handleBatchSave. now rewrite H. Qed.

(** The two writes of a batch save that the store accepts. *)
Lemma save_written (updated : list Property) (entry : AuditLog.t) (d : Database) :
  NoDup (map id updated) ->
  interpolates entry = true ->
  hasAuditId (log_id (rowOfAuditLog entry)) (audit_logs d) = false ->
  andThenFollowed (insertProperties updated)
    (fun _ => insertAuditLog entry) (Some d)
  = Some (Returned tt
            (Some (mkDatabase (map rowOfProperty updated)
                              (audit_logs d ++ [rowOfAuditLog entry])
                              (imported_data d)))).
Proof.
  intros N I F. unfold andThenFollowed.
  rewrite (insertProperties_returns updated d N).
  now rewrite (insertAuditLog_returns entry
                 (mkDatabase (map rowOfProperty updated) (audit_logs d)
                             (imported_data d)) I F).
Qed.

Lemma save_written_one (updated : list Property) (entry : AuditLog.t)
  (d : Database) :
  NoDup (map id updated) ->
  interpolates entry = true ->
  hasAuditId (log_id (rowOfAuditLog entry)) (audit_logs d) = false ->
  andThenFollowed (insertProperties updated)
    (fun _ => insertAuditLogs [entry]) (Some d)
  = Some (Returned tt
            (Some (mkDatabase (map rowOfProperty updated)
                              (audit_logs d ++ [rowOfAuditLog entry])
                              (imported_data d)))).
Proof.
  intros N I F. unfold andThenFollowed.
  rewrite (insertProperties_returns updated d N).
  rewrite insertAuditLogs_one.
  now rewrite (insertAuditLog_returns entry
                 (mkDatabase (map rowOfProperty updated) (audit_logs d)
                             (imported_data d)) I F).
Qed.



(** ** Restoring from an audit entry *)

Import RestoreSpec.

Lemma orDefault_textOrNull (x : option jsstring) :
  JS.orDefault (textOrNull x) [] = JS.orDefault x [].
Proof. destruct x as [[|c s]|]; reflexivity. Qed.

Lemma fetch_upsert (r : Property) (l : list Property) :
  fetch (id r) (App.upsert r l) = Some r.
Proof.
  unfold fetch. induction l as [|p l IH]; simpl.
  - now rewrite eqb_refl.
  - destruct (JS.eqb (id p) (id r)) eqn:E; simpl.
    + now rewrite eqb_refl.
    + now rewrite E.
Qed.

Lemma fetch_filter (i : jsstring) (l : list Property) :
  fetch i (filter (fun p => negb (JS.eqb (id p) i)) l) = None.
Proof.
  unfold fetch. induction l as [|p l IH]; simpl; [reflexivity|].
  destruct (JS.eqb (id p) i) eqn:E; simpl; [exact IH|]. now rewrite E.
Qed.

(** The common end of the restore branches, when the store accepts both
    writes: the restore entry is appended, the property list is set to
    [restoredList] and the property table is rewritten from it. *)
Lemma record_returns (banner : Exception -> ErrorBanner)
  (restoreAuditLog : AuditLog.t) (restored deleted : list Property)
  (world : World) (d : Database) :
  service world = Some d ->
  interpolates restoreAuditLog = true ->
  hasAuditId (log_id (rowOfAuditLog restoreAuditLog)) (audit_logs d) = false ->
  NoDup (map id (App.restoredList (appProperties world) restored deleted)) ->
  AuditPage.record banner restoreAuditLog restored deleted world
  = Some (mkWorld
            (Some (mkDatabase
                     (map rowOfProperty
                        (App.restoredList (appProperties world) restored deleted))
                     (audit_logs d ++ [rowOfAuditLog restoreAuditLog])
                     (imported_data d)))
            (App.restoredList (appProperties world) restored deleted)
            (appError world) (pageError world)).
Proof.
  intros Hs I F N. unfold AuditPage.record. rewrite Hs.
  rewrite (insertAuditLog_returns _ d I F).
  unfold App.handleRestore. cbn [service appProperties appError pageError].
  now rewrite (insertProperties_returns _ _ N).
Qed.

(** With a service, [handleRestore] hands the resolver's output to that
    common end, with a DELETE entry for an undone creation and a RESTORE
    entry otherwise. *)
Lemma handleRestore_records (w : Ambient) (selectedLog : AuditLog.t) (world : World)
  (d : Database) :
  service world = Some d ->
  (AuditLog.action selectedLog <> AuditLog.BATCH ->
   AuditPage.handleRestore w selectedLog world
   = AuditPage.record FailedToRestoreProperty
       (AuditService.createAuditLog w
          (match AuditLog.action selectedLog with
           | AuditLog.CREATE => AuditLog.DELETE
           | _ => AuditLog.RESTORE
           end)
          (match AuditLog.action selectedLog with
           | AuditLog.CREATE =>
               AuditPage.rebuilt (newDate w) selectedLog
                 (AuditLog.newValue selectedLog) (AuditLog.newDescription selectedLog)
           | _ =>
               AuditPage.rebuilt (newDate w) selectedLog
                 (AuditLog.oldValue selectedLog) (AuditLog.oldDescription selectedLog)
           end)
          None
          (Some ((match AuditLog.action selectedLog with
                  | AuditLog.CREATE =>
                      js "Restored (deleted) property created in audit log: "
                  | _ => js "Restored from audit log: "
                  end) ++ AuditLog.id selectedLog)))
       (fst (AuditPage.resolveSingle (newDate w) selectedLog))
       (snd (AuditPage.resolveSingle (newDate w) selectedLog)) world)
  /\ (AuditLog.action selectedLog = AuditLog.BATCH ->
      forall restored deleted,
        AuditPage.resolveBatch (newDate w) (AuditLog.newValue selectedLog)
        = AuditPage.Resolved restored deleted ->
        AuditPage.handleRestore w selectedLog world
        = AuditPage.record FailedToParseBatchData
            (AuditService.createAuditLog w AuditLog.RESTORE
               (match restored, deleted with
                | p :: _, _ => p
                | [], p :: _ => p
                | [], [] => AuditPage.batchRestorePlaceholder (newDate w)
                end)
               None
               (Some (js "Restored batch operation from audit log: "
                      ++ AuditLog.id selectedLog ++ js " ("
                      ++ JS.decimalNat (length restored) ++ js " restored, "
                      ++ JS.decimalNat (length deleted) ++ js " deleted)")))
            restored deleted world).
Proof.
  intros Hs. split.
  - intros H. unfold AuditPage.handleRestore, AuditPage.resolveSingle.
    rewrite Hs. destruct (AuditLog.action selectedLog); try congruence;
      reflexivity.
  - intros H restored deleted R. unfold AuditPage.handleRestore.
    now rewrite Hs, H, R.
Qed.

(** Without a service the page's handler returns at once. *)
Lemma handleRestore_without_service (w : Ambient) (selectedLog : AuditLog.t)
  (world : World) :
  service world = None -> AuditPage.handleRestore w selectedLog world = Some world.
Proof. intros H. unfold AuditPage.handleRestore. now rewrite H. Qed.

(** C1, amended. Take the audit entry [createAuditLog] builds for a single
    mutation, as built or as read back from the store, and apply the
    resolver's output to any property list. For the entry read back, the
    surroundings and the properties hold no apostrophe in the texts the
    statement writes unescaped: the entry is then stored by its statement,
    with the [id] it was built with.
    - UPDATE of [old] into [property], or DELETE of [old]: the resolver
      upserts the one row rebuilt from [oldValue] and [oldDescription];
      fetching the [id] of the property afterwards yields exactly the
      value of [old], and the description of [old] with an absent
      description coming back as the empty string; the value and
      description the store keeps for the fetched property are those it
      kept for [old].
    - CREATE of [property]: the resolver deletes the one row rebuilt from
      [newValue] and [newDescription]; fetching the [id] afterwards yields
      nothing. *)
Theorem restore_single_mutation (w : Ambient) (now : Date) (stored : bool)
  (store : list Property) (property old : Property)
  (changeDetails : option jsstring) :
  (stored = true ->
   StoreSpec.plainAmbient w = true /\ StoreSpec.plainProperty property = true
   /\ StoreSpec.plainProperty old = true) ->
  let asRead e := if stored then asStored e else e in
  let apply e :=
    App.restoredList store (fst (AuditPage.resolveSingle now e))
                           (snd (AuditPage.resolveSingle now e)) in
  let restores i e :=
    (stored = true -> interpolates e = true)
    /\ AuditLog.recordId (asRead e) = i
    /\ AuditPage.resolveSingle now (asRead e)
       = ([AuditPage.rebuilt now (asRead e) (AuditLog.oldValue (asRead e))
             (AuditLog.oldDescription (asRead e))], [])
    /\ exists r,
         fetch i (apply (asRead e)) = Some r
         /\ value r = value old
         /\ description r = Some (JS.orDefault (description old) [])
         /\ persisted r = persisted old in
  restores (id property)
    (AuditService.createAuditLog w AuditLog.UPDATE property (Some old) changeDetails)
  /\ restores (id old)
       (AuditService.createAuditLog w AuditLog.DELETE old None changeDetails)
  /\ (let e := AuditService.createAuditLog w AuditLog.CREATE property None
                 changeDetails in
      (stored = true -> interpolates e = true)
      /\ AuditLog.recordId (asRead e) = id property
      /\ AuditPage.resolveSingle now (asRead e)
         = ([], [AuditPage.rebuilt now (asRead e) (AuditLog.newValue (asRead e))
                   (AuditLog.newDescription (asRead e))])
      /\ fetch (id property) (apply (asRead e)) = None).
Proof.
  intros Plain. cbv zeta.
  assert (R : forall i e,
             AuditLog.action e <> AuditLog.CREATE ->
             AuditLog.recordId e = i ->
             JS.orDefault (AuditLog.oldValue e) [] = value old ->
             JS.orDefault (AuditLog.oldDescription e) []
             = JS.orDefault (description old) [] ->
             AuditLog.recordId e = i
             /\ AuditPage.resolveSingle now e
                = ([AuditPage.rebuilt now e (AuditLog.oldValue e)
                      (AuditLog.oldDescription e)], [])
             /\ exists r,
                  fetch i
                    (App.restoredList store (fst (AuditPage.resolveSingle now e))
                       (snd (AuditPage.resolveSingle now e))) = Some r
                  /\ value r = value old
                  /\ description r = Some (JS.orDefault (description old) [])
                  /\ persisted r = persisted old).
  { intros i e Ha Hi Hv Hd. split; [exact Hi|].
    assert (E : AuditPage.resolveSingle now e
                = ([AuditPage.rebuilt now e (AuditLog.oldValue e)
                      (AuditLog.oldDescription e)], [])).
    { unfold AuditPage.resolveSingle. destruct (AuditLog.action e); congruence. }
    split; [exact E|]. rewrite E. cbn [fst snd App.restoredList fold_left].
    exists (AuditPage.rebuilt now e (AuditLog.oldValue e) (AuditLog.oldDescription e)).
    split.
    { rewrite <- Hi. apply (fetch_upsert (AuditPage.rebuilt now e _ _)). }
    unfold persisted, AuditPage.rebuilt, rowOfProperty.
    cbn [value description row_value row_description].
    rewrite Hv, Hd. repeat split.
    destruct (description old) as [[|c s]|]; reflexivity. }
  assert (S : forall action p o,
             (p = property \/ p = old) ->
             (stored = true ->
              interpolates (AuditService.createAuditLog w action p o changeDetails)
              = true)
             /\ AuditLog.recordId
                  (if stored
                   then asStored (AuditService.createAuditLog w action p o
                                    changeDetails)
                   else AuditService.createAuditLog w action p o changeDetails)
                = id p).
  { intros action p o Hp. destruct stored.
    - destruct (Plain eq_refl) as (Hw & P1 & P2).
      assert (Pp : StoreSpec.plainProperty p = true) by (destruct Hp; now subst).
      destruct (createAuditLog_interpolates w action p o changeDetails Hw Pp)
        as (I & _ & _ & _ & Er & _).
      split; [intros _; exact I|exact Er].
    - split; [discriminate|]. destruct action, o; reflexivity. }
  split; [|split].
  - destruct (S AuditLog.UPDATE property (Some old) (or_introl eq_refl)) as [I Er].
    split; [exact I|]. apply R; [| exact Er | |]; destruct stored; cbn;
      try discriminate; rewrite ?orElse_nil_r; try reflexivity.
    + now destruct (value old).
    + apply orDefault_textOrNull.
  - destruct (S AuditLog.DELETE old None (or_intror eq_refl)) as [I Er].
    split; [exact I|]. apply R; [| exact Er | |]; destruct stored; cbn;
      try discriminate; rewrite ?orElse_nil_r; try reflexivity.
    + now destruct (value old).
    + apply orDefault_textOrNull.
  - destruct (S AuditLog.CREATE property None (or_introl eq_refl)) as [I Er].
    split; [exact I|]. split; [exact Er|].
    assert (K : forall e,
               AuditLog.action e = AuditLog.CREATE ->
               AuditLog.recordId e = id property ->
               AuditPage.resolveSingle now e
               = ([], [AuditPage.rebuilt now e (AuditLog.newValue e)
                         (AuditLog.newDescription e)])
               /\ fetch (id property)
                    (App.restoredList store (fst (AuditPage.resolveSingle now e))
                       (snd (AuditPage.resolveSingle now e))) = None).
    { intros e Ha Hr. unfold AuditPage.resolveSingle. rewrite Ha.
      split; [reflexivity|].
      cbn [fst snd App.restoredList fold_left AuditPage.rebuilt id].
      rewrite Hr. apply fetch_filter. }
    apply K; [destruct stored; reflexivity|exact Er].
Qed.

Lemma restore_single_mutation_witness :
  exists r,
    fetch (id Samples.dbUrl)
      (App.restoredList []
         (fst (AuditPage.resolveSingle Samples.noon
                 (asStored (AuditService.createAuditLog Samples.ambient
                              AuditLog.DELETE Samples.dbUrl None None))))
         (snd (AuditPage.resolveSingle Samples.noon
                 (asStored (AuditService.createAuditLog Samples.ambient
                              AuditLog.DELETE Samples.dbUrl None None)))))
    = Some r
    /\ value r = value Samples.dbUrl
    /\ description r = Some (JS.orDefault (description Samples.dbUrl) []).
Proof.
  destruct (restore_single_mutation Samples.ambient Samples.noon true []
              Samples.dbUrl Samples.dbUrl None)
    as (_ & (_ & _ & _ & r & F & V & D & _) & _).
  - intros _. repeat split; reflexivity.
  - exists r. now repeat split.
Defined.

(** C1 as stated fails on the description: deleting a property that has no
    description and restoring the DELETE entry brings the property back
    with the empty string for description, not with an absent one. *)
Lemma restored_description_is_empty_string :
  description Samples.plainProperty = None
  /\ (let e := AuditService.createAuditLog Samples.ambient AuditLog.DELETE
                 Samples.plainProperty None None in
      option_map description
        (fetch (AuditLog.recordId e)
           (App.restoredList []
              (fst (AuditPage.resolveSingle Samples.noon e))
              (snd (AuditPage.resolveSingle Samples.noon e)))))
     = Some (Some []).
Proof. split; reflexivity. Qed.

(** It fails on the [id] as well, for an entry read back from the store:
    an apostrophe written twice in the [id] is stored as one, and
    restoring the DELETE entry brings back a property with that other
    [id]; the deleted property is not found. *)
Lemma restored_id_loses_apostrophe :
  let e := AuditService.createAuditLog Samples.ambient AuditLog.DELETE
             Samples.doubledApostrophe None None in
  let restoredTo :=
    App.restoredList []
      (fst (AuditPage.resolveSingle Samples.noon (asStored e)))
      (snd (AuditPage.resolveSingle Samples.noon (asStored e))) in
  interpolates e = true
  /\ id Samples.doubledApostrophe = js "prod_it''s"
  /\ AuditLog.recordId (asStored e) = js "prod_it's"
  /\ fetch (id Samples.doubledApostrophe) restoredTo = None
  /\ map id restoredTo = [js "prod_it's"].
Proof. repeat split; reflexivity. Qed.

(** *** Batches *)

Lemma asProperty_propertyJSON (p : Property) :
  AuditPage.asProperty None (Some (AuditService.propertyJSON p)) = Some p.
Proof.
  destruct p as [i e k v d c m eo fo lo].
  destruct d, eo, fo, lo; reflexivity.
Qed.

Lemma asProperty_stamped (now : Date) (p : Property) :
  AuditPage.asProperty (Some now) (Some (AuditService.propertyJSON p))
  = Some (withLastModified now p).
Proof.
  destruct p as [i e k v d c m eo fo lo].
  destruct d, eo, fo, lo; reflexivity.
Qed.

Lemma reverseChange_changeJSON (now : Date) (originals : option (list Property))
  (change : Property) (restored deleted : list Property) :
  AuditPage.reverseChange now
    (AuditPage.mkCollected (Some restored) (Some deleted))
    (AuditService.changeJSON originals change)
  = inl (AuditPage.mkCollected
           (Some (restored ++ map (withLastModified now)
                                  (originalsOf originals [change])))
           (Some (deleted ++ creationsOf originals [change]))).
Proof.
  unfold AuditPage.reverseChange, AuditService.changeJSON.
  cbn [originalsOf creationsOf].
  destruct (AuditService.findOriginal originals change) as [original|].
  - cbn [AuditService.optionalMember AuditPage.getProperty].
    replace (member (js "originalProperty")
               [(js "property", AuditService.propertyJSON change);
                (js "originalProperty", AuditService.propertyJSON original)])
      with (Some (AuditService.propertyJSON original)) by reflexivity.
    cbn [AuditPage.truthyProperty truthy AuditService.propertyJSON
         AuditPage.restoredProperties AuditPage.deletedProperties].
    change (JObject _) with (AuditService.propertyJSON original).
    rewrite asProperty_stamped. cbn [AuditPage.push map]. now rewrite app_nil_r.
  - cbn [AuditService.optionalMember AuditPage.getProperty].
    replace (member (js "originalProperty")
               [(js "property", AuditService.propertyJSON change)])
      with (@None json) by reflexivity.
    replace (member (js "property")
               [(js "property", AuditService.propertyJSON change)])
      with (Some (AuditService.propertyJSON change)) by reflexivity.
    cbn [AuditPage.truthyProperty AuditPage.restoredProperties
         AuditPage.deletedProperties].
    rewrite asProperty_propertyJSON. cbn [AuditPage.push map]. now rewrite app_nil_r.
Qed.

Lemma originalsOf_cons (originals : option (list Property)) (change : Property)
  (rest : list Property) :
  originalsOf originals (change :: rest)
  = originalsOf originals [change] ++ originalsOf originals rest.
Proof.
  cbn [originalsOf].
  now destruct (AuditService.findOriginal originals change).
Qed.

Lemma creationsOf_cons (originals : option (list Property)) (change : Property)
  (rest : list Property) :
  creationsOf originals (change :: rest)
  = creationsOf originals [change] ++ creationsOf originals rest.
Proof.
  cbn [creationsOf].
  now destruct (AuditService.findOriginal originals change).
Qed.

Lemma forEach_changes (now : Date) (originals : option (list Property))
  (changes restored deleted : list Property) :
  AuditPage.forEach (AuditPage.reverseChange now)
    (map (AuditService.changeJSON originals) changes)
    (AuditPage.mkCollected (Some restored) (Some deleted))
  = inl (AuditPage.mkCollected
           (Some (restored ++ map (withLastModified now)
                                  (originalsOf originals changes)))
           (Some (deleted ++ creationsOf originals changes))).
Proof.
  revert restored deleted.
  induction changes as [|change rest IH]; intros restored deleted.
  - cbn. now rewrite !app_nil_r.
  - cbn [map AuditPage.forEach]. rewrite reverseChange_changeJSON, IH.
    rewrite (originalsOf_cons originals change rest),
            (creationsOf_cons originals change rest).
    now rewrite map_app, !app_assoc.
Qed.

Lemma forEach_deletions (now : Date) (deletions restored deleted : list Property) :
  AuditPage.forEach (AuditPage.reverseDeletion now)
    (map AuditService.propertyJSON deletions)
    (AuditPage.mkCollected (Some restored) (Some deleted))
  = inl (AuditPage.mkCollected
           (Some (restored ++ map (withLastModified now) deletions))
           (Some deleted)).
Proof.
  revert restored.
  induction deletions as [|deletion rest IH]; intros restored.
  - cbn. now rewrite app_nil_r.
  - cbn [map AuditPage.forEach AuditPage.reverseDeletion
         AuditPage.restoredProperties AuditPage.deletedProperties].
    rewrite asProperty_stamped. cbn [AuditPage.push]. rewrite IH.
    now rewrite <- app_assoc.
Qed.

Lemma originals_creations_length (originals : option (list Property))
  (changes : list Property) :
  length (originalsOf originals changes) + length (creationsOf originals changes)
  = length changes.
Proof.
  induction changes as [|change rest IH]; [reflexivity|].
  cbn [originalsOf creationsOf].
  destruct (AuditService.findOriginal originals change); cbn [length]; lia.
Qed.

Lemma forEachOf_changes (changes deletions : list Property)
  (originals : option (list Property)) f (acc : AuditPage.Collected) :
  AuditPage.forEachOf (AuditService.batchData changes deletions originals)
    (js "changes") f acc
  = AuditPage.forEach f (map (AuditService.changeJSON originals) changes) acc.
Proof. reflexivity. Qed.

Lemma forEachOf_deletions (changes deletions : list Property)
  (originals : option (list Property)) f (acc : AuditPage.Collected) :
  AuditPage.forEachOf (AuditService.batchData changes deletions originals)
    (js "deletions") f acc
  = AuditPage.forEach f (map AuditService.propertyJSON deletions) acc.
Proof. reflexivity. Qed.

(** C2. For every BATCH entry [createBatchOperationAuditLog] builds for N
    changes and M deletions (as built, or as read back from the store), the
    resolver parses the payload in [newValue] and produces exactly N + M
    inverse operations: an upsert of the original for each change that has
    one, a delete of the property for each change that has none, and an
    upsert of each deleted property. *)
Theorem restore_batch_inverts (w : Ambient) (now : Date) (stored : bool)
  (changes deletions : list Property) (customComment : option jsstring)
  (originalProperties : option (list Property)) :
  let entry :=
    AuditService.createBatchOperationAuditLog w changes deletions customComment
      originalProperties in
  let selectedLog := if stored then DuckDBService.asStored entry else entry in
  AuditLog.action selectedLog = AuditLog.BATCH
  /\ AuditPage.resolveBatch now (AuditLog.newValue selectedLog)
     = AuditPage.Resolved
         (upsertsOf now originalProperties changes deletions)
         (creationsOf originalProperties changes)
  /\ length (upsertsOf now originalProperties changes deletions)
     + length (creationsOf originalProperties changes)
     = length changes + length deletions.
Proof.
  cbv zeta. split; [now destruct stored|]. split.
  - assert (V : AuditLog.newValue
                  (if stored
                   then asStored
                          (AuditService.createBatchOperationAuditLog w changes
                             deletions customComment originalProperties)
                   else AuditService.createBatchOperationAuditLog w changes
                          deletions customComment originalProperties)
                = Some (stringify (AuditService.batchData changes deletions
                                     originalProperties))).
    { destruct stored; reflexivity. }
    rewrite V. unfold AuditPage.resolveBatch.
    replace (JS.orDefault
               (Some (stringify (AuditService.batchData changes deletions
                                   originalProperties))) (js "{}"))
      with (stringify (AuditService.batchData changes deletions originalProperties))
      by reflexivity.
    rewrite parse_stringify, forEachOf_changes, forEach_changes.
    rewrite forEachOf_deletions, forEach_deletions. reflexivity.
  - unfold upsertsOf. rewrite length_app, !length_map.
    pose proof (originals_creations_length originalProperties changes). lia.
Qed.




(** ** Snapshot import *)

Import DuckDBService.

(** [importFromParquet] on an initialised service, statement by statement. *)
Lemma importFromParquet_steps (engine : Engine) (buffer : list N) (d : Database) :
  importFromParquet engine buffer (Some d) =
  match read_parquet engine buffer with
  | None => Threw ReadFailure (Some (mkDatabase (properties d) (audit_logs d) None))
  | Some t =>
      if hasColumn (js "table_type") t then
        match selectedProperties engine (asParsedTimestamp engine) true [] t with
        | inr e => Threw e (Some (mkDatabase [] [] (Some t)))
        | inl new =>
            match selectedAuditLogs engine [] t with
            | inr e => Threw e (Some (mkDatabase new [] (Some t)))
            | inl logs => Returned new (Some (mkDatabase new logs (Some t)))
            end
        end
      else
        match selectedProperties engine (asTimestamp engine) false [] t with
        | inr e => Threw e (Some (mkDatabase [] (audit_logs d) (Some t)))
        | inl new => Returned new (Some (mkDatabase new (audit_logs d) (Some t)))
        end
  end.
Proof.
  cbv [importFromParquet bind connected dropImportedData createImportedData].
  destruct (read_parquet engine buffer) as [t|]; [|reflexivity].
  cbv beta iota.
  destruct (hasColumn (js "table_type") t).
  - cbv [importCombinedData bind connected deleteFromProperties
         deleteFromAuditLogs insertSelectedProperties insertSelectedAuditLogs].
    cbn [properties audit_logs imported_data].
    destruct (selectedProperties engine (asParsedTimestamp engine) true [] t)
      as [new|e]; [|reflexivity].
    cbn [app properties audit_logs imported_data].
    destruct (selectedAuditLogs engine [] t) as [logs|e]; reflexivity.
  - cbv [importLegacyProperties bind connected deleteFromProperties
         insertSelectedProperties].
    cbn [properties audit_logs imported_data].
    destruct (selectedProperties engine (asTimestamp engine) false [] t)
      as [new|e]; reflexivity.
Qed.

(** C5, amended. Import is atomic with respect to a failure to read the
    file: on an uninitialised service, or when the file cannot be read
    into the staging table, the import throws and both tables keep their
    contents. A failure while the rows are inserted is not undone: the
    import throws after the tables were cleared. For a legacy file the
    property table is then empty and the audit table as before; for a
    combined file the audit table is empty, and the property table is
    empty or holds the imported properties. *)
Theorem import_failure_states (engine : Engine) (buffer : list N) (s : Service) :
  let r := importFromParquet engine buffer s in
  (s = None -> r = Threw NotInitialized None)
  /\ (forall d, s = Some d ->
      read_parquet engine buffer = None ->
      r = Threw ReadFailure (Some (mkDatabase (properties d) (audit_logs d) None))
      /\ propertiesOf (stateAfter r) = properties d
      /\ auditLogsOf (stateAfter r) = audit_logs d)
  /\ (forall d t, s = Some d ->
      read_parquet engine buffer = Some t ->
      threw r = true ->
      if hasColumn (js "table_type") t
      then auditLogsOf (stateAfter r) = []
           /\ (propertiesOf (stateAfter r) = []
               \/ selectedProperties engine (asParsedTimestamp engine) true [] t
                  = inl (propertiesOf (stateAfter r)))
      else propertiesOf (stateAfter r) = []
           /\ auditLogsOf (stateAfter r) = audit_logs d).
Proof.
  cbv zeta. split; [|split].
  - intros ->. reflexivity.
  - intros d -> H. rewrite importFromParquet_steps, H. auto.
  - intros d t -> H. rewrite importFromParquet_steps, H.
    destruct (hasColumn (js "table_type") t).
    + destruct (selectedProperties engine (asParsedTimestamp engine) true [] t)
        as [new|e]; [|cbn; auto].
      destruct (selectedAuditLogs engine [] t) as [logs|e]; cbn; [discriminate|auto].
    + destruct (selectedProperties engine (asTimestamp engine) false [] t)
        as [new|e]; cbn; [discriminate|auto].
Qed.

(** C5 as stated fails: importing a combined snapshot whose property row
    has no environment throws on the NOT NULL constraint after both tables
    were cleared; the property and the audit entry the store held are
    gone. *)
Lemma import_invalid_snapshot_clears_tables :
  length (propertiesOf (Some Samples.database)) = 1
  /\ length (auditLogsOf (Some Samples.database)) = 1
  /\ importFromParquet Samples.engine [3%N] (Some Samples.database)
     = Threw ConstraintViolation
         (Some (mkDatabase [] [] (Some Samples.invalidSnapshot))).
Proof. repeat split; reflexivity. Qed.

(** C7. For every readable snapshot without the [table_type] column,
    import leaves every row of the audit table as it was, whether the
    import returns or throws; it returns exactly when the file has the
    property columns, every row of the file converts and no two rows share
    an [id], and the property table then holds exactly the rows of the
    file. For every readable snapshot with the [table_type] column, the
    import returns exactly when the file has the property and the audit
    columns, its rows of either type convert and no two rows of one type
    share an [id]; it has then replaced both tables: the property table
    holds the file's rows of type [properties], the audit table its rows
    of type [audit_logs]. *)
Theorem import_replaces_by_layout (engine : Engine) (buffer : list N)
  (d : Database) (t : Table) :
  read_parquet engine buffer = Some t ->
  let r := importFromParquet engine buffer (Some d) in
  (hasColumn (js "table_type") t = false ->
   auditLogsOf (stateAfter r) = audit_logs d
   /\ forall imported s',
        r = Returned imported s'
        <-> forallb (fun c => hasColumn c t) propertyColumns = true
            /\ evaluateAll (selectProperty engine (asTimestamp engine) t) (rows t)
               = inl imported
            /\ distinct (map row_id imported) = true
            /\ s' = Some (mkDatabase imported (audit_logs d) (Some t)))
  /\ (hasColumn (js "table_type") t = true ->
      forall imported s',
        r = Returned imported s'
        <-> exists logs,
              forallb (fun c => hasColumn c t) propertyColumns = true
              /\ evaluateAll (selectProperty engine (asParsedTimestamp engine) t)
                   (filter (ofTableType (js "properties") t) (rows t))
                 = inl imported
              /\ distinct (map row_id imported) = true
              /\ forallb (fun c => hasColumn c t) auditColumns = true
              /\ evaluateAll (selectAuditLog engine t)
                   (filter (ofTableType (js "audit_logs") t) (rows t))
                 = inl logs
              /\ distinct (map log_id logs) = true
              /\ s' = Some (mkDatabase imported logs (Some t))).
Proof.
  intros H. cbv zeta. rewrite importFromParquet_steps, H.
  split; intros L; rewrite L.
  - unfold selectedProperties. rewrite app_nil_r.
    destruct (forallb (fun c => hasColumn c t) propertyColumns);
      cbn [negb andThen].
    2:{ split; [reflexivity|]. intros imported s'.
        split; [discriminate|]. intros (E & _). discriminate E. }
    destruct (evaluateAll (selectProperty engine (asTimestamp engine) t) (rows t))
      as [new|e]; cbn [andThen app].
    2:{ split; [reflexivity|]. intros imported s'.
        split; [discriminate|]. intros (_ & E & _). discriminate E. }
    destruct (distinct (map row_id new)) eqn:D; cbn.
    + split; [reflexivity|]. intros imported s'. split.
      * intros E. injection E as <- <-. auto.
      * intros (_ & E & _ & ->). injection E as <-. reflexivity.
    + split; [reflexivity|]. intros imported s'.
      split; [discriminate|]. intros (_ & E & D' & _).
      injection E as <-. congruence.
  - intros imported s'. unfold selectedProperties, selectedAuditLogs.
    rewrite !forallb_app. cbn [forallb]. rewrite L, !andb_true_r.
    destruct (forallb (fun c => hasColumn c t) propertyColumns);
      cbn [negb andThen].
    2:{ split; [discriminate|]. intros (logs & E & _). discriminate E. }
    destruct (evaluateAll (selectProperty engine (asParsedTimestamp engine) t) _)
      as [new|e]; cbn [andThen app].
    2:{ split; [discriminate|]. intros (logs & _ & E & _). discriminate E. }
    destruct (distinct (map row_id new)) eqn:D.
    2:{ split; [discriminate|]. intros (logs & _ & E & D' & _).
        injection E as <-. congruence. }
    destruct (forallb (fun c => hasColumn c t) auditColumns);
      cbn [negb andThen].
    2:{ split; [discriminate|]. intros (logs & _ & _ & _ & E & _).
        discriminate E. }
    destruct (evaluateAll (selectAuditLog engine t) _)
      as [logs|e]; cbn [andThen app].
    2:{ split; [discriminate|]. intros (logs & _ & _ & _ & _ & E & _).
        discriminate E. }
    destruct (distinct (map log_id logs)) eqn:D2.
    2:{ split; [discriminate|]. intros (logs' & _ & _ & _ & _ & E & D' & _).
        injection E as <-. congruence. }
    split.
    + intros E. injection E as <- <-. exists logs. auto 10.
    + intros (logs' & _ & E & _ & _ & E' & _ & ->).
      injection E as <-. injection E' as <-. reflexivity.
Qed.

Lemma import_replaces_by_layout_witness :
  (exists imported,
     importFromParquet Samples.engine [1%N] (Some Samples.database)
     = Returned imported
         (Some (mkDatabase imported (audit_logs Samples.database)
                  (Some Samples.legacySnapshot)))
     /\ map row_id imported = [js "prod_a"])
  /\ (exists imported logs,
        importFromParquet Samples.engine [2%N] (Some Samples.database)
        = Returned imported
            (Some (mkDatabase imported logs (Some Samples.combinedSnapshot)))
        /\ length imported = 1 /\ length logs = 1).
Proof.
  split.
  - destruct (import_replaces_by_layout Samples.engine [1%N] Samples.database
                Samples.legacySnapshot eq_refl) as [L _].
    destruct (L eq_refl) as [_ R].
    eexists. split.
    + apply R. split; [reflexivity|]. split; [reflexivity|].
      split; reflexivity.
    + reflexivity.
  - destruct (import_replaces_by_layout Samples.engine [2%N] Samples.database
                Samples.combinedSnapshot eq_refl) as [_ C].
    eexists. eexists. split.
    + apply (C eq_refl). eexists.
      split; [reflexivity|]. split; [reflexivity|]. split; [reflexivity|].
      split; [reflexivity|]. split; [reflexivity|]. split; reflexivity.
    + split; reflexivity.
Defined.
(** ** Arrays, sets and plain objects *)

Lemma existsb_eqb_In (x : jsstring) (l : list jsstring) :
  existsb (JS.eqb x) l = true <-> In x l.
Proof.
  rewrite existsb_exists. split.
  - intros (y & Hy & E). apply eqb_eq in E. now subst.
  - intros H. exists x. split; [exact H|apply eqb_refl].
Qed.

Lemma existsb_eqb_notIn (x : jsstring) (l : list jsstring) :
  existsb (JS.eqb x) l = false <-> ~ In x l.
Proof.
  rewrite <- existsb_eqb_In. destruct (existsb (JS.eqb x) l); split; congruence.
Qed.

Lemma insertBy_perm {A} (compare : A -> A -> Z) (x : A) (l : list A) :
  Permutation (JSArray.insertBy compare x l) (x :: l).
Proof.
  induction l as [|y r IH]; simpl; [reflexivity|].
  destruct (compare x y <=? 0)%Z; [reflexivity|].
  rewrite IH. apply perm_swap.
Qed.

Lemma sortBy_perm {A} (compare : A -> A -> Z) (l : list A) :
  Permutation (JSArray.sortBy compare l) l.
Proof.
  induction l as [|x l IH]; simpl; [reflexivity|].
  rewrite insertBy_perm. now constructor.
Qed.

(** A list whose neighbours are already in order is left as it is. *)
Lemma sortBy_inOrder {A} (compare : A -> A -> Z) (l : list A) :
  JSArray.inOrder compare l -> JSArray.sortBy compare l = l.
Proof.
  induction l as [|x [|y r] IH]; simpl; intros H; [reflexivity..|].
  destruct H as [Hxy Hr]. simpl in IH. rewrite (IH Hr). simpl.
  apply Z.leb_le in Hxy. now rewrite Hxy.
Qed.

Section SortedBy.

Context {A : Type} (compare : A -> A -> Z).

Hypothesis total : forall x y, (compare x y <= 0)%Z \/ (compare y x <= 0)%Z.
Hypothesis transitive :
  forall x y z, (compare x y <= 0)%Z -> (compare y z <= 0)%Z -> (compare x z <= 0)%Z.

Lemma insertBy_sorted (x : A) (l : list A) :
  StronglySorted (fun a b => (compare a b <= 0)%Z) l ->
  StronglySorted (fun a b => (compare a b <= 0)%Z) (JSArray.insertBy compare x l).
Proof.
  induction 1 as [|y r Hr IH Hy]; simpl.
  - constructor; constructor.
  - destruct (compare x y <=? 0)%Z eqn:E.
    + apply Z.leb_le in E. constructor.
      * now constructor.
      * constructor; [exact E|].
        rewrite Forall_forall in *. intros z Hz. eapply transitive; eauto.
    + apply Z.leb_gt in E. constructor; [exact IH|].
      eapply Permutation_Forall.
      * symmetry. apply insertBy_perm.
      * constructor; [|exact Hy]. destruct (total x y); [lia|assumption].
Qed.

Lemma sortBy_sorted (l : list A) :
  StronglySorted (fun a b => (compare a b <= 0)%Z) (JSArray.sortBy compare l).
Proof.
  induction l as [|x l IH]; simpl; [constructor|]. now apply insertBy_sorted.
Qed.

End SortedBy.

(** The order of the code units. *)
Lemma ltb_irrefl (a : jsstring) : JSArray.ltb a a = false.
Proof.
  induction a as [|x a IH]; simpl; [reflexivity|].
  now rewrite N.ltb_irrefl.
Qed.

Lemma ltb_connected (a b : jsstring) :
  JSArray.ltb a b = false -> JSArray.ltb b a = false -> a = b.
Proof.
  revert b. induction a as [|x a IH]; intros [|y b]; simpl; try congruence.
  destruct (N.ltb_spec x y), (N.ltb_spec y x); try discriminate; try lia.
  intros H1 H2. f_equal; [lia|]. now apply IH.
Qed.

Lemma ltb_asym (a b : jsstring) :
  JSArray.ltb a b = true -> JSArray.ltb b a = false.
Proof.
  revert b. induction a as [|x a IH]; intros [|y b]; simpl; try congruence.
  destruct (N.ltb_spec x y), (N.ltb_spec y x); try discriminate; try lia; auto.
Qed.

Lemma notLtb_trans (a b c : jsstring) :
  JSArray.ltb b a = false -> JSArray.ltb c b = false -> JSArray.ltb c a = false.
Proof.
  revert b c. induction a as [|x a IH]; intros [|y b] [|z c]; simpl;
    try congruence.
  destruct (N.ltb_spec y x), (N.ltb_spec x y), (N.ltb_spec z y),
    (N.ltb_spec y z), (N.ltb_spec z x), (N.ltb_spec x z);
    try discriminate; try lia; try reflexivity.
  apply IH.
Qed.

Lemma defaultCompare_le (a b : jsstring) :
  (JSArray.defaultCompare a b <= 0)%Z <-> JSArray.ltb b a = false.
Proof.
  unfold JSArray.defaultCompare.
  destruct (JSArray.ltb a b) eqn:E1.
  - rewrite (ltb_asym _ _ E1). split; [reflexivity|lia].
  - destruct (JSArray.ltb b a); split; try lia; congruence.
Qed.

(** [new Set]: every element once, in the order of the first occurrences. *)
Lemma addEach_spec (l seen : list jsstring) :
  NoDup seen ->
  NoDup (JSArray.addEach l seen)
  /\ forall x, In x (JSArray.addEach l seen) <-> In x seen \/ In x l.
Proof.
  revert seen. induction l as [|y l IH]; simpl; intros seen N.
  - split; [exact N|]. intros x. tauto.
  - destruct (existsb (JS.eqb y) seen) eqn:E.
    + apply existsb_eqb_In in E. destruct (IH seen N) as [N' I].
      split; [exact N'|]. intros x. rewrite I.
      split; [tauto|]. intros [H|[<-|H]]; auto.
    + apply existsb_eqb_notIn in E.
      assert (N2 : NoDup (seen ++ [y])).
      { apply NoDup_app; [exact N|repeat constructor; simpl; tauto|].
        intros x Hx [<-|[]]. contradiction. }
      destruct (IH _ N2) as [N' I]. split; [exact N'|].
      intros x. rewrite I, in_app_iff. simpl. tauto.
Qed.

Lemma unique_NoDup (l : list jsstring) : NoDup (JSArray.unique l).
Proof. apply (addEach_spec l []). constructor. Qed.

Lemma unique_In (l : list jsstring) (x : jsstring) :
  In x (JSArray.unique l) <-> In x l.
Proof.
  destruct (addEach_spec l [] (NoDup_nil _)) as [_ I].
  unfold JSArray.unique. rewrite I. simpl. tauto.
Qed.

Lemma strictly_sorted (r : list jsstring) :
  StronglySorted (fun a b => (JSArray.defaultCompare a b <= 0)%Z) r ->
  NoDup r ->
  StronglySorted (fun a b => JSArray.ltb a b = true) r.
Proof.
  induction 1 as [|x r Sr IH Hx]; intros N'; [constructor|].
  inversion N' as [|? ? Hnot Nr]; subst.
  constructor; [now apply IH|].
  rewrite Forall_forall in *. intros y Hy.
  specialize (Hx y Hy). apply defaultCompare_le in Hx.
  destruct (JSArray.ltb x y) eqn:E; [reflexivity|].
  exfalso. apply Hnot. rewrite (ltb_connected _ _ E Hx). exact Hy.
Qed.

Lemma sort_spec (l : list jsstring) :
  NoDup l ->
  StronglySorted (fun a b => JSArray.ltb a b = true) (JSArray.sort l)
  /\ forall x, In x (JSArray.sort l) <-> In x l.
Proof.
  intros N. unfold JSArray.sort.
  assert (P : Permutation (JSArray.sortBy JSArray.defaultCompare l) l)
    by apply sortBy_perm.
  split.
  - apply strictly_sorted.
    + apply sortBy_sorted.
      * intros x y. rewrite !defaultCompare_le.
        destruct (JSArray.ltb y x) eqn:E; [right; now apply ltb_asym|now left].
      * intros x y z. rewrite !defaultCompare_le. intros H1 H2.
        exact (notLtb_trans _ _ _ H1 H2).
    + eapply Permutation_NoDup; [symmetry; exact P|exact N].
  - intros x. split; apply Permutation_in; [exact P|symmetry; exact P].
Qed.

(** X1. The environments (and the components) listed for a set of
    properties are exactly the ones that occur, each once, in ascending
    order of their code units. *)
Theorem environments_sorted_unique (properties : list Property) :
  (forall e, In e (Folders.getEnvironmentsFromProperties properties)
             <-> exists p, In p properties /\ environment p = e)
  /\ StronglySorted (fun a b => JSArray.ltb a b = true)
       (Folders.getEnvironmentsFromProperties properties)
  /\ (forall c, In c (Folders.getComponentsFromProperties properties)
                <-> exists p, In p properties /\ component p = c)
  /\ StronglySorted (fun a b => JSArray.ltb a b = true)
       (Folders.getComponentsFromProperties properties).
Proof.
  unfold Folders.getEnvironmentsFromProperties, Folders.getComponentsFromProperties.
  destruct (sort_spec _ (unique_NoDup (map environment properties))) as [S1 I1].
  destruct (sort_spec _ (unique_NoDup (map component properties))) as [S2 I2].
  repeat split; try assumption.
  - intros H. apply I1, unique_In, in_map_iff in H.
    destruct H as (p & E & Hp). eauto.
  - intros (p & Hp & <-). apply I1, unique_In, in_map. exact Hp.
  - intros H. apply I2, unique_In, in_map_iff in H.
    destruct H as (p & E & Hp). eauto.
  - intros (p & Hp & <-). apply I2, unique_In, in_map. exact Hp.
Qed.

(** *** Components and file names *)

Lemma lookupOr_componentMap (name c : jsstring) :
  Components.lookupOr Components.componentMap name (js "env") = Components.Text c ->
  In c Components.knownComponents.
Proof.
  unfold Components.lookupOr, JSObject.get, JSObject.own, Components.componentMap.
  cbn [find fst snd option_map].
  repeat match goal with
         | |- context [if JS.eqb ?a name then _ else _] =>
             destruct (JS.eqb a name)
         end;
    cbn [option_map snd];
    try (intros H; injection H as <-; vm_compute; tauto).
  destruct (JSObject.inherited name); [discriminate|].
  intros H; injection H as <-; vm_compute; tauto.
Qed.

(** X2. Writing a component's file name and reading the component back
    from that name gives the component again exactly for the ten
    components the two tables know; for every other component the name
    read back differs. *)
Theorem component_file_name_round_trip (c : jsstring) :
  (exists f, Components.getComponentFileName c = Components.Text f
             /\ Components.getComponentFromFilename f = Components.Text c)
  <-> In c Components.knownComponents.
Proof.
  split.
  - intros (f & _ & H). exact (lookupOr_componentMap _ _ H).
  - intros H. vm_compute in H.
    repeat (destruct H as [<-|H]; [eexists; split; vm_compute; reflexivity|]).
    destruct H.
Qed.

Lemma sameCombination_spec (k env c : jsstring) (q : Property) :
  Components.sameCombination k env c q = true
  <-> key q = k /\ environment q = env /\ component q = c.
Proof.
  unfold Components.sameCombination. rewrite !andb_true_iff, !eqb_eq. tauto.
Qed.

Lemma NoDup_flat_map {A B} (f : A -> list B) (l : list A) :
  NoDup l ->
  (forall x, In x l -> NoDup (f x)) ->
  (forall x y z, In x l -> In y l -> In z (f x) -> In z (f y) -> x = y) ->
  NoDup (flat_map f l).
Proof.
  induction 1 as [|x l Hx N IH]; intros Hf Hinj; simpl; [constructor|].
  apply NoDup_app.
  - apply Hf. now left.
  - apply IH.
    + intros y Hy. apply Hf. now right.
    + intros y y' z Hy Hy'. apply Hinj; now right.
  - intros z Hz Hz'. apply in_flat_map in Hz'. destruct Hz' as (y & Hy & Hzy).
    apply Hx. rewrite (Hinj x y z); auto. now left. now right.
Qed.

Lemma missing_property_NoDup (now : Date) (existing : list Property)
  (k c env : jsstring) :
  NoDup (if existsb (Components.sameCombination k env c) existing then []
         else [mkProperty (env ++ js "_" ++ k) env k []
                 (Some (Components.similarDescription existing k c))
                 c now None None None]).
Proof.
  destruct (existsb _ existing); repeat constructor. simpl. tauto.
Qed.

(** X3. The properties created for missing components are exactly one
    empty-valued property for every combination of a key that occurs, a
    component that occurs and a target environment (the given ones, or
    the ones that occur) that no existing property has; its description
    is that of the first existing property with the key and component.
    Unless a given environment is listed twice, no property is created
    twice. *)
Theorem missing_components_cover (now : Date) (existing : list Property)
  (environments : option (list jsstring)) :
  (forall p,
     In p (Components.createMissingComponentProperties now existing environments)
     <-> exists k env c,
           In k (map key existing) /\ In c (map component existing)
           /\ match environments with
              | Some given => In env given
              | None => In env (map environment existing)
              end
           /\ (forall q, In q existing ->
                         ~ (key q = k /\ environment q = env /\ component q = c))
           /\ p = mkProperty (env ++ js "_" ++ k) env k []
                    (Some (Components.similarDescription existing k c))
                    c now None None None)
  /\ (match environments with Some given => NoDup given | None => True end ->
      NoDup (Components.createMissingComponentProperties now existing environments)).
Proof.
  split.
  { intros p.
  unfold Components.createMissingComponentProperties. rewrite in_flat_map.
  split.
  - intros (k & Hk & H). apply in_flat_map in H. destruct H as (c & Hc & H).
    apply in_flat_map in H. destruct H as (env & He & H).
    destruct (existsb (Components.sameCombination k env c) existing) eqn:E;
      [destruct H|].
    destruct H as [<-|[]]. exists k, env, c.
    rewrite unique_In in Hk. rewrite unique_In in Hc.
    repeat split; try assumption.
    + destruct environments; [exact He|now rewrite unique_In in He].
    + intros q Hq Hsame. apply sameCombination_spec in Hsame.
      assert (X : existsb (Components.sameCombination k env c) existing = true).
      { apply existsb_exists. eauto. }
      congruence.
  - intros (k & env & c & Hk & Hc & He & Hnone & ->).
    exists k. split; [now apply unique_In|].
    apply in_flat_map. exists c. split; [now apply unique_In|].
    apply in_flat_map. exists env. split.
    + destruct environments; [exact He|now apply unique_In].
    + destruct (existsb (Components.sameCombination k env c) existing) eqn:E;
        [|now left].
      apply existsb_exists in E. destruct E as (q & Hq & Hsame).
      apply sameCombination_spec in Hsame. exfalso. exact (Hnone q Hq Hsame).
}
  intros Henv. unfold Components.createMissingComponentProperties.
  set (targets := match environments with Some given => given | None => _ end).
  assert (Nt : NoDup targets).
  { subst targets. destruct environments; [exact Henv|apply unique_NoDup]. }
  apply NoDup_flat_map; [apply unique_NoDup| |].
  - intros k _. apply NoDup_flat_map; [apply unique_NoDup| |].
    + intros c _. apply NoDup_flat_map; [exact Nt| |].
      * intros env _. apply missing_property_NoDup.
      * intros env env' z _ _ H H'.
        destruct (existsb _ existing); [destruct H|].
        destruct (existsb _ existing); [destruct H'|].
        destruct H as [<-|[]]. destruct H' as [E|[]]. now injection E.
    + intros c c' z _ _ H H'.
      apply in_flat_map in H. destruct H as (env & _ & H).
      apply in_flat_map in H'. destruct H' as (env' & _ & H').
      destruct (existsb _ existing); [destruct H|].
      destruct (existsb _ existing); [destruct H'|].
      destruct H as [<-|[]]. destruct H' as [E|[]]. now injection E.
  - intros k k' z _ _ H H'.
    apply in_flat_map in H. destruct H as (c & _ & H).
    apply in_flat_map in H. destruct H as (env & _ & H).
    apply in_flat_map in H'. destruct H' as (c' & _ & H').
    apply in_flat_map in H'. destruct H' as (env' & _ & H').
    destruct (existsb _ existing); [destruct H|].
    destruct (existsb _ existing); [destruct H'|].
    destruct H as [<-|[]]. destruct H' as [E|[]]. now injection E.
Qed.

(** *** More on the parser *)

Lemma parseLine_entry (lines : list jsstring) (i : nat) (e : ParsedProperty) :
  parseLine lines i = Some e ->
  p_lineNumber e = i + 1
  /\ parseKeyValue (lineAt lines i) = Some (p_key e, p_value e).
Proof.
  rewrite parseLine_parseKeyValue.
  destruct (parseKeyValue (lineAt lines i)) as [[k v]|]; [|discriminate].
  intros H. injection H as <-. split; reflexivity.
Qed.

Lemma seq_sorted (a n : nat) : StronglySorted lt (seq a n).
Proof.
  revert a. induction n as [|n IH]; intros a; simpl; constructor.
  - apply IH.
  - apply Forall_forall. intros j Hj. apply in_seq in Hj. lia.
Qed.

Lemma collect_sorted (lines : list jsstring) (indices : list nat) :
  StronglySorted lt indices ->
  StronglySorted (fun a b => p_lineNumber a < p_lineNumber b)
                 (collect lines indices).
Proof.
  induction 1 as [|i rest S IH Hi]; simpl; [constructor|].
  destruct (parseLine lines i) as [e|] eqn:E; [|exact IH].
  constructor; [exact IH|].
  apply Forall_forall. intros e' He'. apply in_collect in He'.
  destruct He' as (j & Hj & Ej).
  rewrite Forall_forall in Hi. specialize (Hi j Hj).
  apply parseLine_entry in E. apply parseLine_entry in Ej. lia.
Qed.

(** X4. The entries of a parsed text come in the order of their lines:
    the line numbers increase strictly, every entry carries the number
    (from 1) of the line its key and value were read from, and every line
    that reads as a key and a value has its entry. *)
Theorem parse_line_numbers (content : jsstring) :
  let lines := JS.split JS.LF content in
  let parsed := parsePropertiesFileWithDescriptions content in
  StronglySorted (fun a b => p_lineNumber a < p_lineNumber b) parsed
  /\ (forall e, In e parsed ->
        1 <= p_lineNumber e <= length lines
        /\ parseKeyValue (lineAt lines (p_lineNumber e - 1))
           = Some (p_key e, p_value e))
  /\ (forall i k v, i < length lines ->
        parseKeyValue (lineAt lines i) = Some (k, v) ->
        exists e, In e parsed /\ p_lineNumber e = i + 1
                  /\ p_key e = k /\ p_value e = v).
Proof.
  intros lines parsed. subst parsed.
  unfold parsePropertiesFileWithDescriptions. fold lines.
  split; [|split].
  - apply collect_sorted, seq_sorted.
  - intros e He. apply in_parseLines in He. destruct He as (i & Hi & E).
    apply parseLine_entry in E. destruct E as [-> E].
    split; [lia|]. now replace (i + 1 - 1) with i by lia.
  - intros i k v Hi E.
    exists (mkParsed k v (descriptionFor lines i) (i + 1)).
    split; [|repeat split].
    apply in_parseLines. exists i. split; [exact Hi|].
    rewrite parseLine_parseKeyValue. now rewrite E.
Qed.

(** X5. Every entry the parser returns can be written back as one line:
    its key is trimmed, not empty, free of [=] and [:], and does not start
    with [#] or [!]; its value and its description are trimmed; none of
    the three contains a line feed. *)
Theorem parsed_entries_are_clean (content : jsstring) :
  Forall (fun e =>
            writableKey (p_key e) = true
            /\ writableText (p_value e) = true
            /\ writableText (p_description e) = true)
         (parsePropertiesFileWithDescriptions content).
Proof.
  unfold parsePropertiesFileWithDescriptions. rewrite parseLines_scan.
  apply (scan_writable _ (split_noLineFeed content) None 1). exact I.
Qed.

(** *** The record-valued parsers *)

Lemma eqb_sym (a b : jsstring) : JS.eqb a b = JS.eqb b a.
Proof.
  destruct (JS.eqb a b) eqn:E; symmetry.
  - apply eqb_eq in E. subst. apply eqb_refl.
  - apply eqb_neq. apply eqb_neq in E. congruence.
Qed.

Lemma own_assign {V} (k k' : jsstring) (v : V) (o : JSObject.t V) :
  JSObject.own k (JSObject.assign k' v o)
  = if JS.eqb k' k then Some v else JSObject.own k o.
Proof.
  unfold JSObject.own. induction o as [|[k0 v0] o IH]; simpl.
  - destruct (JS.eqb k' k); reflexivity.
  - destruct (JS.eqb k0 k') eqn:E0; simpl.
    + apply eqb_eq in E0. subst k0.
      destruct (JS.eqb k' k); reflexivity.
    + destruct (JS.eqb k0 k) eqn:E1; simpl; [|exact IH].
      apply eqb_eq in E1. subst k0. now rewrite eqb_sym, E0.
Qed.

Lemma keys_assign {V} (k : jsstring) (v : V) (o : JSObject.t V) :
  map fst (JSObject.assign k v o)
  = if existsb (JS.eqb k) (map fst o) then map fst o else map fst o ++ [k].
Proof.
  induction o as [|[k0 v0] o IH]; simpl; [reflexivity|].
  destruct (JS.eqb k0 k) eqn:E0.
  - apply eqb_eq in E0. subst k0. now rewrite eqb_refl.
  - rewrite eqb_sym, E0. simpl. rewrite IH.
    destruct (existsb (JS.eqb k) (map fst o)); reflexivity.
Qed.

Lemma keys_set_NoDup {V} (k : jsstring) (v : V) (o : JSObject.t V) :
  NoDup (map fst o) -> NoDup (map fst (JSObject.set k v o)).
Proof.
  intros N. unfold JSObject.set. destruct (JS.eqb k (js "__proto__")); [exact N|].
  rewrite keys_assign. destruct (existsb (JS.eqb k) (map fst o)) eqn:E; [exact N|].
  apply existsb_eqb_notIn in E. apply NoDup_app; [exact N|repeat constructor; simpl; tauto|].
  intros x Hx [<-|[]]. contradiction.
Qed.

Lemma find_app_first {A} (f : A -> bool) (l l' : list A) :
  find f (l ++ l') = match find f l with Some x => Some x | None => find f l' end.
Proof.
  induction l as [|x l IH]; simpl; [reflexivity|].
  destruct (f x); [reflexivity|exact IH].
Qed.

Section FoldSet.

Context {E V : Type} (keyOf : E -> jsstring) (valueOf : E -> V).

Lemma fold_set_own (l : list E) (o : JSObject.t V) (k : jsstring) :
  JSObject.own k
    (fold_left (fun r e => JSObject.set (keyOf e) (valueOf e) r) l o)
  = if JS.eqb k (js "__proto__") then JSObject.own k o
    else match find (fun e => JS.eqb (keyOf e) k) (rev l) with
         | Some e => Some (valueOf e)
         | None => JSObject.own k o
         end.
Proof.
  revert o. induction l as [|e l IH]; intros o; simpl.
  - destruct (JS.eqb k (js "__proto__")); reflexivity.
  - rewrite IH. destruct (JS.eqb k (js "__proto__")) eqn:P.
    + unfold JSObject.set. destruct (JS.eqb (keyOf e) (js "__proto__")) eqn:Q;
        [reflexivity|].
      rewrite own_assign. destruct (JS.eqb (keyOf e) k) eqn:R; [|reflexivity].
      apply eqb_eq in R. congruence.
    + rewrite find_app_first.
      destruct (find (fun e0 => JS.eqb (keyOf e0) k) (rev l)); [reflexivity|].
      simpl. unfold JSObject.set.
      destruct (JS.eqb (keyOf e) k) eqn:R.
      * apply eqb_eq in R. rewrite R, P. rewrite own_assign. now rewrite eqb_refl.
      * destruct (JS.eqb (keyOf e) (js "__proto__")); [reflexivity|].
        rewrite own_assign. now rewrite R.
Qed.

Lemma fold_set_NoDup (l : list E) (o : JSObject.t V) :
  NoDup (map fst o) ->
  NoDup (map fst (fold_left (fun r e => JSObject.set (keyOf e) (valueOf e) r) l o)).
Proof.
  revert o. induction l as [|e l IH]; intros o N; simpl; [exact N|].
  apply IH. now apply keys_set_NoDup.
Qed.

End FoldSet.

Lemma assign_map {V W} (f : V -> W) (k : jsstring) (v : V) (o : JSObject.t V) :
  map (fun kv => (fst kv, f (snd kv))) (JSObject.assign k v o)
  = JSObject.assign k (f v) (map (fun kv => (fst kv, f (snd kv))) o).
Proof.
  induction o as [|[k0 v0] o IH]; simpl; [reflexivity|].
  destruct (JS.eqb k0 k); simpl; [reflexivity|]. now rewrite IH.
Qed.

Lemma assignments_scan (prev : option jsstring) (n : nat) (lines : list jsstring) :
  assignments lines = map (fun e => (p_key e, p_value e)) (scan prev n lines).
Proof.
  revert prev n. induction lines as [|raw rest IH]; intros prev n; simpl;
    [reflexivity|].
  destruct (parseKeyValue raw) as [[k v]|]; simpl; [f_equal|]; apply IH.
Qed.

Lemma fold_set_map {V W} (f : V -> W) (l : list ParsedProperty)
  (valueOf : ParsedProperty -> V) (o : JSObject.t V) :
  map (fun kv => (fst kv, f (snd kv)))
      (fold_left (fun r e => JSObject.set (p_key e) (valueOf e) r) l o)
  = fold_left (fun r kv => JSObject.set (fst kv) (snd kv) r)
      (map (fun e => (p_key e, f (valueOf e))) l)
      (map (fun kv => (fst kv, f (snd kv))) o).
Proof.
  revert o. induction l as [|e l IH]; intros o; simpl; [reflexivity|].
  rewrite IH. f_equal. unfold JSObject.set.
  destruct (JS.eqb (p_key e) (js "__proto__")); [reflexivity|].
  apply assign_map.
Qed.

(** X6. In the record of the legacy parser a key holds the value and the
    description of the last entry parsed with that key, no key occurs
    twice, and the key [__proto__] never occurs; the record of the plain
    parser holds the same keys with the same values, in the same order. *)
Theorem legacy_record_last_wins (content : jsstring) :
  let parsed := parsePropertiesFileWithDescriptions content in
  let result := PropertiesRecords.parsePropertiesFileWithDescriptionsLegacy content in
  (forall k,
     JSObject.own k result
     = if JS.eqb k (js "__proto__") then None
       else option_map (fun e => (p_value e, p_description e))
                       (find (fun e => JS.eqb (p_key e) k) (rev parsed)))
  /\ NoDup (map fst result)
  /\ map (fun kv => (fst kv, fst (snd kv))) result
     = PropertiesRecords.parsePropertiesFileRecord content.
Proof.
  intros parsed result. subst parsed result.
  unfold PropertiesRecords.parsePropertiesFileWithDescriptionsLegacy.
  split; [|split].
  - intros k.
    rewrite (fold_set_own p_key (fun e => (p_value e, p_description e))).
    destruct (JS.eqb k (js "__proto__")); [reflexivity|].
    destruct (find _ (rev _)); reflexivity.
  - apply fold_set_NoDup. constructor.
  - rewrite (fold_set_map fst). simpl.
    unfold PropertiesRecords.parsePropertiesFileRecord, parsePropertiesFile,
      parsePropertiesFileWithDescriptions.
    now rewrite parseLines_scan, (assignments_scan None 1).
Qed.

(** *** Grouping *)

Lemma addEach_app (l l' seen : list jsstring) :
  JSArray.addEach (l ++ l') seen = JSArray.addEach l' (JSArray.addEach l seen).
Proof.
  revert seen. induction l as [|x l IH]; intros seen; simpl; [reflexivity|].
  apply IH.
Qed.

Lemma unique_snoc (l : list jsstring) (x : jsstring) :
  JSArray.unique (l ++ [x])
  = if existsb (JS.eqb x) (JSArray.unique l) then JSArray.unique l
    else JSArray.unique l ++ [x].
Proof. unfold JSArray.unique. now rewrite addEach_app. Qed.

Lemma own_keyed {V} (f : jsstring -> V) (keys : list jsstring) (k : jsstring) :
  JSObject.own k (map (fun k' => (k', f k')) keys)
  = if existsb (JS.eqb k) keys then Some (f k) else None.
Proof.
  unfold JSObject.own. induction keys as [|k0 keys IH]; simpl; [reflexivity|].
  rewrite (eqb_sym k k0). destruct (JS.eqb k0 k) eqn:E; simpl; [|exact IH].
  apply eqb_eq in E. now subst.
Qed.

Lemma assign_keyed_present {V} (f : jsstring -> V) (keys : list jsstring)
  (k : jsstring) (v : V) :
  NoDup keys -> In k keys ->
  JSObject.assign k v (map (fun k' => (k', f k')) keys)
  = map (fun k' => (k', if JS.eqb k' k then v else f k')) keys.
Proof.
  induction 1 as [|k0 keys Hk0 N IH]; simpl; [tauto|].
  intros H. destruct (JS.eqb k0 k) eqn:E.
  - f_equal. apply eqb_eq in E. subst k0.
    apply map_ext_in. intros k1 H1.
    destruct (JS.eqb k1 k) eqn:E1; [|reflexivity].
    apply eqb_eq in E1. subst k1. contradiction.
  - f_equal. apply IH. destruct H as [->|H]; [|exact H].
    now rewrite eqb_refl in E.
Qed.

Lemma assign_keyed_absent {V} (f : jsstring -> V) (keys : list jsstring)
  (k : jsstring) (v : V) :
  ~ In k keys ->
  JSObject.assign k v (map (fun k' => (k', f k')) keys)
  = map (fun k' => (k', f k')) keys ++ [(k, v)].
Proof.
  induction keys as [|k0 keys IH]; simpl; [reflexivity|].
  intros H. destruct (JS.eqb k0 k) eqn:E.
  - apply eqb_eq in E. subst k0. tauto.
  - f_equal. apply IH. tauto.
Qed.

Lemma filter_snoc {A} (f : A -> bool) (l : list A) (x : A) :
  filter f (l ++ [x]) = filter f l ++ if f x then [x] else [].
Proof. now rewrite filter_app. Qed.

Lemma filter_none {A} (f : A -> bool) (l : list A) :
  (forall x, In x l -> f x = false) -> filter f l = [].
Proof.
  induction l as [|x l IH]; simpl; intros H; [reflexivity|].
  rewrite (H x (or_introl eq_refl)). apply IH. intros y Hy. apply H. now right.
Qed.

Lemma inherited_proto (k : jsstring) :
  JSObject.inherited k = false -> JS.eqb k (js "__proto__") = false.
Proof.
  intros H. destruct (JS.eqb k (js "__proto__")) eqn:E; [|reflexivity].
  apply eqb_eq in E. subst k. discriminate H.
Qed.

Lemma groupBy_groups (name : Property -> jsstring)
  (properties : list Property) :
  match Deployment.groupBy name properties with
  | inl groups =>
      groups
      = map (fun k => (k, filter (fun p => JS.eqb (name p) k) properties))
            (JSArray.unique (map name properties))
      /\ existsb (fun p => JSObject.inherited (name p)) properties = false
  | inr e =>
      e = TypeError
      /\ existsb (fun p => JSObject.inherited (name p)) properties = true
  end.
Proof.
  unfold Deployment.groupBy.
  induction properties as [|p l IH] using rev_ind; [now split|].
  rewrite fold_left_app. cbn [fold_left].
  destruct (fold_left (Deployment.groupStep name) l (inl [])) as [groups|e].
  2:{ destruct IH as [-> IH]. split; [reflexivity|].
      rewrite existsb_app, IH. reflexivity. }
  destruct IH as [-> IH]. rewrite existsb_app, IH. cbn [existsb orb].
  rewrite orb_false_r. unfold Deployment.groupStep, JSObject.get.
  rewrite own_keyed, map_app. cbn [map]. rewrite unique_snoc.
  destruct (existsb (JS.eqb (name p)) (JSArray.unique (map name l))) eqn:E.
  - (* the name has its group *)
    apply existsb_eqb_In in E.
    assert (Hn : JSObject.inherited (name p) = false).
    { apply unique_In, in_map_iff in E. destruct E as (q & Eq & Hq).
      rewrite <- Eq. destruct (JSObject.inherited (name q)) eqn:F; [|reflexivity].
      assert (X : existsb (fun p => JSObject.inherited (name p)) l = true).
      { apply existsb_exists. eauto. }
      congruence. }
    rewrite Hn. split; [|reflexivity].
    unfold JSObject.set. rewrite (inherited_proto _ Hn).
    rewrite (assign_keyed_present _ _ _ _ (unique_NoDup _) E).
    apply map_ext. intros k. rewrite filter_snoc.
    destruct (JS.eqb k (name p)) eqn:F.
    + apply eqb_eq in F. subst k. now rewrite eqb_refl.
    + rewrite eqb_sym, F. now rewrite app_nil_r.
  - apply existsb_eqb_notIn in E.
    destruct (JSObject.inherited (name p)) eqn:Hn; [now split|].
    split; [|reflexivity].
    unfold JSObject.set. rewrite (inherited_proto _ Hn).
    rewrite (assign_keyed_absent _ _ _ _ E), map_app. cbn [map].
    rewrite filter_snoc, eqb_refl.
    replace (filter (fun q => JS.eqb (name q) (name p)) l) with (@nil Property).
    + f_equal. apply map_ext_in. intros k Hk. rewrite filter_snoc.
      destruct (JS.eqb (name p) k) eqn:F; [|now rewrite app_nil_r].
      apply eqb_eq in F. subst k. contradiction.
    + symmetry. apply filter_none. intros q Hq.
      destruct (JS.eqb (name q) (name p)) eqn:F; [|reflexivity].
      apply eqb_eq in F. exfalso. apply E. apply unique_In. rewrite <- F.
      now apply in_map.
Qed.

Lemma filter_partition {A} (f : A -> bool) (l : list A) :
  Permutation (filter f l ++ filter (fun x => negb (f x)) l) l.
Proof.
  induction l as [|x l IH]; simpl; [reflexivity|].
  destruct (f x); simpl.
  - now constructor.
  - rewrite <- Permutation_middle. now constructor.
Qed.

Lemma entries_perm {V} (o : JSObject.t V) : Permutation (JSObject.entries o) o.
Proof.
  unfold JSObject.entries. rewrite sortBy_perm. apply filter_partition.
Qed.

Lemma concat_nils {A B} (l : list A) : concat (map (fun _ => @nil B) l) = [].
Proof. induction l; simpl; auto. Qed.

(** One more property goes to the group of its name, and to no other. *)
Lemma concat_groups_cons {A} (name : A -> jsstring) (x : A) (l : list A)
  (keys : list jsstring) :
  NoDup keys ->
  Permutation
    (concat (map (fun k => filter (fun p => JS.eqb (name p) k) (x :: l)) keys))
    ((if existsb (JS.eqb (name x)) keys then [x] else [])
     ++ concat (map (fun k => filter (fun p => JS.eqb (name p) k) l) keys)).
Proof.
  induction 1 as [|k keys Hk N IH]; [reflexivity|].
  cbn [map concat existsb filter].
  destruct (JS.eqb (name x) k) eqn:E; cbn [orb].
  - apply eqb_eq in E. subst k.
    assert (F : existsb (JS.eqb (name x)) keys = false)
      by now apply existsb_eqb_notIn.
    rewrite F in IH. cbn [app] in *. constructor.
    now apply Permutation_app_head.
  - rewrite IH. destruct (existsb (JS.eqb (name x)) keys); cbn [app].
    + rewrite Permutation_middle. reflexivity.
    + reflexivity.
Qed.

Lemma concat_groups_perm {A} (name : A -> jsstring) (l : list A)
  (keys : list jsstring) :
  NoDup keys -> (forall p, In p l -> In (name p) keys) ->
  Permutation (concat (map (fun k => filter (fun p => JS.eqb (name p) k) l) keys)) l.
Proof.
  intros N. induction l as [|x l IH]; intros H.
  - cbn [filter]. now rewrite concat_nils.
  - rewrite (concat_groups_cons name x l keys N).
    assert (E : existsb (JS.eqb (name x)) keys = true).
    { apply existsb_eqb_In. apply H. now left. }
    rewrite E. cbn [app]. constructor. apply IH. intros p Hp. apply H. now right.
Qed.

Lemma groups_perm (name : Property -> jsstring) (properties : list Property) :
  Permutation
    (concat (map snd
       (map (fun k => (k, filter (fun p => JS.eqb (name p) k) properties))
            (JSArray.unique (map name properties)))))
    properties.
Proof.
  rewrite map_map. cbn [snd].
  apply concat_groups_perm; [apply unique_NoDup|].
  intros p Hp. apply unique_In. now apply in_map.
Qed.

Lemma concat_snd_perm {A} (l l' : list (jsstring * list A)) :
  Permutation l l' -> Permutation (concat (map snd l)) (concat (map snd l')).
Proof.
  induction 1; cbn [map concat].
  - reflexivity.
  - now apply Permutation_app_head.
  - rewrite !app_assoc. apply Permutation_app_tail, Permutation_app_comm.
  - etransitivity; eassumption.
Qed.

Lemma groupBy_entries (name : Property -> jsstring) (properties : list Property)
  (groups : JSObject.t (list Property)) :
  Deployment.groupBy name properties = inl groups ->
  Permutation (concat (map snd (JSObject.entries groups))) properties
  /\ Forall (fun entry => forall p, In p (snd entry) -> In p properties)
            (JSObject.entries groups)
  /\ Forall (fun entry => exists p, In p properties /\ name p = fst entry)
            (JSObject.entries groups).
Proof.
  intros G. pose proof (groupBy_groups name properties) as H.
  rewrite G in H. destruct H as [E _].
  assert (P : Permutation (JSObject.entries groups) groups) by apply entries_perm.
  split; [|split].
  - rewrite (concat_snd_perm _ _ P), E. apply groups_perm.
  - eapply Permutation_Forall; [symmetry; exact P|]. rewrite E.
    apply Forall_forall. intros entry He. apply in_map_iff in He.
    destruct He as (k & <- & _). cbn [snd]. intros p Hp.
    apply filter_In in Hp. tauto.
  - eapply Permutation_Forall; [symmetry; exact P|]. rewrite E.
    apply Forall_forall. intros entry He. apply in_map_iff in He.
    destruct He as (k & <- & Hk). cbn [fst].
    apply unique_In, in_map_iff in Hk. destruct Hk as (p & Ep & Hp). eauto.
Qed.

(** X7. Grouping properties by environment (or by component) makes one
    group for every name that occurs, in the order of the first
    occurrences, holding exactly the properties with that name in their
    order, so that every property is in exactly one group; it fails with a
    [TypeError] exactly when a name is one of the members every object
    inherits. *)
Theorem groupBy_partitions (name : Property -> jsstring)
  (properties : list Property) :
  match Deployment.groupBy name properties with
  | inl groups =>
      groups
      = map (fun k => (k, filter (fun p => JS.eqb (name p) k) properties))
            (JSArray.unique (map name properties))
      /\ existsb (fun p => JSObject.inherited (name p)) properties = false
      /\ NoDup (map fst (JSObject.entries groups))
      /\ Permutation (concat (map snd (JSObject.entries groups))) properties
  | inr e =>
      e = TypeError
      /\ existsb (fun p => JSObject.inherited (name p)) properties = true
  end.
Proof.
  pose proof (groupBy_groups name properties) as H.
  destruct (Deployment.groupBy name properties) as [groups|e]; [|exact H].
  destruct H as [E I]. split; [exact E|]. split; [exact I|]. split.
  - eapply Permutation_NoDup.
    + apply Permutation_map. symmetry. apply entries_perm.
    + rewrite E, map_map. cbn [fst]. rewrite map_id. apply unique_NoDup.
  - rewrite (concat_snd_perm _ _ (entries_perm groups)), E. apply groups_perm.
Qed.

(** *** Loading a folder and writing it back *)

Lemma sortProperties_convertFrom lc (i : nat) (now : Date) (env : jsstring)
  (envOrder : Z) (component path : jsstring) (fOrder : Z)
  (parsed : list ParsedProperty) :
  sortProperties lc
    (FolderInitializationService.convertFrom i now env envOrder component path
       fOrder parsed)
  = FolderInitializationService.convertFrom i now env envOrder component path
      fOrder parsed.
Proof.
  revert i. induction parsed as [|e rest IH]; intros i; [reflexivity|].
  cbn [FolderInitializationService.convertFrom].
  unfold sortProperties in *. cbn [fold_right]. rewrite IH.
  destruct rest as [|e' rest']; [reflexivity|].
  cbn [FolderInitializationService.convertFrom insertSorted].
  unfold compareProperties. cbn [lineOrder fileOrder differ].
  rewrite Z.eqb_refl. cbn [negb].
  replace (Z.of_nat i - Z.of_nat (S i) <=? 0)%Z with true; [reflexivity|].
  symmetry. apply Z.leb_le. lia.
Qed.

(** X8. A properties file loaded from a folder and written back by the
    deployment writer parses to the entries of the original file in their
    original order, with the same keys and values; the descriptions are
    the same too, an entry without description having been given the one
    that names its file. *)
Theorem loaded_file_written_in_order lc (now loaded : Date)
  (env : jsstring) (envOrder : Z) (component path : jsstring) (fOrder : Z)
  (content : jsstring) :
  noLineFeed now = true ->
  writableText (js "Loaded from " ++ path) = true ->
  map tripleOfParsed
    (parsePropertiesFileWithDescriptions
       (generatePropertiesFileContent lc now
          (FolderInitializationService.convertFile loaded env envOrder
             component path fOrder
             (parsePropertiesFileWithDescriptions content))))
  = map (tripleLoadedFrom path) (parsePropertiesFileWithDescriptions content).
Proof.
  intros Hnow Hpath. unfold FolderInitializationService.convertFile.
  pose proof (convertFrom_writable 0 loaded env envOrder component path fOrder
                _ Hpath (parsed_writable content)) as W.
  rewrite forallb_forall in W.
  rewrite written_text_parses_back, sortProperties_convertFrom.
  - rewrite readBack_described; [apply convertFrom_triples|].
    apply forallb_forall. intros p Hp. apply W in Hp.
    now apply andb_true_iff in Hp.
  - exact Hnow.
  - apply Forall_forall. intros p Hp. apply W in Hp.
    now apply andb_true_iff in Hp.
Qed.

Lemma loaded_file_written_in_order_witness :
  map tripleOfParsed
    (parsePropertiesFileWithDescriptions
       (generatePropertiesFileContent Samples.ordinalCompare Samples.noon
          (FolderInitializationService.convertFile Samples.noon (js "dev") 0
             (js "app") (js "dev/app.properties") 0
             (parsePropertiesFileWithDescriptions Samples.loadedText))))
  = [(js "db.user", js "admin", js "user of the database");
     (js "db.url", js "jdbc:duckdb", js "Loaded from dev/app.properties")].
Proof.
  exact (loaded_file_written_in_order Samples.ordinalCompare Samples.noon
           Samples.noon (js "dev") 0%Z (js "app") (js "dev/app.properties") 0%Z
           Samples.loadedText eq_refl eq_refl).
Defined.

(** *** The order of the properties of a folder *)

Lemma gather_map {A B} (f : A -> option (list B)) (g : A -> list B) (l : list A) :
  (forall x, In x l -> f x = Some (g x)) ->
  Folders.gather (map f l) = Some (concat (map g l)).
Proof.
  induction l as [|x l IH]; intros H; simpl; [reflexivity|].
  rewrite (H x (or_introl eq_refl)), IH; [reflexivity|].
  intros y Hy. apply H. now right.
Qed.

Lemma gather_none {A B} (f : A -> option (list B)) (l : list A) (x : A) :
  In x l -> f x = None -> Folders.gather (map f l) = None.
Proof.
  induction l as [|y l IH]; simpl; [tauto|].
  intros [->|H] E.
  - now rewrite E.
  - destruct (f y); [|reflexivity]. now rewrite (IH H E).
Qed.

Lemma app_sorted {A} (R : A -> A -> Prop) (l l' : list A) :
  StronglySorted R l -> StronglySorted R l' ->
  (forall x y, In x l -> In y l' -> R x y) ->
  StronglySorted R (l ++ l').
Proof.
  induction 1 as [|x l S IH Hx]; simpl; intros S' H; [exact S'|].
  constructor.
  - apply IH; [exact S'|]. intros a b Ha Hb. apply H; [now right|exact Hb].
  - apply Forall_app. split; [exact Hx|].
    apply Forall_forall. intros y Hy. apply H; [now left|exact Hy].
Qed.

Lemma map_sorted {A B} (f : A -> B) (R : B -> B -> Prop) (l : list A) :
  StronglySorted (fun a b => R (f a) (f b)) l -> StronglySorted R (map f l).
Proof.
  induction 1 as [|x l S IH H]; simpl; constructor; [exact IH|].
  apply Forall_map. exact H.
Qed.

(** Sorting by a number without repetition puts the numbers in strictly
    ascending order. *)
Lemma sortBy_number {A} (number : A -> Z) (l : list A) :
  NoDup (map number l) ->
  StronglySorted (fun a b => (number a < number b)%Z)
    (JSArray.sortBy (fun a b => (number a - number b)%Z) l).
Proof.
  intros N.
  assert (S : StronglySorted (fun a b => (number a - number b <= 0)%Z)
                (JSArray.sortBy (fun a b => (number a - number b)%Z) l)).
  { apply sortBy_sorted; intros; lia. }
  assert (N' : NoDup (map number (JSArray.sortBy (fun a b => (number a - number b)%Z) l))).
  { eapply Permutation_NoDup; [|exact N].
    apply Permutation_map. symmetry. apply sortBy_perm. }
  induction S as [|x r S IH H]; [constructor|].
  simpl in N'. inversion N' as [|? ? Hnot Nr]; subst.
  constructor; [now apply IH|].
  rewrite Forall_forall in *. intros y Hy. specialize (H y Hy).
  assert (number x <> number y).
  { intros E. apply Hnot. rewrite E. now apply in_map. }
  lia.
Qed.

Lemma convertFrom_places (i : nat) (now : Date) (env : jsstring)
  (envOrder : Z) (component path : jsstring) (fOrder : Z)
  (parsed : list ParsedProperty) :
  StronglySorted Folders.placedBefore
    (FolderInitializationService.convertFrom i now env envOrder component path
       fOrder parsed)
  /\ Forall (fun p => exists l, Folders.placeOf p = (envOrder, fOrder, l)
                                /\ (Z.of_nat i <= l)%Z)
       (FolderInitializationService.convertFrom i now env envOrder component
          path fOrder parsed).
Proof.
  revert i. induction parsed as [|e rest IH]; intros i;
    cbn [FolderInitializationService.convertFrom]; [split; constructor|].
  destruct (IH (S i)) as [S F]. split.
  - constructor; [exact S|]. rewrite Forall_forall in *. intros p Hp.
    destruct (F p Hp) as (l & E & Hl).
    unfold Folders.placedBefore. rewrite E. cbn. lia.
  - constructor.
    + exists (Z.of_nat i). split; [reflexivity|lia].
    + rewrite Forall_forall in *. intros p Hp.
      destruct (F p Hp) as (l & E & Hl). exists l. split; [exact E|lia].
Qed.

Lemma list_sum_perm (l l' : list nat) :
  Permutation l l' -> list_sum l = list_sum l'.
Proof. induction 1; simpl; lia. Qed.

Lemma concat_length_sum {A} (blocks : list (list A)) :
  length (concat blocks) = list_sum (map (@length A) blocks).
Proof.
  induction blocks as [|b blocks IH]; simpl; [reflexivity|].
  now rewrite length_app, IH.
Qed.

Lemma convertFrom_length (i : nat) (now : Date) (env : jsstring)
  (envOrder : Z) (component path : jsstring) (fOrder : Z)
  (parsed : list ParsedProperty) :
  length (FolderInitializationService.convertFrom i now env envOrder component
            path fOrder parsed) = length parsed.
Proof.
  revert i. induction parsed as [|e rest IH]; intros i; simpl; [reflexivity|].
  now rewrite IH.
Qed.

Lemma convertOne_plain (now : Date) (s : Folders.FolderStructure)
  (f : Folders.PropertiesFile) :
  Folders.plainName f = true ->
  exists component,
    Folders.convertOne now s f
    = Some (FolderInitializationService.convertFile now
              (Folders.folder_environment s) (Folders.folder_environmentOrder s)
              component (Folders.file_path f) (Folders.file_fileOrder f)
              (parsePropertiesFileWithDescriptions (Folders.file_content f))).
Proof.
  unfold Folders.plainName, Folders.convertOne.
  destruct (Components.getComponentFromFilename (Folders.file_name f));
    [eauto|discriminate].
Qed.

(** The properties of the files of one environment, in the order of the
    files. *)
Lemma convert_files (now : Date) (s : Folders.FolderStructure)
  (files : list Folders.PropertiesFile) :
  forallb Folders.plainName files = true ->
  exists block,
    Folders.gather (map (Folders.convertOne now s) files) = Some block
    /\ length block
       = list_sum (map (fun f => length (parsePropertiesFileWithDescriptions
                                           (Folders.file_content f))) files)
    /\ Forall (fun p => exists f l,
                 In f files
                 /\ Folders.placeOf p
                    = (Folders.folder_environmentOrder s, Folders.file_fileOrder f, l))
              block
    /\ (StronglySorted (fun a b => (Folders.file_fileOrder a < Folders.file_fileOrder b)%Z)
          files ->
        StronglySorted Folders.placedBefore block).
Proof.
  induction files as [|f files IH]; cbn [forallb map Folders.gather].
  - intros _. exists []. repeat split; constructor.
  - intros H. apply andb_true_iff in H as [Hf H].
    destruct (IH H) as (block & E & L & P & S).
    destruct (convertOne_plain now s f Hf) as (component & Ef).
    rewrite Ef, E. cbn [option_map]. eexists. split; [reflexivity|].
    unfold FolderInitializationService.convertFile.
    destruct (convertFrom_places 0 now (Folders.folder_environment s)
                (Folders.folder_environmentOrder s) component
                (Folders.file_path f) (Folders.file_fileOrder f)
                (parsePropertiesFileWithDescriptions (Folders.file_content f)))
      as [Sf Pf].
    split; [|split].
    + rewrite length_app, convertFrom_length, L. reflexivity.
    + apply Forall_app. split.
      * eapply Forall_impl; [|exact Pf]. cbn beta.
        intros p (l & Ep & _). exists f, l. split; [now left|exact Ep].
      * eapply Forall_impl; [|exact P]. cbn beta.
        intros p (f' & l & Hf' & Ep). exists f', l. split; [now right|exact Ep].
    + intros Sorted. inversion Sorted as [|? ? Sr Hr]; subst.
      apply app_sorted; [exact Sf|now apply S|].
      intros x y Hx Hy.
      rewrite Forall_forall in Pf, P, Hr.
      destruct (Pf x Hx) as (lx & Ex & _).
      destruct (P y Hy) as (f' & ly & Hf' & Ey).
      specialize (Hr f' Hf').
      unfold Folders.placedBefore. rewrite Ex, Ey. lia.
Qed.

Lemma convert_structures (now : Date) (structures : list Folders.FolderStructure) :
  Forall (fun s => forallb Folders.plainName (Folders.sortedFiles s) = true)
         structures ->
  exists props,
    Folders.gather
      (map (fun structure =>
              Folders.gather
                (map (Folders.convertOne now structure) (Folders.sortedFiles structure)))
           structures) = Some props
    /\ length props
       = list_sum
           (map (fun s =>
                   list_sum
                     (map (fun f => length (parsePropertiesFileWithDescriptions
                                              (Folders.file_content f)))
                          (Folders.sortedFiles s)))
                structures)
    /\ Forall (fun p => exists s f l,
                 In s structures
                 /\ Folders.placeOf p = (Folders.folder_environmentOrder s, f, l))
              props
    /\ (StronglySorted
          (fun a b => (Folders.folder_environmentOrder a
                       < Folders.folder_environmentOrder b)%Z) structures ->
        Forall (fun s => NoDup (map Folders.file_fileOrder (Folders.folder_files s)))
               structures ->
        StronglySorted Folders.placedBefore props).
Proof.
  induction structures as [|s structures IH]; cbn [map Folders.gather].
  - intros _. exists []. repeat split; constructor.
  - intros H. inversion H as [|? ? Hs Hr]; subst.
    destruct (IH Hr) as (props & E & L & P & S).
    destruct (convert_files now s _ Hs) as (block & Eb & Lb & Pb & Sb).
    rewrite Eb, E. cbn [option_map]. eexists. split; [reflexivity|].
    split; [|split].
    + rewrite length_app, Lb, L. reflexivity.
    + apply Forall_app. split.
      * eapply Forall_impl; [|exact Pb]. cbn beta.
        intros p (f & l & _ & Ep). exists s, (Folders.file_fileOrder f), l.
        split; [now left|exact Ep].
      * eapply Forall_impl; [|exact P]. cbn beta.
        intros p (s' & f & l & Hs' & Ep). exists s', f, l.
        split; [now right|exact Ep].
    + intros Sorted N. inversion Sorted as [|? ? Sr Hsr]; subst.
      inversion N as [|? ? Ns Nr]; subst.
      apply app_sorted; [|now apply S|].
      * apply Sb. unfold Folders.sortedFiles. now apply sortBy_number.
      * intros x y Hx Hy.
        rewrite Forall_forall in Pb, P, Hsr.
        destruct (Pb x Hx) as (f & lx & _ & Ex).
        destruct (P y Hy) as (s' & f' & ly & Hs' & Ey).
        specialize (Hsr s' Hs').
        unfold Folders.placedBefore. rewrite Ex, Ey. lia.
Qed.

(** X9. The properties of a scanned folder come in the order of the
    folder. When every file name yields a component, [convertToProperties]
    returns the properties of the files, one per parsed entry; when the
    environments carry different order numbers and so do the files of
    each environment, they are in strictly ascending order of
    (environment, file, line), so that no two properties share a place. *)
Theorem folder_properties_in_order (now : Date)
  (structures : list Folders.FolderStructure) :
  Forall (fun s => forallb Folders.plainName (Folders.folder_files s) = true)
         structures ->
  exists props,
    Folders.convertToProperties now structures = Some props
    /\ length props
       = list_sum
           (map (fun s =>
                   list_sum
                     (map (fun f => length (parsePropertiesFileWithDescriptions
                                              (Folders.file_content f)))
                          (Folders.folder_files s)))
                structures)
    /\ (NoDup (map Folders.folder_environmentOrder structures) ->
        Forall (fun s => NoDup (map Folders.file_fileOrder (Folders.folder_files s)))
               structures ->
        StronglySorted Folders.placedBefore props).
Proof.
  intros Hnames. unfold Folders.convertToProperties, Folders.sortedStructures.
  set (sorted := JSArray.sortBy _ structures).
  assert (Perm : Permutation sorted structures) by apply sortBy_perm.
  assert (Hsorted : Forall (fun s => forallb Folders.plainName (Folders.sortedFiles s)
                                     = true) sorted).
  { apply Forall_forall. intros s Hs.
    apply (Permutation_in _ Perm) in Hs.
    rewrite Forall_forall in Hnames. specialize (Hnames s Hs).
    rewrite forallb_forall in *. intros f Hf. apply Hnames.
    eapply Permutation_in; [apply sortBy_perm|exact Hf]. }
  destruct (convert_structures now sorted Hsorted) as (props & E & L & _ & S).
  exists props. split; [exact E|]. split.
  - rewrite L. etransitivity.
    + apply list_sum_perm, Permutation_map. exact Perm.
    + f_equal. apply map_ext. intros s.
      apply list_sum_perm, Permutation_map, sortBy_perm.
  - intros Nenv Nfiles. apply S.
    + subst sorted. now apply sortBy_number.
    + apply Forall_forall. intros s Hs.
      apply (Permutation_in _ Perm) in Hs.
      rewrite Forall_forall in Nfiles. now apply Nfiles.
Qed.

Lemma folder_properties_in_order_witness :
  exists props,
    Folders.convertToProperties Samples.noon Examples.folders = Some props
    /\ length props = 5
    /\ StronglySorted Folders.placedBefore props.
Proof.
  destruct (folder_properties_in_order Samples.noon Examples.folders)
    as (props & E & L & S).
  - repeat constructor.
  - exists props. split; [exact E|]. split; [exact L|]. apply S.
    + repeat constructor; simpl; intuition discriminate.
    + repeat constructor; simpl; intuition discriminate.
Defined.

(** ** PropertiesParser: writing and reading back *)

Lemma parseAt_local (now : Date) (e : jsstring) (lines lines' : list jsstring)
  (i i' : nat) :
  lineAt lines i = lineAt lines' i' ->
  (0 <? i) = (0 <? i') ->
  (0 < i -> lineAt lines (i - 1) = lineAt lines' (i' - 1)) ->
  PropertiesParser.parseAt now e lines i = PropertiesParser.parseAt now e lines' i'.
Proof.
  intros E0 E1 E2. unfold PropertiesParser.parseAt. rewrite E0, <- E1.
  destruct (0 <? i) eqn:Z; [|reflexivity].
  apply Nat.ltb_lt in Z. now rewrite (E2 Z).
Qed.

Lemma parseEach_scanLines (now : Date) (e : jsstring) (pre post : list jsstring) :
  PropertiesParser.parseEach now e (pre ++ post) (seq (length pre) (length post))
  = PropertiesParser.scanLines now e (last (map Some pre) None) post.
Proof.
  revert pre. induction post as [|raw rest IH]; intros pre; [reflexivity|].
  cbn [length seq PropertiesParser.parseEach PropertiesParser.scanLines].
  assert (E : PropertiesParser.parseAt now e (pre ++ raw :: rest) (length pre)
              = PropertiesParser.readLine now e (last (map Some pre) None) raw).
  { unfold PropertiesParser.readLine.
    destruct pre as [|b pre _] using rev_ind.
    - apply parseAt_local; [reflexivity|reflexivity|simpl; lia].
    - rewrite map_app. cbn [map]. rewrite last_last. apply parseAt_local.
      + rewrite lineAt_middle. reflexivity.
      + rewrite length_app. simpl. now replace (length pre + 1) with (S (length pre)) by lia.
      + intros _. rewrite length_app. simpl.
        replace (length pre + 1 - 1) with (length pre) by lia.
        rewrite <- app_assoc. simpl. apply lineAt_middle. }
  rewrite E.
  replace (pre ++ raw :: rest) with ((pre ++ [raw]) ++ rest)
    by now rewrite <- app_assoc.
  replace (S (length pre)) with (length (pre ++ [raw]))
    by (rewrite length_app; simpl; lia).
  rewrite IH, map_app. cbn [map]. rewrite last_last. reflexivity.
Qed.

Lemma parse_scanLines (now : Date) (content e : jsstring) :
  PropertiesParser.parse now content e
  = PropertiesParser.scanLines now e None (JS.split JS.LF content).
Proof. exact (parseEach_scanLines now e [] (JS.split JS.LF content)). Qed.

Lemma readLine_blank (now : Date) (e : jsstring) (prev : option jsstring) :
  PropertiesParser.readLine now e prev [] = None.
Proof. destruct prev; reflexivity. Qed.

(** A line that starts with [#] is skipped, whatever follows the [#]. *)
Lemma readLine_hash (now : Date) (e : jsstring) (prev : option jsstring)
  (text : jsstring) :
  PropertiesParser.readLine now e prev (JS.HASH :: text) = None.
Proof.
  destruct (trim_cons_nonwhite JS.HASH text eq_refl) as [r T].
  unfold PropertiesParser.readLine, PropertiesParser.parseAt.
  destruct prev; cbn [lineAt nth]; rewrite T; reflexivity.
Qed.

Lemma plainKey_inv (k : jsstring) :
  PropertiesParser.plainKey k = true ->
  JS.trim k = k /\ noLineFeed k = true
  /\ forallb (fun c => negb (N.eqb JS.EQUALS c)) k = true
  /\ JS.startsWith JS.HASH k = false.
Proof.
  unfold PropertiesParser.plainKey.
  rewrite !andb_true_iff, trimmed_true, negb_true_iff. tauto.
Qed.

Lemma equals_line (k v : jsstring) :
  PropertiesParser.plainKey k = true -> writableText v = true ->
  JS.trim (k ++ js "=" ++ v) = k ++ js "=" ++ v
  /\ JS.isEmpty (k ++ js "=" ++ v) = false
  /\ JS.startsWith JS.HASH (k ++ js "=" ++ v) = false
  /\ JS.search (N.eqb JS.EQUALS) (k ++ js "=" ++ v) = Some (length k)
  /\ JS.substringTo (length k) (k ++ js "=" ++ v) = k
  /\ JS.substringFrom (S (length k)) (k ++ js "=" ++ v) = v.
Proof.
  intros Hk Hv. apply plainKey_inv in Hk as (Tk & _ & Sk & Ck).
  apply writableText_inv in Hv as (Tv & _).
  destruct (trim_fixed _ Tk) as [Sk' Ek]. destruct (trim_fixed _ Tv) as [Sv' Ev].
  rewrite js_equals. repeat split.
  - destruct k as [|x k], v as [|y v]; try reflexivity.
    + apply (trim_app_fixed [JS.EQUALS]); auto; discriminate.
    + apply trim_app_fixed; auto; discriminate.
    + rewrite app_assoc. apply trim_app_fixed; auto; try discriminate.
      now apply trimStart_app.
  - now destruct k.
  - destruct k; [reflexivity|exact Ck].
  - simpl app. apply search_first; [|apply N.eqb_refl].
    exact Sk.
  - unfold JS.substringTo. simpl app.
    now rewrite firstn_app, Nat.sub_diag, firstn_all, firstn_O, app_nil_r.
  - unfold JS.substringFrom. simpl app. clear. induction k; simpl; auto.
Qed.

Lemma readLine_after_blank (now : Date) (e k v : jsstring) :
  PropertiesParser.plainKey k = true -> writableText v = true ->
  PropertiesParser.readLine now e (Some []) (k ++ js "=" ++ v)
  = Some (mkProperty (e ++ js "_" ++ k) e k v None (js "env") now None None None).
Proof.
  intros Hk Hv. destruct (equals_line k v Hk Hv) as (T & Ne & Nh & S & F & R).
  apply plainKey_inv in Hk as (Tk & _). apply writableText_inv in Hv as (Tv & _).
  unfold PropertiesParser.readLine, PropertiesParser.parseAt.
  cbn [lineAt nth Nat.sub]. rewrite T, Ne, Nh, S, F, R, Tk, Tv. reflexivity.
Qed.

Lemma readLine_after_comment (now : Date) (e k v d : jsstring) :
  PropertiesParser.plainKey k = true -> writableText v = true ->
  d <> [] -> JS.trim d = d ->
  PropertiesParser.readLine now e (@Some jsstring (JS.HASH :: 32%N :: d))
    (k ++ js "=" ++ v)
  = Some (mkProperty (e ++ js "_" ++ k) e k v (Some d) (js "env") now
            None None None).
Proof.
  intros Hk Hv Nd Td. change (JS.HASH :: 32%N :: d) with (js "# " ++ d). destruct (equals_line k v Hk Hv) as (T & Ne & Nh & S & F & R).
  apply plainKey_inv in Hk as (Tk & _). apply writableText_inv in Hv as (Tv & _).
  destruct (comment_written d Nd Td) as (Tc & _ & _).
  unfold PropertiesParser.readLine, PropertiesParser.parseAt.
  cbn [lineAt nth Nat.sub]. rewrite T, Ne, Nh, S, F, R, Tk, Tv, Tc.
  rewrite js_hash_space. cbn [app JS.startsWith Nat.ltb Nat.leb andb].
  unfold JS.substringFrom. cbn [skipn N.eqb JS.HASH].
  rewrite Pos.eqb_refl. cbn [orb].
  rewrite trim_white_cons by reflexivity. rewrite Td.
  destruct d; [congruence|reflexivity].
Qed.

Lemma plain_inv (p : Property) :
  PropertiesParser.plain p = true ->
  PropertiesParser.plainKey (key p) = true /\ writableText (value p) = true
  /\ writableText (JS.orDefault (description p) []) = true
  /\ noLineFeed (environment p) = true.
Proof. unfold PropertiesParser.plain. rewrite !andb_true_iff. tauto. Qed.

Lemma scanLines_property (now : Date) (e : jsstring) (p : Property)
  (rest : list jsstring) :
  PropertiesParser.plain p = true ->
  PropertiesParser.scanLines now e (Some [])
    (PropertiesParser.propertyLines p ++ rest)
  = PropertiesParser.parsedBack now e p
    :: PropertiesParser.scanLines now e (Some []) rest.
Proof.
  intros H. apply plain_inv in H as (Hk & Hv & Hd & _).
  unfold PropertiesParser.propertyLines, PropertiesParser.parsedBack.
  destruct (JS.truthy (description p)) eqn:D.
  - destruct (description p) as [d|] eqn:Ed; [|discriminate].
    cbn [JS.orDefault] in *. cbn [JS.truthy] in D.
    apply negb_true_iff, isEmpty_false in D.
    unfold JS.orElse in *. destruct d as [|c d]; [congruence|]. cbn [JS.isEmpty] in *.
    apply writableText_inv in Hd as (Td & _).
    change (js "# " ++ c :: d) with (JS.HASH :: 32%N :: c :: d).
    cbn [app PropertiesParser.scanLines].
    rewrite readLine_hash.
    rewrite (readLine_after_comment now e _ _ (c :: d) Hk Hv); [|discriminate|exact Td].
    now rewrite readLine_blank.
  - cbn [app PropertiesParser.scanLines].
    rewrite (readLine_after_blank now e _ _ Hk Hv). now rewrite readLine_blank.
Qed.

Lemma scanLines_properties (now : Date) (e : jsstring) (props : list Property)
  (rest : list jsstring) :
  Forall (fun p => PropertiesParser.plain p = true) props ->
  PropertiesParser.scanLines now e (Some [])
    (flat_map PropertiesParser.propertyLines props ++ rest)
  = map (PropertiesParser.parsedBack now e) props
    ++ PropertiesParser.scanLines now e (Some []) rest.
Proof.
  induction 1 as [|p props Hp _ IH]; [reflexivity|].
  cbn [flat_map map app]. rewrite <- app_assoc, scanLines_property by exact Hp.
  now rewrite IH.
Qed.

Lemma scanLines_environment lc (now : Date) (e : jsstring)
  (prev : option jsstring) (entry : jsstring * list Property)
  (rest : list jsstring) :
  Forall (fun p => PropertiesParser.plain p = true) (snd entry) ->
  PropertiesParser.scanLines now e prev
    (PropertiesParser.environmentLines lc entry ++ rest)
  = map (PropertiesParser.parsedBack now e)
        (JSArray.sortBy (fun a b => lc (key a) (key b)) (snd entry))
    ++ PropertiesParser.scanLines now e (Some []) rest.
Proof.
  intros H. unfold PropertiesParser.environmentLines.
  change (js "# Environment: " ++ fst entry)
    with (JS.HASH :: js " Environment: " ++ fst entry).
  cbn [app PropertiesParser.scanLines].
  rewrite readLine_hash, readLine_blank.
  apply scanLines_properties.
  eapply Permutation_Forall; [|exact H]. symmetry. apply sortBy_perm.
Qed.

Lemma scanLines_environments lc (now : Date) (e : jsstring)
  (prev : option jsstring) (entries : list (jsstring * list Property)) :
  Forall (fun entry => Forall (fun p => PropertiesParser.plain p = true) (snd entry))
         entries ->
  PropertiesParser.scanLines now e prev
    (flat_map (PropertiesParser.environmentLines lc) entries)
  = flat_map (fun entry =>
                map (PropertiesParser.parsedBack now e)
                    (JSArray.sortBy (fun a b => lc (key a) (key b)) (snd entry)))
             entries.
Proof.
  intros H. revert prev. induction H as [|entry entries He _ IH]; intros prev;
    [reflexivity|].
  cbn [flat_map]. rewrite scanLines_environment by exact He. now rewrite IH.
Qed.

Lemma scanLines_split_join (now : Date) (e : jsstring) (prev : option jsstring)
  (lines : list jsstring) :
  Forall (fun l => noLineFeed l = true) lines ->
  PropertiesParser.scanLines now e prev (JS.split JS.LF (JS.join [JS.LF] lines))
  = PropertiesParser.scanLines now e prev lines.
Proof.
  intros H. destruct lines as [|l lines].
  - cbn. now rewrite readLine_blank.
  - rewrite split_join; [reflexivity|discriminate|exact H].
Qed.

Lemma propertyLines_noLineFeed (p : Property) :
  PropertiesParser.plain p = true ->
  Forall (fun l => noLineFeed l = true) (PropertiesParser.propertyLines p).
Proof.
  intros H. apply plain_inv in H as (Hk & Hv & Hd & _).
  apply plainKey_inv in Hk as (_ & Lk & _).
  apply writableText_inv in Hv as (_ & Lv).
  apply writableText_inv in Hd as (_ & Ld).
  unfold PropertiesParser.propertyLines. apply Forall_app. split.
  - destruct (JS.truthy (description p)); repeat constructor.
    unfold noLineFeed in *. rewrite forallb_app. now rewrite Ld.
  - repeat constructor. unfold noLineFeed in *.
    rewrite !forallb_app, Lk, Lv. reflexivity.
Qed.

Lemma environmentLines_noLineFeed lc (entry : jsstring * list Property) :
  noLineFeed (fst entry) = true ->
  Forall (fun p => PropertiesParser.plain p = true) (snd entry) ->
  Forall (fun l => noLineFeed l = true) (PropertiesParser.environmentLines lc entry).
Proof.
  intros He Hp. unfold PropertiesParser.environmentLines.
  apply Forall_app. split.
  - repeat constructor. unfold noLineFeed in *. rewrite forallb_app.
    now rewrite He.
  - apply Forall_flat_map. eapply Permutation_Forall.
    + symmetry. apply sortBy_perm.
    + eapply Forall_impl; [|exact Hp]. apply propertyLines_noLineFeed.
Qed.

Lemma parsedBack_sorted_perm lc (now : Date) (e : jsstring)
  (entries : list (jsstring * list Property)) :
  Permutation
    (flat_map (fun entry =>
                 map (PropertiesParser.parsedBack now e)
                     (JSArray.sortBy (fun a b => lc (key a) (key b)) (snd entry)))
              entries)
    (map (PropertiesParser.parsedBack now e) (concat (map snd entries))).
Proof.
  induction entries as [|entry entries IH]; [reflexivity|].
  cbn [flat_map map concat]. rewrite map_app.
  apply Permutation_app; [|exact IH].
  apply Permutation_map, sortBy_perm.
Qed.

(** X10. Writing properties with [serialize] and reading the text back
    with [parse] gives every property back once: the same key and value,
    the same description (an empty one read as none), in the environment
    given to [parse], with component [env]. This holds for keys that are
    trimmed, on one line, without [=] and not starting with [#], for
    trimmed one-line values and descriptions and one-line environment
    names none of which is a member every object inherits. *)
Theorem parser_serialize_round_trip lc (now : Date) (e : jsstring)
  (properties : list Property) :
  forallb PropertiesParser.plain properties = true ->
  existsb (fun p => JSObject.inherited (environment p)) properties = false ->
  exists text,
    PropertiesParser.serialize lc properties = inl text
    /\ Permutation (PropertiesParser.parse now text e)
                   (map (PropertiesParser.parsedBack now e) properties).
Proof.
  intros Hplain Hnames. unfold PropertiesParser.serialize.
  pose proof (groupBy_groups environment properties) as G.
  destruct (Deployment.groupBy environment properties) as [groups|x] eqn:Eg.
  2:{ destruct G as [_ G]. congruence. }
  clear G. destruct (groupBy_entries _ _ _ Eg) as (P & Hin & Hname).
  eexists. split; [reflexivity|].
  rewrite forallb_forall in Hplain.
  assert (Hentries : Forall (fun entry =>
                               Forall (fun p => PropertiesParser.plain p = true)
                                      (snd entry))
                            (JSObject.entries groups)).
  { eapply Forall_impl; [|exact Hin]. cbn beta. intros entry H.
    apply Forall_forall. intros p Hp. apply Hplain, H, Hp. }
  rewrite parse_scanLines, scanLines_split_join.
  - rewrite (scanLines_environments lc now e None _ Hentries).
    rewrite parsedBack_sorted_perm. now apply Permutation_map.
  - apply Forall_flat_map. rewrite Forall_forall in *. intros entry He.
    apply environmentLines_noLineFeed.
    + destruct (Hname entry He) as (p & Hp & <-).
      specialize (Hplain p Hp). apply plain_inv in Hplain. tauto.
    + apply Forall_forall. exact (proj1 (Forall_forall _ _) (Hentries entry He)).
Qed.

Lemma parser_serialize_round_trip_witness :
  exists text,
    PropertiesParser.serialize Samples.ordinalCompare
      [Samples.dbUser; Samples.plainProperty; Samples.dbUrl] = inl text
    /\ Permutation
         (PropertiesParser.parse Samples.noon text (js "prod"))
         (map (PropertiesParser.parsedBack Samples.noon (js "prod"))
              [Samples.dbUser; Samples.plainProperty; Samples.dbUrl]).
Proof.
  apply (parser_serialize_round_trip Samples.ordinalCompare Samples.noon
           (js "prod") [Samples.dbUser; Samples.plainProperty; Samples.dbUrl]);
    reflexivity.
Defined.

(** ** PropertyScanner *)

Lemma deduplicateFrom_spec (seen : list jsstring) (properties : list Property) :
  NoDup (map App.mapKey (PropertyScanner.deduplicateFrom seen properties))
  /\ (forall p, In p (PropertyScanner.deduplicateFrom seen properties) ->
                In p properties /\ ~ In (App.mapKey p) seen)
  /\ (forall k,
        find (fun p => JS.eqb (App.mapKey p) k)
             (PropertyScanner.deduplicateFrom seen properties)
        = if existsb (JS.eqb k) seen then None
          else find (fun p => JS.eqb (App.mapKey p) k) properties).
Proof.
  revert seen. induction properties as [|q rest IH]; intros seen.
  - cbn. repeat split; try constructor; try tauto.
    intros k. now destruct (existsb (JS.eqb k) seen).
  - cbn [PropertyScanner.deduplicateFrom]. fold (App.mapKey q).
    destruct (existsb (JS.eqb (App.mapKey q)) seen) eqn:E.
    + destruct (IH seen) as (N & I & F). split; [exact N|]. split.
      * intros p Hp. destruct (I p Hp). split; [now right|assumption].
      * intros k. rewrite F. cbn [find].
        destruct (existsb (JS.eqb k) seen) eqn:Ek; [reflexivity|].
        destruct (JS.eqb (App.mapKey q) k) eqn:Eq; [|reflexivity].
        apply eqb_eq in Eq. subst k. congruence.
    + destruct (IH (seen ++ [App.mapKey q])) as (N & I & F).
      apply existsb_eqb_notIn in E. split; [|split].
      * cbn [map]. constructor; [|exact N]. intros H.
        apply in_map_iff in H. destruct H as (p & Ep & Hp).
        destruct (I p Hp) as [_ Hnot]. apply Hnot.
        rewrite Ep. apply in_app_iff. right. now left.
      * intros p [<-|Hp]; [split; [now left|exact E]|].
        destruct (I p Hp) as [Hin Hnot]. split; [now right|].
        intros H. apply Hnot. apply in_app_iff. now left.
      * intros k. cbn [find]. rewrite F, existsb_app. cbn [existsb].
        rewrite orb_false_r, (eqb_sym k).
        destruct (JS.eqb (App.mapKey q) k) eqn:Eq.
        -- apply eqb_eq in Eq. subst k.
           apply existsb_eqb_notIn in E. now rewrite E.
        -- now rewrite orb_false_r.
Qed.

(** X11. Deduplicating scanned properties keeps, for every
    environment-and-key text, the first property that has it and drops the
    later ones: no such text occurs twice in the result, every kept
    property is one of the input, and looking a text up gives the same
    property before and after. *)
Theorem deduplicate_keeps_first (properties : list Property) :
  let unique := PropertyScanner.deduplicateProperties properties in
  NoDup (map (fun p => environment p ++ js "_" ++ key p) unique)
  /\ (forall p, In p unique -> In p properties)
  /\ (forall k,
        find (fun p => JS.eqb (environment p ++ js "_" ++ key p) k) unique
        = find (fun p => JS.eqb (environment p ++ js "_" ++ key p) k) properties).
Proof.
  destruct (deduplicateFrom_spec [] properties) as (N & I & F).
  split; [exact N|]. split.
  - intros p Hp. now destruct (I p Hp).
  - intros k. exact (F k).
Qed.

(** X12. The missing properties listed for a set of environments are
    exactly the pairs of a listed environment and a key that occurs
    anywhere for which no property has both; the keys themselves are
    listed once each, in ascending order of their code units. *)
Theorem missing_properties_listed (properties : list Property)
  (environments : list jsstring) :
  (forall env k,
     In (env, k) (PropertyScanner.getMissingProperties properties environments)
     <-> In env environments
         /\ (exists p, In p properties /\ key p = k)
         /\ (forall p, In p properties -> ~ (environment p = env /\ key p = k)))
  /\ StronglySorted (fun a b => JSArray.ltb a b = true)
       (PropertyScanner.getAllUniqueKeys properties)
  /\ (forall k, In k (PropertyScanner.getAllUniqueKeys properties)
                <-> exists p, In p properties /\ key p = k).
Proof.
  unfold PropertyScanner.getAllUniqueKeys.
  destruct (sort_spec _ (unique_NoDup (map key properties))) as [S I].
  assert (K : forall k, In k (JSArray.sort (JSArray.unique (map key properties)))
                        <-> exists p, In p properties /\ key p = k).
  { intros k. rewrite I, unique_In, in_map_iff. split.
    - intros (p & E & Hp). eauto.
    - intros (p & Hp & E). eauto. }
  split; [|split; [exact S|exact K]].
  intros env k. unfold PropertyScanner.getMissingProperties,
    PropertyScanner.getAllUniqueKeys.
  rewrite in_flat_map. split.
  - intros (env' & He & H). apply in_flat_map in H. destruct H as (k' & Hk & H).
    destruct (existsb _ properties) eqn:E; [destruct H|].
    destruct H as [H|[]]. injection H as -> ->.
    split; [exact He|]. split; [now apply K|].
    intros p Hp [E1 E2].
    assert (X : existsb (fun p => JS.eqb (environment p) env && JS.eqb (key p) k)
                        properties = true).
    { apply existsb_exists. exists p. split; [exact Hp|].
      now rewrite E1, E2, !eqb_refl. }
    congruence.
  - intros (He & Hk & Hnone). exists env. split; [exact He|].
    apply in_flat_map. exists k. split; [now apply K|].
    destruct (existsb _ properties) eqn:E; [|now left].
    apply existsb_exists in E. destruct E as (p & Hp & E).
    apply andb_true_iff in E as [E1 E2]. apply eqb_eq in E1, E2.
    exfalso. exact (Hnone p Hp (conj E1 E2)).
Qed.

(** ** App: the other handlers *)

Lemma mapSet_assign (k : jsstring) (v : Property) (m : App.PropertyMap) :
  App.mapSet k v m = JSObject.assign k v m.
Proof.
  induction m as [|[k0 v0] m IH]; simpl; [reflexivity|]. now rewrite IH.
Qed.

Lemma own_mapDelete (k k' : jsstring) (m : App.PropertyMap) :
  JSObject.own k (App.mapDelete k' m)
  = if JS.eqb k' k then None else JSObject.own k m.
Proof.
  unfold JSObject.own, App.mapDelete. induction m as [|[k0 v0] m IH]; simpl.
  - now destruct (JS.eqb k' k).
  - destruct (JS.eqb k0 k') eqn:E0; simpl.
    + apply eqb_eq in E0. subst k0. rewrite IH.
      destruct (JS.eqb k' k); reflexivity.
    + destruct (JS.eqb k0 k) eqn:E1; simpl; [|exact IH].
      apply eqb_eq in E1. subst k0. now rewrite eqb_sym, E0.
Qed.

Lemma keyed_set (p : Property) (m : App.PropertyMap) :
  HandlerSpec.keyed m -> HandlerSpec.keyed (App.mapSet (App.mapKey p) p m).
Proof.
  intros [N F]. rewrite mapSet_assign. split.
  - rewrite keys_assign. destruct (existsb _ (map fst m)) eqn:E; [exact N|].
    apply existsb_eqb_notIn in E.
    apply NoDup_app; [exact N|repeat constructor; simpl; tauto|].
    intros x Hx [<-|[]]. contradiction.
  - clear N. induction F as [|[k0 v0] m H F IH]; cbn [JSObject.assign].
    + repeat constructor.
    + destruct (JS.eqb k0 (App.mapKey p)) eqn:E.
      * constructor; [|exact F]. apply eqb_eq in E. exact E.
      * constructor; [exact H|exact IH].
Qed.

Lemma keyed_delete (k : jsstring) (m : App.PropertyMap) :
  HandlerSpec.keyed m -> HandlerSpec.keyed (App.mapDelete k m).
Proof.
  intros [N F]. unfold App.mapDelete. split.
  - clear F. induction m as [|[k0 v0] m IH]; simpl; [constructor|].
    inversion N as [|? ? Hk Nm]; subst.
    destruct (JS.eqb k0 k); cbn [negb]; [now apply IH|].
    cbn [map fst]. constructor; [|now apply IH].
    intros H. apply Hk. apply in_map_iff in H. destruct H as (kv & E & Hkv).
    apply filter_In in Hkv. apply in_map_iff. exists kv. tauto.
  - apply Forall_forall. intros kv Hkv. apply filter_In in Hkv.
    rewrite Forall_forall in F. now apply F.
Qed.

Lemma keyed_find (m : App.PropertyMap) (k : jsstring) :
  HandlerSpec.keyed m ->
  find (fun p => JS.eqb (App.mapKey p) k) (App.mapValues m) = JSObject.own k m.
Proof.
  intros [_ F]. unfold App.mapValues, JSObject.own.
  induction F as [|[k0 v0] m H F IH]; [reflexivity|].
  cbn [map find fst snd] in *. rewrite <- H.
  destruct (JS.eqb k0 k); [reflexivity|exact IH].
Qed.

Lemma keyed_NoDup (m : App.PropertyMap) :
  HandlerSpec.keyed m -> NoDup (map App.mapKey (App.mapValues m)).
Proof.
  intros [N F]. unfold App.mapValues. rewrite map_map.
  replace (map (fun kv => App.mapKey (snd kv)) m) with (map fst m); [exact N|].
  apply map_ext_in. intros kv Hkv. rewrite Forall_forall in F. now apply F.
Qed.

Section MapFolds.

Variable k : jsstring.

Lemma fold_mapSet (l : list Property) (m : App.PropertyMap) :
  HandlerSpec.keyed m ->
  HandlerSpec.keyed (fold_left (fun m p => App.mapSet (App.mapKey p) p m) l m)
  /\ JSObject.own k (fold_left (fun m p => App.mapSet (App.mapKey p) p m) l m)
     = match find (fun p => JS.eqb (App.mapKey p) k) (rev l) with
       | Some p => Some p
       | None => JSObject.own k m
       end.
Proof.
  revert m. induction l as [|p l IH]; intros m K; cbn [fold_left rev find].
  - now split.
  - destruct (IH _ (keyed_set p m K)) as [K' E]. split; [exact K'|].
    rewrite E, find_app_first.
    destruct (find _ (rev l)); [reflexivity|]. cbn [find].
    rewrite mapSet_assign, own_assign.
    destruct (JS.eqb (App.mapKey p) k); reflexivity.
Qed.

Lemma fold_mapDelete (l : list Property) (m : App.PropertyMap) :
  HandlerSpec.keyed m ->
  HandlerSpec.keyed (fold_left (fun m d => App.mapDelete (App.mapKey d) m) l m)
  /\ JSObject.own k (fold_left (fun m d => App.mapDelete (App.mapKey d) m) l m)
     = if existsb (fun d => JS.eqb (App.mapKey d) k) l then None
       else JSObject.own k m.
Proof.
  revert m. induction l as [|d l IH]; intros m K; cbn [fold_left existsb].
  - now split.
  - destruct (IH _ (keyed_delete (App.mapKey d) m K)) as [K' E].
    split; [exact K'|]. rewrite E, own_mapDelete.
    destruct (JS.eqb (App.mapKey d) k); cbn [orb].
    + now destruct (existsb _ l).
    + reflexivity.
Qed.

End MapFolds.

(** X13. After a batch save the property list holds, under every
    environment-and-key text, the last change made under it; failing
    that, nothing if a deletion names it, and otherwise the last of the
    properties that had it. No two properties of the list share the
    text. *)
Theorem batch_save_lookup (properties changes deletions : list Property) :
  let updated := App.updatedProperties properties changes deletions in
  NoDup (map App.mapKey updated)
  /\ forall k,
       find (fun p => JS.eqb (App.mapKey p) k) updated
       = match find (fun c => JS.eqb (App.mapKey c) k) (rev changes) with
         | Some c => Some c
         | None =>
             if existsb (fun d => JS.eqb (App.mapKey d) k) deletions then None
             else find (fun p => JS.eqb (App.mapKey p) k) (rev properties)
         end.
Proof.
  cbv zeta. unfold App.updatedProperties.
  assert (K0 : HandlerSpec.keyed []) by (split; constructor).
  set (m1 := fold_left (fun m p => App.mapSet (App.mapKey p) p m) properties []).
  set (m2 := fold_left (fun m d => App.mapDelete (App.mapKey d) m) deletions m1).
  set (m3 := fold_left (fun m c => App.mapSet (App.mapKey c) c m) changes m2).
  assert (K1 : HandlerSpec.keyed m1) by apply (fold_mapSet [] properties [] K0).
  assert (K2 : HandlerSpec.keyed m2) by apply (fold_mapDelete [] deletions m1 K1).
  assert (K3 : HandlerSpec.keyed m3) by apply (fold_mapSet [] changes m2 K2).
  split; [now apply keyed_NoDup|]. intros k.
  rewrite (keyed_find m3 k K3). subst m3.
  rewrite (proj2 (fold_mapSet k changes m2 K2)).
  destruct (find _ (rev changes)); [reflexivity|]. subst m2.
  rewrite (proj2 (fold_mapDelete k deletions m1 K1)).
  destruct (existsb _ deletions); [reflexivity|]. subst m1.
  rewrite (proj2 (fold_mapSet k properties [] K0)).
  now destruct (find _ (rev properties)).
Qed.

Lemma upsert_absent (r : Property) (l : list Property) :
  (forall q, In q l -> JS.eqb (id q) (id r) = false) ->
  App.upsert r l = l ++ [r].
Proof.
  induction l as [|q l IH]; intros H; cbn [App.upsert app]; [reflexivity|].
  rewrite (H q (or_introl eq_refl)). f_equal. apply IH.
  intros q' Hq'. apply H. now right.
Qed.


Lemma fetch_upsert_other (r : Property) (l : list Property) (j : jsstring) :
  j <> id r -> fetch j (App.upsert r l) = fetch j l.
Proof.
  intros H. apply eqb_neq in H. unfold fetch.
  induction l as [|q l IH]; cbn [App.upsert find].
  - now rewrite eqb_sym, H.
  - destruct (JS.eqb (id q) (id r)) eqn:E; cbn [find].
    + apply eqb_eq in E. rewrite E. now rewrite eqb_sym, H.
    + destruct (JS.eqb (id q) j); [reflexivity|exact IH].
Qed.

Lemma upsert_length (r : Property) (l : list Property) :
  fetch (id r) l <> None -> length (App.upsert r l) = length l.
Proof.
  unfold fetch. induction l as [|q l IH]; cbn [App.upsert find]; [congruence|].
  destruct (JS.eqb (id q) (id r)); cbn [length]; [reflexivity|].
  intros H. now rewrite IH.
Qed.

Lemma fetch_replace (p' : Property) (l : list Property) (j : jsstring) :
  fetch j (map (fun q => if JS.eqb (id q) (id p') then p' else q) l)
  = if JS.eqb (id p') j
    then match fetch j l with Some _ => Some p' | None => None end
    else fetch j l.
Proof.
  unfold fetch. induction l as [|q l IH]; cbn [map find].
  - now destruct (JS.eqb (id p') j).
  - destruct (JS.eqb (id q) (id p')) eqn:E.
    + apply eqb_eq in E. rewrite E.
      destruct (JS.eqb (id p') j) eqn:F; [reflexivity|exact IH].
    + destruct (JS.eqb (id q) j) eqn:F.
      * apply eqb_eq in F. subst j. now rewrite eqb_sym, E.
      * exact IH.
Qed.


Lemma updatedProperties_find (properties changes deletions : list Property)
  (k : jsstring) :
  NoDup (map App.mapKey (App.updatedProperties properties changes deletions))
  /\ find (fun p => JS.eqb (App.mapKey p) k)
          (App.updatedProperties properties changes deletions)
     = match find (fun c => JS.eqb (App.mapKey c) k) (rev changes) with
       | Some c => Some c
       | None =>
           if existsb (fun d => JS.eqb (App.mapKey d) k) deletions then None
           else find (fun p => JS.eqb (App.mapKey p) k) (rev properties)
       end.
Proof.
  unfold App.updatedProperties.
  assert (K0 : HandlerSpec.keyed []) by (split; constructor).
  destruct (fold_mapSet k properties [] K0) as [K1 E1].
  destruct (fold_mapDelete k deletions _ K1) as [K2 E2].
  destruct (fold_mapSet k changes _ K2) as [K3 E3].
  split; [now apply keyed_NoDup|].
  rewrite (keyed_find _ k K3), E3, E2, E1.
  destruct (find _ (rev changes)); [reflexivity|].
  destruct (existsb _ deletions); [reflexivity|].
  now destruct (find _ (rev properties)).
Qed.

Lemma find_unique {A} (f : A -> jsstring) (l : list A) (x : A) :
  NoDup (map f l) -> In x l -> find (fun y => JS.eqb (f y) (f x)) l = Some x.
Proof.
  induction l as [|y l IH]; cbn [map find]; [intros _ []|].
  intros N H. inversion N as [|? ? Hy Nl]; subst.
  destruct H as [->|H]; [now rewrite eqb_refl|].
  destruct (JS.eqb (f y) (f x)) eqn:E; [|now apply IH].
  apply eqb_eq in E. exfalso. apply Hy. rewrite E. now apply in_map.
Qed.

Lemma find_rev_unique {A} (f : A -> jsstring) (l : list A) (k : jsstring) :
  NoDup (map f l) ->
  find (fun y => JS.eqb (f y) k) (rev l) = find (fun y => JS.eqb (f y) k) l.
Proof.
  induction l as [|x l IH]; cbn [map rev find]; [reflexivity|].
  intros N. inversion N as [|? ? Hx Nl]; subst.
  rewrite find_app_first, (IH Nl). cbn [find].
  destruct (JS.eqb (f x) k) eqn:E.
  - apply eqb_eq in E. subst k.
    destruct (find (fun y => JS.eqb (f y) (f x)) l) as [y|] eqn:F; [|reflexivity].
    apply find_some in F as [Hy Ey]. apply eqb_eq in Ey.
    exfalso. apply Hx. rewrite <- Ey. now apply in_map.
  - now destruct (find _ l).
Qed.

Lemma find_ext_in {A} (f g : A -> bool) (l : list A) :
  (forall x, In x l -> f x = g x) -> find f l = find g l.
Proof.
  induction l as [|x l IH]; intros H; cbn [find]; [reflexivity|].
  rewrite (H x (or_introl eq_refl)). destruct (g x); [reflexivity|].
  apply IH. intros y Hy. apply H. now right.
Qed.

Lemma fetch_filter_id (i j : jsstring) (l : list Property) :
  fetch i (filter (fun p => negb (JS.eqb (id p) j)) l)
  = if JS.eqb j i then None else fetch i l.
Proof.
  unfold fetch. induction l as [|p l IH]; cbn [filter find].
  - now destruct (JS.eqb j i).
  - destruct (JS.eqb (id p) j) eqn:E; cbn [negb find].
    + apply eqb_eq in E. subst j. rewrite IH.
      destruct (JS.eqb (id p) i); reflexivity.
    + destruct (JS.eqb (id p) i) eqn:F; [|exact IH].
      apply eqb_eq in F. subst i. now rewrite eqb_sym, E.
Qed.

Lemma fetch_upsert_id (r : Property) (l : list Property) (i : jsstring) :
  fetch i (App.upsert r l) = if JS.eqb (id r) i then Some r else fetch i l.
Proof.
  destruct (JS.eqb (id r) i) eqn:E.
  - apply eqb_eq in E. subst i. apply fetch_upsert.
  - apply fetch_upsert_other. apply eqb_neq in E. congruence.
Qed.

Lemma fetch_deleted (i : jsstring) (deleted l : list Property) :
  fetch i
    (fold_left (fun updated d => filter (fun p => negb (JS.eqb (id p) (id d))) updated)
               deleted l)
  = if existsb (fun d => JS.eqb (id d) i) deleted then None else fetch i l.
Proof.
  revert l. induction deleted as [|d deleted IH]; intros l;
    cbn [fold_left existsb]; [reflexivity|].
  rewrite IH, fetch_filter_id.
  destruct (JS.eqb (id d) i); cbn [orb]; [now destruct (existsb _ deleted)|].
  reflexivity.
Qed.

Lemma fetch_restored (i : jsstring) (restored l : list Property) :
  fetch i (fold_left (fun updated r => App.upsert r updated) restored l)
  = match find (fun r => JS.eqb (id r) i) (rev restored) with
    | Some r => Some r
    | None => fetch i l
    end.
Proof.
  revert l. induction restored as [|r restored IH]; intros l;
    cbn [fold_left rev find]; [reflexivity|].
  rewrite IH, find_app_first.
  destruct (find _ (rev restored)); [reflexivity|]. cbn [find].
  rewrite fetch_upsert_id. now destruct (JS.eqb (id r) i).
Qed.

Lemma upsert_ids (r : Property) (l : list Property) :
  NoDup (map id l) -> NoDup (map id (App.upsert r l)).
Proof.
  induction l as [|p l IH]; cbn [App.upsert map]; intros N.
  - repeat constructor. simpl. tauto.
  - inversion N as [|? ? Hp Nl]; subst.
    destruct (JS.eqb (id p) (id r)) eqn:E; cbn [map].
    + apply eqb_eq in E. rewrite <- E. exact N.
    + constructor; [|now apply IH]. intros H. apply in_map_iff in H.
      destruct H as (q & Eq & Hq).
      assert (F : fetch (id p) (App.upsert r l) <> None).
      { unfold fetch. intros F. eapply find_none in F; [|exact Hq].
        cbn beta in F. now rewrite Eq, eqb_refl in F. }
      rewrite fetch_upsert_id, eqb_sym, E in F. apply Hp.
      unfold fetch in F. destruct (find _ l) as [q'|] eqn:G; [|congruence].
      apply find_some in G as [Hq' Eq']. apply eqb_eq in Eq'.
      rewrite <- Eq'. now apply in_map.
Qed.

Lemma restoredList_ids (l restored deleted : list Property) :
  NoDup (map id l) -> NoDup (map id (App.restoredList l restored deleted)).
Proof.
  unfold App.restoredList. intros N.
  assert (N1 : NoDup (map id
                 (fold_left
                    (fun updated d =>
                       filter (fun p => negb (JS.eqb (id p) (id d))) updated)
                    deleted l))).
  { revert l N. induction deleted as [|d deleted IH]; intros l N;
      cbn [fold_left]; [exact N|].
    apply IH. clear IH. induction l as [|p l IHl]; cbn [filter map]; [constructor|].
    inversion N as [|? ? Hp Nl]; subst.
    destruct (JS.eqb (id p) (id d)); cbn [negb map]; [now apply IHl|].
    constructor; [|now apply IHl]. intros H. apply Hp.
    apply in_map_iff in H. destruct H as (q & Eq & Hq).
    apply filter_In in Hq as [Hq _]. rewrite <- Eq. now apply in_map. }
  revert N1. generalize (fold_left
                           (fun updated d =>
                              filter (fun p => negb (JS.eqb (id p) (id d))) updated)
                           deleted l).
  induction restored as [|r restored IH]; intros l' N'; cbn [fold_left];
    [exact N'|].
  apply IH. now apply upsert_ids.
Qed.

Lemma resolveBatch_stored (w : Ambient) (now : Date)
  (changes deletions : list Property) (customComment : option jsstring)
  (originals : option (list Property)) :
  AuditPage.resolveBatch now
    (AuditLog.newValue
       (asStored (AuditService.createBatchOperationAuditLog w changes deletions
                    customComment originals)))
  = AuditPage.Resolved (upsertsOf now originals changes deletions)
                       (creationsOf originals changes).
Proof.
  unfold AuditPage.resolveBatch.
  replace (JS.orDefault _ (js "{}"))
    with (stringify (AuditService.batchData changes deletions originals))
    by reflexivity.
  rewrite parse_stringify, forEachOf_changes, forEach_changes.
  rewrite forEachOf_deletions, forEach_deletions. reflexivity.
Qed.

Lemma originalsOf_In (properties changes : list Property) (o : Property) :
  In o (originalsOf (Some properties) changes) ->
  In o properties /\ exists c, In c changes /\ id o = id c.
Proof.
  induction changes as [|c changes IH]; cbn [originalsOf]; [intros []|].
  unfold AuditService.findOriginal at 1.
  destruct (find (fun p => JS.eqb (id p) (id c)) properties) as [o'|] eqn:F.
  - intros [<-|H].
    + apply find_some in F as [Ho Eo]. apply eqb_eq in Eo.
      split; [exact Ho|]. exists c. split; [now left|exact Eo].
    + destruct (IH H) as (Ho & c' & Hc' & E). split; [exact Ho|].
      exists c'. split; [now right|exact E].
  - intros H. destruct (IH H) as (Ho & c' & Hc' & E). split; [exact Ho|].
    exists c'. split; [now right|exact E].
Qed.

Lemma originalsOf_found (properties changes : list Property) (c o : Property) :
  In c changes -> find (fun p => JS.eqb (id p) (id c)) properties = Some o ->
  In o (originalsOf (Some properties) changes).
Proof.
  induction changes as [|c' changes IH]; cbn [originalsOf]; [simpl; tauto|].
  unfold AuditService.findOriginal at 1. intros [->|H] F.
  - rewrite F. now left.
  - destruct (find (fun p => JS.eqb (id p) (id c')) properties);
      [simpl; right|]; now apply IH.
Qed.

Lemma creationsOf_In (properties changes : list Property) (c : Property) :
  In c (creationsOf (Some properties) changes)
  <-> In c changes /\ fetch (id c) properties = None.
Proof.
  unfold fetch. induction changes as [|c' changes IH]; cbn [creationsOf];
    [simpl; tauto|].
  unfold AuditService.findOriginal at 1.
  destruct (find (fun p => JS.eqb (id p) (id c')) properties) as [o|] eqn:F.
  - rewrite IH. simpl. split; [tauto|]. intros [[->|H] G]; [congruence|tauto].
  - simpl. rewrite IH. split.
    + intros [<-|H]; [split; [now left|exact F]|]. tauto.
    + intros [[->|H] G]; [now left|right; tauto].
Qed.

Lemma updatedProperties_In (properties changes deletions : list Property)
  (u : Property) :
  In u (App.updatedProperties properties changes deletions) ->
  In u properties \/ In u changes.
Proof.
  intros H.
  destruct (updatedProperties_find properties changes deletions (App.mapKey u))
    as [N F].
  rewrite (find_unique App.mapKey _ u N H) in F.
  destruct (find _ (rev changes)) as [c|] eqn:Fc.
  - injection F as ->. apply find_some in Fc as [Hc _].
    right. now apply in_rev.
  - destruct (existsb _ deletions); [discriminate|].
    symmetry in F. apply find_some in F as [Hp _]. left. now apply in_rev.
Qed.

Lemma sameButStamp_stamped (now : Date) (p : Property) :
  HandlerSpec.sameButStamp (withLastModified now p) p.
Proof. repeat split. Qed.

Lemma sameButStamp_refl (p : Property) : HandlerSpec.sameButStamp p p.
Proof. repeat split. Qed.


(** *** Undoing a deletion, an edit *)

Lemma NoDup_filter_ids (f : Property -> bool) (l : list Property) :
  NoDup (map id l) -> NoDup (map id (filter f l)).
Proof.
  induction l as [|q l IH]; cbn [filter map]; intros N; [constructor|].
  inversion N as [|? ? Hq Nl]; subst.
  destruct (f q); cbn [map]; [|now apply IH].
  constructor; [|now apply IH].
  intros H. apply Hq. apply in_map_iff in H as (x & E & Hx).
  apply filter_In in Hx as [Hx _]. rewrite <- E. now apply in_map.
Qed.

Lemma replace_ids (p' : Property) (l : list Property) :
  map id (map (fun q => if JS.eqb (id q) (id p') then p' else q) l) = map id l.
Proof.
  induction l as [|q l IH]; cbn [map]; [reflexivity|]. rewrite IH. f_equal.
  destruct (JS.eqb (id q) (id p')) eqn:E; [|reflexivity].
  apply eqb_eq in E. now rewrite E.
Qed.

(** A generated identifier that the audit table does not hold, and that
    differs from the one just appended, is not in the table afterwards. *)
Lemma unused_after (i : jsstring) (table : list AuditRow) (r : AuditRow) :
  hasAuditId i table = false -> i <> log_id r ->
  hasAuditId i (table ++ [r]) = false.
Proof.
  intros F H. unfold hasAuditId in *. rewrite existsb_app, F. cbn [existsb orb].
  rewrite orb_false_r. apply eqb_neq. congruence.
Qed.

(** The restore entry of a page, written by a store that has the
    service: the page's handler comes to [record_returns]. *)
Lemma restore_recorded (banner : Exception -> ErrorBanner) (w' : Ambient)
  (subject : Property) (details : option jsstring)
  (restored deleted : list Property) (world : World) (d : Database) :
  service world = Some d ->
  StoreSpec.plainAmbient w' = true ->
  StoreSpec.plainProperty subject = true ->
  hasAuditId (generatedId w') (audit_logs d) = false ->
  NoDup (map id (appProperties world)) ->
  let restoreEntry :=
    AuditService.createAuditLog w' AuditLog.RESTORE subject None details in
  AuditPage.record banner restoreEntry restored deleted world
  = Some (mkWorld
            (Some (mkDatabase
                     (map rowOfProperty
                        (App.restoredList (appProperties world) restored deleted))
                     (audit_logs d ++ [rowOfAuditLog restoreEntry])
                     (imported_data d)))
            (App.restoredList (appProperties world) restored deleted)
            (appError world) (pageError world)).
Proof.
  intros Hs Pw Ps F N restoreEntry.
  destruct (createAuditLog_interpolates w' AuditLog.RESTORE subject None details
              Pw Ps) as (I & L & _).
  apply record_returns; [exact Hs|exact I| |now apply restoredList_ids].
  unfold restoreEntry. now rewrite L.
Qed.

(** X14. Deleting a property and then restoring the DELETE entry the
    deletion wrote brings the property back. The application has a
    service, the list has no repeated [id], the two generated identifiers
    differ and are not in the audit table, and the texts the entries
    write unescaped hold no apostrophe. The deletion then removes every
    property with the [id] from the list, rewrites the table and appends
    the DELETE entry. Restoring that entry, read back from the store,
    shows no failure and appends to the list the property with its [id],
    environment, key, component and value, its description (an absent
    one as the empty text), the time of the restore and no order numbers,
    rewrites the table and appends a RESTORE entry. *)
Theorem delete_then_restore (w w' : Ambient) (i : jsstring) (world : World)
  (d : Database) (p : Property) :
  service world = Some d ->
  NoDup (map id (appProperties world)) ->
  find (fun q => JS.eqb (id q) i) (appProperties world) = Some p ->
  StoreSpec.plainAmbient w = true ->
  StoreSpec.plainAmbient w' = true ->
  StoreSpec.plainProperty p = true ->
  hasAuditId (generatedId w) (audit_logs d) = false ->
  hasAuditId (generatedId w') (audit_logs d) = false ->
  generatedId w' <> generatedId w ->
  let entry := AuditService.createAuditLog w AuditLog.DELETE p None None in
  let restoredProperty :=
    mkProperty (id p) (environment p) (key p) (value p)
      (Some (JS.orDefault (description p) [])) (component p) (newDate w')
      None None None in
  exists world1 world2 restoreEntry,
    Handlers.handleDeleteProperty w i world = Some (Handlers.Settled world1)
    /\ appProperties world1
       = filter (fun q => negb (JS.eqb (id q) i)) (appProperties world)
    /\ propertiesOf (service world1) = map rowOfProperty (appProperties world1)
    /\ auditLogsOf (service world1) = audit_logs d ++ [rowOfAuditLog entry]
    /\ AuditPage.handleRestore w' (asStored entry) world1 = Some world2
    /\ pageError world2 = pageError world
    /\ appError world2 = appError world
    /\ appProperties world2 = appProperties world1 ++ [restoredProperty]
    /\ propertiesOf (service world2) = map rowOfProperty (appProperties world2)
    /\ AuditLog.action restoreEntry = AuditLog.RESTORE
    /\ AuditLog.recordId restoreEntry = id p
    /\ auditLogsOf (service world2)
       = auditLogsOf (service world1) ++ [rowOfAuditLog restoreEntry].
Proof.
  intros Hs N Hfind Pw Pw' Pp Fw Fw' Hne entry restoredProperty.
  set (updated := filter (fun q => negb (JS.eqb (id q) i)) (appProperties world)).
  assert (Nu : NoDup (map id updated)) by now apply NoDup_filter_ids.
  pose proof (createAuditLog_interpolates w AuditLog.DELETE p None None Pw Pp)
    as K.
  cbv zeta in K. fold entry in K. destruct K as (I & Li & _ & _ & Ar & Ak & Ae & Ac).
  set (d1 := mkDatabase (map rowOfProperty updated)
               (audit_logs d ++ [rowOfAuditLog entry]) (imported_data d)).
  set (world1 := mkWorld (Some d1) updated (appError world) (pageError world)).
  assert (E1 : Handlers.handleDeleteProperty w i world
               = Some (Handlers.Settled world1)).
  { unfold Handlers.handleDeleteProperty. rewrite Hs, Hfind. fold updated entry.
    rewrite (save_written updated entry d Nu I); [reflexivity|now rewrite Li]. }
  assert (Hid : id p = i).
  { apply find_some in Hfind as [_ H]. now apply eqb_eq in H. }
  assert (Hrebuilt : AuditPage.rebuilt (newDate w') (asStored entry)
                       (AuditLog.oldValue (asStored entry))
                       (AuditLog.oldDescription (asStored entry))
                     = restoredProperty).
  { unfold AuditPage.rebuilt. rewrite Ar, Ak, Ae, Ac. unfold restoredProperty.
    f_equal.
    - cbn. now destruct (value p).
    - cbn. now rewrite orDefault_textOrNull. }
  set (restoreEntry :=
         AuditService.createAuditLog w' AuditLog.RESTORE restoredProperty None
           (Some (js "Restored from audit log: " ++ AuditLog.id (asStored entry)))).
  assert (E2 : AuditPage.handleRestore w' (asStored entry) world1
               = AuditPage.record FailedToRestoreProperty restoreEntry
                   [restoredProperty] [] world1).
  { destruct (handleRestore_records w' (asStored entry) world1 d1 eq_refl)
      as [H _].
    rewrite H by discriminate. unfold AuditPage.resolveSingle.
    change (AuditLog.action (asStored entry)) with AuditLog.DELETE.
    cbv iota. cbn [fst snd]. now rewrite Hrebuilt. }
  assert (R : AuditPage.record FailedToRestoreProperty restoreEntry
                [restoredProperty] [] world1
              = Some (mkWorld
                        (Some (mkDatabase
                                 (map rowOfProperty
                                    (App.restoredList updated [restoredProperty] []))
                                 (audit_logs d1 ++ [rowOfAuditLog restoreEntry])
                                 (imported_data d1)))
                        (App.restoredList updated [restoredProperty] [])
                        (appError world) (pageError world))).
  { apply (restore_recorded FailedToRestoreProperty w' restoredProperty _
             [restoredProperty] [] world1 d1 eq_refl Pw').
    - exact Pp.
    - apply unused_after; [exact Fw'|now rewrite Li].
    - exact Nu. }
  eexists world1, _, restoreEntry.
  split; [exact E1|]. split; [reflexivity|]. split; [reflexivity|].
  split; [reflexivity|]. split; [now rewrite E2, R|].
  split; [reflexivity|]. split; [reflexivity|].
  split; [|split; [reflexivity|split; [reflexivity|split; reflexivity]]].
  cbn [appProperties world1 App.restoredList fold_left].
  apply upsert_absent. intros q Hq.
  apply filter_In in Hq as [_ Hq]. cbn [id restoredProperty].
  rewrite Hid. now apply negb_true_iff in Hq.
Qed.

Lemma delete_then_restore_witness :
  exists world1 world2,
    Handlers.handleDeleteProperty Samples.ambient (js "prod_db.url") Samples.world
    = Some (Handlers.Settled world1)
    /\ appProperties world1 = []
    /\ AuditPage.handleRestore Examples.later
         (asStored (AuditService.createAuditLog Samples.ambient AuditLog.DELETE
                      Samples.dbUrl None None)) world1 = Some world2
    /\ map value (appProperties world2) = [js "jdbc:prod"]
    /\ map log_action (auditLogsOf (service world2))
       = [js "CREATE"; js "DELETE"; js "RESTORE"].
Proof.
  assert (N : NoDup (map id (appProperties Samples.world))).
  { repeat constructor. simpl. tauto. }
  assert (Hne : generatedId Examples.later <> generatedId Samples.ambient).
  { discriminate. }
  destruct (delete_then_restore Samples.ambient Examples.later
              (js "prod_db.url") Samples.world Samples.database Samples.dbUrl
              eq_refl N eq_refl eq_refl eq_refl eq_refl eq_refl eq_refl Hne)
    as (world1 & world2 & restoreEntry & E1 & P1 & _ & _ & E2 & _ & _ & P2
        & _ & _ & _ & A2).
  exists world1, world2. split; [exact E1|]. split; [exact P1|].
  split; [exact E2|].
  vm_compute in E1. injection E1 as <-.
  vm_compute in E2. injection E2 as <-. split; reflexivity.
Defined.

(** X15. Editing a property and then restoring the UPDATE entry the edit
    wrote brings its old value and description back. The application has
    a service, the list has no repeated [id], the two generated
    identifiers differ and are not in the audit table, and the texts the
    entries write unescaped hold no apostrophe. The edit then replaces
    the property with the edited [id], rewrites the table and appends the
    UPDATE entry. Restoring that entry, read back from the store, shows
    no failure and puts under the [id] a property with the old value and
    the old description (an absent one as the empty text), with the
    environment, key and component of the edited property, the time of
    the restore and no order numbers; every other [id] keeps its property
    and the list keeps its length; the table is rewritten and a RESTORE
    entry appended. *)
Theorem edit_then_restore (w w' : Ambient) (editing edited old : Property)
  (more : list Property) (world : World) (d : Database) :
  service world = Some d ->
  NoDup (map id (appProperties world)) ->
  fetch (id edited) (appProperties world) = Some old ->
  StoreSpec.plainAmbient w = true ->
  StoreSpec.plainAmbient w' = true ->
  StoreSpec.plainProperty edited = true ->
  hasAuditId (generatedId w) (audit_logs d) = false ->
  hasAuditId (generatedId w') (audit_logs d) = false ->
  generatedId w' <> generatedId w ->
  let entry :=
    AuditService.createAuditLog w AuditLog.UPDATE edited (Some old) None in
  let restoredProperty :=
    mkProperty (id edited) (environment edited) (key edited) (value old)
      (Some (JS.orDefault (description old) [])) (component edited)
      (newDate w') None None None in
  exists world1 world2 restoreEntry,
    Handlers.handleSaveProperty w (Some editing) (edited :: more) world
    = Some (Handlers.Settled world1)
    /\ appProperties world1
       = map (fun q => if JS.eqb (id q) (id edited) then edited else q)
             (appProperties world)
    /\ propertiesOf (service world1) = map rowOfProperty (appProperties world1)
    /\ auditLogsOf (service world1) = audit_logs d ++ [rowOfAuditLog entry]
    /\ AuditPage.handleRestore w' (asStored entry) world1 = Some world2
    /\ pageError world2 = pageError world
    /\ appError world2 = appError world
    /\ fetch (id edited) (appProperties world2) = Some restoredProperty
    /\ (forall j, j <> id edited ->
          fetch j (appProperties world2) = fetch j (appProperties world))
    /\ length (appProperties world2) = length (appProperties world)
    /\ propertiesOf (service world2) = map rowOfProperty (appProperties world2)
    /\ AuditLog.action restoreEntry = AuditLog.RESTORE
    /\ AuditLog.recordId restoreEntry = id edited
    /\ auditLogsOf (service world2)
       = auditLogsOf (service world1) ++ [rowOfAuditLog restoreEntry].
Proof.
  intros Hs N Hfind Pw Pw' Pp Fw Fw' Hne entry restoredProperty.
  set (updated := map (fun q => if JS.eqb (id q) (id edited) then edited else q)
                      (appProperties world)).
  assert (Nu : NoDup (map id updated)).
  { unfold updated. now rewrite replace_ids. }
  pose proof (createAuditLog_interpolates w AuditLog.UPDATE edited (Some old)
                None Pw Pp) as K.
  cbv zeta in K. fold entry in K. destruct K as (I & Li & _ & _ & Ar & Ak & Ae & Ac).
  set (d1 := mkDatabase (map rowOfProperty updated)
               (audit_logs d ++ [rowOfAuditLog entry]) (imported_data d)).
  set (world1 := mkWorld (Some d1) updated (appError world) (pageError world)).
  assert (E1 : Handlers.handleSaveProperty w (Some editing) (edited :: more) world
               = Some (Handlers.Settled world1)).
  { unfold Handlers.handleSaveProperty. rewrite Hs.
    unfold fetch in Hfind. rewrite Hfind. fold updated entry.
    rewrite (save_written_one updated entry d Nu I); [reflexivity|now rewrite Li]. }
  assert (Hrebuilt : AuditPage.rebuilt (newDate w') (asStored entry)
                       (AuditLog.oldValue (asStored entry))
                       (AuditLog.oldDescription (asStored entry))
                     = restoredProperty).
  { unfold AuditPage.rebuilt. rewrite Ar, Ak, Ae, Ac. unfold restoredProperty.
    f_equal.
    - cbn. now destruct (value old).
    - cbn. now rewrite orDefault_textOrNull. }
  set (restoreEntry :=
         AuditService.createAuditLog w' AuditLog.RESTORE restoredProperty None
           (Some (js "Restored from audit log: " ++ AuditLog.id (asStored entry)))).
  assert (E2 : AuditPage.handleRestore w' (asStored entry) world1
               = AuditPage.record FailedToRestoreProperty restoreEntry
                   [restoredProperty] [] world1).
  { destruct (handleRestore_records w' (asStored entry) world1 d1 eq_refl)
      as [H _].
    rewrite H by discriminate. unfold AuditPage.resolveSingle.
    change (AuditLog.action (asStored entry)) with AuditLog.UPDATE.
    cbv iota. cbn [fst snd]. now rewrite Hrebuilt. }
  assert (R : AuditPage.record FailedToRestoreProperty restoreEntry
                [restoredProperty] [] world1
              = Some (mkWorld
                        (Some (mkDatabase
                                 (map rowOfProperty
                                    (App.restoredList updated [restoredProperty] []))
                                 (audit_logs d1 ++ [rowOfAuditLog restoreEntry])
                                 (imported_data d1)))
                        (App.restoredList updated [restoredProperty] [])
                        (appError world) (pageError world))).
  { apply (restore_recorded FailedToRestoreProperty w' restoredProperty _
             [restoredProperty] [] world1 d1 eq_refl Pw').
    - exact Pp.
    - apply unused_after; [exact Fw'|now rewrite Li].
    - exact Nu. }
  assert (Hupdated : fetch (id edited) updated = Some edited).
  { subst updated. rewrite fetch_replace, eqb_refl. now rewrite Hfind. }
  eexists world1, _, restoreEntry.
  split; [exact E1|]. split; [reflexivity|]. split; [reflexivity|].
  split; [reflexivity|]. split; [now rewrite E2, R|].
  split; [reflexivity|]. split; [reflexivity|].
  cbn [appProperties App.restoredList fold_left].
  split; [|split; [|split; [|split; [reflexivity|split; [reflexivity|
    split; reflexivity]]]]].
  - exact (fetch_upsert restoredProperty updated).
  - intros j Hj. rewrite fetch_upsert_other by exact Hj.
    subst updated. rewrite fetch_replace.
    destruct (JS.eqb (id edited) j) eqn:F; [|reflexivity].
    apply eqb_eq in F. congruence.
  - rewrite upsert_length.
    + subst updated. apply length_map.
    + cbn [id restoredProperty]. now rewrite Hupdated.
Qed.

Lemma edit_then_restore_witness :
  exists world1 world2,
    Handlers.handleSaveProperty Samples.ambient (Some Samples.dbUrl)
      [Examples.editedUrl] Samples.world = Some (Handlers.Settled world1)
    /\ map value (appProperties world1) = [js "jdbc:standby"]
    /\ AuditPage.handleRestore Examples.later
         (asStored (AuditService.createAuditLog Samples.ambient AuditLog.UPDATE
                      Examples.editedUrl (Some Samples.dbUrl) None)) world1
       = Some world2
    /\ map value (appProperties world2) = [js "jdbc:prod"]
    /\ map log_action (auditLogsOf (service world2))
       = [js "CREATE"; js "UPDATE"; js "RESTORE"].
Proof.
  assert (N : NoDup (map id (appProperties Samples.world))).
  { repeat constructor. simpl. tauto. }
  assert (Hne : generatedId Examples.later <> generatedId Samples.ambient).
  { discriminate. }
  destruct (edit_then_restore Samples.ambient Examples.later Samples.dbUrl
              Examples.editedUrl Samples.dbUrl [] Samples.world Samples.database
              eq_refl N eq_refl eq_refl eq_refl eq_refl eq_refl eq_refl Hne)
    as (world1 & world2 & restoreEntry & E1 & _ & _ & _ & E2 & _).
  exists world1, world2. split; [exact E1|].
  vm_compute in E1. injection E1 as <-.
  split; [reflexivity|]. split; [exact E2|].
  vm_compute in E2. injection E2 as <-. split; reflexivity.
Defined.

(** *** Undoing a batch *)

(** X16. Restoring the BATCH entry of a batch save undoes the save. The
    application has a service; the properties have their
    environment-and-key text for [id] and no apostrophe in the texts an
    entry writes unescaped; the list has no repeated [id] and the
    deletions are taken from it; the two generated identifiers differ
    and are not in the audit table. A save of other than exactly one
    operation then sets the list to the updated one, rewrites the table
    and appends the BATCH entry; restoring that entry, read back from the
    store, shows no failure and leaves a list without repeated [id] in
    which every [id] of the list before the save has its property again,
    equal up to the time of modification, and no other [id] has any; the
    table is rewritten from that list and a RESTORE entry appended. *)
Theorem batch_save_then_restore (w w' : Ambient)
  (changes deletions : list Property) (customComment : option jsstring)
  (world : World) (d : Database) :
  let properties := appProperties world in
  service world = Some d ->
  (forall p, In p (properties ++ changes ++ deletions) -> id p = App.mapKey p) ->
  NoDup (map id properties) ->
  (forall x, In x deletions -> In x properties) ->
  length changes + length deletions <> 1 ->
  StoreSpec.plainAmbient w = true ->
  StoreSpec.plainAmbient w' = true ->
  (forall p, In p (properties ++ changes) -> StoreSpec.plainProperty p = true) ->
  hasAuditId (generatedId w) (audit_logs d) = false ->
  hasAuditId (generatedId w') (audit_logs d) = false ->
  generatedId w' <> generatedId w ->
  let entry :=
    AuditService.createBatchOperationAuditLog w changes deletions customComment
      (Some properties) in
  exists world1 world2 restoreEntry,
    App.handleBatchSave w changes deletions customComment world = Some world1
    /\ appProperties world1 = App.updatedProperties properties changes deletions
    /\ propertiesOf (service world1) = map rowOfProperty (appProperties world1)
    /\ auditLogsOf (service world1) = audit_logs d ++ [rowOfAuditLog entry]
    /\ AuditPage.handleRestore w' (asStored entry) world1 = Some world2
    /\ pageError world2 = pageError world
    /\ appError world2 = appError world
    /\ NoDup (map id (appProperties world2))
    /\ (forall i,
          match fetch i properties with
          | Some p =>
              exists r, fetch i (appProperties world2) = Some r
                        /\ HandlerSpec.sameButStamp r p
          | None => fetch i (appProperties world2) = None
          end)
    /\ propertiesOf (service world2) = map rowOfProperty (appProperties world2)
    /\ AuditLog.action restoreEntry = AuditLog.RESTORE
    /\ auditLogsOf (service world2)
       = auditLogsOf (service world1) ++ [rowOfAuditLog restoreEntry].
Proof.
  intros properties Hs Hkeys Nids Hdel Hbatch Pw Pw' Pall Fw Fw' Hne entry.
  set (updated := App.updatedProperties properties changes deletions).
  assert (Hupd : forall u, In u updated -> id u = App.mapKey u).
  { intros u Hu. apply updatedProperties_In in Hu. apply Hkeys.
    rewrite !in_app_iff. tauto. }
  assert (Nkeys : NoDup (map App.mapKey properties)).
  { replace (map App.mapKey properties) with (map id properties); [exact Nids|].
    apply map_ext_in. intros p Hp. apply Hkeys. rewrite in_app_iff. now left. }
  assert (Nu : NoDup (map id updated)).
  { replace (map id updated) with (map App.mapKey updated).
    - apply (updatedProperties_find properties changes deletions []).
    - symmetry. apply map_ext_in. exact Hupd. }
  pose proof (createBatchOperationAuditLog_interpolates w changes deletions
                customComment (Some properties) Pw) as K.
  cbv zeta in K. fold entry in K. destruct K as (I & Li & _).
  set (d1 := mkDatabase (map rowOfProperty updated)
               (audit_logs d ++ [rowOfAuditLog entry]) (imported_data d)).
  set (world1 := mkWorld (Some d1) updated (appError world) (pageError world)).
  assert (E1 : App.handleBatchSave w changes deletions customComment world
               = Some world1).
  { unfold App.handleBatchSave. rewrite Hs. fold properties. fold updated.
    fold entry.
    destruct (Nat.eqb_spec (length changes + length deletions) 1); [lia|].
    rewrite (save_written updated entry d Nu I); [reflexivity|now rewrite Li]. }
  set (now := newDate w').
  set (restored := upsertsOf now (Some properties) changes deletions).
  set (deleted := creationsOf (Some properties) changes).
  assert (Hres : forall r, In r restored ->
                           exists p, In p properties /\ r = withLastModified now p).
  { intros r Hr. unfold restored, upsertsOf in Hr.
    apply in_app_iff in Hr. destruct Hr as [Hr|Hr];
      apply in_map_iff in Hr; destruct Hr as (p & <- & Hp); exists p.
    - apply originalsOf_In in Hp. tauto.
    - split; [now apply Hdel|reflexivity]. }
  set (subject := match restored, deleted with
                  | p :: _, _ => p
                  | [], p :: _ => p
                  | [], [] => AuditPage.batchRestorePlaceholder now
                  end).
  assert (Ps : StoreSpec.plainProperty subject = true).
  { unfold subject. destruct restored as [|r restored'] eqn:Er.
    - destruct deleted as [|c deleted'] eqn:Ec; [reflexivity|].
      assert (Hc : In c deleted) by (rewrite Ec; now left).
      apply creationsOf_In in Hc as [Hc _]. apply Pall.
      rewrite in_app_iff. now right.
    - destruct (Hres r (or_introl eq_refl)) as (p & Hp & ->).
      change (StoreSpec.plainProperty (withLastModified now p))
        with (StoreSpec.plainProperty p).
      apply Pall. rewrite in_app_iff. now left. }
  set (restoreEntry :=
         AuditService.createAuditLog w' AuditLog.RESTORE subject None
           (Some (js "Restored batch operation from audit log: "
                  ++ AuditLog.id (asStored entry) ++ js " ("
                  ++ JS.decimalNat (length restored) ++ js " restored, "
                  ++ JS.decimalNat (length deleted) ++ js " deleted)"))).
  assert (E2 : AuditPage.handleRestore w' (asStored entry) world1
               = AuditPage.record FailedToParseBatchData restoreEntry
                   restored deleted world1).
  { destruct (handleRestore_records w' (asStored entry) world1 d1 eq_refl)
      as [_ H].
    apply (H eq_refl restored deleted). apply resolveBatch_stored. }
  assert (R : AuditPage.record FailedToParseBatchData restoreEntry
                restored deleted world1
              = Some (mkWorld
                        (Some (mkDatabase
                                 (map rowOfProperty
                                    (App.restoredList updated restored deleted))
                                 (audit_logs d1 ++ [rowOfAuditLog restoreEntry])
                                 (imported_data d1)))
                        (App.restoredList updated restored deleted)
                        (appError world) (pageError world))).
  { apply (restore_recorded FailedToParseBatchData w' subject _
             restored deleted world1 d1 eq_refl Pw' Ps).
    - apply unused_after; [exact Fw'|now rewrite Li].
    - exact Nu. }
  assert (Hfetch : forall l i, (forall u, In u l -> id u = App.mapKey u) ->
                               fetch i l = find (fun p => JS.eqb (App.mapKey p) i) l).
  { intros l i Hl. unfold fetch. apply find_ext_in. intros u Hu.
    now rewrite (Hl u Hu). }
  eexists world1, _, restoreEntry.
  split; [exact E1|]. split; [reflexivity|]. split; [reflexivity|].
  split; [reflexivity|]. split; [now rewrite E2, R|].
  split; [reflexivity|]. split; [reflexivity|].
  cbn [appProperties service propertiesOf auditLogsOf].
  split; [|split; [|split; [reflexivity|split; reflexivity]]].
  - now apply restoredList_ids.
  - intros i. unfold App.restoredList.
    rewrite fetch_restored, fetch_deleted.
    destruct (find (fun r => JS.eqb (id r) i) (rev restored)) as [r|] eqn:Fr.
    + apply find_some in Fr as [Hr Ei]. apply in_rev in Hr. apply eqb_eq in Ei.
      destruct (Hres r Hr) as (p & Hp & ->). cbn [withLastModified id] in Ei.
      subst i. unfold fetch. rewrite (find_unique id properties p Nids Hp).
      eexists. split; [reflexivity|apply sameButStamp_stamped].
    + assert (Hnone : forall r, In r restored -> JS.eqb (id r) i = false).
      { intros r Hr. apply (find_none _ _ Fr). now apply in_rev in Hr. }
      destruct (existsb (fun x => JS.eqb (id x) i) deleted) eqn:Ed.
      * apply existsb_exists in Ed. destruct Ed as (c & Hc & Ec).
        apply eqb_eq in Ec. subst i. apply creationsOf_In in Hc as [_ Hc].
        now rewrite Hc.
      * rewrite (Hfetch updated i Hupd). unfold updated.
        rewrite (proj2 (updatedProperties_find properties changes deletions i)).
        destruct (find (fun c => JS.eqb (App.mapKey c) i) (rev changes))
          as [c|] eqn:Fc.
        -- exfalso. apply find_some in Fc as [Hc Ec]. apply in_rev in Hc.
           apply eqb_eq in Ec.
           assert (Eid : id c = i).
           { rewrite <- Ec. apply Hkeys. rewrite !in_app_iff. tauto. }
           destruct (find (fun p => JS.eqb (id p) (id c)) properties) as [o|] eqn:Fo.
           ++ pose proof (originalsOf_found properties changes c o Hc Fo) as Ho.
              apply find_some in Fo as [_ Eo]. apply eqb_eq in Eo.
              assert (Hr : In (withLastModified now o) restored).
              { unfold restored, upsertsOf. apply in_app_iff. left.
                now apply in_map. }
              specialize (Hnone _ Hr). cbn [withLastModified id] in Hnone.
              rewrite Eo, Eid, eqb_refl in Hnone. discriminate.
           ++ assert (Hcr : In c deleted).
              { apply creationsOf_In. split; [exact Hc|exact Fo]. }
              assert (X : existsb (fun x => JS.eqb (id x) i) deleted = true).
              { apply existsb_exists. exists c. split; [exact Hcr|].
                rewrite Eid. apply eqb_refl. }
              congruence.
        -- destruct (existsb (fun x => JS.eqb (App.mapKey x) i) deletions) eqn:Ex.
           ++ exfalso. apply existsb_exists in Ex. destruct Ex as (x & Hd & Ei).
              apply eqb_eq in Ei.
              assert (Eid : id x = i).
              { rewrite <- Ei. apply Hkeys. rewrite !in_app_iff. tauto. }
              assert (Hr : In (withLastModified now x) restored).
              { unfold restored, upsertsOf. apply in_app_iff. right.
                now apply in_map. }
              specialize (Hnone _ Hr). cbn [withLastModified id] in Hnone.
              rewrite Eid, eqb_refl in Hnone. discriminate.
           ++ rewrite (find_rev_unique App.mapKey properties i Nkeys).
              rewrite <- (Hfetch properties i).
              ** destruct (fetch i properties) as [p|]; [|reflexivity].
                 exists p. split; [reflexivity|apply sameButStamp_refl].
              ** intros u Hu. apply Hkeys. rewrite in_app_iff. now left.
Qed.

Lemma batch_save_then_restore_witness :
  exists world1 world2,
    App.handleBatchSave Samples.ambient [Examples.editedUrl; Samples.dbUser]
      [] None Samples.world = Some world1
    /\ map value (appProperties world1) = [js "jdbc:standby"; js "admin"]
    /\ AuditPage.handleRestore Examples.later
         (asStored
            (AuditService.createBatchOperationAuditLog Samples.ambient
               [Examples.editedUrl; Samples.dbUser] [] None
               (Some (appProperties Samples.world))))
         world1
       = Some world2
    /\ map value (appProperties world2) = [js "jdbc:prod"]
    /\ map log_action (auditLogsOf (service world2))
       = [js "CREATE"; js "BATCH"; js "RESTORE"].
Proof.
  assert (Hkeys : forall p,
             In p (appProperties Samples.world
                   ++ [Examples.editedUrl; Samples.dbUser] ++ []) ->
             id p = App.mapKey p).
  { intros p [<-|[<-|[<-|[]]]]; reflexivity. }
  assert (Nids : NoDup (map id (appProperties Samples.world))).
  { repeat constructor. simpl. tauto. }
  assert (Hdel : forall x, In x [] -> In x (appProperties Samples.world)).
  { intros x []. }
  assert (Hbatch : length [Examples.editedUrl; Samples.dbUser]
                   + length (@nil Property) <> 1).
  { discriminate. }
  assert (Pall : forall p,
             In p (appProperties Samples.world
                   ++ [Examples.editedUrl; Samples.dbUser]) ->
             StoreSpec.plainProperty p = true).
  { intros p [<-|[<-|[<-|[]]]]; reflexivity. }
  assert (Hne : generatedId Examples.later <> generatedId Samples.ambient).
  { discriminate. }
  destruct (batch_save_then_restore Samples.ambient Examples.later
              [Examples.editedUrl; Samples.dbUser] [] None Samples.world
              Samples.database eq_refl Hkeys Nids Hdel Hbatch eq_refl eq_refl
              Pall eq_refl eq_refl Hne)
    as (world1 & world2 & restoreEntry & E1 & _ & _ & _ & E2 & _).
  exists world1, world2. split; [exact E1|].
  vm_compute in E1. injection E1 as <-.
  split; [reflexivity|]. split; [exact E2|].
  vm_compute in E2. injection E2 as <-. split; reflexivity.
Defined.

(** *** Uploading a properties file, adding an environment *)

Lemma entries_In {V} (o : JSObject.t V) (kv : jsstring * V) :
  In kv (JSObject.entries o) <-> In kv o.
Proof.
  split; apply Permutation_in; [apply entries_perm|symmetry; apply entries_perm].
Qed.

Lemma availableEnvironments_In (properties : list Property) (env : jsstring) :
  In env (Handlers.availableEnvironments properties)
  <-> exists p, In p properties /\ environment p = env.
Proof.
  unfold Handlers.availableEnvironments.
  destruct (sort_spec _ (unique_NoDup (map environment properties))) as [_ I].
  rewrite I, unique_In, in_map_iff. split.
  - intros (p & E & Hp). eauto.
  - intros (p & Hp & E). eauto.
Qed.

Lemma currentEnvironments_In (properties : list Property) (env : jsstring) :
  In env (if 0 <? length (Handlers.availableEnvironments properties)
          then Handlers.availableEnvironments properties
          else [js "default"])
  <-> (properties = [] /\ env = js "default")
      \/ (exists p, In p properties /\ environment p = env).
Proof.
  destruct properties as [|q properties].
  - cbn. split.
    + intros [<-|[]]. now left.
    + intros [[_ ->]|(p & [] & _)]. now left.
  - assert (H : In (environment q) (Handlers.availableEnvironments (q :: properties))).
    { apply availableEnvironments_In. exists q. split; [now left|reflexivity]. }
    destruct (Handlers.availableEnvironments (q :: properties)) as [|e l] eqn:E;
      [destruct H|].
    cbn [length Nat.ltb Nat.leb]. rewrite <- E, availableEnvironments_In.
    split; [now right|]. intros [[X _]|X]; [discriminate|exact X].
Qed.

(** X17. Uploading a properties file adds, and only adds: for every key
    of the file's record and every current environment (the environments
    that occur, or [default] when there is no property at all) whose
    [id], environment [_] key, no property has yet, one property with the
    value the record holds for the key; a property that exists keeps its
    value whatever the file says. Without a service the import returns
    at once. With one, the list is the old one followed by the new
    properties, or unchanged when the store fails or nothing is new; and
    the store takes them, and the table is rewritten from the new list,
    whenever that list has no repeated [id]. *)
Theorem upload_adds_missing (now : Date) (filename component content : jsstring)
  (world : World) :
  Components.getComponentFromFilename filename = Components.Text component ->
  let properties := appProperties world in
  exists imported,
    Handlers.handlePropertiesFileUpload now filename content properties
    = Some imported
    /\ (forall a,
          In a imported
          <-> exists k v d env,
                In (k, (v, d))
                   (PropertiesRecords.parsePropertiesFileWithDescriptionsLegacy content)
                /\ ((properties = [] /\ env = js "default")
                    \/ exists p, In p properties /\ environment p = env)
                /\ fetch (env ++ js "_" ++ k) properties = None
                /\ a = mkProperty (env ++ js "_" ++ k) env k v
                         (Some (JS.orElse d (js "Imported from " ++ filename)))
                         component now None None None)
    /\ (service world = None ->
        Handlers.importPropertiesFile now filename content world
        = Some (Handlers.Settled world))
    /\ (service world <> None ->
        match Handlers.importPropertiesFile now filename content world with
        | Some (Handlers.Settled world') =>
            appProperties world' = properties ++ imported
            /\ (imported <> [] ->
                propertiesOf (service world')
                = map rowOfProperty (properties ++ imported))
        | Some (Handlers.Caught message _ world') =>
            message = js "Import failed: " /\ appProperties world' = properties
        | _ => False
        end)
    /\ (forall d,
          service world = Some d -> imported <> [] ->
          NoDup (map id (properties ++ imported)) ->
          Handlers.importPropertiesFile now filename content world
          = Some (Handlers.Settled
                    (mkWorld
                       (Some (mkDatabase (map rowOfProperty (properties ++ imported))
                                (audit_logs d) (imported_data d)))
                       (properties ++ imported) (appError world)
                       (pageError world)))).
Proof.
  intros Hname properties.
  unfold Handlers.importPropertiesFile, Handlers.handlePropertiesFileUpload.
  fold properties. rewrite Hname. eexists. split; [reflexivity|]. split.
  - intros a. rewrite in_flat_map. split.
    + intros ([k [v d]] & Hentry & H). apply in_flat_map in H.
      destruct H as (env & Henv & H). cbn [fst snd] in H.
      destruct (find _ properties) eqn:F; [destruct H|]. destruct H as [<-|[]].
      exists k, v, d, env. split; [exact (proj1 (entries_In _ _) Hentry)|].
      split; [exact (proj1 (currentEnvironments_In _ _) Henv)|].
      split; [exact F|reflexivity].
    + intros (k & v & d & env & Hentry & Henv & F & ->).
      exists (k, (v, d)). split; [exact (proj2 (entries_In _ _) Hentry)|].
      apply in_flat_map. exists env.
      split; [exact (proj2 (currentEnvironments_In _ _) Henv)|].
      cbn [fst snd]. unfold fetch in F. rewrite F. now left.
  - split; [intros ->; reflexivity|].
    match goal with
    | |- context [0 <? length ?l] => destruct l as [|a imported] eqn:E
    end.
    + split; [|intros d _ H; congruence].
      intros Hs. destruct (service world); [|congruence].
      cbn [length Nat.ltb Nat.leb]. split; [now rewrite app_nil_r|congruence].
    + split.
      * intros Hs. destruct (service world) as [d|] eqn:Es; [|congruence].
        cbn [length Nat.ltb Nat.leb].
        destruct (insertProperties _ (Some d)) as [u s|e s] eqn:Ei.
        -- cbn [Handlers.withProperties appProperties service].
           split; [reflexivity|]. intros _.
           now apply insertProperties_returned in Ei as [Ei _].
        -- now split.
      * intros d Hs _ N. rewrite Hs. cbn [length Nat.ltb Nat.leb].
        now rewrite (insertProperties_returns _ d N).
Qed.

Lemma upload_adds_missing_witness :
  exists imported,
    Handlers.handlePropertiesFileUpload Samples.noon (js "mail.properties")
      Samples.loadedText (appProperties Samples.world) = Some imported
    /\ map id imported = [js "prod_db.user"]
    /\ option_map
         (fun handled =>
            match handled with
            | Handlers.Settled world' =>
                map row_id (propertiesOf (service world'))
            | _ => []
            end)
         (Handlers.importPropertiesFile Samples.noon (js "mail.properties")
            Samples.loadedText Samples.world)
       = Some [js "prod_db.url"; js "prod_db.user"].
Proof.
  destruct (upload_adds_missing Samples.noon (js "mail.properties") (js "mail")
              Samples.loadedText Samples.world eq_refl)
    as (imported & E & _ & _ & _ & S).
  exists imported. split; [exact E|].
  vm_compute in E. injection E as <-. split; [reflexivity|].
  rewrite (S Samples.database eq_refl).
  - reflexivity.
  - discriminate.
  - repeat constructor; simpl; intuition discriminate.
Defined.

(** X18. Adding an environment for a component hands to the grid one
    pending property for every key the component has, each key once, in
    the new environment and the component, with the value and description
    of the source environment's property of that key when a source is
    named and has one, and empty otherwise; the saved list is not
    touched. For the component [all] nothing is added. *)
Theorem add_environment_keys (now : Date) (selectedComponent name : jsstring)
  (sourceEnvironment : option jsstring) (world : World) :
  match Handlers.handleAddEnvironment now selectedComponent name
          sourceEnvironment world with
  | Handlers.Refused _ world' => selectedComponent = js "all" /\ world' = world
  | Handlers.Pending added world' =>
      selectedComponent <> js "all" /\ world' = world
      /\ NoDup (map key added)
      /\ (forall k, In k (map key added)
                    <-> exists p, In p (appProperties world)
                                  /\ component p = selectedComponent /\ key p = k)
      /\ Forall
           (fun a =>
              id a = name ++ js "_" ++ key a /\ environment a = name
              /\ component a = selectedComponent
              /\ match
                   (if JS.truthy sourceEnvironment then
                      find (fun p =>
                              JS.eqb (key p) (key a)
                              && JS.eqb (environment p)
                                        (JS.orDefault sourceEnvironment [])
                              && JS.eqb (component p) selectedComponent)
                           (appProperties world)
                    else None)
                 with
                 | Some p =>
                     value a = value p
                     /\ description a = Some (JS.orDefault (description p) [])
                 | None => value a = [] /\ description a = Some []
                 end)
           added
  | _ => False
  end.
Proof.
  unfold Handlers.handleAddEnvironment.
  destruct (JS.eqb selectedComponent (js "all")) eqn:E.
  - apply eqb_eq in E. now split.
  - apply eqb_neq in E. split; [exact E|]. split; [reflexivity|].
    rewrite map_map. cbn [key]. rewrite map_id.
    split; [apply unique_NoDup|]. split.
    + intros k. rewrite unique_In, in_map_iff. split.
      * intros (p & Ek & Hp). apply filter_In in Hp as [Hp Ec].
        apply eqb_eq in Ec. eauto.
      * intros (p & Hp & Ec & Ek). exists p. split; [exact Ek|].
        apply filter_In. split; [exact Hp|]. rewrite Ec. apply eqb_refl.
    + apply Forall_map. apply Forall_forall. intros k _.
      cbn [id environment component key value description].
      repeat split.
      destruct (JS.truthy sourceEnvironment); [|now split].
      destruct (find _ (appProperties world)); now split.
Qed.


(** ** The store: what a save leaves behind *)

(** X19. A save of the whole list is not atomic. [insertProperties]
    returns exactly when the service is connected and no two properties
    share an [id]; the table then holds the rows of the list, in its
    order. Without connection it throws and changes nothing. With a
    repeated [id] it throws at the first property whose [id] was already
    written, and the table is left with the rows of the properties before
    that one only: the rows it held before the call are gone. The audit
    table is never touched. *)
Theorem insertProperties_outcome (props : list Property) (s : Service) :
  match insertProperties props s with
  | Returned _ s' =>
      s <> None /\ NoDup (map id props)
      /\ propertiesOf s' = map rowOfProperty props
      /\ auditLogsOf s' = auditLogsOf s
  | Threw e s' =>
      (s = None /\ e = NotInitialized /\ s' = None)
      \/ (s <> None /\ e = ConstraintViolation
          /\ exists before p after,
               props = before ++ p :: after
               /\ NoDup (map id before)
               /\ In (id p) (map id before)
               /\ propertiesOf s' = map rowOfProperty before
               /\ auditLogsOf s' = auditLogsOf s)
  end.
Proof.
  unfold insertProperties, bind at 1 2, connected at 1.
  destruct s as [d|]; [|left; repeat split].
  unfold deleteFromProperties, bind, connected.
  pose proof (insertEach_outcome props []
                (mkDatabase [] (audit_logs d) (imported_data d))
                eq_refl (NoDup_nil _)) as H.
  cbn [app audit_logs imported_data] in H.
  destruct (insertEach props _) as [u s'|e s'].
  - destruct H as [Hn ->]. repeat split; try assumption. discriminate.
  - destruct H as [-> [before [p [after [Hs [Hb [Hi ->]]]]]]].
    right. repeat split; [discriminate|].
    exists before, p, after. repeat split; assumption.
Qed.

(** ** The scanner *)

Lemma parseAt_fields (now : Date) (e : jsstring) (lines : list jsstring)
  (i : nat) (p : Property) :
  PropertiesParser.parseAt now e lines i = Some p ->
  id p = e ++ js "_" ++ key p /\ environment p = e
  /\ component p = js "env" /\ lastModified p = now.
Proof.
  unfold PropertiesParser.parseAt.
  destruct (JS.isEmpty _ || JS.startsWith _ _); [discriminate|].
  destruct (JS.search _ _); [|discriminate].
  intros H. injection H as <-. now cbn.
Qed.

Lemma parse_fields (now : Date) (content e : jsstring) (p : Property) :
  In p (PropertiesParser.parse now content e) ->
  id p = e ++ js "_" ++ key p /\ environment p = e
  /\ component p = js "env" /\ lastModified p = now.
Proof.
  unfold PropertiesParser.parse.
  generalize (seq 0 (length (JS.split JS.LF content))) as indices.
  induction indices as [|i rest IH]; cbn [PropertiesParser.parseEach].
  - intros [].
  - destruct (PropertiesParser.parseAt _ _ _ i) eqn:E; [|exact IH].
    intros [<-|Hin]; [now apply parseAt_fields in E|now apply IH].
Qed.

Lemma extractEnvironmentFromPath_names (path : jsstring) :
  In (PropertyScanner.extractEnvironmentFromPath path)
     [js "batch"; js "f4batch"; js "index"; js "webapp"; js "unknown"].
Proof.
  unfold PropertyScanner.extractEnvironmentFromPath.
  repeat match goal with
         | |- context [if ?b then _ else _] => destruct b
         end; cbn; tauto.
Qed.

(** X20. What a scan of a directory returns can be stored as it is: no
    two scanned properties share an [id], the [id] being the environment,
    [_] and the key. Every scanned property comes from a file whose name
    ends in [.properties], is in component [env], and is in one of the
    five environments the scanner reads from a path; of the properties
    with the same [id] the first one found, in the order of the files,
    is kept. *)
Theorem scanned_properties_distinct (now : Date)
  (files : list (jsstring * jsstring * jsstring)) :
  let found :=
    flat_map
      (fun file =>
         let '(name, path, content) := file in
         if JSArray.endsWithText (js ".properties") name
         then PropertiesParser.parse now content
                (PropertyScanner.extractEnvironmentFromPath (JS.orElse path name))
         else [])
      files in
  let scanned := PropertyScanner.scanFiles now files in
  NoDup (map id scanned)
  /\ Forall (fun p =>
               id p = environment p ++ js "_" ++ key p
               /\ component p = js "env"
               /\ In (environment p)
                     [js "batch"; js "f4batch"; js "index"; js "webapp";
                      js "unknown"]
               /\ exists name path content,
                    In (name, path, content) files
                    /\ JSArray.endsWithText (js ".properties") name = true
                    /\ In p (PropertiesParser.parse now content (environment p)))
            scanned
  /\ (forall i, fetch i scanned = fetch i found).
Proof.
  intros found scanned.
  assert (Hfound : forall p, In p found ->
            id p = environment p ++ js "_" ++ key p
            /\ component p = js "env"
            /\ In (environment p)
                  [js "batch"; js "f4batch"; js "index"; js "webapp";
                   js "unknown"]
            /\ exists name path content,
                 In (name, path, content) files
                 /\ JSArray.endsWithText (js ".properties") name = true
                 /\ In p (PropertiesParser.parse now content (environment p))).
  { intros p Hp. apply in_flat_map in Hp as [[[name path] content] [Hf Hp]].
    destruct (JSArray.endsWithText _ name) eqn:E; [|destruct Hp].
    pose proof (parse_fields _ _ _ _ Hp) as (Hi & He & Hc & _).
    repeat split; try assumption.
    - now rewrite He at 1.
    - rewrite He. apply extractEnvironmentFromPath_names.
    - exists name, path, content. rewrite He. now repeat split. }
  destruct (deduplicateFrom_spec [] found) as (Hn & Hin & Hfind).
  fold (PropertyScanner.deduplicateProperties found) in Hn, Hin, Hfind.
  change (PropertyScanner.deduplicateProperties found) with scanned
    in Hn, Hin, Hfind.
  assert (Hkeys : forall l, (forall p, In p l -> In p found) ->
            map id l = map App.mapKey l).
  { intros l Hl. apply map_ext_in. intros p Hp.
    now destruct (Hfound p (Hl p Hp)) as [-> _]. }
  split; [|split].
  - rewrite (Hkeys scanned); [assumption|]. intros p Hp. now apply Hin.
  - apply Forall_forall. intros p Hp. apply Hfound. now apply Hin.
  - intros i. unfold fetch.
    transitivity (find (fun p => JS.eqb (App.mapKey p) i) scanned).
    { apply find_ext_in. intros p Hp.
      now destruct (Hfound p (proj1 (Hin p Hp))) as [-> _]. }
    rewrite Hfind. cbn [existsb].
    apply find_ext_in. intros p Hp. now destruct (Hfound p Hp) as [-> _].
Qed.

(** ** Validation of a scanned folder *)

Lemma existsb_search (cls : N -> bool) (s : jsstring) :
  existsb cls s = true -> exists i, JS.search cls s = Some i.
Proof.
  induction s as [|c r IH]; simpl; [discriminate|].
  destruct (cls c); [eauto|]. intros H. destruct (IH H) as [i ->]. simpl. eauto.
Qed.

(** On such a line the count and the parser agree. *)
Lemma counted_iff_parsed (line : jsstring) :
  Folders.equalsSeparated line = true ->
  Folders.countedLine line
  = match parseKeyValue line with Some _ => true | None => false end.
Proof.
  unfold Folders.equalsSeparated, Folders.countedLine, parseKeyValue, isComment.
  destruct (JS.trim line) as [|c r] eqn:T; [reflexivity|].
  pose proof (trim_head _ _ _ T) as W.
  cbn [JS.isEmpty JS.startsWith negb andb].
  intros H. apply andb_prop in H as [H Hsep].
  apply andb_prop in H as [H Hcolon]. apply andb_prop in H as [Hbang Hequals].
  apply negb_true_iff in Hbang, Hequals, Hcolon.
  rewrite Hbang, orb_false_r.
  destruct (N.eqb c JS.HASH); [reflexivity|]. cbn [negb andb].
  destruct (existsb (N.eqb JS.EQUALS) (c :: r)) eqn:E.
  - assert (X : existsb isSeparator (c :: r) = true).
    { apply existsb_exists. apply existsb_exists in E as [x [Hin Hx]].
      exists x. split; [assumption|]. unfold isSeparator.
      rewrite N.eqb_sym in Hx. now rewrite Hx. }
    apply existsb_search in X as [i Hi]. rewrite Hi.
    destruct i as [|j].
    + cbn [JS.search] in Hi. unfold isSeparator in Hi.
      rewrite Hequals, Hcolon in Hi. cbn in Hi.
      destruct (JS.search _ r); discriminate.
    + unfold JS.substringTo. cbn [firstn].
      destruct (trim_cons_nonwhite c (firstn j r) W) as [r' ->]. reflexivity.
  - cbn [orb] in Hsep. apply negb_true_iff in Hsep.
    assert (X : JS.search isSeparator (c :: r) = None).
    { apply search_none. apply forallb_forall. intros x Hx.
      unfold isSeparator. apply negb_true_iff. apply orb_false_iff. split.
      - destruct (N.eqb x JS.EQUALS) eqn:Q; [|reflexivity].
        rewrite <- E. symmetry. apply existsb_exists. exists x.
        split; [assumption|]. now rewrite N.eqb_sym.
      - destruct (N.eqb x JS.COLON) eqn:Q; [|reflexivity].
        rewrite <- Hsep. symmetry. apply existsb_exists. exists x.
        split; [assumption|]. now rewrite N.eqb_sym. }
    now rewrite X.
Qed.

Lemma scan_length (prev : option jsstring) (n : nat) (lines : list jsstring) :
  length (scan prev n lines)
  = length (filter (fun line => match parseKeyValue line with
                                | Some _ => true
                                | None => false
                                end) lines).
Proof.
  revert prev n. induction lines as [|raw rest IH]; intros prev n;
    [reflexivity|].
  cbn [scan filter]. destruct (parseKeyValue raw) as [[k v]|]; cbn [length];
    now rewrite IH.
Qed.

Lemma countedLines_parsed (content : jsstring) :
  forallb Folders.equalsSeparated (JS.split JS.LF content) = true ->
  Folders.countedLines content
  = length (parsePropertiesFileWithDescriptions content).
Proof.
  intros H. unfold Folders.countedLines, parsePropertiesFileWithDescriptions.
  rewrite parseLines_scan, scan_length. f_equal.
  apply filter_ext_in. intros line Hin. apply counted_iff_parsed.
  rewrite forallb_forall in H. now apply H.
Qed.

Lemma fold_counted (files : list Folders.PropertiesFile) (total : nat) :
  fold_left (fun total file => total + Folders.countedLines (Folders.file_content file))
            files total
  = total + list_sum (map (fun f => Folders.countedLines (Folders.file_content f))
                          files).
Proof.
  revert total. induction files as [|f files IH]; intros total; simpl; [lia|].
  rewrite IH. lia.
Qed.

Lemma validateEach_closed (structures : list Folders.FolderStructure)
  (errs : list jsstring) (totalFiles totalProperties : nat) :
  Folders.validateEach structures errs totalFiles totalProperties
  = (errs ++ map Folders.noFilesError
               (filter (fun s => length (Folders.folder_files s) =? 0) structures),
     totalFiles
     + list_sum (map (fun s => length (Folders.folder_files s)) structures),
     totalProperties
     + list_sum
         (map (fun s =>
                 list_sum (map (fun f => Folders.countedLines (Folders.file_content f))
                               (Folders.folder_files s)))
              structures)).
Proof.
  revert errs totalFiles totalProperties.
  induction structures as [|s rest IH]; intros errs totalFiles totalProperties.
  - cbn. now rewrite app_nil_r, !Nat.add_0_r.
  - cbn [Folders.validateEach filter map list_sum fold_right].
    rewrite IH, fold_counted.
    destruct (length (Folders.folder_files s) =? 0); cbn [map];
      rewrite <- ?app_assoc; cbn [app];
      (f_equal; [f_equal|]; try reflexivity; unfold list_sum; lia).
Qed.

(** X21. The verdict of the folder validation. A scanned folder is valid
    exactly when it has an environment and every environment has a file.
    The errors are [No environment folders found] for no environment,
    and one message for every environment without files, in the order of
    the environments; the environments are listed as given and the files
    are counted over all of them. *)
Theorem validation_verdict (structures : list Folders.FolderStructure) :
  let report := Folders.validateFolderStructure structures in
  (Folders.isValid report = true
   <-> structures <> []
       /\ Forall (fun s => Folders.folder_files s <> []) structures)
  /\ Folders.errors report
     = (if length structures =? 0 then [js "No environment folders found"]
        else [])
       ++ map Folders.noFilesError
            (filter (fun s => length (Folders.folder_files s) =? 0) structures)
  /\ Folders.summary_environments report
     = map Folders.folder_environment structures
  /\ Folders.summary_totalFiles report
     = list_sum (map (fun s => length (Folders.folder_files s)) structures).
Proof.
  unfold Folders.validateFolderStructure. rewrite validateEach_closed.
  cbn [Folders.isValid Folders.errors Folders.summary_environments
       Folders.summary_totalFiles].
  split; [|repeat split].
  rewrite Nat.eqb_eq, length_zero_iff_nil. split.
  - intros H. apply app_eq_nil in H as [H0 H1].
    destruct structures as [|s rest]; [discriminate|].
    split; [discriminate|]. apply Forall_forall. intros x Hx Hnil.
    apply map_eq_nil in H1.
    assert (Hin : In x (filter (fun s => length (Folders.folder_files s) =? 0)
                               (s :: rest))).
    { apply filter_In. split; [assumption|]. now rewrite Hnil. }
    rewrite H1 in Hin. destruct Hin.
  - intros [Hne Hall]. destruct structures as [|s rest]; [congruence|].
    cbn [length Nat.eqb app].
    rewrite filter_none; [reflexivity|].
    intros x Hx. rewrite Forall_forall in Hall. specialize (Hall x Hx).
    apply Nat.eqb_neq. now rewrite length_zero_iff_nil.
Qed.

(** X22. The validation counts what the load reads, for files that
    separate keys and values by [=]. When every file name yields a
    component, and no line starts with [!], [=] or [:] or has a [:]
    without a [=], the number of properties the validation reports is the
    number of properties [convertToProperties] returns. *)
Theorem validation_counts_loaded (now : Date)
  (structures : list Folders.FolderStructure) :
  Forall (fun s => forallb Folders.plainName (Folders.folder_files s) = true)
         structures ->
  Forall (fun s =>
            Forall (fun f => forallb Folders.equalsSeparated
                               (JS.split JS.LF (Folders.file_content f)) = true)
                   (Folders.folder_files s))
         structures ->
  exists props,
    Folders.convertToProperties now structures = Some props
    /\ Folders.summary_totalProperties (Folders.validateFolderStructure structures)
       = length props.
Proof.
  intros Hnames Hlines.
  unfold Folders.convertToProperties, Folders.sortedStructures.
  set (sorted := JSArray.sortBy _ structures).
  assert (Perm : Permutation sorted structures) by apply sortBy_perm.
  assert (Hsorted : Forall (fun s => forallb Folders.plainName (Folders.sortedFiles s)
                                     = true) sorted).
  { apply Forall_forall. intros s Hs.
    apply (Permutation_in _ Perm) in Hs.
    rewrite Forall_forall in Hnames. specialize (Hnames s Hs).
    rewrite forallb_forall in *. intros f Hf. apply Hnames.
    eapply Permutation_in; [apply sortBy_perm|exact Hf]. }
  destruct (convert_structures now sorted Hsorted) as (props & E & L & _).
  exists props. split; [exact E|].
  unfold Folders.validateFolderStructure. rewrite validateEach_closed.
  cbn [Folders.summary_totalProperties]. rewrite L, Nat.add_0_l.
  etransitivity; [|symmetry; apply list_sum_perm, Permutation_map; exact Perm].
  f_equal. apply map_ext_in. intros s Hs.
  etransitivity;
    [|symmetry; apply list_sum_perm, Permutation_map, sortBy_perm].
  f_equal. apply map_ext_in. intros f Hf. apply countedLines_parsed.
  rewrite Forall_forall in Hlines. specialize (Hlines s Hs).
  rewrite Forall_forall in Hlines. now apply Hlines.
Qed.

Lemma validation_counts_loaded_witness :
  exists props,
    Folders.convertToProperties Samples.noon Examples.staging = Some props
    /\ Folders.summary_totalProperties
         (Folders.validateFolderStructure Examples.staging)
       = length props.
Proof.
  apply (validation_counts_loaded Samples.noon Examples.staging).
  - repeat constructor.
  - repeat constructor.
Defined.

(** ** The scan of a selected folder *)

Lemma numbered_from (k : Z) (n : nat) :
  map (fun i => (k + 1 + Z.of_nat i)%Z) (seq 0 n)
  = map (fun i => (k + Z.of_nat i)%Z) (seq 1 n).
Proof.
  rewrite <- seq_shift, map_map. apply map_ext. intros i. lia.
Qed.

Lemma numbered_NoDup (k : Z) (a n : nat) :
  NoDup (map (fun i => (k + Z.of_nat i)%Z) (seq a n)).
Proof.
  revert a. induction n as [|n IH]; intros a; cbn [seq map]; constructor.
  - intros Hin. apply in_map_iff in Hin as [i [E Hi]].
    apply in_seq in Hi. lia.
  - apply IH.
Qed.

Lemma numbered_sorted {A} (number : A -> Z) (k : Z) (l : list A) (a : nat) :
  map number l = map (fun i => (k + Z.of_nat i)%Z) (seq a (length l)) ->
  StronglySorted (fun x y => (number x < number y)%Z) l.
Proof.
  revert a. induction l as [|x l IH]; intros a; [constructor|].
  cbn [length seq map]. intros H. injection H as Hx Hl. constructor.
  - now apply (IH (S a)).
  - apply Forall_forall. intros y Hy.
    assert (Hin : In (number y) (map number l)) by now apply in_map.
    rewrite Hl in Hin. apply in_map_iff in Hin as [i [E Hi]].
    apply in_seq in Hi. lia.
Qed.

Section ScanProofs.

Variable localeCompare : jsstring -> jsstring -> Z.

Lemma scanFileEntries_spec (env : jsstring)
  (l : list (jsstring * Folders.FileEntry)) (k : Z) :
  let files := Folders.scanFileEntries env l k in
  map Folders.file_fileOrder files
  = map (fun i => (k + Z.of_nat i)%Z) (seq 0 (length files))
  /\ Forall (fun f =>
               JSArray.endsWithText (js ".properties") (Folders.file_name f) = true
               /\ Folders.file_path f = env ++ js "/" ++ Folders.file_name f
               /\ In (Folders.file_name f, Folders.Readable (Folders.file_content f)) l)
            files
  /\ (forall fileName content,
        In (fileName, Folders.Readable content) l ->
        JSArray.endsWithText (js ".properties") fileName = true ->
        exists f, In f files /\ Folders.file_name f = fileName
                  /\ Folders.file_content f = content).
Proof.
  revert k. induction l as [|[fileName entry] rest IH]; intros k.
  - cbn. repeat split; [constructor|]. intros ? ? [].
  - cbn [Folders.scanFileEntries].
    assert (Skip : let files := Folders.scanFileEntries env rest k in
              (entry = Folders.Unreadable \/ entry = Folders.Subdirectory
               \/ JSArray.endsWithText (js ".properties") fileName = false) ->
              map Folders.file_fileOrder files
              = map (fun i => (k + Z.of_nat i)%Z) (seq 0 (length files))
              /\ Forall (fun f =>
                   JSArray.endsWithText (js ".properties") (Folders.file_name f) = true
                   /\ Folders.file_path f = env ++ js "/" ++ Folders.file_name f
                   /\ In (Folders.file_name f, Folders.Readable (Folders.file_content f))
                         ((fileName, entry) :: rest))
                 files
              /\ (forall name content,
                    In (name, Folders.Readable content) ((fileName, entry) :: rest) ->
                    JSArray.endsWithText (js ".properties") name = true ->
                    exists f, In f files /\ Folders.file_name f = name
                              /\ Folders.file_content f = content)).
    { intros files Hskip. destruct (IH k) as (N & F & C). split; [exact N|].
      split.
      - eapply Forall_impl; [|exact F]. cbn beta.
        intros f (E & P & Hin). repeat split; try assumption. now right.
      - intros name content [Heq|Hin] Hends; [|now apply C].
        injection Heq as -> ->.
        destruct Hskip as [?|[?|?]]; congruence. }
    destruct entry as [content| |]; [|apply Skip; auto|apply Skip; auto].
    destruct (JSArray.endsWithText (js ".properties") fileName) eqn:E;
      [|apply Skip; auto].
    destruct (IH (k + 1)%Z) as (N & F & C).
    cbn [map length seq Folders.file_fileOrder]. split; [|split].
    + f_equal; [lia|]. rewrite N. apply numbered_from.
    + constructor.
      * cbn. repeat split; [assumption|now left].
      * eapply Forall_impl; [|exact F]. cbn beta.
        intros f (E' & P & Hin). repeat split; try assumption. now right.
    + intros name content' [Heq|Hin] Hends.
      * injection Heq as -> ->. eexists. split; [now left|]. now split.
      * destruct (C name content' Hin Hends) as (f & Hf & Hn & Hc).
        exists f. split; [now right|]. now split.
Qed.

Lemma scanEntries_spec (entries : list (jsstring * Folders.FolderEntry)) (k : Z) :
  let structures := Folders.scanEntries localeCompare entries k in
  map Folders.folder_environmentOrder structures
  = map (fun i => (k + Z.of_nat i)%Z) (seq 0 (length structures))
  /\ Forall (fun s =>
               Folders.folder_files s <> []
               /\ exists listing,
                    In (Folders.folder_environment s,
                        Folders.Directory (Some listing)) entries
                    /\ Folders.folder_files s
                       = Folders.scanFileEntries (Folders.folder_environment s)
                           (JSArray.sortBy
                              (fun a b => localeCompare (fst a) (fst b)) listing) 0)
            structures
  /\ (forall name listing,
        In (name, Folders.Directory (Some listing)) entries ->
        Folders.scanFileEntries name
          (JSArray.sortBy (fun a b => localeCompare (fst a) (fst b)) listing) 0
        <> [] ->
        exists s, In s structures /\ Folders.folder_environment s = name
                  /\ Folders.folder_files s
                     = Folders.scanFileEntries name
                         (JSArray.sortBy
                            (fun a b => localeCompare (fst a) (fst b)) listing) 0).
Proof.
  revert k. induction entries as [|[name entry] rest IH]; intros k.
  - cbn. repeat split; [constructor|]. intros ? ? [].
  - cbn [Folders.scanEntries].
    assert (Skip : let structures := Folders.scanEntries localeCompare rest k in
              (forall listing, entry = Folders.Directory (Some listing) ->
                 Folders.scanFileEntries name
                   (JSArray.sortBy (fun a b => localeCompare (fst a) (fst b))
                                   listing) 0 = []) ->
              map Folders.folder_environmentOrder structures
              = map (fun i => (k + Z.of_nat i)%Z) (seq 0 (length structures))
              /\ Forall (fun s =>
                   Folders.folder_files s <> []
                   /\ exists listing,
                        In (Folders.folder_environment s,
                            Folders.Directory (Some listing))
                           ((name, entry) :: rest)
                        /\ Folders.folder_files s
                           = Folders.scanFileEntries (Folders.folder_environment s)
                               (JSArray.sortBy
                                  (fun a b => localeCompare (fst a) (fst b))
                                  listing) 0)
                 structures
              /\ (forall name' listing,
                    In (name', Folders.Directory (Some listing))
                       ((name, entry) :: rest) ->
                    Folders.scanFileEntries name'
                      (JSArray.sortBy (fun a b => localeCompare (fst a) (fst b))
                                      listing) 0 <> [] ->
                    exists s, In s structures
                              /\ Folders.folder_environment s = name'
                              /\ Folders.folder_files s
                                 = Folders.scanFileEntries name'
                                     (JSArray.sortBy
                                        (fun a b => localeCompare (fst a) (fst b))
                                        listing) 0)).
    { intros structures Hskip. destruct (IH k) as (N & F & C).
      split; [exact N|]. split.
      - eapply Forall_impl; [|exact F]. cbn beta.
        intros s (Hne & listing & Hin & E). split; [exact Hne|].
        exists listing. split; [now right|exact E].
      - intros name' listing [Heq|Hin] Hne; [|now apply C].
        injection Heq as -> ->. now rewrite (Hskip listing eq_refl) in Hne. }
    destruct entry as [|[listing|]];
      [apply Skip; discriminate| |apply Skip; discriminate].
    destruct (Folders.scanFileEntries name _ 0) as [|f files] eqn:E.
    { cbn [length Nat.ltb Nat.leb]. apply Skip.
      intros listing' Heq. injection Heq as <-. exact E. }
    cbn [length Nat.ltb Nat.leb].
    destruct (IH (k + 1)%Z) as (N & F & C).
    cbn [map length seq Folders.folder_environmentOrder]. split; [|split].
    + f_equal; [lia|]. rewrite N. apply numbered_from.
    + constructor.
      * cbn. split; [discriminate|]. exists listing.
        split; [now left|]. now rewrite E.
      * eapply Forall_impl; [|exact F]. cbn beta.
        intros s (Hne & listing' & Hin & E'). split; [exact Hne|].
        exists listing'. split; [now right|exact E'].
    + intros name' listing' [Heq|Hin] Hne.
      * injection Heq as -> ->. eexists. split; [now left|].
        cbn. split; [reflexivity|]. now rewrite E.
      * destruct (C name' listing' Hin Hne) as (s & Hs & Hn & Hf).
        exists s. split; [now right|]. now split.
Qed.

End ScanProofs.

(** X23. What the folder scan returns is numbered and never empty-handed.
    The environments are numbered 0, 1, 2, ... in the order of the
    result, and so are the files of each environment; every environment
    has at least one file, every file's name ends in [.properties] and its
    path is the environment, [/] and the name, and every such file that
    could be read is there with its text. So the validation of a scanned
    folder can only fail for want of any environment. *)
Theorem scanned_folder_numbered (localeCompare : jsstring -> jsstring -> Z)
  (entries : list (jsstring * Folders.FolderEntry)) :
  let structures := Folders.scanFolderStructure localeCompare entries in
  map Folders.folder_environmentOrder structures
  = map Z.of_nat (seq 0 (length structures))
  /\ Forall (fun s =>
               Folders.folder_files s <> []
               /\ map Folders.file_fileOrder (Folders.folder_files s)
                  = map Z.of_nat (seq 0 (length (Folders.folder_files s)))
               /\ exists listing,
                    In (Folders.folder_environment s,
                        Folders.Directory (Some listing)) entries
                    /\ Forall (fun f =>
                                 JSArray.endsWithText (js ".properties")
                                   (Folders.file_name f) = true
                                 /\ Folders.file_path f
                                    = Folders.folder_environment s ++ js "/"
                                      ++ Folders.file_name f
                                 /\ In (Folders.file_name f,
                                        Folders.Readable (Folders.file_content f))
                                       listing)
                              (Folders.folder_files s))
            structures
  /\ (forall name listing fileName content,
        In (name, Folders.Directory (Some listing)) entries ->
        In (fileName, Folders.Readable content) listing ->
        JSArray.endsWithText (js ".properties") fileName = true ->
        exists s f,
          In s structures /\ Folders.folder_environment s = name
          /\ In f (Folders.folder_files s) /\ Folders.file_name f = fileName
          /\ Folders.file_content f = content)
  /\ Folders.isValid (Folders.validateFolderStructure structures)
     = negb (length structures =? 0).
Proof.
  intros structures. unfold Folders.scanFolderStructure in structures.
  set (sorted := JSArray.sortBy (fun a b => localeCompare (fst a) (fst b)) entries)
    in structures.
  assert (Perm : Permutation sorted entries) by apply sortBy_perm.
  destruct (scanEntries_spec localeCompare sorted 0) as (N & F & C).
  fold structures in N, F, C.
  assert (Files : Forall (fun s => Folders.folder_files s <> []) structures).
  { eapply Forall_impl; [|exact F]. now intros s [Hne _]. }
  split; [|split; [|split]].
  - rewrite N. apply map_ext. intros i. lia.
  - eapply Forall_impl; [|exact F]. cbn beta.
    intros s (Hne & listing & Hin & E). split; [exact Hne|].
    destruct (scanFileEntries_spec (Folders.folder_environment s)
                (JSArray.sortBy (fun a b => localeCompare (fst a) (fst b)) listing)
                0) as (Nf & Ff & _).
    rewrite <- E in Nf, Ff. split.
    + rewrite Nf. apply map_ext. intros i. lia.
    + exists listing. split; [eapply Permutation_in; eassumption|].
      eapply Forall_impl; [|exact Ff]. cbn beta.
      intros f (E1 & E2 & Hf). repeat split; try assumption.
      eapply Permutation_in; [apply sortBy_perm|exact Hf].
  - intros name listing fileName content Hdir Hfile Hends.
    destruct (scanFileEntries_spec name
                (JSArray.sortBy (fun a b => localeCompare (fst a) (fst b)) listing)
                0) as (_ & _ & Cf).
    destruct (Cf fileName content) as (f & Hf & Hn & Hc);
      [eapply Permutation_in; [symmetry; apply sortBy_perm|exact Hfile]
      |exact Hends|].
    destruct (C name listing) as (s & Hs & Hname & Hfiles).
    + eapply Permutation_in; [symmetry; exact Perm|exact Hdir].
    + intros Hnil. rewrite Hnil in Hf. destruct Hf.
    + exists s, f. rewrite Hfiles. now repeat split.
  - unfold Folders.validateFolderStructure. rewrite validateEach_closed.
    cbn [Folders.isValid].
    rewrite filter_none.
    + cbn [map]. rewrite app_nil_r.
      now destruct (length structures =? 0).
    + intros s Hs. rewrite Forall_forall in Files. specialize (Files s Hs).
      apply Nat.eqb_neq. now rewrite length_zero_iff_nil.
Qed.

Lemma sortBy_in_order {A} (compare : A -> A -> Z) (l : list A) :
  StronglySorted (fun a b => (compare a b <= 0)%Z) l ->
  JSArray.sortBy compare l = l.
Proof.
  induction 1 as [|x r S IH H]; [reflexivity|].
  cbn [JSArray.sortBy fold_right]. fold (JSArray.sortBy compare r). rewrite IH.
  destruct r as [|y r']; [reflexivity|]. cbn [JSArray.insertBy].
  inversion H as [|? ? Hxy _]; subst.
  now rewrite (proj2 (Z.leb_le _ _) Hxy).
Qed.

(** X24. A folder picked for initialisation is loaded in the order of the
    scan. When every scanned file name yields a component,
    [initializeFromFolder] returns the properties of the scanned
    environments and files in the order in which the scan lists them, one
    per parsed entry, and in strictly ascending order of (environment,
    file, line): no two loaded properties share a place. *)
Theorem folder_loads_in_scan_order (localeCompare : jsstring -> jsstring -> Z)
  (now : Date) (entries : list (jsstring * Folders.FolderEntry)) :
  let structures := Folders.scanFolderStructure localeCompare entries in
  Forall (fun s => forallb Folders.plainName (Folders.folder_files s) = true)
         structures ->
  exists props,
    Folders.initializeFromFolder localeCompare now entries = Some props
    /\ Folders.gather
         (map (fun s => Folders.gather
                          (map (Folders.convertOne now s) (Folders.folder_files s)))
              structures) = Some props
    /\ length props
       = list_sum
           (map (fun s =>
                   list_sum
                     (map (fun f => length (parsePropertiesFileWithDescriptions
                                              (Folders.file_content f)))
                          (Folders.folder_files s)))
                structures)
    /\ StronglySorted Folders.placedBefore props.
Proof.
  intros structures Hnames.
  destruct (scanEntries_spec localeCompare
              (JSArray.sortBy (fun a b => localeCompare (fst a) (fst b)) entries) 0)
    as (N & F & _).
  fold (Folders.scanFolderStructure localeCompare entries) in N, F.
  fold structures in N, F.
  assert (Senv : StronglySorted
                   (fun a b => (Folders.folder_environmentOrder a
                                < Folders.folder_environmentOrder b)%Z) structures).
  { eapply numbered_sorted. exact N. }
  assert (Sfiles : Forall (fun s =>
                     StronglySorted
                       (fun a b => (Folders.file_fileOrder a
                                    < Folders.file_fileOrder b)%Z)
                       (Folders.folder_files s)) structures).
  { eapply Forall_impl; [|exact F]. cbn beta.
    intros s (_ & listing & _ & E).
    destruct (scanFileEntries_spec (Folders.folder_environment s)
                (JSArray.sortBy (fun a b => localeCompare (fst a) (fst b)) listing)
                0) as (Nf & _).
    rewrite <- E in Nf. eapply numbered_sorted. exact Nf. }
  assert (Same : forall s, In s structures -> Folders.sortedFiles s = Folders.folder_files s).
  { intros s Hs. rewrite Forall_forall in Sfiles. specialize (Sfiles s Hs).
    unfold Folders.sortedFiles. apply sortBy_in_order.
    eapply StronglySorted_ind with
      (P := fun l => StronglySorted
               (fun a b => (Folders.file_fileOrder a - Folders.file_fileOrder b <= 0)%Z) l);
      [constructor| |exact Sfiles].
    intros a l _ IH Ha. constructor; [exact IH|].
    eapply Forall_impl; [|exact Ha]. cbn beta. intros; lia. }
  assert (SameEnv : Folders.sortedStructures structures = structures).
  { unfold Folders.sortedStructures. apply sortBy_in_order.
    eapply StronglySorted_ind with
      (P := fun l => StronglySorted
               (fun a b => (Folders.folder_environmentOrder a
                            - Folders.folder_environmentOrder b <= 0)%Z) l);
      [constructor| |exact Senv].
    intros a l _ IH Ha. constructor; [exact IH|].
    eapply Forall_impl; [|exact Ha]. cbn beta. intros; lia. }
  assert (Hsorted : Forall (fun s => forallb Folders.plainName (Folders.sortedFiles s)
                                     = true) structures).
  { apply Forall_forall. intros s Hs. rewrite (Same s Hs).
    rewrite Forall_forall in Hnames. now apply Hnames. }
  destruct (convert_structures now structures Hsorted) as (props & E & L & _ & S).
  assert (Eq : map (fun s => Folders.gather
                      (map (Folders.convertOne now s) (Folders.sortedFiles s)))
                   structures
               = map (fun s => Folders.gather
                      (map (Folders.convertOne now s) (Folders.folder_files s)))
                     structures).
  { apply map_ext_in. intros s Hs. now rewrite (Same s Hs). }
  exists props. split; [|split; [|split]].
  - unfold Folders.initializeFromFolder, Folders.convertToProperties.
    fold structures. rewrite SameEnv. exact E.
  - rewrite <- Eq. exact E.
  - rewrite L. f_equal. apply map_ext_in. intros s Hs. now rewrite (Same s Hs).
  - apply S; [exact Senv|].
    eapply Forall_impl; [|exact F]. cbn beta.
    intros s (_ & listing & _ & Ef).
    destruct (scanFileEntries_spec (Folders.folder_environment s)
                (JSArray.sortBy (fun a b => localeCompare (fst a) (fst b)) listing)
                0) as (Nf & _).
    rewrite <- Ef in Nf. rewrite Nf. apply numbered_NoDup.
Qed.

Lemma folder_loads_in_scan_order_witness :
  exists props,
    Folders.initializeFromFolder Samples.ordinalCompare Samples.noon
      Examples.selected = Some props
    /\ map Folders.placeOf props
       = [(0, 0, 0); (0, 0, 1); (1, 0, 0); (1, 0, 1); (1, 1, 0)]%Z
    /\ StronglySorted Folders.placedBefore props.
Proof.
  destruct (folder_loads_in_scan_order Samples.ordinalCompare Samples.noon
              Examples.selected) as (props & E & _ & _ & S).
  - repeat constructor.
  - exists props. split; [exact E|]. split; [|exact S].
    vm_compute in E. injection E as <-. reflexivity.
Defined.

(** ** Initialising the store from a folder *)

Lemma gather_Forall {A} (P : A -> Prop) (parts : list (option (list A)))
  (l : list A) :
  Forall (fun part => match part with
                      | Some block => Forall P block
                      | None => True
                      end) parts ->
  Folders.gather parts = Some l -> Forall P l.
Proof.
  revert l. induction parts as [|[block|] parts IH]; intros l H E.
  - injection E as <-. constructor.
  - cbn [Folders.gather] in E. inversion H as [|? ? Hb Hr]; subst.
    destruct (Folders.gather parts) as [r|]; [|discriminate].
    injection E as <-. apply Forall_app. split; [exact Hb|now apply IH].
  - discriminate.
Qed.

Lemma convertFrom_ids (i : nat) (now : Date) (env : jsstring) (envOrder : Z)
  (component path : jsstring) (fOrder : Z) (parsed : list ParsedProperty) :
  Forall (fun p => id p = environment p ++ js "_" ++ key p)
         (FolderInitializationService.convertFrom i now env envOrder component
            path fOrder parsed).
Proof.
  revert i. induction parsed as [|e rest IH]; intros i; cbn; constructor;
    [reflexivity|apply IH].
Qed.

Lemma convertToProperties_ids (now : Date)
  (structures : list Folders.FolderStructure) (props : list Property) :
  Folders.convertToProperties now structures = Some props ->
  Forall (fun p => id p = environment p ++ js "_" ++ key p) props.
Proof.
  unfold Folders.convertToProperties. apply gather_Forall.
  apply Forall_forall. intros part Hpart.
  apply in_map_iff in Hpart as [s [<- _]].
  destruct (Folders.gather _) as [block|] eqn:E; [|exact I].
  revert E. apply gather_Forall.
  apply Forall_forall. intros part Hpart.
  apply in_map_iff in Hpart as [f [<- _]].
  unfold Folders.convertOne.
  destruct (Components.getComponentFromFilename _); [|exact I].
  apply convertFrom_ids.
Qed.

(** X25. Initialising from a folder replaces the store, and fails on two
    properties with the same [id]. Every loaded property has the [id]
    environment [_] key, whatever its file, so a key held by two files of
    one environment is a repeated [id]. Without a service the handler
    returns at once. With one, for a folder whose properties are loaded,
    the handler shows [No properties found in the selected folder] and
    touches nothing when there is none; otherwise it rewrites the table:
    on a repeated [id] it shows its failure, the [properties] state
    stays, and the table is left with the properties loaded before the
    repeat only; without a repeat the table and the state hold the loaded
    properties. The audit table is as before throughout. *)
Theorem folder_initialization_outcome
  (localeCompare : jsstring -> jsstring -> Z) (now : Date)
  (entries : list (jsstring * Folders.FolderEntry)) (world : World)
  (props : list Property) :
  Folders.initializeFromFolder localeCompare now entries = Some props ->
  Forall (fun p => id p = environment p ++ js "_" ++ key p) props
  /\ (service world = None ->
      Handlers.handleFolderInitialization localeCompare now entries world
      = Some (Handlers.Settled world))
  /\ (service world <> None ->
      match Handlers.handleFolderInitialization localeCompare now entries world with
      | Some (Handlers.Refused message world') =>
          props = [] /\ world' = world
          /\ message = js "No properties found in the selected folder"
      | Some (Handlers.Settled world') =>
          props <> [] /\ NoDup (map id props)
          /\ appProperties world' = props
          /\ propertiesOf (service world') = map rowOfProperty props
          /\ auditLogsOf (service world') = auditLogsOf (service world)
      | Some (Handlers.Caught message e world') =>
          props <> []
          /\ message = js "Folder initialization failed: "
          /\ appProperties world' = appProperties world
          /\ auditLogsOf (service world') = auditLogsOf (service world)
          /\ e = ConstraintViolation
          /\ exists before p after,
               props = before ++ p :: after
               /\ NoDup (map id before)
               /\ In (id p) (map id before)
               /\ propertiesOf (service world') = map rowOfProperty before
      | _ => False
      end).
Proof.
  intros E. split.
  { unfold Folders.initializeFromFolder in E.
    now apply convertToProperties_ids in E. }
  unfold Handlers.handleFolderInitialization. rewrite E.
  split; [intros ->; reflexivity|].
  intros Hs. destruct (service world) as [d|] eqn:Es; [clear Hs|congruence].
  destruct props as [|p0 rest]; [now repeat split|].
  cbn [length Nat.eqb].
  set (props := p0 :: rest).
  unfold insertProperties, bind at 1 2, connected at 1.
  unfold deleteFromProperties, bind, connected.
  pose proof (insertEach_outcome props []
                (mkDatabase [] (audit_logs d) (imported_data d))
                eq_refl (NoDup_nil _)) as H.
  cbn [app audit_logs imported_data] in H.
  destruct (insertEach props _) as [u s'|e s'].
  - destruct H as [Hn ->]. cbn. repeat split; try discriminate. exact Hn.
  - destruct H as [-> [before [p [after [Hb [Hn [Hi ->]]]]]]].
    cbn. repeat split; try discriminate.
    exists before, p, after. repeat split; assumption.
Qed.

Lemma folder_initialization_outcome_witness :
  exists props e world',
    Folders.initializeFromFolder Samples.ordinalCompare Samples.noon
      Examples.clashing = Some props
    /\ map id props = [js "prod_timeout"; js "prod_smtp.host"; js "prod_timeout"]
    /\ Handlers.handleFolderInitialization Samples.ordinalCompare Samples.noon
         Examples.clashing Samples.world
       = Some (Handlers.Caught (js "Folder initialization failed: ") e world')
    /\ e = ConstraintViolation
    /\ map row_id (propertiesOf (service world'))
       = [js "prod_timeout"; js "prod_smtp.host"].
Proof.
  destruct (Folders.initializeFromFolder Samples.ordinalCompare Samples.noon
              Examples.clashing) as [props|] eqn:E; [|vm_compute in E; discriminate].
  pose proof (folder_initialization_outcome Samples.ordinalCompare Samples.noon
                Examples.clashing Samples.world props E) as (_ & _ & H).
  specialize (H ltac:(discriminate)).
  destruct (Handlers.handleFolderInitialization Samples.ordinalCompare
              Samples.noon Examples.clashing Samples.world)
    as [[world'|m e world'|added world'|m world']|] eqn:Eh;
    try (vm_compute in Eh; discriminate); try contradiction.
  destruct H as (_ & -> & _ & _ & He & _).
  exists props, e, world'. split; [reflexivity|].
  vm_compute in E. injection E as <-.
  split; [reflexivity|]. split; [reflexivity|]. split; [exact He|].
  vm_compute in Eh. injection Eh as <- <-. reflexivity.
Defined.

(** ** The files of a deployment *)

Lemma fileName_cases (c : jsstring) :
  (exists base,
     Components.getComponentFileName c = Components.Text (base ++ js ".properties")
     /\ In (c, base)
           [(js "env", js "env"); (js "app", js "app-properties");
            (js "mail", js "mail"); (js "mylist-app", js "mylist-app");
            (js "mylist-env", js "mylist-env"); (js "url", js "url");
            (js "f4batch", js "f4batch"); (js "fax", js "fax-properties");
            (js "gsearch", js "gsearch");
            (js "monitoring-env", js "monitoring-env")])
  \/ (~ In c Components.knownComponents
      /\ if JSObject.inherited c
         then Components.getComponentFileName c = Components.Builtin c
         else Components.getComponentFileName c
              = Components.Text (c ++ js ".properties")).
Proof.
  unfold Components.getComponentFileName, Components.lookupOr, JSObject.get,
    JSObject.own, Components.fileMap.
  cbn [find fst snd option_map].
  repeat match goal with
         | |- context [if JS.eqb ?a c then _ else _] =>
             let E := fresh "E" in
             destruct (JS.eqb a c) eqn:E;
             [apply eqb_eq in E; subst c; left; cbn [option_map snd];
              match goal with
              | |- exists base, Components.Text ?t = _ /\ _ =>
                  let t' := eval vm_compute in t in
                  exists (firstn (length t' - 11) t'); split;
                  [vm_compute; reflexivity|vm_compute; tauto]
              end
             |apply eqb_neq in E]
         end.
  right. split.
  - intros H. vm_compute in H.
    repeat (destruct H as [H|H];
            [subst c; match goal with E : _ <> _ |- _ => exact (E eq_refl) end|]).
    destruct H.
  - cbn [option_map]. now destruct (JSObject.inherited c).
Qed.

(** X26. Two components share a file name in two cases only. The file
    names of different components differ, except that [app] and
    [app-properties] are both written to [app-properties.properties], and
    [fax] and [fax-properties] both to [fax-properties.properties]. *)
Theorem component_file_names_shared (c1 c2 : jsstring) :
  (c1 <> c2
   /\ exists f, Components.getComponentFileName c1 = Components.Text f
                /\ Components.getComponentFileName c2 = Components.Text f)
  <-> (c1 = js "app" /\ c2 = js "app-properties")
      \/ (c1 = js "app-properties" /\ c2 = js "app")
      \/ (c1 = js "fax" /\ c2 = js "fax-properties")
      \/ (c1 = js "fax-properties" /\ c2 = js "fax").
Proof.
  split.
  - intros (Hne & f & H1 & H2).
    destruct (fileName_cases c1) as [(b1 & E1 & T1)|(U1 & E1)];
      destruct (fileName_cases c2) as [(b2 & E2 & T2)|(U2 & E2)].
    + rewrite E1 in H1. rewrite E2 in H2. injection H1 as <-. injection H2 as H2.
      apply app_inv_tail in H2. subst b2.
      vm_compute in T1, T2.
      repeat (destruct T1 as [T1|T1]; [injection T1 as <- <-|]);
        try contradiction;
        repeat (destruct T2 as [T2|T2];
                [try discriminate T2; injection T2 as <-|]);
        try contradiction; exfalso; apply Hne; reflexivity.
    + destruct (JSObject.inherited c2); [congruence|].
      rewrite E1 in H1. rewrite E2 in H2. injection H1 as <-. injection H2 as H2.
      apply app_inv_tail in H2. subst c2.
      vm_compute in T1.
      repeat (destruct T1 as [T1|T1]; [injection T1 as <- <-|]);
        try contradiction;
        try (exfalso; apply U2; vm_compute; tauto);
        vm_compute; tauto.
    + destruct (JSObject.inherited c1); [congruence|].
      rewrite E1 in H1. rewrite E2 in H2. injection H2 as <-. injection H1 as H1.
      apply app_inv_tail in H1. subst c1.
      vm_compute in T2.
      repeat (destruct T2 as [T2|T2]; [injection T2 as <- <-|]);
        try contradiction;
        try (exfalso; apply U1; vm_compute; tauto);
        vm_compute; tauto.
    + destruct (JSObject.inherited c1); [congruence|].
      destruct (JSObject.inherited c2); [congruence|].
      rewrite E1 in H1. rewrite E2 in H2. injection H1 as <-. injection H2 as H2.
      apply app_inv_tail in H2. congruence.
  - intros [[-> ->]|[[-> ->]|[[-> ->]|[-> ->]]]];
      (split; [discriminate|eexists; split; vm_compute; reflexivity]).
Qed.

Lemma filter_twice {A} (f g : A -> bool) (l : list A) :
  filter g (filter f l) = filter (fun x => f x && g x) l.
Proof.
  induction l as [|x l IH]; simpl; [reflexivity|].
  destruct (f x); simpl; [destruct (g x)|]; now rewrite IH.
Qed.

Lemma paired_NoDup {A B} (a : A) (l : list B) :
  NoDup l -> NoDup (map (fun b => (a, b)) l).
Proof.
  induction 1 as [|b l Hb N IH]; cbn [map]; constructor; [|exact IH].
  intros Hin. apply in_map_iff in Hin as [b' [Heq Hin]].
  injection Heq as ->. contradiction.
Qed.

Section ArchiveProofs.

Variable localeCompare : jsstring -> jsstring -> Z.
Variable clock : nat -> Date.

Lemma componentFiles_calls (n : nat) (env : jsstring)
  (groups : list (jsstring * list Property)) :
  Forall2 (fun entry call =>
             exists m,
               call = Deployment.mkFileCall env
                        (Components.getComponentFileName (fst entry))
                        (generatePropertiesFileContent localeCompare (clock m)
                           (snd entry)))
          groups (Deployment.componentFiles localeCompare clock n env groups).
Proof.
  revert n. induction groups as [|[c ps] rest IH]; intros n; cbn; constructor.
  - now exists n.
  - apply IH.
Qed.

(** The calls made for the groups of one environment. *)
Lemma environment_calls (n : nat) (env : jsstring) (properties : list Property)
  (groups : JSObject.t (list Property)) :
  Deployment.groupPropertiesByComponent
    (filter (fun p => JS.eqb (environment p) env) properties) = inl groups ->
  exists components,
    NoDup components
    /\ (forall c, In c components
                  <-> exists p, In p properties /\ environment p = env
                                /\ component p = c)
    /\ Forall2 (fun c call =>
                  exists m,
                    call = Deployment.mkFileCall env
                             (Components.getComponentFileName c)
                             (generatePropertiesFileContent localeCompare (clock m)
                                (filter (fun p => JS.eqb (environment p) env
                                                  && JS.eqb (component p) c)
                                        properties)))
               components
               (Deployment.componentFiles localeCompare clock n env
                  (JSObject.entries groups)).
Proof.
  intros G. unfold Deployment.groupPropertiesByComponent in G.
  pose proof (groupBy_groups component
                (filter (fun p => JS.eqb (environment p) env) properties)) as H.
  rewrite G in H. destruct H as [E _].
  set (envProperties := filter (fun p => JS.eqb (environment p) env) properties)
    in *.
  assert (P : Permutation (JSObject.entries groups) groups) by apply entries_perm.
  exists (map fst (JSObject.entries groups)). split; [|split].
  - eapply Permutation_NoDup; [symmetry; apply Permutation_map; exact P|].
    rewrite E, map_map. cbn [fst]. rewrite map_id. apply unique_NoDup.
  - intros c. split.
    + intros Hc. apply (Permutation_in _ (Permutation_map fst P)) in Hc.
      rewrite E, map_map in Hc. cbn [fst] in Hc. rewrite map_id in Hc.
      rewrite unique_In in Hc. apply in_map_iff in Hc as [p [Ec Hp]].
      apply filter_In in Hp as [Hp He]. apply eqb_eq in He.
      exists p. now repeat split.
    + intros (p & Hp & He & Ec).
      apply (Permutation_in _ (Permutation_map fst (Permutation_sym P))).
      rewrite E, map_map. cbn [fst]. rewrite map_id.
      apply unique_In. apply in_map_iff. exists p. split; [exact Ec|].
      apply filter_In. split; [exact Hp|]. now apply eqb_eq.
  - assert (Hentries : Forall (fun entry =>
              snd entry = filter (fun p => JS.eqb (environment p) env
                                           && JS.eqb (component p) (fst entry))
                                 properties) (JSObject.entries groups)).
    { apply Forall_forall. intros entry Hin.
      apply (Permutation_in _ P) in Hin. rewrite E in Hin.
      apply in_map_iff in Hin as [k [<- _]]. cbn [fst snd].
      unfold envProperties. apply filter_twice. }
    pose proof (componentFiles_calls n env (JSObject.entries groups)) as F.
    revert Hentries F.
    generalize (Deployment.componentFiles localeCompare clock n env
                  (JSObject.entries groups)) as calls.
    generalize (JSObject.entries groups) as entries.
    induction entries as [|entry entries IH]; intros calls Hentries F;
      inversion F as [|? ? ? ? [m Hm] Fr]; subst; cbn [map]; constructor.
    + exists m. inversion Hentries as [|? ? He _]; subst. now rewrite <- He.
    + apply IH; [|exact Fr]. now inversion Hentries.
Qed.

Lemma environmentFiles_calls (n : nat) (properties : list Property)
  (envs : list jsstring) :
  NoDup envs ->
  match Deployment.environmentFiles localeCompare clock n
          (map (fun env => (env, filter (fun p => JS.eqb (environment p) env)
                                        properties)) envs) with
  | inl calls =>
      (forall p, In p properties -> In (environment p) envs ->
                 JSObject.inherited (component p) = false)
      /\ exists pairs,
           NoDup pairs
           /\ (forall env c,
                 In (env, c) pairs
                 <-> In env envs
                     /\ exists p, In p properties /\ environment p = env
                                  /\ component p = c)
           /\ Forall2 (fun pair call =>
                         exists m,
                           call = Deployment.mkFileCall (fst pair)
                                    (Components.getComponentFileName (snd pair))
                                    (generatePropertiesFileContent localeCompare
                                       (clock m)
                                       (filter (fun p =>
                                                  JS.eqb (environment p) (fst pair)
                                                  && JS.eqb (component p) (snd pair))
                                               properties)))
                      pairs calls
  | inr e =>
      e = TypeError
      /\ exists p, In p properties /\ JSObject.inherited (component p) = true
  end.
Proof.
  intros N. revert n. induction N as [|env envs Hnot N IH]; intros n.
  - cbn. split; [intros ? ? []|]. exists []. split; [constructor|].
    split; [|constructor]. intros env c. split; [intros []|intros [[] _]].
  - cbn [map Deployment.environmentFiles].
    pose proof (groupBy_groups component
                  (filter (fun p => JS.eqb (environment p) env) properties)) as G.
    fold (Deployment.groupPropertiesByComponent
            (filter (fun p => JS.eqb (environment p) env) properties)) in G.
    destruct (Deployment.groupPropertiesByComponent _) as [groups|e] eqn:Eg.
    2:{ destruct G as [-> X]. split; [reflexivity|].
        apply existsb_exists in X as [p [Hp Hi]].
        apply filter_In in Hp as [Hp _]. now exists p. }
    destruct G as [_ Hclean].
    destruct (environment_calls n env properties groups Eg)
      as (components & Nc & Ic & Fc).
    specialize (IH (n + length (Deployment.componentFiles localeCompare clock n env
                                  (JSObject.entries groups)))).
    destruct (Deployment.environmentFiles _ _ _ _) as [more|e].
    2:{ exact IH. }
    destruct IH as (Hrest & pairs & Np & Ip & Fp). split.
    + intros p Hp [Heq|Hin]; [subst env|now apply Hrest].
      destruct (JSObject.inherited (component p)) eqn:Hi; [|reflexivity].
      rewrite <- Hclean. symmetry. apply existsb_exists. exists p.
      split; [|exact Hi]. apply filter_In. split; [exact Hp|apply eqb_refl].
    + exists (map (fun c => (env, c)) components ++ pairs). split; [|split].
      * apply NoDup_app.
        -- now apply paired_NoDup.
        -- exact Np.
        -- intros [env' c] Hin Hin'. apply in_map_iff in Hin as [c' [Heq _]].
           injection Heq as <- <-. apply Ip in Hin' as [Henv _]. contradiction.
      * intros env' c. rewrite in_app_iff, Ip, in_map_iff. split.
        -- intros [[c' [Heq Hc]]|[Henv Hp]].
           ++ injection Heq as <- <-. split; [now left|]. now apply Ic.
           ++ split; [now right|exact Hp].
        -- intros [[<-|Henv] Hp].
           ++ left. exists c. split; [reflexivity|].
              destruct Hp as (p & Hp & He & Hc). apply Ic. now exists p.
           ++ right. now split.
      * apply Forall2_app; [|exact Fp].
        clear - Fc. revert Fc.
        generalize (Deployment.componentFiles localeCompare clock n env
                      (JSObject.entries groups)) as calls.
        induction components as [|c components IH]; intros calls Fc;
          inversion Fc as [|? ? ? ? Hc Fr]; subst; cbn [map]; constructor.
        -- exact Hc.
        -- now apply IH.
Qed.

End ArchiveProofs.

(** X27. The files of a deployment archive. [createDeploymentZip] makes
    one file for every pair of an environment and a component that some
    property has, in the folder of the environment, under the file name
    of the component, generated from exactly the properties of that pair
    in their order in the list. It throws a [TypeError], and makes no
    archive, exactly when an environment or a component is named like a
    member every object inherits. *)
Theorem deployment_files (localeCompare : jsstring -> jsstring -> Z)
  (clock : nat -> Date) (properties : list Property) :
  match Deployment.createDeploymentZip localeCompare clock properties with
  | inl calls =>
      existsb (fun p => JSObject.inherited (environment p)
                        || JSObject.inherited (component p)) properties = false
      /\ exists pairs,
           NoDup pairs
           /\ (forall env c,
                 In (env, c) pairs
                 <-> exists p, In p properties /\ environment p = env
                               /\ component p = c)
           /\ Forall2 (fun pair call =>
                         exists m,
                           call = Deployment.mkFileCall (fst pair)
                                    (Components.getComponentFileName (snd pair))
                                    (generatePropertiesFileContent localeCompare
                                       (clock m)
                                       (filter (fun p =>
                                                  JS.eqb (environment p) (fst pair)
                                                  && JS.eqb (component p) (snd pair))
                                               properties)))
                      pairs calls
  | inr e =>
      e = TypeError
      /\ existsb (fun p => JSObject.inherited (environment p)
                           || JSObject.inherited (component p)) properties = true
  end.
Proof.
  unfold Deployment.createDeploymentZip.
  pose proof (groupBy_groups environment properties) as G.
  fold (Deployment.groupPropertiesByEnvironment properties) in G.
  destruct (Deployment.groupPropertiesByEnvironment properties)
    as [groups|e] eqn:Eg.
  2:{ destruct G as [-> X]. split; [reflexivity|].
      apply existsb_exists in X as [p [Hp Hi]].
      apply existsb_exists. exists p. split; [exact Hp|]. now rewrite Hi. }
  destruct G as [E Hclean].
  assert (P : Permutation (JSObject.entries groups) groups) by apply entries_perm.
  set (envs := map fst (JSObject.entries groups)).
  assert (Nenvs : NoDup envs).
  { eapply Permutation_NoDup; [symmetry; apply Permutation_map; exact P|].
    rewrite E, map_map. cbn [fst]. rewrite map_id. apply unique_NoDup. }
  assert (Ienvs : forall env, In env envs <-> In env (map environment properties)).
  { intros env. unfold envs. split; intros H.
    - apply (Permutation_in _ (Permutation_map fst P)) in H.
      rewrite E, map_map in H. cbn [fst] in H. rewrite map_id in H.
      now rewrite unique_In in H.
    - apply (Permutation_in _ (Permutation_map fst (Permutation_sym P))).
      rewrite E, map_map. cbn [fst]. rewrite map_id. now rewrite unique_In. }
  assert (Eentries : JSObject.entries groups
                     = map (fun env => (env, filter (fun p => JS.eqb (environment p) env)
                                                    properties)) envs).
  { unfold envs. rewrite map_map.
    rewrite <- (map_id (JSObject.entries groups)) at 1.
    apply map_ext_in. intros entry Hin.
    apply (Permutation_in _ P) in Hin. rewrite E in Hin.
    apply in_map_iff in Hin as [k [<- _]]. reflexivity. }
  rewrite Eentries.
  pose proof (environmentFiles_calls localeCompare clock 0 properties envs Nenvs)
    as H.
  destruct (Deployment.environmentFiles _ _ _ _) as [calls|e].
  - destruct H as (Hcomp & pairs & Np & Ip & Fp). split.
    + apply not_true_is_false. intros X.
      apply existsb_exists in X as [p [Hp Hi]].
      apply orb_true_iff in Hi as [Hi|Hi].
      * assert (Y : existsb (fun q => JSObject.inherited (environment q)) properties
                    = true) by (apply existsb_exists; now exists p).
        congruence.
      * rewrite Hcomp in Hi; [discriminate|exact Hp|].
        apply Ienvs. now apply in_map.
    + exists pairs. split; [exact Np|]. split; [|exact Fp].
      intros env c. rewrite Ip. split.
      * now intros [_ Hp].
      * intros (p & Hp & He & Hc). split; [|now exists p].
        apply Ienvs. subst env. now apply in_map.
  - destruct H as [-> (p & Hp & Hi)]. split; [reflexivity|].
    apply existsb_exists. exists p. split; [exact Hp|].
    rewrite Hi. apply orb_true_r.
Qed.
